(* ===== verification/_CoqProject ===== *)
-Q . S2P
Prelude.v
Memory.v
Port.v
Registers.v
BranchPredictor.v
Cache.v
CacheSpec.v
CacheWrite.v
CacheMemory.v
CacheFrame.v
TLB.v
TLBSpec.v
PortFrame.v
Instruction.v
ISA.v
Execute.v
ISARefinement.v
Divergence.v
ExecuteFrame.v
Pipeline.v
DecodeSpec.v
ExecuteSpec.v
MemoryStageSpec.v
Simulator.v
Squash.v
FetchSpec.v
SimulatorSpec.v
LoadPath.v
CString.v
CStringSpec.v
Commands.v
CommandsSpec.v
SessionSpec.v
Regression.v
Witnesses.v
