(* ===== verification/Prelude.v ===== *)
(** * A verification of the RISC-V pipeline simulator

    The program ([src/src]) simulates a RISC-V processor with a five-stage
    pipeline, branch prediction, an instruction and a data cache, and virtual
    memory with two TLBs, cycle by cycle, under a small command interpreter.
    This library models all of it as executable functions and proves what
    each part does.

    ** The program and its model

    - [riscv_sim_framework.c], memory: [Memory].  [memsys] is the record of
      the static variables; [memory_read], [memory_write], [memory_status],
      [memory_load], [memory_dump], ... are the C functions.  [Port] states,
      as the type class [MemoryPort] with its laws, what the TLB and the
      caches rely on, and shows that [memsys] is an instance.
    - [riscv_sim_framework.c], registers: [Registers].
    - [branch_predictor.c]: [BranchPredictor].
    - [cache.c], [cache.h] (write-back, two ways for data): [Cache]; the
      memory seen through a cache and reads, [CacheSpec]; stores,
      [CacheWrite]; misses against the framework's memory, [CacheMemory];
      the invariant for every call, [CacheFrame].
    - [TLB.c], [TLB.h]: [TLB]; the two-level translation it implements,
      [TLBSpec].  [PortFrame] says which parts of memory the calls of the
      TLB and the caches leave alone.
    - [riscv.h], [riscv_pipeline_registers.h]: [Instruction].
    - [riscv_virtualizer.c], instruction handlers and dispatch tables:
      [Execute].  [ISA] is an independent definition of the RV64IM subset;
      [ISARefinement] compares the two where they agree, [Divergence] where
      they do not; [ExecuteFrame] bounds the handlers.
    - [riscv_virtualizer.c], stages: [Pipeline] ([sim] is the state of the
      whole program, one function per stage); [FetchSpec], [DecodeSpec],
      [ExecuteSpec], [MemoryStageSpec].
    - [riscv_sim_framework.c], the loop: [Simulator], [SimulatorSpec].
      [Squash] follows a misprediction over two cycles; [LoadPath] follows a load from a cold TLB and a cold cache to its result.
    - [riscv_sim_framework.c], commands and [main]: [CString] (the C library
      on text) with [CStringSpec], [Commands], [CommandsSpec], [SessionSpec].
    - [tests/]: [Regression] replays the recorded runs, with the programs,
      scripts and page tables of the test suite as text; it validates the
      model and is not a theorem about other inputs.
    - [Witnesses] applies the properties at concrete states.

    The components interact as in the code: [main] runs commands; [run]
    repeats a cycle; a cycle calls the stages from write-back to fetch; fetch
    and memory go through a TLB, then a cache, then memory, with at most one
    memory access per stage; a stage register carries work from one cycle to
    the next, and stalls and mispredictions flow back through them.

    ** How C is modelled

    Integers are in [Z] with the conversions written out ([u64], [i32],
    [wrap], [swrap]).  A call gives [Ok], [Exit] for [exit (c)], or [Undef]
    where the source does not determine the behaviour: shifts by the width or
    more, signed overflow in arithmetic, division by zero, accesses outside
    an object, indeterminate values.  Left shifts of signed values and
    conversions out of range are those of the compiler's documentation (two's
    complement).  Objects that are accessed by bytes are lists of bytes,
    little-endian.  Variables that are read before they are set are arguments.

    ** What the theorems show

    - Instructions: in the domain [conforms] the execute stage implements the
      instruction set; words outside it are reported.  What [conforms] leaves
      out is shown to differ: branches, [AUIPC], [SRAI], some arithmetic.
    - Pipeline: fetch delivers the word at the program counter; decode issues
      with the latest register values or stalls; a misprediction squashes
      what is in the decode stage; a stalled access is replayed; a load sees the store before
      it, and from a cold TLB and cache completes through the walk, the stalls
      and the replays.  Where an instruction is repeated or a jump cancelled
      by a stall, the theorems say when.
    - Memory hierarchy: from a coherent cache aligned reads that hit or
      replace a clean row are transparent, stores to the first way update the
      memory that the client sees, a TLB miss with ready memory computes the
      translation, and no call hands out another address; where the code
      departs from this (second way, clean and dirty rows, unaligned misses)
      the theorems say what it does.
    - Memory: round trip at latency 0, latency protocol, one access per stage.
    - Whole program: every command and every run that ends keeps the
      invariant of all variables; breakpoints; the text of a dump is read
      back by a load; the loader puts the lines of a text in memory up to the
      first wrong one, which it reports.

    ** Bounds and fuel

    The loop of the simulator recurses on the number of steps, as the C loop
    counts them.  Loops over text have the length of the text as fuel, and
    every iteration takes at least one character; [tokens_eq],
    [load_hex_spec] and [session_keeps_invariant] show that it is
    enough.  Printing a 64-bit number takes at most 64 digits.

    ** Not modelled

    [mem.c] (wrappers of [malloc] that exit when it fails; allocation is
    assumed to succeed), the build without a pipeline (it calls a function
    that is not in the repository), the branches that [cache.h] does not
    select, the GNU readline variant of the prompt, [unit_tests.c] (empty),
    and the wording of the messages on standard error. *)
From Stdlib Require Export ZArith Lia.
From stdpp Require Export base list gmap numbers.
#[global] Open Scope Z_scope.

(** ** Outcomes of C code

    [Ok a]: the call returns [a].  [Exit c]: the process ends with
    [exit(c)].  [Undef]: the C program's behaviour is not determined by the
    source (a shift by at least the width, a signed overflow, a division by
    zero, an access outside an object, a use of an indeterminate value). *)
Inductive outcome (A : Type) : Type :=
  | Ok (a : A)
  | Exit (code : Z)
  | Undef.
Arguments Ok {A} a.
Arguments Exit {A} code.
Arguments Undef {A}.

(** Sequencing.  The first argument is elaborated first, so that patterns
    in [x ← e; k] know their types. *)
Definition obind {A B : Type} (o : outcome A) (k : A → outcome B) : outcome B :=
  match o with
  | Ok a => k a
  | Exit c => Exit c
  | Undef => Undef
  end.

Declare Scope sim_scope.
Notation "o ≫= k" := (obind o k) : sim_scope.
Notation "x ← y ; z" := (obind y (λ x : _, z)) : sim_scope.
Notation "' x ← y ; z" := (obind y (λ x : _, z)) : sim_scope.
#[global] Open Scope sim_scope.

Lemma bind_Ok {A B} (o : outcome A) (k : A → outcome B) b :
  o ≫= k = Ok b ↔ ∃ a, o = Ok a ∧ k a = Ok b.
Proof.
  split.
  - destruct o; simpl; [eauto | discriminate | discriminate].
  - intros (a & -> & ?). done.
Qed.

Lemma bind_assoc {A B C} (o : outcome A) (f : A → outcome B) (g : B → outcome C) :
  (x ← o; f x) ≫= g = (x ← o; f x ≫= g).
Proof. destruct o; done. Qed.

(** [sat P o]: if [o] returns, its value satisfies [P]. *)
Definition sat {A} (P : A → Prop) (o : outcome A) : Prop :=
  match o with Ok a => P a | _ => True end.

(** [returns P o]: [o] does return, with a value that satisfies [P]. *)
Definition returns {A} (P : A → Prop) (o : outcome A) : Prop :=
  ∃ a, o = Ok a ∧ P a.

(** [ends P Q o]: [o] returns with [P] or exits with [Q]; nothing in it is
    undefined. *)
Definition ends {A} (P : A → Prop) (Q : Z → Prop) (o : outcome A) : Prop :=
  match o with Ok a => P a | Exit c => Q c | Undef => False end.

Lemma sat_ret {A} (P : A → Prop) a : P a → sat P (Ok a).
Proof. done. Qed.

Lemma sat_bind {A B} (P : A → Prop) (Q : B → Prop) (o : outcome A) k :
  sat P o → (∀ a, P a → sat Q (k a)) → sat Q (o ≫= k).
Proof. destruct o; simpl; auto. Qed.

Lemma sat_mono {A} (P Q : A → Prop) (o : outcome A) :
  (∀ a, P a → Q a) → sat P o → sat Q o.
Proof. destruct o; simpl; auto. Qed.

Lemma sat_Ok {A} (P : A → Prop) (o : outcome A) a : sat P o → o = Ok a → P a.
Proof. intros H ->. exact H. Qed.

Lemma sat_spec {A} (P : A → Prop) (o : outcome A) :
  (∀ a, o = Ok a → P a) → sat P o.
Proof. destruct o; simpl; auto. Qed.

Lemma sat_true {A} (o : outcome A) : sat (λ _, True) o.
Proof. by destruct o. Qed.

Lemma returns_sat {A} (P : A → Prop) (o : outcome A) : returns P o → sat P o.
Proof. intros (a & -> & ?). done. Qed.

Lemma ends_sat {A} (P : A → Prop) Q (o : outcome A) : ends P Q o → sat P o.
Proof. by destruct o. Qed.

Lemma returns_bind {A B} (P : A → Prop) (Q : B → Prop) (o : outcome A) k :
  returns P o → (∀ a, P a → returns Q (k a)) → returns Q (o ≫= k).
Proof. intros (a & -> & Ha) Hk. simpl. auto. Qed.

(** ** Machine integers

    A value of type [uintw_t] is a [Z] in [0, 2^w); one of type [intw_t] is
    a [Z] in [-2^(w-1), 2^(w-1)).  [wrap w] and [swrap w] are the
    conversions to those types. *)
Definition wrap (w x : Z) : Z := x mod 2 ^ w.
Definition swrap (w x : Z) : Z := (x + 2 ^ (w - 1)) mod 2 ^ w - 2 ^ (w - 1).

#[global] Arguments wrap : simpl never.
#[global] Arguments swrap : simpl never.

Definition urange (w x : Z) : Prop := 0 ≤ x < 2 ^ w.
Definition srange (w x : Z) : Prop := - 2 ^ (w - 1) ≤ x < 2 ^ (w - 1).

#[export] Instance urange_dec w x : Decision (urange w x).
Proof. unfold urange. apply _. Defined.
#[export] Instance srange_dec w x : Decision (srange w x).
Proof. unfold srange. apply _. Defined.

Abbreviation u8 := (wrap 8).
Abbreviation u16 := (wrap 16).
Abbreviation u32 := (wrap 32).
Abbreviation u64 := (wrap 64).
Abbreviation i16 := (swrap 16).
Abbreviation i32 := (swrap 32).
Abbreviation i64 := (swrap 64).

(** The result of a signed operation of width [w]; overflow is undefined. *)
Definition signed (w x : Z) : outcome Z :=
  if decide (srange w x) then Ok x else Undef.

(** Shifts of a [w]-bit operand; a count outside [0, w) is undefined.  [shl]
    is the left shift of an unsigned operand, [shr] the right shift: logical
    for a non-negative operand, arithmetic for a negative one. *)
Definition shift_ok (w n : Z) : bool := (0 <=? n) && (n <? w).
Definition shl (w x n : Z) : outcome Z :=
  if shift_ok w n then Ok (wrap w (Z.shiftl x n)) else Undef.
Definition shr (w x n : Z) : outcome Z :=
  if shift_ok w n then Ok (Z.shiftr x n) else Undef.

(** Truncating division and remainder at signed width [w]. *)
Definition sdiv (w x y : Z) : outcome Z :=
  if y =? 0 then Undef else signed w (Z.quot x y).
Definition srem (w x y : Z) : outcome Z :=
  if y =? 0 then Undef
  else if decide (srange w (Z.quot x y)) then Ok (Z.rem x y) else Undef.
Definition udiv (x y : Z) : outcome Z := if y =? 0 then Undef else Ok (x / y).
Definition umod (x y : Z) : outcome Z := if y =? 0 then Undef else Ok (x mod y).

(** The bit-field of [n] bits that starts at bit [lo]. *)
Definition bits (x lo n : Z) : Z := Z.land (Z.shiftr x lo) (Z.ones n).

Definition nonzero (x : Z) : bool := negb (x =? 0).

(** ** Little-endian bytes

    Objects that the C code accesses byte by byte (memory, cache lines,
    scalars reached through a [void *]) are lists of bytes, least
    significant byte first. *)
Fixpoint bytes_to_Z (bs : list Z) : Z :=
  match bs with
  | [] => 0
  | b :: bs => b + 256 * bytes_to_Z bs
  end.

Fixpoint Z_to_bytes (n : nat) (x : Z) : list Z :=
  match n with
  | O => []
  | S n => x mod 256 :: Z_to_bytes n (x / 256)
  end.

Abbreviation is_byte := (urange 8).
Abbreviation bytes_ok bs := (Forall is_byte bs).

(** [patch buf bs] overwrites the first bytes of the object [buf] by [bs];
    writing past its end is undefined. *)
Definition patch (buf bs : list Z) : outcome (list Z) :=
  if decide (length bs ≤ length buf)%nat then Ok (bs ++ drop (length bs) buf)
  else Undef.

(** [patch_at buf off bs] is [memcpy(buf + off, bs, |bs|)]. *)
Definition patch_at (buf : list Z) (off : nat) (bs : list Z) : outcome (list Z) :=
  if decide (off + length bs ≤ length buf)%nat
  then Ok (take off buf ++ bs ++ drop (off + length bs) buf)
  else Undef.

(** A 64-bit scalar whose low bytes are overwritten through a pointer. *)
Definition patch_u64 (x : Z) (bs : list Z) : outcome Z :=
  buf ← patch (Z_to_bytes 8 x) bs; Ok (bytes_to_Z buf).

(** ** Arithmetic lemmas *)

Lemma pow2_pos w : 0 ≤ w → 0 < 2 ^ w.
Proof. intros. apply Z.pow_pos_nonneg; lia. Qed.

Lemma wrap_range w x : 0 ≤ w → urange w (wrap w x).
Proof. intros. apply Z.mod_pos_bound, pow2_pos; done. Qed.

Lemma wrap_small w x : urange w x → wrap w x = x.
Proof. intros. apply Z.mod_small. done. Qed.

Lemma wrap_wrap w v x : 0 ≤ w ≤ v → wrap w (wrap v x) = wrap w x.
Proof.
  intros. unfold wrap. apply Z.mod_mod_divide.
  exists (2 ^ (v - w)). rewrite <-Z.pow_add_r by lia. f_equal. lia.
Qed.

Lemma wrap_wrap_wide w v x : 0 ≤ v ≤ w → wrap w (wrap v x) = wrap v x.
Proof.
  intros. apply wrap_small. pose proof (wrap_range v x ltac:(lia)) as [? ?].
  pose proof (Z.pow_le_mono_r 2 v w ltac:(lia) ltac:(lia)).
  split; [done|]. lia.
Qed.

Lemma swrap_range w x : 0 < w → srange w (swrap w x).
Proof.
  intros. unfold srange, swrap.
  pose proof (Z.mod_pos_bound (x + 2 ^ (w - 1)) (2 ^ w) (pow2_pos w ltac:(lia))).
  assert (2 ^ w = 2 * 2 ^ (w - 1)).
  { replace w with (Z.succ (w - 1)) at 1 by lia. rewrite Z.pow_succ_r; lia. }
  lia.
Qed.

Lemma swrap_small w x : 0 < w → srange w x → swrap w x = x.
Proof.
  unfold srange, swrap. intros.
  assert (2 ^ w = 2 * 2 ^ (w - 1)).
  { replace w with (Z.succ (w - 1)) at 1 by lia. rewrite Z.pow_succ_r; lia. }
  rewrite Z.mod_small; lia.
Qed.

Lemma wrap_swrap w v x : 0 < w ≤ v → wrap w (swrap v x) = wrap w x.
Proof.
  intros. unfold swrap.
  assert (wrap w (2 ^ v) = 0) as Hv.
  { unfold wrap. replace v with ((v - w) + w) by lia.
    rewrite Z.pow_add_r by lia. apply Z_mod_mult. }
  rewrite Z.mod_eq by (pose proof (pow2_pos v); lia).
  replace (_ - _) with (x - 2 ^ v * ((x + 2 ^ (v - 1)) / 2 ^ v)) by lia.
  unfold wrap in *. rewrite Zminus_mod, Zmult_mod, Hv.
  rewrite Z.mul_0_l, Zmod_0_l, Z.sub_0_r. apply Zmod_mod.
Qed.

Lemma swrap_wrap w v x : 0 < w ≤ v → swrap w (wrap v x) = swrap w x.
Proof.
  intros. unfold swrap. f_equal.
  rewrite <-(Zplus_mod_idemp_l (wrap v x)), <-(Zplus_mod_idemp_l x).
  f_equal. f_equal. apply (wrap_wrap w v x). lia.
Qed.

(** The signed reading of an unsigned value. *)
Lemma swrap_urange w x : 0 < w → urange w x →
  swrap w x = if x <? 2 ^ (w - 1) then x else x - 2 ^ w.
Proof.
  intros Hw [? ?]. unfold swrap.
  assert (2 ^ w = 2 * 2 ^ (w - 1)).
  { replace w with (Z.succ (w - 1)) at 1 by lia. rewrite Z.pow_succ_r; lia. }
  destruct (Z.ltb_spec x (2 ^ (w - 1))).
  - rewrite Z.mod_small; lia.
  - rewrite <-(Z_mod_plus_full _ (-1)). rewrite Z.mod_small; lia.
Qed.

Lemma shift_ok_spec w n : shift_ok w n = true ↔ 0 ≤ n < w.
Proof. unfold shift_ok. rewrite andb_true_iff, Z.leb_le, Z.ltb_lt. done. Qed.

Lemma bits_alt x lo n : 0 ≤ lo → 0 ≤ n → bits x lo n = (x / 2 ^ lo) mod 2 ^ n.
Proof.
  intros. unfold bits. rewrite Z.land_ones, Z.shiftr_div_pow2 by done. done.
Qed.

Lemma bits_range x lo n : 0 ≤ n → urange n (bits x lo n).
Proof.
  intros. unfold bits. rewrite Z.land_ones by done.
  apply Z.mod_pos_bound, pow2_pos. done.
Qed.

Lemma land_lor_absorb a b : Z.land (Z.lor a b) b = b.
Proof.
  apply Z.bits_inj'. intros i _. rewrite Z.land_spec, Z.lor_spec.
  destruct (Z.testbit a i), (Z.testbit b i); done.
Qed.

(** Joining a low and a shifted high part is an addition. *)
Lemma lor_shiftl lo hi k : 0 ≤ k → urange k lo →
  Z.lor lo (Z.shiftl hi k) = lo + hi * 2 ^ k.
Proof.
  intros Hk Hlo. rewrite <-Z.shiftl_mul_pow2 by done. symmetry. apply Z.add_nocarry_lor.
  apply Z.bits_inj'. intros i Hi. rewrite Z.land_spec, Z.shiftl_spec, Z.bits_0 by done.
  destruct (Z.lt_ge_cases i k).
  - rewrite (Z.testbit_neg_r hi) by lia. apply andb_false_r.
  - rewrite <-(Z.mod_small lo (2 ^ k)) by done. rewrite Z.mod_pow2_bits_high by lia. done.
Qed.

Lemma lor_1_odd x : Z.lor x 1 = x ↔ x mod 2 = 1.
Proof.
  rewrite <-Z.bit0_mod. split.
  - intros Hx. rewrite <-Hx, Z.lor_spec, orb_true_r. done.
  - intros Hx. apply Z.bits_inj'. intros i Hi. rewrite Z.lor_spec.
    destruct (Z.eq_dec i 0) as [->|Hne].
    + destruct (Z.testbit x 0); [done|]. simpl in Hx. lia.
    + change 1 with (2 ^ 0). rewrite Z.pow2_bits_false by lia. apply orb_false_r.
Qed.

(** The bitwise operations stay within a width. *)
Lemma wrap_bits w x : 0 ≤ w → (∀ i, w ≤ i → Z.testbit x i = false) → urange w x.
Proof.
  intros Hw Hx. replace x with (wrap w x); [by apply wrap_range|].
  apply Z.bits_inj'. intros i Hi. unfold wrap. destruct (Z.lt_ge_cases i w).
  - by rewrite Z.mod_pow2_bits_low by lia.
  - rewrite Z.mod_pow2_bits_high by lia. symmetry. auto.
Qed.

Lemma urange_bits w x i : urange w x → 0 ≤ w ≤ i → Z.testbit x i = false.
Proof. intros Hx ?. rewrite <-(wrap_small w x) by done. by apply Z.mod_pow2_bits_high. Qed.

Lemma lor_range w x y : 0 ≤ w → urange w x → urange w y → urange w (Z.lor x y).
Proof.
  intros. apply wrap_bits; [done|]. intros i Hi.
  by rewrite Z.lor_spec, (urange_bits w x), (urange_bits w y) by (done || lia).
Qed.

Lemma land_range w x y : 0 ≤ w → urange w x → urange w (Z.land x y).
Proof.
  intros. apply wrap_bits; [done|]. intros i Hi.
  by rewrite Z.land_spec, (urange_bits w x) by (done || lia).
Qed.

Lemma lxor_range w x y : 0 ≤ w → urange w x → urange w y → urange w (Z.lxor x y).
Proof.
  intros. apply wrap_bits; [done|]. intros i Hi.
  by rewrite Z.lxor_spec, (urange_bits w x), (urange_bits w y) by (done || lia).
Qed.

(** A field cut out by a left and a right shift in [w] bits. *)
Lemma shift_field w a k j : 0 ≤ k ≤ j → j ≤ w →
  Z.shiftr (wrap w (Z.shiftl a k)) j = (a mod 2 ^ (w - k)) / 2 ^ (j - k).
Proof.
  intros. unfold wrap. rewrite Z.shiftl_mul_pow2, Z.shiftr_div_pow2 by lia.
  replace (2 ^ w) with (2 ^ (w - k) * 2 ^ k) by (rewrite <-Z.pow_add_r by lia; f_equal; lia).
  pose proof (pow2_pos k ltac:(lia)). pose proof (pow2_pos (w - k) ltac:(lia)).
  rewrite Zmult_mod_distr_r.
  replace (2 ^ j) with (2 ^ (j - k) * 2 ^ k) by (rewrite <-Z.pow_add_r by lia; f_equal; lia).
  pose proof (pow2_pos (j - k) ltac:(lia)).
  apply Z.div_mul_cancel_r; lia.
Qed.

Lemma mod_div_pow2 a p q : 0 ≤ p → 0 ≤ q →
  (a mod 2 ^ (p + q)) / 2 ^ p = (a / 2 ^ p) mod 2 ^ q.
Proof.
  intros. rewrite Z.pow_add_r by done. pose proof (pow2_pos p). pose proof (pow2_pos q).
  rewrite Z.rem_mul_r, (Z.mul_comm (2 ^ p)), Z.div_add by lia.
  rewrite (Z.div_small (a mod _)) by (apply Z.mod_pos_bound; lia). lia.
Qed.

Lemma nonzero_true x : nonzero x = true ↔ x ≠ 0.
Proof. unfold nonzero. rewrite negb_true_iff, Z.eqb_neq. done. Qed.

Lemma nonzero_false x : nonzero x = false ↔ x = 0.
Proof. unfold nonzero. rewrite negb_false_iff, Z.eqb_eq. done. Qed.

(** ** Byte lists *)

Lemma length_Z_to_bytes n x : length (Z_to_bytes n x) = n.
Proof. revert x. induction n; intros; simpl; auto. Qed.

Lemma Z_to_bytes_ok n x : bytes_ok (Z_to_bytes n x).
Proof.
  revert x. induction n as [|n IH]; intros x; simpl; constructor; [|done].
  split; [|change (2 ^ 8) with 256]; apply Z.mod_pos_bound; lia.
Qed.

Lemma bytes_to_Z_range bs : bytes_ok bs →
  urange (8 * Z.of_nat (length bs)) (bytes_to_Z bs).
Proof.
  unfold urange. induction 1 as [|b bs [? Hb] _ IH]; cbn [bytes_to_Z length]; [done|].
  change (2 ^ 8) with 256 in Hb.
  rewrite Nat2Z.inj_succ. replace (8 * Z.succ _) with (8 + 8 * Z.of_nat (length bs)) by lia.
  rewrite Z.pow_add_r by lia. change (2 ^ 8) with 256. lia.
Qed.

Lemma bytes_to_Z_to_bytes n x : bytes_to_Z (Z_to_bytes n x) = x mod 2 ^ (8 * Z.of_nat n).
Proof.
  revert x. induction n as [|n IH]; intros x; cbn [bytes_to_Z Z_to_bytes].
  { rewrite Z.mod_1_r. done. }
  rewrite IH, Nat2Z.inj_succ.
  replace (8 * Z.succ _) with (8 + 8 * Z.of_nat n) by lia.
  rewrite Z.pow_add_r by lia. change (2 ^ 8) with 256.
  rewrite Z.rem_mul_r by (pose proof (pow2_pos (8 * Z.of_nat n)); lia). lia.
Qed.

Lemma Z_to_bytes_to_Z bs : bytes_ok bs → Z_to_bytes (length bs) (bytes_to_Z bs) = bs.
Proof.
  induction 1 as [|b bs [? Hb] _ IH]; cbn [Z_to_bytes length bytes_to_Z]; [done|].
  change (2 ^ 8) with 256 in Hb.
  rewrite (Z.mul_comm 256), Z_mod_plus_full, Z.mod_small by lia.
  rewrite Z.div_add by lia. rewrite (Z.div_small b) by lia.
  rewrite Z.add_0_l, IH. done.
Qed.

Lemma bytes_to_Z_app bs1 bs2 :
  bytes_to_Z (bs1 ++ bs2)
  = bytes_to_Z bs1 + 2 ^ (8 * Z.of_nat (length bs1)) * bytes_to_Z bs2.
Proof.
  induction bs1 as [|b bs1 IH]; cbn [bytes_to_Z length app]; [lia|].
  rewrite IH, Nat2Z.inj_succ.
  replace (8 * Z.succ _) with (8 + 8 * Z.of_nat (length bs1)) by lia.
  rewrite Z.pow_add_r by lia. change (2 ^ 8) with 256. lia.
Qed.

Lemma Z_to_bytes_mod n x : Z_to_bytes n (x mod 2 ^ (8 * Z.of_nat n)) = Z_to_bytes n x.
Proof.
  rewrite <-bytes_to_Z_to_bytes.
  rewrite <-(length_Z_to_bytes n x) at 1. apply Z_to_bytes_to_Z, Z_to_bytes_ok.
Qed.

(** Reading back a prefix of a list of bytes through an integer. *)
Lemma Z_to_bytes_take n bs : bytes_ok bs → (n ≤ length bs)%nat →
  Z_to_bytes n (bytes_to_Z bs) = take n bs.
Proof.
  revert bs. induction n as [|n IH]; intros bs Hbs Hn; [done|].
  destruct Hbs as [|b bs [? Hb] Hbs]; [simpl in Hn; lia|].
  change (2 ^ 8) with 256 in Hb. cbn [Z_to_bytes bytes_to_Z take].
  rewrite (Z.mul_comm 256), Z_mod_plus_full, Z.mod_small by lia.
  rewrite Z.div_add, (Z.div_small b) by lia.
  rewrite Z.add_0_l, IH by (done || simpl in Hn; lia). done.
Qed.

Lemma patch_Ok buf bs buf' : patch buf bs = Ok buf' →
  (length bs ≤ length buf)%nat ∧ buf' = bs ++ drop (length bs) buf.
Proof. unfold patch. case_decide; naive_solver. Qed.

Lemma patch_full buf bs : length bs = length buf → patch buf bs = Ok bs.
Proof.
  intros Hl. unfold patch. rewrite decide_True by lia.
  rewrite drop_ge by lia. rewrite app_nil_r. done.
Qed.

Lemma patch_inv buf bs : bytes_ok buf → bytes_ok bs →
  sat (λ buf', length buf' = length buf ∧ bytes_ok buf') (patch buf bs).
Proof.
  intros Hbuf Hbs. unfold patch. case_decide; simpl; [|done].
  split; [rewrite length_app, length_drop; lia|].
  apply Forall_app; auto using Forall_drop.
Qed.

Lemma patch_at_inv buf off bs : bytes_ok buf → bytes_ok bs →
  sat (λ buf', length buf' = length buf ∧ bytes_ok buf') (patch_at buf off bs).
Proof.
  intros Hbuf Hbs. unfold patch_at. case_decide; simpl; [|done].
  split; [rewrite !length_app, length_take, length_drop; lia|].
  rewrite !Forall_app; auto using Forall_drop, Forall_take.
Qed.

Lemma patch_u64_inv x bs : bytes_ok bs → sat (urange 64) (patch_u64 x bs).
Proof.
  intros. unfold patch_u64. eapply sat_bind.
  - apply patch_inv; [apply Z_to_bytes_ok|done].
  - intros buf [Hl Hok]. simpl. apply bytes_to_Z_range in Hok.
    rewrite Hl, length_Z_to_bytes in Hok. exact Hok.
Qed.

(** ** Views: the bytes of an address space as a function *)

Fixpoint get_bytes (v : Z → Z) (base : Z) (n : nat) : list Z :=
  match n with
  | O => []
  | S n => v base :: get_bytes v (base + 1) n
  end.

Definition set_bytes (v : Z → Z) (base : Z) (bs : list Z) : Z → Z := λ a,
  if decide (base ≤ a < base + Z.of_nat (length bs))
  then nth (Z.to_nat (a - base)) bs 0 else v a.

Lemma length_get_bytes v base n : length (get_bytes v base n) = n.
Proof. revert base. induction n; intros; simpl; auto. Qed.

Lemma get_bytes_lookup v base n i : (i < n)%nat →
  get_bytes v base n !! i = Some (v (base + Z.of_nat i)).
Proof.
  revert base i. induction n as [|n IH]; intros base i Hi; [lia|].
  destruct i as [|i]; simpl; [by rewrite Z.add_0_r|].
  rewrite IH by lia. do 2 f_equal. lia.
Qed.

Lemma get_bytes_ext v1 v2 base n :
  (∀ a, base ≤ a < base + Z.of_nat n → v1 a = v2 a) →
  get_bytes v1 base n = get_bytes v2 base n.
Proof.
  revert base. induction n as [|n IH]; intros base H; simpl; [done|].
  f_equal; [apply H; lia|]. apply IH. intros a ?. apply H. lia.
Qed.

(** A list of bytes that agrees with a view position by position. *)
Lemma get_bytes_eq v base bs :
  (∀ i b, bs !! i = Some b → v (base + Z.of_nat i) = b) →
  get_bytes v base (length bs) = bs.
Proof.
  revert base. induction bs as [|b bs IH]; intros base H; simpl; [done|]. f_equal.
  - rewrite <-(Z.add_0_r base). by apply (H 0%nat).
  - apply IH. intros i b' Hi. rewrite <-(H (S i) b' Hi). f_equal. lia.
Qed.

Lemma get_bytes_ok v base n : (∀ a, is_byte (v a)) → bytes_ok (get_bytes v base n).
Proof. intros H. revert base. induction n; intros base; simpl; constructor; auto. Qed.

Lemma get_bytes_app v base n k :
  get_bytes v base (n + k) = get_bytes v base n ++ get_bytes v (base + Z.of_nat n) k.
Proof.
  revert base. induction n as [|n IH]; intros base; simpl; [by rewrite Z.add_0_r|].
  rewrite IH. do 2 f_equal. f_equal. lia.
Qed.

Lemma nth_lookup_total (bs : list Z) i b : bs !! i = Some b → nth i bs 0 = b.
Proof. apply nth_lookup_Some. Qed.

Lemma get_set_bytes_eq v base bs : get_bytes (set_bytes v base bs) base (length bs) = bs.
Proof.
  apply get_bytes_eq. intros i b Hi. pose proof (lookup_lt_Some _ _ _ Hi).
  unfold set_bytes. rewrite decide_True by lia.
  apply nth_lookup_total. replace (Z.to_nat _) with i by lia. done.
Qed.

Lemma get_set_bytes_disjoint v base bs a n :
  a + Z.of_nat n ≤ base ∨ base + Z.of_nat (length bs) ≤ a →
  get_bytes (set_bytes v base bs) a n = get_bytes v a n.
Proof.
  intros H. apply get_bytes_ext. intros x ?. unfold set_bytes.
  rewrite decide_False; [done|]. lia.
Qed.

(** Two views are equivalent when they agree on every address. *)
Definition view_eq : relation (Z → Z) := pointwise_relation Z eq.
Infix "≐" := view_eq (at level 70) : sim_scope.

#[export] Instance view_eq_equivalence : Equivalence view_eq.
Proof. unfold view_eq. apply _. Qed.

#[export] Instance get_bytes_proper : Proper (view_eq ==> eq ==> eq ==> eq) get_bytes.
Proof. intros v1 v2 Hv b ? <- n ? <-. apply get_bytes_ext. intros. apply Hv. Qed.

#[export] Instance set_bytes_proper : Proper (view_eq ==> eq ==> eq ==> view_eq) set_bytes.
Proof.
  intros v1 v2 Hv b ? <- bs ? <- a. unfold set_bytes. case_decide; [done|]. apply Hv.
Qed.

(** ** Automation *)

(** The database of width facts, and the tactic that uses it: a side
    condition [0 ≤ w] on a literal is solved by [lia]. *)
Create HintDb width.
#[export] Hint Resolve wrap_range swrap_range bits_range Z_to_bytes_ok : width.
#[export] Hint Extern 1 (_ ≤ _) => lia : width.
#[export] Hint Extern 1 (_ < _) => lia : width.
#[export] Hint Extern 2 (urange _ _) => (unfold urange; lia) : width.
Ltac width := auto with width.

(** Opens a hypothesis that says that a sequence of calls returned. *)
Ltac inv_ok :=
  repeat match goal with
  | H : _ ≫= _ = Ok _ |- _ => apply bind_Ok in H as (? & ? & ?)
  | H : Ok _ = Ok _ |- _ => injection H as H; simplify_eq
  | H : Exit _ = Ok _ |- _ => discriminate H
  | H : Undef = Ok _ |- _ => discriminate H
  | x : _ * _ |- _ => destruct x
  end; simplify_eq/=.

(** One step of a proof of [sat] along the structure of the code. *)
Ltac sat_step :=
  match goal with
  | |- sat _ (Ok _) => simpl
  | |- sat _ Undef => exact I
  | |- sat _ (Exit _) => exact I
  | |- sat _ (if ?b then _ else _) => let E := fresh "E" in destruct b eqn:E
  end.
