(* ===== verification/Memory.v ===== *)
(** * The memory subsystem of [riscv_sim_framework.c] (lines 31-347)

    Byte memory, the table of pending accesses that models latency, and the
    three calls the pipeline uses: [memory_read], [memory_write] and
    [memory_status]. *)
From S2P Require Import Prelude.

Definition MEMORY_MAX_SIZE : Z := 32 * 1024 * 1024.
Definition MEMORY_PAGE_SIZE : Z := 4096.
Definition MEMORY_MAX_PENDING : nat := 4.
Definition MEMORY_MAX_READ_BYTES : Z := 16.

Definition STAGE_F_BIT : Z := Z.shiftl 1 0.
Definition STAGE_D_BIT : Z := Z.shiftl 1 1.
Definition STAGE_X_BIT : Z := Z.shiftl 1 2.
Definition STAGE_M_BIT : Z := Z.shiftl 1 3.
Definition STAGE_W_BIT : Z := Z.shiftl 1 4.

(** The constants [MEMORY_OP_NONE] .. [MEMORY_OP_COMPLETED]. *)
Inductive memory_op : Type :=
  | MEMORY_OP_NONE
  | MEMORY_OP_READ
  | MEMORY_OP_WRITE
  | MEMORY_OP_COMPLETED.

#[export] Instance memory_op_eq_dec : EqDecision memory_op.
Proof. solve_decision. Defined.

Record memory_pending_t : Type := mkPending {
  address : Z;
  n_bytes : Z;
  end_cycle : Z;
  op : memory_op;
}.

#[export] Instance memory_pending_eq_dec : EqDecision memory_pending_t.
Proof. solve_decision. Defined.

Definition set_op (o : memory_op) (p : memory_pending_t) : memory_pending_t :=
  mkPending (address p) (n_bytes p) (end_cycle p) o.

(** The static variables of the memory subsystem.  [riscv_mem] is the array
    [riscv_mem[0 .. riscv_mem_size)]: a byte that no store has touched has
    no entry and reads as the 0 that [memory_initialize] put there. *)
Record memsys : Type := mkMem {
  riscv_mem : gmap Z Z;
  riscv_mem_size : Z;
  memory_read_latency : Z;
  memory_write_latency : Z;
  cycle_counter : Z;
  read_counter : Z;
  read_bytes : Z;
  write_counter : Z;
  write_bytes : Z;
  memory_pending : list memory_pending_t;
  current_stage : Z;
  memory_accesses_issued : Z;
}.

Definition set_mem (x : gmap Z Z) (m : memsys) : memsys :=
  mkMem x (riscv_mem_size m) (memory_read_latency m) (memory_write_latency m)
    (cycle_counter m) (read_counter m) (read_bytes m) (write_counter m)
    (write_bytes m) (memory_pending m) (current_stage m) (memory_accesses_issued m).

Definition set_pending (x : list memory_pending_t) (m : memsys) : memsys :=
  mkMem (riscv_mem m) (riscv_mem_size m) (memory_read_latency m)
    (memory_write_latency m) (cycle_counter m) (read_counter m) (read_bytes m)
    (write_counter m) (write_bytes m) x (current_stage m) (memory_accesses_issued m).

Definition set_stage (x : Z) (m : memsys) : memsys :=
  mkMem (riscv_mem m) (riscv_mem_size m) (memory_read_latency m)
    (memory_write_latency m) (cycle_counter m) (read_counter m) (read_bytes m)
    (write_counter m) (write_bytes m) (memory_pending m) x (memory_accesses_issued m).

Definition set_issued (x : Z) (m : memsys) : memsys :=
  mkMem (riscv_mem m) (riscv_mem_size m) (memory_read_latency m)
    (memory_write_latency m) (cycle_counter m) (read_counter m) (read_bytes m)
    (write_counter m) (write_bytes m) (memory_pending m) (current_stage m) x.

Definition set_cycle (x : Z) (m : memsys) : memsys :=
  mkMem (riscv_mem m) (riscv_mem_size m) (memory_read_latency m)
    (memory_write_latency m) x (read_counter m) (read_bytes m)
    (write_counter m) (write_bytes m) (memory_pending m) (current_stage m)
    (memory_accesses_issued m).

(** [read_counter += 1; read_bytes += n] and the same for writes. *)
Definition count_read (n : Z) (m : memsys) : memsys :=
  mkMem (riscv_mem m) (riscv_mem_size m) (memory_read_latency m)
    (memory_write_latency m) (cycle_counter m) (u64 (read_counter m + 1))
    (u64 (read_bytes m + n)) (write_counter m) (write_bytes m)
    (memory_pending m) (current_stage m) (memory_accesses_issued m).

Definition count_write (n : Z) (m : memsys) : memsys :=
  mkMem (riscv_mem m) (riscv_mem_size m) (memory_read_latency m)
    (memory_write_latency m) (cycle_counter m) (read_counter m) (read_bytes m)
    (u64 (write_counter m + 1)) (u64 (write_bytes m + n))
    (memory_pending m) (current_stage m) (memory_accesses_issued m).

(** ** Bytes of memory *)

Definition byte_at (mem : gmap Z Z) (a : Z) : Z := default 0 (mem !! a).

Definition mem_get (mem : gmap Z Z) (base : Z) (n : nat) : list Z :=
  get_bytes (byte_at mem) base n.

Fixpoint mem_set (mem : gmap Z Z) (base : Z) (bs : list Z) : gmap Z Z :=
  match bs with
  | [] => mem
  | b :: bs => mem_set (<[base := b]> mem) (base + 1) bs
  end.

(** ** Operations *)

Definition no_pending : memory_pending_t := mkPending 0 0 0 MEMORY_OP_NONE.

Definition memory_initialize_pending (m : memsys) : memsys :=
  set_pending (replicate MEMORY_MAX_PENDING no_pending) m.

(** [malloc] is assumed to succeed; the other [exit (1)] is a bad size. *)
Definition memory_initialize (size_in_bytes : Z) (m : memsys) : outcome memsys :=
  if (MEMORY_MAX_SIZE <? size_in_bytes)
     || nonzero (size_in_bytes mod MEMORY_PAGE_SIZE)
  then Exit 1
  else Ok (mkMem ∅ size_in_bytes (memory_read_latency m) (memory_write_latency m)
             (cycle_counter m) (read_counter m) (read_bytes m) (write_counter m)
             (write_bytes m) (memory_pending m) (current_stage m)
             (memory_accesses_issued m)).

(** The bounds test of [memory_load] and [memory_dump] is done in 64 bits;
    when [base + size] wraps around, the [memcpy] leaves the array. *)
Definition memory_load (region : list Z) (base : Z) (m : memsys) : outcome (bool * memsys) :=
  let size := Z.of_nat (length region) in
  if riscv_mem_size m <? u64 (base + size) then Ok (false, m)
  else if riscv_mem_size m <? base + size then Undef
  else Ok (true, set_mem (mem_set (riscv_mem m) base region) m).

(** [None] is the result [false], with nothing written to the region. *)
Definition memory_dump (base size : Z) (m : memsys) : outcome (option (list Z)) :=
  if riscv_mem_size m <? u64 (base + size) then Ok None
  else if riscv_mem_size m <? base + size then Undef
  else Ok (Some (mem_get (riscv_mem m) base (Z.to_nat size))).

Definition memory_add_pending (addr size_in_bytes : Z) (o : memory_op) (m : memsys)
    : bool * memsys :=
  match list_find (λ p, op p = MEMORY_OP_NONE) (memory_pending m) with
  | Some (i, _) =>
      let latency := if decide (o = MEMORY_OP_WRITE) then memory_write_latency m
                     else memory_read_latency m in
      let p := mkPending addr size_in_bytes (u64 (cycle_counter m + latency)) o in
      (true, set_pending (<[i := p]> (memory_pending m)) m)
  | None => (false, m)
  end.

(** [__builtin_popcountll] of a 64-bit value. *)
Fixpoint popcount (n : nat) (x : Z) : Z :=
  match n with
  | O => 0
  | S n => x mod 2 + popcount n (x / 2)
  end.
Definition popcountll (x : Z) : Z := popcount 64 x.

(** The guard that [memory_read] and [memory_write] start with.  The C
    operator [||] does not evaluate [address % size] for a zero size. *)
Definition improper (addr size max : Z) (m : memsys) : bool :=
  (max <? size) || negb (popcountll size =? 1)
  || (riscv_mem_size m <? u64 (addr + size)) || nonzero (addr mod size).

(** The second component is what the call stores at [*value]: the first
    bytes of the object that [value] points to. *)
Definition memory_read (addr size_in_bytes : Z) (m : memsys)
    : outcome (bool * list Z * memsys) :=
  if improper addr size_in_bytes MEMORY_MAX_READ_BYTES m then Ok (true, [0], m)
  else if (Z.land (current_stage m) (Z.lor STAGE_F_BIT STAGE_M_BIT) =? 0)
          || nonzero (Z.land (memory_accesses_issued m) (current_stage m))
  then Ok (true, replicate (Z.to_nat size_in_bytes) 0, m)
  else
    let m := count_read size_in_bytes m in
    let m := set_issued (Z.lor (memory_accesses_issued m) (current_stage m)) m in
    if memory_read_latency m =? 0 then
      bs ← memory_dump addr size_in_bytes m;
      Ok (true, default [] bs, m)
    else
      let '(_, m) := memory_add_pending addr size_in_bytes MEMORY_OP_READ m in
      Ok (false, replicate (Z.to_nat size_in_bytes) 0, m).

Definition memory_write (addr value size_in_bytes : Z) (m : memsys)
    : outcome (bool * memsys) :=
  if improper addr size_in_bytes 8 m then Ok (true, m)
  else if (Z.land (current_stage m) STAGE_M_BIT =? 0)
          || nonzero (Z.land (memory_accesses_issued m) (current_stage m))
  then Ok (true, m)
  else
    let m := set_issued (Z.lor (memory_accesses_issued m) (current_stage m)) m in
    '(_, m) ← memory_load (Z_to_bytes (Z.to_nat size_in_bytes) value) addr m;
    let m := count_write size_in_bytes m in
    if memory_write_latency m =? 0 then Ok (true, m)
    else
      let '(_, m) := memory_add_pending addr size_in_bytes MEMORY_OP_WRITE m in
      Ok (false, m).

Definition memory_status (addr : Z) (m : memsys) : outcome (bool * list Z * memsys) :=
  match list_find (λ p, address p = addr) (memory_pending m) with
  | Some (i, p) =>
      if end_cycle p <=? cycle_counter m then
        bs ← (if decide (op p = MEMORY_OP_READ) then memory_dump addr (n_bytes p) m
              else Ok None);
        Ok (true, default [] bs,
            set_pending (<[i := set_op MEMORY_OP_COMPLETED p]> (memory_pending m)) m)
      else Ok (false, [], m)
  | None => Ok (false, [], m)
  end.

Definition retire (p : memory_pending_t) : memory_pending_t :=
  if decide (op p = MEMORY_OP_COMPLETED) then set_op MEMORY_OP_NONE p else p.

Definition memory_retire_completed (m : memsys) : memsys :=
  set_issued 0 (set_pending (retire <$> memory_pending m) m).

(** ** Lemmas on bytes of memory *)

Lemma byte_at_set_lt mem base bs a : a < base → byte_at (mem_set mem base bs) a = byte_at mem a.
Proof.
  revert mem base. induction bs as [|b bs IH]; intros mem base Ha; simpl; [done|].
  rewrite IH by lia. unfold byte_at. rewrite lookup_insert_ne by lia. done.
Qed.

Lemma byte_at_set mem base bs a :
  byte_at (mem_set mem base bs) a = set_bytes (byte_at mem) base bs a.
Proof.
  unfold set_bytes.
  revert mem base. induction bs as [|b bs IH]; intros mem base; cbn [mem_set length].
  { rewrite decide_False by lia. done. }
  destruct (decide (a = base)) as [->|Hne].
  - rewrite byte_at_set_lt by lia. rewrite decide_True by lia.
    rewrite Z.sub_diag. unfold byte_at. rewrite lookup_insert_eq. done.
  - rewrite IH. unfold byte_at. rewrite lookup_insert_ne by done.
    do 2 case_decide; try lia; try done.
    replace (Z.to_nat (a - base)) with (S (Z.to_nat (a - (base + 1)))) by lia. done.
Qed.

Lemma mem_get_set mem base bs a n :
  mem_get (mem_set mem base bs) a n = get_bytes (set_bytes (byte_at mem) base bs) a n.
Proof. apply get_bytes_ext. intros. apply byte_at_set. Qed.

(** ** Well-formedness *)

Definition mem_ok (mem : gmap Z Z) : Prop := map_Forall (λ _ b, is_byte b) mem.

Record pending_ok (size : Z) (p : memory_pending_t) : Prop := {
  pending_address : urange 64 (address p);
  pending_end : urange 64 (end_cycle p);
  pending_range : op p = MEMORY_OP_READ →
    0 ≤ n_bytes p ≤ MEMORY_MAX_READ_BYTES ∧ u64 (address p + n_bytes p) ≤ size;
}.

Record mem_wf (m : memsys) : Prop := {
  wf_mem : mem_ok (riscv_mem m);
  wf_size : 0 ≤ riscv_mem_size m ≤ MEMORY_MAX_SIZE;
  wf_read_latency : urange 64 (memory_read_latency m);
  wf_write_latency : urange 64 (memory_write_latency m);
  wf_cycle : urange 64 (cycle_counter m);
  wf_read_counter : urange 64 (read_counter m);
  wf_read_bytes : urange 64 (read_bytes m);
  wf_write_counter : urange 64 (write_counter m);
  wf_write_bytes : urange 64 (write_bytes m);
  wf_pending_length : length (memory_pending m) = MEMORY_MAX_PENDING;
  wf_pending : Forall (pending_ok (riscv_mem_size m)) (memory_pending m);
}.

Lemma byte_at_ok mem a : mem_ok mem → is_byte (byte_at mem a).
Proof.
  intros H. unfold byte_at. destruct (mem !! a) as [b|] eqn:E; simpl; [|split; lia].
  exact (H a b E).
Qed.

Lemma mem_get_ok mem base n : mem_ok mem → bytes_ok (mem_get mem base n).
Proof.
  intros H. apply get_bytes_ok. intros a. by apply byte_at_ok.
Qed.

Lemma mem_set_ok mem base bs : mem_ok mem → bytes_ok bs → mem_ok (mem_set mem base bs).
Proof.
  revert mem base. induction bs as [|b bs IH]; intros mem base H Hbs; simpl; [done|].
  inversion Hbs; subst. apply IH; [|done]. apply map_Forall_insert_2; done.
Qed.

Lemma replicate_bytes_ok n : bytes_ok (replicate n 0).
Proof. apply Forall_replicate. split; lia. Qed.

#[export] Hint Resolve mem_get_ok replicate_bytes_ok byte_at_ok : width.

Lemma retire_ok size p : pending_ok size p → pending_ok size (retire p).
Proof.
  intros []. unfold retire. case_decide; [|by constructor].
  constructor; simpl; [done|done|discriminate].
Qed.

Lemma memory_retire_wf m : mem_wf m → mem_wf (memory_retire_completed m).
Proof.
  intros []. constructor; simpl; try done.
  - rewrite length_fmap. done.
  - rewrite Forall_fmap. eapply Forall_impl; [|exact wf_pending0]. intros p. apply retire_ok.
Qed.

Lemma memory_add_pending_wf addr n o m b m' :
  mem_wf m → urange 64 addr → 0 ≤ n ≤ MEMORY_MAX_READ_BYTES →
  u64 (addr + n) ≤ riscv_mem_size m →
  memory_add_pending addr n o m = (b, m') → mem_wf m'.
Proof.
  intros Hwf Ha Hn Hr. unfold memory_add_pending.
  case_match eqn:E; [case_match|]; intros [= <- <-]; [|done].
  destruct Hwf. constructor; simpl; try done.
  - rewrite length_insert. done.
  - apply Forall_insert; [done|]. constructor; simpl; [done|apply wrap_range; lia|lia].
Qed.

(** ** The guard of accesses *)

Lemma popcount_nonneg n x : 0 ≤ popcount n x.
Proof.
  revert x. induction n as [|n IH]; intros x; simpl; [done|].
  specialize (IH (x / 2)). pose proof (Z.mod_pos_bound x 2). lia.
Qed.

(** The sizes the guard lets through. *)
Lemma popcount_sizes size : size ≤ 16 → 0 ≤ size → popcountll size = 1 →
  size = 1 ∨ size = 2 ∨ size = 4 ∨ size = 8 ∨ size = 16.
Proof.
  intros ??. assert (size ∈ seqZ 0 17) as Hin by (apply elem_of_seqZ; lia).
  revert Hin. cbv [seqZ seq fmap list_fmap Z.to_nat Pos.to_nat Pos.iter_op Init.Nat.add].
  rewrite !elem_of_cons, elem_of_nil.
  intros Hs; repeat destruct Hs as [->|Hs]; try done; auto.
Qed.

Lemma improper_false addr size max m :
  improper addr size max m = false → urange 64 addr → 0 ≤ size → max ≤ 16 →
  (size = 1 ∨ size = 2 ∨ size = 4 ∨ size = 8 ∨ size = 16) ∧ size ≤ max ∧
  u64 (addr + size) ≤ riscv_mem_size m ∧ addr mod size = 0.
Proof.
  unfold improper. rewrite !orb_false_iff, negb_false_iff, nonzero_false.
  rewrite Z.eqb_eq, !Z.ltb_ge. intros [[[? ?] ?] ?] ???.
  split_and!; try done. apply popcount_sizes; lia.
Qed.

(** An aligned access that ends inside memory passes the guard. *)
Lemma proper_access addr size max m :
  size = 1 ∨ size = 2 ∨ size = 4 ∨ size = 8 ∨ size = 16 → size ≤ max →
  0 ≤ addr → addr + size ≤ riscv_mem_size m → riscv_mem_size m ≤ MEMORY_MAX_SIZE →
  addr mod size = 0 → improper addr size max m = false.
Proof.
  intros Hs ? ? ? Hm ?. unfold improper.
  assert (popcountll size = 1) as -> by (destruct_or! Hs; subst; reflexivity).
  unfold MEMORY_MAX_SIZE in Hm.
  rewrite (wrap_small 64) by (unfold urange; lia).
  rewrite !orb_false_iff, negb_false_iff, nonzero_false, Z.eqb_eq, !Z.ltb_ge.
  split_and!; lia.
Qed.

(** ** What each call does *)

Lemma memory_dump_in base size m :
  urange 64 (base + size) → base + size ≤ riscv_mem_size m →
  memory_dump base size m = Ok (Some (mem_get (riscv_mem m) base (Z.to_nat size))).
Proof.
  intros Hu Hr. unfold memory_dump. rewrite (wrap_small 64) by done.
  rewrite (proj2 (Z.ltb_ge _ _)) by lia. done.
Qed.

(** A dump that returns a region returns the bytes of memory. *)
Lemma memory_dump_Some base size m bs :
  memory_dump base size m = Ok (Some bs) →
  bs = mem_get (riscv_mem m) base (Z.to_nat size) ∧ base + size ≤ riscv_mem_size m.
Proof.
  unfold memory_dump. do 2 (case_match; try discriminate).
  intros [= <-]. split; [done|]. by apply Z.ltb_ge.
Qed.

Lemma memory_load_in bs base m :
  urange 64 (base + Z.of_nat (length bs)) →
  base + Z.of_nat (length bs) ≤ riscv_mem_size m →
  memory_load bs base m = Ok (true, set_mem (mem_set (riscv_mem m) base bs) m).
Proof.
  intros Hu Hr. unfold memory_load. rewrite (wrap_small 64) by done.
  rewrite (proj2 (Z.ltb_ge _ _)) by lia. done.
Qed.

(** The stage may still issue an access of its own in this cycle. *)
Definition can_read (m : memsys) : Prop :=
  Z.land (current_stage m) (Z.lor STAGE_F_BIT STAGE_M_BIT) ≠ 0 ∧
  Z.land (memory_accesses_issued m) (current_stage m) = 0.
Definition can_write (m : memsys) : Prop :=
  Z.land (current_stage m) STAGE_M_BIT ≠ 0 ∧
  Z.land (memory_accesses_issued m) (current_stage m) = 0.

#[export] Instance can_read_dec m : Decision (can_read m).
Proof. unfold can_read. apply _. Defined.
#[export] Instance can_write_dec m : Decision (can_write m).
Proof. unfold can_write. apply _. Defined.

(** The state after an accepted read or write, before any latency. *)
Definition issue (m : memsys) : memsys :=
  set_issued (Z.lor (memory_accesses_issued m) (current_stage m)) m.

Lemma read_guard m : can_read m ↔
  (Z.land (current_stage m) (Z.lor STAGE_F_BIT STAGE_M_BIT) =? 0)
  || nonzero (Z.land (memory_accesses_issued m) (current_stage m)) = false.
Proof. unfold can_read. rewrite orb_false_iff, nonzero_false, Z.eqb_neq. done. Qed.

Lemma write_guard m : can_write m ↔
  (Z.land (current_stage m) STAGE_M_BIT =? 0)
  || nonzero (Z.land (memory_accesses_issued m) (current_stage m)) = false.
Proof. unfold can_write. rewrite orb_false_iff, nonzero_false, Z.eqb_neq. done. Qed.

Lemma memory_read_refused addr n m :
  improper addr n MEMORY_MAX_READ_BYTES m = false → ¬ can_read m →
  memory_read addr n m = Ok (true, replicate (Z.to_nat n) 0, m).
Proof.
  intros Hi Hc. unfold memory_read. rewrite Hi.
  rewrite read_guard, not_false_iff_true in Hc. rewrite Hc. done.
Qed.

Lemma memory_read_accepted addr n m :
  improper addr n MEMORY_MAX_READ_BYTES m = false → can_read m →
  memory_read addr n m =
    if memory_read_latency m =? 0 then
      bs ← memory_dump addr n m; Ok (true, default [] bs, issue (count_read n m))
    else Ok (false, replicate (Z.to_nat n) 0,
             (memory_add_pending addr n MEMORY_OP_READ (issue (count_read n m))).2).
Proof.
  intros Hi Hc. unfold memory_read. rewrite Hi.
  apply read_guard in Hc. rewrite Hc.
  unfold issue. simpl. case_match; [done|].
  destruct (memory_add_pending _ _ _ _) eqn:E. done.
Qed.

Lemma memory_write_refused addr v n m :
  ¬ can_write m → memory_write addr v n m = Ok (true, m).
Proof.
  intros Hc. unfold memory_write. case_match; [done|].
  rewrite write_guard, not_false_iff_true in Hc. rewrite Hc. done.
Qed.

(** The state in which an accepted write leaves memory. *)
Definition written (addr v n : Z) (m : memsys) : memsys :=
  count_write n (set_mem (mem_set (riscv_mem m) addr (Z_to_bytes (Z.to_nat n) v)) (issue m)).

Lemma memory_write_accepted addr v n m :
  improper addr n 8 m = false → can_write m → 0 ≤ n →
  urange 64 (addr + n) → addr + n ≤ riscv_mem_size m →
  memory_write addr v n m =
    if memory_write_latency m =? 0 then Ok (true, written addr v n m)
    else Ok (false, (memory_add_pending addr n MEMORY_OP_WRITE (written addr v n m)).2).
Proof.
  intros Hi Hc Hn Hu Hr. unfold memory_write. rewrite Hi.
  apply write_guard in Hc. rewrite Hc.
  rewrite memory_load_in by (rewrite ?length_Z_to_bytes, Z2Nat.id; done).
  unfold written, issue. simpl. case_match; [done|].
  destruct (memory_add_pending _ _ _ _) eqn:E. done.
Qed.

(** [memory_add_pending] touches the table of pending accesses only. *)
Lemma memory_add_pending_frame addr n o m :
  ∃ l, (memory_add_pending addr n o m).2 = set_pending l m.
Proof.
  unfold memory_add_pending. case_match; [case_match|]; simpl; eauto.
  exists (memory_pending m). by destruct m.
Qed.

(** ** Every call preserves well-formedness *)

Lemma issue_wf m : mem_wf m → mem_wf (issue m).
Proof. intros []. by constructor. Qed.

Lemma set_stage_wf s m : mem_wf m → mem_wf (set_stage s m).
Proof. intros []. by constructor. Qed.

Lemma set_cycle_wf c m : urange 64 c → mem_wf m → mem_wf (set_cycle c m).
Proof. intros ? []. by constructor. Qed.

Lemma count_read_wf n m : mem_wf m → mem_wf (count_read n m).
Proof. intros []. constructor; simpl; width. Qed.

Lemma written_wf addr v n m : mem_wf m → mem_wf (written addr v n m).
Proof. intros []. constructor; simpl; width. apply mem_set_ok; width. Qed.

Lemma memory_dump_bytes base size m : mem_wf m →
  sat (λ bs, bytes_ok (default [] bs) ∧ (length (default [] bs) ≤ Z.to_nat size)%nat)
    (memory_dump base size m).
Proof.
  intros []. unfold memory_dump. repeat sat_step; try (split; [constructor|simpl; lia]).
  simpl. split; [by apply mem_get_ok|]. unfold mem_get. rewrite length_get_bytes. lia.
Qed.

(** What a read or a status call stores through its pointer. *)
Definition stored_ok (n : Z) (bs : list Z) : Prop :=
  bytes_ok bs ∧ Z.of_nat (length bs) ≤ Z.max 1 n.

Lemma memory_read_wf addr n m : mem_wf m → urange 64 addr → 0 ≤ n →
  sat (λ '(_, bs, m'), stored_ok n bs ∧ mem_wf m') (memory_read addr n m).
Proof.
  intros Hwf Ha Hn.
  destruct (improper addr n MEMORY_MAX_READ_BYTES m) eqn:Hi.
  { unfold memory_read. rewrite Hi. simpl. split; [split|done].
    - repeat constructor; lia.
    - simpl. lia. }
  destruct (decide (can_read m)) as [Hc|Hc].
  - rewrite memory_read_accepted by done. sat_step.
    + eapply sat_bind; [by apply memory_dump_bytes|]. intros bs [? Hl]. simpl.
      split; [split; [done|lia]|]. by apply issue_wf, count_read_wf.
    + simpl. apply improper_false in Hi as (? & ? & ? & ?); [|done|done|done].
      split; [split; [width|rewrite length_replicate; lia]|].
      destruct (memory_add_pending _ _ _ _) as [b m'] eqn:Ep. simpl.
      eapply memory_add_pending_wf; [| | | |exact Ep].
      all: try done. by apply issue_wf, count_read_wf.
  - rewrite memory_read_refused by done. simpl.
    split; [split; [width|rewrite length_replicate; lia]|done].
Qed.

(** The 64-bit bounds test lets an access through that ends at 2^64. *)
Lemma memory_write_wrapped addr v n m :
  improper addr n 8 m = false → can_write m → 0 ≤ n → riscv_mem_size m < addr + n →
  memory_write addr v n m = Undef.
Proof.
  intros Hi Hc Hn Hr. unfold memory_write. rewrite Hi.
  apply write_guard in Hc. rewrite Hc. unfold improper in Hi.
  rewrite !orb_false_iff in Hi. destruct Hi as [[_ Hi] _].
  unfold memory_load. rewrite length_Z_to_bytes, Z2Nat.id by done. simpl.
  rewrite Hi. rewrite (proj2 (Z.ltb_lt _ _)) by done. done.
Qed.

Lemma memory_write_wf addr v n m : mem_wf m → urange 64 addr → 0 ≤ n →
  sat (λ '(_, m'), mem_wf m') (memory_write addr v n m).
Proof.
  intros Hwf Ha Hn.
  destruct (decide (can_write m)) as [Hc|Hc];
    [|by rewrite memory_write_refused by done].
  destruct (improper addr n 8 m) eqn:Hi; [unfold memory_write; rewrite Hi; done|].
  destruct (Z.lt_ge_cases (riscv_mem_size m) (addr + n)) as [Hr|Hr];
    [by rewrite memory_write_wrapped by done|].
  pose proof (improper_false _ _ _ _ Hi Ha Hn ltac:(lia)) as (? & ? & ? & ?).
  pose proof (wf_size _ Hwf) as Hs. unfold MEMORY_MAX_SIZE in Hs. destruct Ha.
  rewrite memory_write_accepted by (done || unfold urange; lia).
  sat_step; [by apply written_wf|].
  destruct (memory_add_pending _ _ _ _) as [b m'] eqn:Ep. simpl.
  eapply memory_add_pending_wf; [by apply written_wf| | | |exact Ep].
  - split; lia.
  - unfold MEMORY_MAX_READ_BYTES. lia.
  - done.
Qed.

Lemma memory_status_wf addr m : mem_wf m →
  sat (λ '(_, bs, m'), stored_ok MEMORY_MAX_READ_BYTES bs ∧ mem_wf m') (memory_status addr m).
Proof.
  intros Hwf. unfold memory_status.
  assert (stored_ok MEMORY_MAX_READ_BYTES []) by (split; [constructor|done]).
  case_match eqn:Hf; [case_match|done]. subst. sat_step; [|done].
  apply list_find_Some in Hf as (Hi & _ & _).
  pose proof (Forall_lookup_1 _ _ _ _ (wf_pending _ Hwf) Hi) as Hp.
  eapply (sat_bind (λ bs, stored_ok MEMORY_MAX_READ_BYTES (default [] bs))).
  - case_decide as Hop; [|done].
    apply (pending_range _ _ Hp) in Hop as [? ?].
    eapply sat_mono; [|by apply memory_dump_bytes].
    intros bs [? ?]. split; [done|]. unfold MEMORY_MAX_READ_BYTES in *. lia.
  - intros bs ?. simpl. split; [done|]. destruct Hwf. constructor; simpl; try done.
    + rewrite length_insert. done.
    + apply Forall_insert; [done|]. destruct Hp. constructor; simpl; [done|done|discriminate].
Qed.

Lemma memory_initialize_wf size m : mem_wf m → 0 ≤ size →
  Forall (λ p, op p ≠ MEMORY_OP_READ) (memory_pending m) →
  sat mem_wf (memory_initialize size m).
Proof.
  intros [] ? Hp. unfold memory_initialize. sat_step; [done|].
  apply orb_false_iff in E as [E _]. apply Z.ltb_ge in E.
  constructor; simpl; try done.
  rewrite Forall_lookup in *. intros i p Hi.
  destruct (wf_pending0 i p Hi). constructor; [done|done|].
  intros Hop. by destruct (Hp i p Hi).
Qed.

(** ** Time *)

(** The end of a cycle, lines 485-486: the counter advances and completed
    accesses free their slots. *)
Definition end_of_cycle (m : memsys) : memsys :=
  memory_retire_completed (set_cycle (u64 (cycle_counter m + 1)) m).

Lemma end_of_cycle_wf m : mem_wf m → mem_wf (end_of_cycle m).
Proof. intros. apply memory_retire_wf, set_cycle_wf; width. Qed.

Lemma retire_retire p : retire (retire p) = retire p.
Proof. destruct p as [a n e []]; reflexivity. Qed.

Lemma end_of_cycle_idle l c m :
  end_of_cycle (set_issued 0 (set_pending l (set_cycle c m)))
  = set_issued 0 (set_pending (retire <$> l) (set_cycle (u64 (c + 1)) m)).
Proof. destruct m; reflexivity. Qed.

(** What [k] cycles without any access change. *)
Lemma iter_end_of_cycle k m : (0 < k)%nat →
  Nat.iter k end_of_cycle m
  = set_issued 0 (set_pending (retire <$> memory_pending m)
      (set_cycle (u64 (cycle_counter m + Z.of_nat k)) m)).
Proof.
  destruct k as [|k]; [lia|]. intros _. induction k as [|k IH]; [by destruct m|].
  rewrite Nat.iter_succ, IH, end_of_cycle_idle. f_equal. f_equal.
  - rewrite <-list_fmap_compose. apply list_fmap_ext. intros _ p _. apply retire_retire.
  - f_equal. unfold wrap. rewrite Zplus_mod_idemp_l. f_equal. lia.
Qed.

(** A pending slot that no later call has touched. *)
Definition only_slot (i : nat) (p : memory_pending_t) (l : list memory_pending_t) : Prop :=
  l !! i = Some p ∧ ∀ j q, l !! j = Some q → (j < i)%nat → address q ≠ address p.

Lemma memory_status_slot i p m : only_slot i p (memory_pending m) →
  op p = MEMORY_OP_READ → urange 64 (address p + n_bytes p) →
  address p + n_bytes p ≤ riscv_mem_size m →
  memory_status (address p) m =
    if end_cycle p <=? cycle_counter m then
      Ok (true, mem_get (riscv_mem m) (address p) (Z.to_nat (n_bytes p)),
          set_pending (<[i := set_op MEMORY_OP_COMPLETED p]> (memory_pending m)) m)
    else Ok (false, [], m).
Proof.
  intros [Hi Hu] Hop Hr Hs. unfold memory_status.
  assert (list_find (λ q, address q = address p) (memory_pending m) = Some (i, p)) as ->.
  { apply list_find_Some. split_and!; [done|done|]. intros j q Hj Hlt. by eapply Hu. }
  case_match; [|done]. rewrite decide_True by done.
  rewrite memory_dump_in by done. done.
Qed.

(** ** Properties *)

Definition access_size (n : Z) : Prop := n = 1 ∨ n = 2 ∨ n = 4 ∨ n = 8.

(** An access inside memory and aligned to its size. *)
Definition aligned_in (addr n : Z) (m : memsys) : Prop :=
  0 ≤ addr ∧ addr + n ≤ riscv_mem_size m ∧ addr mod n = 0.

(** An accepted read at latency 0. *)
Lemma memory_read_now addr n m : mem_wf m → can_read m →
  access_size n ∨ n = 16 → aligned_in addr n m → memory_read_latency m = 0 →
  memory_read addr n m
  = Ok (true, mem_get (riscv_mem m) addr (Z.to_nat n), issue (count_read n m)).
Proof.
  intros Hwf Hc Hn (? & ? & ?) Hl. pose proof (wf_size _ Hwf) as [_ Hs].
  rewrite memory_read_accepted;
    [|apply proper_access; unfold MEMORY_MAX_READ_BYTES, access_size in *; lia|done].
  rewrite Hl. simpl. unfold MEMORY_MAX_SIZE in Hs.
  rewrite memory_dump_in by (unfold urange, access_size in *; lia). done.
Qed.

(** An accepted write, whatever the latency. *)
Lemma memory_write_now addr v n m : mem_wf m → can_write m →
  access_size n → aligned_in addr n m → memory_write_latency m = 0 →
  memory_write addr v n m = Ok (true, written addr v n m).
Proof.
  intros Hwf Hc Hn (? & ? & ?) Hl. pose proof (wf_size _ Hwf) as [_ Hs].
  unfold access_size in Hn. unfold MEMORY_MAX_SIZE in Hs.
  rewrite memory_write_accepted;
    [|apply proper_access; unfold MEMORY_MAX_SIZE; lia|done|lia|unfold urange; lia|lia].
  rewrite Hl. done.
Qed.

(** C16: a store of 1, 2, 4 or 8 bytes that memory accepts at latency 0 is
    read back in the next cycle, at read latency 0 and from the fetch or the
    memory stage, as the stored value modulo its size, and any disjoint
    aligned read then returns the bytes that were there before. *)
Theorem memory_write_read_roundtrip addr v n m s :
  mem_wf m → can_write m → access_size n → aligned_in addr n m →
  memory_write_latency m = 0 → memory_read_latency m = 0 →
  s = STAGE_F_BIT ∨ s = STAGE_M_BIT →
  ∃ m1, memory_write addr v n m = Ok (true, m1) ∧
    let m2 := set_stage s (end_of_cycle m1) in
    (∃ bs m3, memory_read addr n m2 = Ok (true, bs, m3) ∧
              bytes_to_Z bs = v mod 2 ^ (8 * n)) ∧
    (∀ a k, access_size k ∨ k = 16 → aligned_in a k m →
            a + k ≤ addr ∨ addr + n ≤ a →
            ∃ m3, memory_read a k m2
                  = Ok (true, mem_get (riscv_mem m) a (Z.to_nat k), m3)).
Proof.
  intros Hwf Hc Hn Ha Hw Hr Hs. exists (written addr v n m).
  split; [by apply memory_write_now|]. intros m2.
  assert (mem_wf m2) by (apply set_stage_wf, end_of_cycle_wf, written_wf; done).
  assert (can_read m2) by (destruct Hs; subst s; split; done).
  split.
  - do 2 eexists. split; [apply memory_read_now; auto|]. simpl.
    rewrite <-(length_Z_to_bytes (Z.to_nat n) v) at 2.
    rewrite mem_get_set, get_set_bytes_eq, bytes_to_Z_to_bytes.
    rewrite Z2Nat.id by (unfold access_size in Hn; lia). done.
  - intros a k Hk Hak Hd. eexists. rewrite memory_read_now by auto. simpl.
    rewrite mem_get_set, get_set_bytes_disjoint; [done|].
    rewrite length_Z_to_bytes. unfold access_size in *. lia.
Qed.

Lemma memory_read_issues addr n m d bs m1 :
  improper addr n MEMORY_MAX_READ_BYTES m = false → can_read m →
  memory_read addr n m = Ok (d, bs, m1) →
  memory_accesses_issued m1 = Z.lor (memory_accesses_issued m) (current_stage m) ∧
  current_stage m1 = current_stage m.
Proof.
  intros Hi Hc. rewrite memory_read_accepted by done. case_match; intros ?; inv_ok.
  - done.
  - destruct (memory_add_pending_frame addr n MEMORY_OP_READ (issue (count_read n m))) as [l ->].
    done.
Qed.

Lemma memory_write_issues addr v n m d m1 :
  mem_wf m → urange 64 addr → 0 ≤ n → improper addr n 8 m = false → can_write m →
  memory_write addr v n m = Ok (d, m1) →
  memory_accesses_issued m1 = Z.lor (memory_accesses_issued m) (current_stage m) ∧
  current_stage m1 = current_stage m.
Proof.
  intros Hwf [? ?] Hn Hi Hc. pose proof (wf_size _ Hwf) as [_ Hs]. unfold MEMORY_MAX_SIZE in Hs.
  destruct (Z.lt_ge_cases (riscv_mem_size m) (addr + n)) as [Hr|Hr].
  { rewrite memory_write_wrapped by done. discriminate. }
  rewrite memory_write_accepted by (done || (unfold urange; lia)).
  case_match; intros ?; inv_ok; [done|].
  destruct (memory_add_pending_frame addr n MEMORY_OP_WRITE (written addr v n m)) as [l ->].
  done.
Qed.

(** C18: a stage has one memory access per cycle: once a read or a write of
    the stage has been accepted, no further read or write of the stage changes
    the state until the end of the cycle, which lifts the restriction.  Every
    such call reports success: a proper read (of a size and alignment that
    memory accepts) is answered with zeros, any other read with one zero
    byte, and a write is dropped. *)
Theorem one_access_per_stage m m1 :
  mem_wf m → can_read m →
  (∃ addr n d bs, improper addr n MEMORY_MAX_READ_BYTES m = false ∧
                  memory_read addr n m = Ok (d, bs, m1)) ∨
  (∃ addr v n d, urange 64 addr ∧ 0 ≤ n ∧ improper addr n 8 m = false ∧ can_write m ∧
                 memory_write addr v n m = Ok (d, m1)) →
  (∀ a k, improper a k MEMORY_MAX_READ_BYTES m1 = false →
          memory_read a k m1 = Ok (true, replicate (Z.to_nat k) 0, m1)) ∧
  (∀ a k, improper a k MEMORY_MAX_READ_BYTES m1 = true →
          memory_read a k m1 = Ok (true, [0], m1)) ∧
  (∀ a v k, memory_write a v k m1 = Ok (true, m1)) ∧
  can_read (end_of_cycle m1).
Proof.
  intros Hwf Hc Hacc.
  assert (memory_accesses_issued m1 = Z.lor (memory_accesses_issued m) (current_stage m) ∧
          current_stage m1 = current_stage m) as [Hi Hs].
  { destruct Hacc as [(addr & n & d & bs & ? & ?)|(addr & v & n & d & ? & ? & ? & ? & ?)].
    - by eapply memory_read_issues.
    - by eapply memory_write_issues. }
  assert (Z.land (memory_accesses_issued m1) (current_stage m1) ≠ 0) as Hbusy.
  { rewrite Hi, Hs, land_lor_absorb.
    intros Hz. destruct Hc as [Hc _]. rewrite Hz in Hc. done. }
  split_and!.
  - intros a k Hp. apply memory_read_refused; [done|]. by intros [_ ?].
  - intros a k Hp. unfold memory_read. by rewrite Hp.
  - intros a v k. apply memory_write_refused. by intros [_ ?].
  - split; simpl; [|done]. rewrite Hs. by destruct Hc.
Qed.

(** The slot that a read of latency at least one is given. *)
Lemma memory_read_pends addr n m : mem_wf m → can_read m →
  access_size n ∨ n = 16 → aligned_in addr n m → 0 < memory_read_latency m →
  (∃ p, p ∈ memory_pending m ∧ op p = MEMORY_OP_NONE) →
  (∀ p, p ∈ memory_pending m → address p ≠ addr) →
  let p := mkPending addr n (u64 (cycle_counter m + memory_read_latency m)) MEMORY_OP_READ in
  ∃ i l, memory_read addr n m
         = Ok (false, replicate (Z.to_nat n) 0, set_pending l (issue (count_read n m))) ∧
    only_slot i p l ∧ only_slot i p (retire <$> l).
Proof.
  intros Hwf Hc Hn (? & ? & ?) Hl (q & Hq & Hop) Hfresh p.
  pose proof (wf_size _ Hwf) as [_ Hs].
  rewrite memory_read_accepted;
    [|apply proper_access; unfold MEMORY_MAX_READ_BYTES, access_size in *; lia|done].
  rewrite (proj2 (Z.eqb_neq _ _)) by lia. unfold memory_add_pending. simpl.
  destruct (list_find (λ p, op p = MEMORY_OP_NONE) (memory_pending m)) as [[i r]|] eqn:Hf.
  2:{ rewrite list_find_None, Forall_lookup in Hf.
      apply list_elem_of_lookup in Hq as [j Hj]. by destruct (Hf j q Hj). }
  apply list_find_Some in Hf as (Hi & _ & _).
  exists i. eexists. split; [done|].
  assert (i < length (memory_pending m))%nat by by eapply lookup_lt_Some.
  assert (∀ j x, (j < i)%nat → memory_pending m !! j = Some x → address x ≠ addr) as Hlt.
  { intros j x _ Hx. apply Hfresh. apply list_elem_of_lookup. eauto. }
  split; (split; [|intros j x; simpl; intros Hj Hji]).
  - rewrite list_lookup_insert_eq by done. done.
  - rewrite list_lookup_insert_ne in Hj by lia. eauto.
  - rewrite list_lookup_fmap, list_lookup_insert_eq by done. done.
  - rewrite list_lookup_fmap, list_lookup_insert_ne in Hj by lia.
    apply fmap_Some in Hj as (y & Hy & ->).
    replace (address (retire y)) with (address y) by (unfold retire; case_decide; done).
    eauto.
Qed.

(** C17: with a read latency of L > 0 cycles, a read that memory accepts,
    with a slot free and no slot that holds its address, is answered by "not
    yet", and polling it with [memory_status] says "not yet" in every one of the
    next L - 1 cycles; from the L-th cycle on it delivers the bytes of
    memory. *)
Theorem read_latency_protocol addr n m :
  mem_wf m → can_read m → access_size n ∨ n = 16 → aligned_in addr n m →
  0 < memory_read_latency m →
  (∃ p, p ∈ memory_pending m ∧ op p = MEMORY_OP_NONE) →
  (∀ p, p ∈ memory_pending m → address p ≠ addr) →
  cycle_counter m + memory_read_latency m < 2 ^ 64 →
  ∃ m1, memory_read addr n m = Ok (false, replicate (Z.to_nat n) 0, m1) ∧
    ∀ k, cycle_counter m + Z.of_nat k < 2 ^ 64 →
    ∃ m2, memory_status addr (Nat.iter k end_of_cycle m1)
          = if memory_read_latency m <=? Z.of_nat k
            then Ok (true, mem_get (riscv_mem m) addr (Z.to_nat n), m2)
            else Ok (false, [], Nat.iter k end_of_cycle m1).
Proof.
  intros Hwf Hc Hn Ha Hl Hfree Hfresh Hcyc.
  destruct (memory_read_pends addr n m) as (i & l & Hread & Hs1 & Hs2); try done.
  rewrite Hread. eexists. split; [done|]. intros k Hk.
  set (p := mkPending _ _ _ _) in *. set (m1 := set_pending _ _).
  assert (only_slot i p (memory_pending (Nat.iter k end_of_cycle m1)) ∧
          riscv_mem (Nat.iter k end_of_cycle m1) = riscv_mem m ∧
          riscv_mem_size (Nat.iter k end_of_cycle m1) = riscv_mem_size m ∧
          cycle_counter (Nat.iter k end_of_cycle m1) = cycle_counter m + Z.of_nat k)
    as (Hs & Hm & Hsz & Hcy).
  { destruct k as [|k]; [by rewrite Z.add_0_r|].
    rewrite iter_end_of_cycle by lia. simpl.
    split_and!; try done. apply wrap_small. destruct (wf_cycle _ Hwf). split; lia. }
  destruct Ha as (? & ? & _), (wf_cycle _ Hwf). pose proof (wf_size _ Hwf) as [_ Hmax].
  unfold MEMORY_MAX_SIZE, access_size in *.
  eexists. change addr with (address p) at 1.
  rewrite (memory_status_slot i) by (done || (simpl; unfold urange; lia)).
  rewrite Hcy, Hm. simpl. rewrite wrap_small by (unfold urange; lia).
  destruct (Z.leb_spec (memory_read_latency m) (Z.of_nat k)).
  - rewrite (proj2 (Z.leb_le _ _)) by lia. done.
  - rewrite (proj2 (Z.leb_gt _ _)) by lia. done.
Qed.
