(* ===== verification/Port.v ===== *)
(** * The interface between memory and its clients

    [TLB.c] and [cache.c] reach memory through three calls of the framework.
    [MemoryPort] names those calls; [MemoryPortLaws] is what a client may
    rely on.  [memsys_port] and [memsys_port_laws] show that the memory
    subsystem of the framework keeps the promise. *)
From S2P Require Import Prelude Memory.

Class MemoryPort (M : Type) : Type := {
  port_read : Z → Z → M → outcome (bool * list Z * M);
  port_write : Z → Z → Z → M → outcome (bool * M);
  port_status : Z → M → outcome (bool * list Z * M);
}.

(** [port_view m a] is the byte at address [a]; [port_limit m] the number of
    bytes; [port_readable m] and [port_writable m]: a read, a write, by the
    running stage is answered at once.  A read or a poll never changes the
    bytes; an aligned read of a readable port delivers them; an aligned write
    to a writable port changes exactly the bytes it names. *)
Class MemoryPortLaws (M : Type) `{MemoryPort M} : Type := {
  port_wf : M → Prop;
  port_view : M → Z → Z;
  port_limit : M → Z;
  port_readable : M → Prop;
  port_writable : M → Prop;
  port_view_byte m a : port_wf m → is_byte (port_view m a);
  port_limit_max m : port_wf m → port_limit m ≤ MEMORY_MAX_SIZE;
  port_read_wf a n m : port_wf m → urange 64 a → 0 ≤ n →
    sat (λ '(_, bs, m'), stored_ok n bs ∧ port_wf m' ∧ port_view m' ≐ port_view m
                         ∧ port_limit m' = port_limit m)
      (port_read a n m);
  port_status_wf a m : port_wf m →
    sat (λ '(_, bs, m'), stored_ok MEMORY_MAX_READ_BYTES bs ∧ port_wf m'
                         ∧ port_view m' ≐ port_view m ∧ port_limit m' = port_limit m)
      (port_status a m);
  port_write_wf a v n m : port_wf m → urange 64 a → 0 ≤ n →
    sat (λ '(_, m'), port_wf m' ∧ port_limit m' = port_limit m) (port_write a v n m);
  port_read_ready a n m : port_wf m → port_readable m →
    access_size n ∨ n = 16 → 0 ≤ a → a + n ≤ port_limit m → a mod n = 0 →
    returns (λ '(done, bs, m'),
        done = true ∧ bs = get_bytes (port_view m) a (Z.to_nat n) ∧
        port_wf m' ∧ port_view m' ≐ port_view m ∧ port_limit m' = port_limit m)
      (port_read a n m);
  port_write_ready a v n m : port_wf m → port_writable m →
    access_size n → 0 ≤ a → a + n ≤ port_limit m → a mod n = 0 →
    returns (λ '(done, m'),
        done = true ∧ port_wf m' ∧ port_limit m' = port_limit m ∧
        port_view m' ≐ set_bytes (port_view m) a (Z_to_bytes (Z.to_nat n) v))
      (port_write a v n m);
}.

(** ** The framework's memory as a port *)

#[export] Instance memsys_port : MemoryPort memsys := {|
  port_read := memory_read;
  port_write := memory_write;
  port_status := memory_status;
|}.

(** The F or the M stage of a cycle that has not used its access, at
    latency 0; for writes, the M stage. *)
Definition mem_readable (m : memsys) : Prop := can_read m ∧ memory_read_latency m = 0.
Definition mem_writable (m : memsys) : Prop := can_write m ∧ memory_write_latency m = 0.

Lemma memory_dump_same base size m :
  sat (λ _, True) (memory_dump base size m).
Proof. destruct (memory_dump base size m); done. Qed.

(** Reading leaves every byte of memory in place. *)
Lemma memory_read_frame addr n m :
  sat (λ '(_, _, m'), riscv_mem m' = riscv_mem m ∧ riscv_mem_size m' = riscv_mem_size m)
    (memory_read addr n m).
Proof.
  unfold memory_read. repeat sat_step; try done.
  - eapply sat_bind; [apply memory_dump_same|done].
  - destruct (memory_add_pending _ _ _ _) as [b m'] eqn:Ep. simpl.
    match type of Ep with memory_add_pending ?a ?k ?o ?m0 = _ =>
      destruct (memory_add_pending_frame a k o m0) as [l Hl] end.
    rewrite Ep in Hl. simpl in Hl. subst. done.
Qed.

Lemma memory_status_frame addr m :
  sat (λ '(_, _, m'), riscv_mem m' = riscv_mem m ∧ riscv_mem_size m' = riscv_mem_size m)
    (memory_status addr m).
Proof.
  unfold memory_status. case_match; [case_match|done]. sat_step; [|done].
  eapply (sat_bind (λ _, True)); [|done].
  case_decide; [apply memory_dump_same|done].
Qed.

Lemma memory_write_frame addr v n m :
  sat (λ '(_, m'), riscv_mem_size m' = riscv_mem_size m) (memory_write addr v n m).
Proof.
  unfold memory_write. repeat sat_step; [done|done|].
  unfold memory_load. case_match; simpl; [|case_match; simpl; [done|]].
  all: sat_step; [done|].
  all: match goal with |- context [memory_add_pending ?a ?k ?o ?m0] =>
      destruct (memory_add_pending_frame a k o m0) as [l Hl];
      destruct (memory_add_pending a k o m0) as [? ?] end.
  all: simpl in *; subst; done.
Qed.

#[export] Instance memsys_port_laws : MemoryPortLaws memsys.
Proof.
  refine {|
    port_wf := mem_wf;
    port_view := λ m, byte_at (riscv_mem m);
    port_limit := riscv_mem_size;
    port_readable := mem_readable;
    port_writable := mem_writable;
  |}.
  - intros m a Hwf. apply byte_at_ok, Hwf.
  - intros m Hwf. apply Hwf.
  - intros a n m Hwf Ha Hn. apply sat_spec. intros [[d bs] m'] Hr. simpl in Hr.
    pose proof (sat_Ok _ _ _ (memory_read_wf a n m Hwf Ha Hn) Hr) as [? ?].
    pose proof (sat_Ok _ _ _ (memory_read_frame a n m) Hr) as [Hm ?]. rewrite Hm. done.
  - intros a m Hwf. apply sat_spec. intros [[d bs] m'] Hr. simpl in Hr.
    pose proof (sat_Ok _ _ _ (memory_status_wf a m Hwf) Hr) as [? ?].
    pose proof (sat_Ok _ _ _ (memory_status_frame a m) Hr) as [Hm ?]. rewrite Hm. done.
  - intros a v n m Hwf Ha Hn. apply sat_spec. intros [d m'] Hr. simpl in Hr.
    pose proof (sat_Ok _ _ _ (memory_write_wf a v n m Hwf Ha Hn) Hr).
    pose proof (sat_Ok _ _ _ (memory_write_frame a v n m) Hr). done.
  - intros a n m Hwf (Hc & Hl) Hn ? ? ?. eexists. split.
    { simpl. apply memory_read_now; done. }
    simpl. split_and!; try done. by apply issue_wf, count_read_wf.
  - intros a v n m Hwf (Hc & Hl) Hn ? ? ?. eexists. split.
    { simpl. apply memory_write_now; done. }
    simpl. split_and!; [done|by apply written_wf|done|].
    intros x. apply byte_at_set.
Defined.
