(* ===== verification/Registers.v ===== *)
(** * The register file of [riscv_sim_framework.c] (lines 349-398) *)
From S2P Require Import Prelude.

Definition RISCV_NUM_REGISTERS : Z := 32.

(** [register_cycle_reads] and [register_cycle_writes] are never
    incremented by the framework, so the two guards on them never fire. *)
Record regfile : Type := mkRegs {
  register_file : list Z;
  register_cycle_reads : Z;
  register_cycle_writes : Z;
}.

Definition register_read_one (reg : Z) (r : regfile) : Z :=
  let reg := reg mod RISCV_NUM_REGISTERS in
  if 0 <? reg then default 0 (register_file r !! Z.to_nat reg) else 0.

(** The two results are [*value_a] and [*value_b]. *)
Definition register_read (register_a register_b : Z) (r : regfile) : Z * Z :=
  if 1 <? register_cycle_reads r then (0, 0)
  else (register_read_one register_a r, register_read_one register_b r).

Definition put_register (i v : Z) (r : regfile) : regfile :=
  mkRegs (<[Z.to_nat i := v]> (register_file r))
    (register_cycle_reads r) (register_cycle_writes r).

(** The unchecked store [register_file[i] = v] of line 800: undefined outside
    the array. *)
Definition register_store (i v : Z) (r : regfile) : outcome regfile :=
  if decide (0 ≤ i < Z.of_nat (length (register_file r))) then Ok (put_register i v r)
  else Undef.

(** The number is taken modulo 32, so line 391 stays inside the array. *)

Definition register_write (register_d value_d : Z) (r : regfile) : regfile :=
  if 1 <? register_cycle_writes r then r
  else put_register (register_d mod RISCV_NUM_REGISTERS) value_d r.

Definition register_reset_cycle (r : regfile) : regfile :=
  mkRegs (register_file r) 0 0.

(** Static storage starts at zero. *)
Definition initial_registers : regfile := mkRegs (replicate 32 0) 0 0.

(** ** Invariant *)

Record regs_wf (r : regfile) : Prop := {
  regs_length : length (register_file r) = 32%nat;
  regs_values : Forall (urange 64) (register_file r);
  regs_reads : register_cycle_reads r = 0;
  regs_writes : register_cycle_writes r = 0;
}.

Lemma initial_registers_wf : regs_wf initial_registers.
Proof.
  constructor; try reflexivity. apply Forall_replicate. split; lia.
Qed.

Lemma put_register_wf i v r : urange 64 v → regs_wf r → regs_wf (put_register i v r).
Proof.
  intros ? []. constructor; simpl; try done.
  - by rewrite length_insert.
  - by apply Forall_insert.
Qed.

Lemma register_write_wf d v r : urange 64 v → regs_wf r → regs_wf (register_write d v r).
Proof. intros. unfold register_write. case_match; [done|]. by apply put_register_wf. Qed.

Lemma register_store_in i v r : regs_wf r → 0 ≤ i < 32 →
  register_store i v r = Ok (register_write i v r).
Proof.
  intros Hwf Hi. unfold register_store, register_write.
  rewrite decide_True by (rewrite (regs_length _ Hwf); lia). rewrite (regs_writes _ Hwf).
  change (1 <? 0) with false. unfold RISCV_NUM_REGISTERS. by rewrite Z.mod_small by done.
Qed.

Lemma register_reset_cycle_wf r : regs_wf r → regs_wf (register_reset_cycle r).
Proof. intros []. by constructor. Qed.

Lemma register_read_one_range reg r : regs_wf r → urange 64 (register_read_one reg r).
Proof.
  intros []. unfold register_read_one. case_match; [|split; lia].
  destruct (register_file r !! _) as [v|] eqn:E; simpl; [|split; lia].
  exact (Forall_lookup_1 _ _ _ _ regs_values0 E).
Qed.

#[export] Hint Resolve register_read_one_range : width.

Lemma register_reset_cycle_id r : regs_wf r → register_reset_cycle r = r.
Proof. intros []. destruct r; simpl in *; subst; done. Qed.

(** ** Properties *)

Lemma register_read_one_write d v x r : regs_wf r → 0 ≤ d → 0 ≤ x →
  register_read_one x (register_write d v r)
  = if (x mod 32 =? d mod 32) && nonzero (d mod 32) then v else register_read_one x r.
Proof.
  intros Hwf Hd Hx. unfold register_write. rewrite (regs_writes _ Hwf). simpl.
  unfold register_read_one, put_register, RISCV_NUM_REGISTERS. simpl.
  pose proof (Z.mod_pos_bound x 32 ltac:(lia)). pose proof (Z.mod_pos_bound d 32 ltac:(lia)).
  destruct (Z.ltb_spec 0 (x mod 32)), (Z.eqb_spec (x mod 32) (d mod 32)) as [E|E]; simpl.
  - rewrite E, (proj2 (nonzero_true _)) by lia.
    rewrite list_lookup_insert_eq by (rewrite (regs_length _ Hwf); lia). done.
  - rewrite list_lookup_insert_ne by lia. done.
  - rewrite <-E, (proj2 (nonzero_false _)) by lia. done.
  - done.
Qed.

Lemma register_read_wf a b r : regs_wf r →
  register_read a b r = (register_read_one a r, register_read_one b r).
Proof. intros Hwf. unfold register_read. by rewrite (regs_reads _ Hwf). Qed.

Lemma register_read_zero x r : 0 ≤ x → x mod 32 = 0 → register_read_one x r = 0.
Proof. intros ? H. unfold register_read_one, RISCV_NUM_REGISTERS. by rewrite H. Qed.

Lemma after_write x d v r : 0 ≤ x →
  (if (x mod 32 =? d mod 32) && nonzero (d mod 32) then v else register_read_one x r)
  = if x mod 32 =? 0 then 0
    else if x mod 32 =? d mod 32 then v
    else (register_read_one x r, register_read_one x r).1.
Proof.
  intros Hx. destruct (Z.eqb_spec (x mod 32) 0) as [E|E].
  - rewrite register_read_zero by done. rewrite E. destruct (Z.eqb_spec 0 (d mod 32)) as [<-|]; done.
  - destruct (Z.eqb_spec (x mod 32) (d mod 32)) as [<-|]; [|done].
    by rewrite (proj2 (nonzero_true _)) by done.
Qed.

(** C21: the register file is 32 registers.  After a write to register [d]
    (register numbers are taken modulo 32) a read of register 0 gives 0, a
    read of [d] gives the value written, and a read of any other register what
    it gave before. *)
Theorem register_read_after_write d v a b r :
  regs_wf r → 0 ≤ d → 0 ≤ a → 0 ≤ b →
  register_read a b (register_write d v r)
  = let after x := if x mod 32 =? 0 then 0
                   else if x mod 32 =? d mod 32 then v
                   else (register_read x x r).1 in
    (after a, after b).
Proof.
  intros Hwf Hd Ha Hb. cbv beta zeta. rewrite !(register_read_wf _ _ r) by done. unfold register_read.
  replace (register_cycle_reads (register_write d v r)) with 0.
  - change (1 <? 0) with false. cbv iota. rewrite !register_read_one_write by done.
    f_equal; by apply after_write.
  - unfold register_write. rewrite (regs_writes _ Hwf). simpl. by rewrite (regs_reads _ Hwf).
Qed.
