(* ===== verification/BranchPredictor.v ===== *)
(** * The branch predictor, [branch_predictor.c] *)
From S2P Require Import Prelude.

Record branch_information_entry : Type := mkBranch {
  branch_address : Z;
  target_address : Z;
  bht : Z;
}.

(** The static array [branch_table[32]]. *)
Abbreviation branch_table := (list branch_information_entry).

Definition no_branch : branch_information_entry := mkBranch 0 0 0.
Definition initial_branch_table : branch_table := replicate 32 no_branch.

Definition set_bht (x : Z) (e : branch_information_entry) : branch_information_entry :=
  mkBranch (branch_address e) (target_address e) x.

(** [branch_table[t_index]]; an index of [x & 31] is always in range. *)
Definition entry (i : Z) (t : branch_table) : branch_information_entry :=
  default no_branch (t !! Z.to_nat i).
Definition set_entry (i : Z) (e : branch_information_entry) (t : branch_table) : branch_table :=
  <[Z.to_nat i := e]> t.

(** [t_bht] is a flag; [bht] is a [uint8_t]. *)
Definition update_bht (t_bht : bool) (t_index : Z) (t : branch_table) : branch_table :=
  let e := entry t_index t in
  if t_bht && (bht e <? 3) then set_entry t_index (set_bht (u8 (bht e + 1)) e) t
  else if negb t_bht && (0 <? bht e) then set_entry t_index (set_bht (u8 (bht e - 1)) e) t
  else t.

(** [(uint8_t) branch_address & 31]: the cast applies before the [&]. *)
Definition table_index (a : Z) : Z := Z.land (u8 a) 31.

Definition predict_address (pc : Z) (t : branch_table) : Z :=
  let e := entry (table_index pc) t in
  if (pc =? branch_address e) && (1 <? bht e) then target_address e else u64 (pc + 4).

Definition predict_address_BTFNT (pc : Z) (t : branch_table) : Z :=
  let e := entry (table_index pc) t in
  if (branch_address e =? pc) && (u64 (pc + 4) <? target_address e)
  then target_address e else u64 (pc + 4).

(** The index, and the test for an entry that is present, use [new_target]. *)
Definition update_entry (new_address new_target : Z) (t_bht : bool) (t : branch_table)
    : branch_table :=
  let t_index := table_index new_target in
  if branch_address (entry t_index t) =? new_target then update_bht t_bht t_index t
  else set_entry t_index
         (mkBranch new_address new_target
            (if new_target <? u64 (new_address + 4) then 3 else 0)) t.

(** ** Invariant *)

Record entry_wf (e : branch_information_entry) : Prop := {
  entry_address : urange 64 (branch_address e);
  entry_target : urange 64 (target_address e);
  entry_bht : 0 ≤ bht e ≤ 3;
}.

Definition branch_wf (t : branch_table) : Prop := length t = 32%nat ∧ Forall entry_wf t.

Lemma table_index_spec a : table_index a = a mod 32.
Proof.
  unfold table_index. change 31 with (Z.ones 5). rewrite Z.land_ones by lia.
  apply (wrap_wrap 5 8 a). lia.
Qed.

Lemma table_index_range a : 0 ≤ table_index a < 32.
Proof. rewrite table_index_spec. apply Z.mod_pos_bound. lia. Qed.

Lemma initial_branch_table_wf : branch_wf initial_branch_table.
Proof.
  split; [done|]. apply Forall_replicate. constructor; simpl; try split; lia.
Qed.

Lemma entry_wf_lookup i t : branch_wf t → entry_wf (entry i t).
Proof.
  intros [_ Hf]. unfold entry. destruct (t !! Z.to_nat i) as [e|] eqn:E; simpl.
  - exact (Forall_lookup_1 _ _ _ _ Hf E).
  - constructor; simpl; try split; lia.
Qed.

Lemma set_entry_wf i e t : entry_wf e → branch_wf t → branch_wf (set_entry i e t).
Proof.
  intros He [Hl Hf]. split; [by unfold set_entry; rewrite length_insert|].
  by apply Forall_insert.
Qed.

Lemma entry_set_eq i e t : branch_wf t → 0 ≤ i < 32 → entry i (set_entry i e t) = e.
Proof.
  intros [Hl _] Hi. unfold entry, set_entry.
  rewrite list_lookup_insert_eq by lia. done.
Qed.

Lemma entry_set_ne i j e t : 0 ≤ i → 0 ≤ j → i ≠ j → entry j (set_entry i e t) = entry j t.
Proof. intros. unfold entry, set_entry. rewrite list_lookup_insert_ne by lia. done. Qed.

(** The saturating counter. *)
Lemma update_bht_spec b i t :
  branch_wf t → 0 ≤ i < 32 →
  bht (entry i (update_bht b i t))
  = (if b then Z.min 3 (bht (entry i t) + 1) else Z.max 0 (bht (entry i t) - 1)).
Proof.
  intros Hwf Hi. destruct (entry_wf_lookup i t Hwf) as [_ _ Hb].
  unfold update_bht. destruct b; simpl.
  - case_match.
    + rewrite entry_set_eq by done. simpl. rewrite wrap_small by (unfold urange; lia). lia.
    + lia.
  - case_match.
    + rewrite entry_set_eq by done. simpl. rewrite wrap_small by (unfold urange; lia). lia.
    + lia.
Qed.

Lemma update_bht_wf b i t : branch_wf t → branch_wf (update_bht b i t).
Proof.
  intros Hwf. destruct (entry_wf_lookup i t Hwf) as [? ? Hb].
  unfold update_bht. repeat case_match; try done.
  all: apply set_entry_wf; [|done].
  all: constructor; simpl; try done; rewrite wrap_small; unfold urange; lia.
Qed.

Lemma update_entry_wf a target b t :
  urange 64 a → urange 64 target → branch_wf t → branch_wf (update_entry a target b t).
Proof.
  intros. unfold update_entry. case_match; [by apply update_bht_wf|].
  apply set_entry_wf; [|done]. constructor; simpl; try done. case_match; lia.
Qed.

Lemma predict_address_range pc t : branch_wf t → urange 64 (predict_address pc t).
Proof.
  intros Hwf. unfold predict_address. case_match; [|width].
  by apply entry_wf_lookup.
Qed.

(** ** Properties *)

(** C24: [update_bht] is a two-bit saturating counter: it moves the counter
    of its entry one step towards 3 (taken) or 0 (not taken), leaves the two
    addresses of the entry and all other entries alone, and the table stays
    well formed. *)
Theorem update_bht_saturates b i j t :
  branch_wf t → 0 ≤ i < 32 → 0 ≤ j →
  let t' := update_bht b i t in
  branch_wf t' ∧
  bht (entry i t') = (if b then Z.min 3 (bht (entry i t) + 1)
                      else Z.max 0 (bht (entry i t) - 1)) ∧
  branch_address (entry j t') = branch_address (entry j t) ∧
  target_address (entry j t') = target_address (entry j t) ∧
  (j ≠ i → entry j t' = entry j t).
Proof.
  intros Hwf Hi Hj t'.
  split; [by apply update_bht_wf|]. split; [by apply update_bht_spec|].
  destruct (decide (j = i)) as [->|Hne].
  - unfold t', update_bht. repeat case_match; rewrite ?entry_set_eq by done; done.
  - assert (entry j t' = entry j t) as ->; [|done].
    unfold t', update_bht. repeat case_match; rewrite ?entry_set_ne by lia; done.
Qed.

(** C25: what the predictor learns from a branch at [a] that went to
    [target].  The entry is filed under the target's index, so the branch is
    predicted from it only when [a] and [target] agree modulo 32, and then
    taken exactly when it goes backwards; otherwise the prediction for [a]
    does not change.  Every other address keeps its prediction, except one
    whose entry was overwritten: it falls back to the next instruction. *)
Theorem update_entry_prediction a target b t pc :
  branch_wf t → urange 64 a → urange 64 pc →
  branch_address (entry (table_index target) t) ≠ target →
  predict_address pc (update_entry a target b t)
  = if pc mod 32 =? target mod 32 then
      if (pc =? a) && (target <? u64 (a + 4)) then target else u64 (pc + 4)
    else predict_address pc t.
Proof.
  intros Hwf Ha Hpc Habs. unfold update_entry.
  rewrite (proj2 (Z.eqb_neq _ _)) by done. unfold predict_address.
  rewrite !table_index_spec in *.
  pose proof (Z.mod_pos_bound pc 32 ltac:(lia)). pose proof (Z.mod_pos_bound target 32 ltac:(lia)).
  destruct (Z.eqb_spec (pc mod 32) (target mod 32)) as [E|E].
  - rewrite E, entry_set_eq by done. simpl.
    destruct (pc =? a), (target <? u64 (a + 4)); done.
  - rewrite entry_set_ne by (done || lia). done.
Qed.
