(* ===== verification/Cache.v ===== *)
(** * The caches, [cache.c], [cache.h]

    One direct-mapped instruction cache (512 blocks of 16 bytes) and one
    two-way data cache (2048 sets of 8-byte blocks), write-back and
    write-allocate: the configuration [WRITEBACK], [TWOWAY] of [cache.h]. *)
From S2P Require Import Prelude Memory Port.

Inductive cache_kind : Type := CACHE_INSTRUCTION | CACHE_DATA.

#[export] Instance cache_kind_eq_dec : EqDecision cache_kind.
Proof. solve_decision. Defined.

(** The union [cache_row]: a cache uses one member of the union only, the
    one of its [cache_type], so one record serves both.  [data] is the array
    of 32-bit words as bytes: 16 of them in [cache_row_i], 8 in
    [cache_row_d]; the instruction cache never uses [dirty]. *)
Record cache_row : Type := mkRow {
  tag : Z;
  data : list Z;
  dirty : bool;
  valid : bool;
}.

Definition set_data (x : list Z) (r : cache_row) : cache_row :=
  mkRow (tag r) x (dirty r) (valid r).
Definition set_dirty (x : bool) (r : cache_row) : cache_row :=
  mkRow (tag r) (data r) x (valid r).
(** [tag = t; valid = 1; dirty = d] *)
Definition install (t : Z) (d : bool) (r : cache_row) : cache_row :=
  mkRow t (data r) d true.

Record cache_table : Type := mkCache {
  num_blocks : Z;
  index_length : Z;
  cache_type : cache_kind;
  block_size : Z;
  rows : list cache_row;
}.

Definition set_rows (x : list cache_row) (c : cache_table) : cache_table :=
  mkCache (num_blocks c) (index_length c) (cache_type c) (block_size c) x.

(** Static storage before [construct_cache]. *)
Definition no_cache : cache_table := mkCache 0 0 CACHE_INSTRUCTION 0 [].

Definition is_data (c : cache_table) : bool := bool_decide (cache_type c = CACHE_DATA).

(** [log (n) / log (2)] is the integer logarithm for the two sizes in use,
    which are powers of two; [scalloc] gives zeroed rows. *)
Definition construct_cache (blocks : Z) (kind : cache_kind) : cache_table :=
  let block := if decide (kind = CACHE_INSTRUCTION) then 4 else 3 in
  let ways := if decide (kind = CACHE_DATA) then 2 else 1 in
  mkCache blocks (u8 (Z.log2 blocks)) kind block
    (replicate (Z.to_nat (blocks * ways))
       (mkRow 0 (replicate (Z.to_nat (2 ^ block)) 0) false false)).

(** [cache->rows[i]]; outside the array the access is undefined. *)
Definition get_row (i : Z) (c : cache_table) : outcome cache_row :=
  match rows c !! Z.to_nat i with Some r => Ok r | None => Undef end.
Definition put_row (i : Z) (r : cache_row) (c : cache_table) : cache_table :=
  set_rows (<[Z.to_nat i := r]> (rows c)) c.

(** ** Address fields *)

(** [(address << ((64 - block_size) - index_length)) >> (64 - index_length)] *)
Definition index_of (c : cache_table) (address : Z) : Z :=
  Z.shiftr (u64 (Z.shiftl address (64 - block_size c - index_length c)))
    (64 - index_length c).
Definition tag_of (c : cache_table) (address : Z) : Z :=
  Z.shiftr address (block_size c + index_length c).
(** [address << (64 - block_size) >> (64 - block_size)] *)
Definition subindex_of (c : cache_table) (address : Z) : Z :=
  Z.shiftr (u64 (Z.shiftl address (64 - block_size c))) (64 - block_size c).

(** The bit-fields [tag:50] and [tag:51]. *)
Definition tag_field (c : cache_table) (t : Z) : Z := wrap (if is_data c then 50 else 51) t.

(** The address that an evicted row is written back to.  GCC shifts a
    bit-field in its own width. *)
Definition old_address_of (c : cache_table) (r : cache_row) (index : Z) : Z :=
  Z.lor (tag_field c (Z.shiftl (tag r) (index_length c + block_size c)))
        (u64 (Z.shiftl index (block_size c))).

(** [data[i]] of a row: the 32-bit word [i]. *)
Definition word_at (r : cache_row) (i : Z) : outcome Z :=
  let bs := take 4 (drop (Z.to_nat (4 * i)) (data r)) in
  if decide (length bs = 4%nat) then Ok (bytes_to_Z bs) else Undef.

(** [cache_hit = data[subindex]], with [data[subindex + 1]] in the upper
    half when [size == 8]. *)
Definition read_words (r : cache_row) (subindex size : Z) : outcome Z :=
  lo ← word_at r subindex;
  if size =? 8 then
    hi ← word_at r (subindex + 1);
    Ok (Z.lor lo (u64 (Z.shiftl hi 32)))
  else Ok lo.

Section cache.
Context {M : Type} `{MemoryPort M}.

(** The choice of the way to evict.  The second way is looked at only when
    the first is valid. *)
Definition victim (c : cache_table) (index : Z) : outcome Z :=
  r0 ← get_row index c;
  if valid r0 then
    r1 ← get_row (index + num_blocks c) c;
    Ok (if negb (valid r1) || (dirty r0 && negb (dirty r1))
        then index + num_blocks c else index)
  else Ok index.

(** [memory_status (old_address, NULL)]: bytes delivered to [NULL]. *)
Definition status_null (address : Z) (m : M) : outcome (bool * M) :=
  '(ok, bs, m) ← port_status address m;
  match bs with [] => Ok (ok, m) | _ :: _ => Undef end.

(** The write-back of a dirty row.  [None] is the early [return NULL]. *)
Definition write_back (c : cache_table) (index : Z) (is_followup : bool) (m : M)
    : outcome (option bool * cache_table * M) :=
  r ← get_row index c;
  if is_data c && dirty r then
    let old_address := old_address_of c r index in
    if is_followup then
      '(ok, m) ← status_null old_address m;
      if ok then Ok (Some false, put_row index (set_dirty false r) c, m)
      else Ok (None, c, m)
    else
      '(ok, m) ← port_write old_address (bytes_to_Z (data r)) 8 m;
      if ok then Ok (Some false, put_row index (set_dirty false r) c, m)
      else Ok (Some true, c, m)
  else Ok (Some false, c, m).

(** [None] is the result [NULL]: stall.  [Some i] is [&cache->rows[i]]. *)
Definition evict_read (c : cache_table) (address index t : Z) (is_followup : bool) (m : M)
    : outcome (option Z * cache_table * M) :=
  index ← (if is_data c then victim c index else Ok index);
  '(wb, c, m) ← write_back c index is_followup m;
  match wb with
  | None => Ok (None, c, m)
  | Some needs_stall =>
      r ← get_row index c;
      '(ok, bs, m) ← (if is_followup then port_status address m
                      else port_read address (if is_data c then 8 else 16) m);
      d ← patch (data r) bs;
      let r := set_data d r in
      if negb ok || (negb is_followup && needs_stall)
      then Ok (None, put_row index r c, m)
      else Ok (Some index, put_row index (install (tag_field c t) (if is_data c then false else dirty r) r) c,
               m)
  end.

(** The row that holds the block of [address]: the tests of
    [read_access] in their order. *)
Definition find_row (c : cache_table) (index t : Z) (size subindex : Z)
    : outcome (option cache_row) :=
  r0 ← get_row index c;
  if is_data c then
    if valid r0 && (tag r0 =? t) then Ok (Some r0)
    else
      r1 ← get_row (index + num_blocks c) c;
      if valid r1 && (tag r1 =? t) then Ok (Some r1) else Ok None
  else if valid r0 && (tag r0 =? t) && (negb (size =? 8) || negb (subindex =? 3))
  then Ok (Some r0) else Ok None.

(** The final store to [*value]: [size] bytes of [cache_hit]. *)
Definition store_value (size cache_hit : Z) : outcome (list Z) :=
  if (size =? 1) || (size =? 2) || (size =? 4) || (size =? 8)
  then Ok (Z_to_bytes (Z.to_nat size) cache_hit) else Exit 1.

(** The status is 0 with the bytes stored at [*value], 1 to stall for
    memory, or 2 to stall because the TLB used the access of the stage. *)
Definition read_access (c : cache_table) (address size : Z)
    (is_followup memory_read_available : bool) (m : M)
    : outcome (Z * list Z * cache_table * M) :=
  let index := index_of c address in
  let t := tag_of c address in
  let subindex := subindex_of c address in
  if nonzero (Z.land subindex 3) then Exit 1
  else
    let subindex := Z.shiftr subindex 2 in
    found ← find_row c index t size subindex;
    match found with
    | Some r =>
        cache_hit ← read_words r subindex size;
        bs ← store_value size cache_hit;
        Ok (0, bs, c, m)
    | None =>
        if negb memory_read_available then Ok (2, [], c, m)
        else
          '(row, c, m) ← evict_read c address index t is_followup m;
          match row with
          | None => Ok (1, [], c, m)
          | Some i =>
              r ← get_row i c;
              cache_hit ← read_words r subindex size;
              bs ← store_value size cache_hit;
              Ok (0, bs, c, m)
          end
    end.

(** [memcpy] of [size] bytes to byte [subindex] of the row; [data] is a
    [uint64_t]. *)
Definition memcpy_row (r : cache_row) (subindex value size : Z) : outcome cache_row :=
  if 8 <? size then Undef
  else d ← patch_at (data r) (Z.to_nat subindex) (Z_to_bytes (Z.to_nat size) value);
       Ok (set_data d r).

(** Lines 164-169: one way is chosen here, and for a size other than 8
    [evict_read] chooses again, starting from the way chosen here. *)
Definition evict_write (c : cache_table) (address index t value subindex size : Z)
    (is_followup memory_read_available : bool) (m : M)
    : outcome (Z * cache_table * M) :=
  if negb (is_data c) then Ok (2, c, m)
  else
    index ← victim c index;
    let finish (i : Z) (c : cache_table) (m : M) : outcome (Z * cache_table * M) :=
      r ← get_row i c;
      r ← memcpy_row r subindex value size;
      Ok (0, put_row i (install (tag_field c t) true r) c, m) in
    if negb (size =? 8) then
      if negb memory_read_available then Ok (2, c, m)
      else
        '(row, c, m) ← evict_read c address index t is_followup m;
        match row with
        | None => Ok (1, c, m)
        | Some i => finish i c m
        end
    else
      r ← get_row index c;
      if dirty r then
        if negb memory_read_available then Ok (2, c, m)
        else
          let old_address := old_address_of c r index in
          '(ok, m) ← (if is_followup then status_null old_address m
                      else port_write old_address (bytes_to_Z (data r)) 8 m);
          if ok then finish index (put_row index (set_dirty false r) c) m
          else Ok (1, c, m)
      else finish index c m.

(** A hit in the second way copies the data into the row of the first. *)
Definition write_access (c : cache_table) (address value size : Z)
    (is_followup memory_read_available : bool) (m : M)
    : outcome (Z * cache_table * M) :=
  if negb (is_data c) then Ok (1, c, m)
  else
    let index := index_of c address in
    let t := tag_of c address in
    let subindex := subindex_of c address in
    r0 ← get_row index c;
    if valid r0 && (tag r0 =? t) then
      r ← memcpy_row r0 subindex value size;
      Ok (0, put_row index r c, m)
    else
      r1 ← get_row (index + num_blocks c) c;
      if valid r1 && (tag r1 =? t) then
        r ← memcpy_row r0 subindex value size;
        Ok (0, put_row index r c, m)
      else evict_write c address index t value subindex size
             is_followup memory_read_available m.
End cache.
