(* ===== verification/CacheSpec.v ===== *)
(** * What the caches promise

    The refinement of [cache.c] to a flat memory.  [cview c v] is the memory
    a client sees through the cache [c] in front of the memory [v]: a byte
    of a resident block comes from its row, any other byte from [v].  Reads
    deliver that view and do not change it; writes update it. *)
From S2P Require Import Prelude Memory Port Cache.

(** ** Well-formed caches *)

Definition ways (c : cache_table) : Z := if is_data c then 2 else 1.

Record row_wf (c : cache_table) (r : cache_row) : Prop := {
  row_length : length (data r) = Z.to_nat (2 ^ block_size c);
  row_bytes : bytes_ok (data r);
  row_tag : urange 64 (tag r);
  row_clean : is_data c = false → dirty r = false;
}.

Record cache_wf (c : cache_table) : Prop := {
  cw_index : 0 < index_length c ≤ 32;
  cw_blocks : num_blocks c = 2 ^ index_length c;
  cw_block : block_size c = if is_data c then 3 else 4;
  cw_length : length (rows c) = Z.to_nat (num_blocks c * ways c);
  cw_rows : Forall (row_wf c) (rows c);
}.

Lemma construct_cache_wf kind k : 0 < k ≤ 32 → cache_wf (construct_cache (2 ^ k) kind).
Proof.
  intros Hk. assert (u8 (Z.log2 (2 ^ k)) = k) as Hlog.
  { rewrite Z.log2_pow2 by lia. apply wrap_small. unfold urange. lia. }
  constructor; simpl; rewrite ?Hlog; try done.
  - destruct kind; done.
  - rewrite length_replicate. destruct kind; done.
  - apply Forall_replicate. constructor; simpl.
    + rewrite length_replicate. destruct kind; done.
    + apply replicate_bytes_ok.
    + split; lia.
    + done.
Qed.

(** ** Address fields *)

Definition row (c : cache_table) (i : Z) : option cache_row := rows c !! Z.to_nat i.

Section fields.
Context (c : cache_table) (Hwf : cache_wf c).

Lemma block_size_range : 3 ≤ block_size c ≤ 4.
Proof. rewrite (cw_block _ Hwf). destruct (is_data c); lia. Qed.

Lemma tag_of_spec a : tag_of c a = a / 2 ^ block_size c / 2 ^ index_length c.
Proof.
  pose proof block_size_range. pose proof (cw_index _ Hwf).
  unfold tag_of. rewrite Z.shiftr_div_pow2, Z.pow_add_r by lia.
  pose proof (pow2_pos (block_size c)). pose proof (pow2_pos (index_length c)).
  rewrite Z.div_div by lia. done.
Qed.

Lemma index_of_spec a : index_of c a = (a / 2 ^ block_size c) mod 2 ^ index_length c.
Proof.
  pose proof block_size_range. pose proof (cw_index _ Hwf).
  unfold index_of. rewrite shift_field by lia.
  replace (64 - (64 - block_size c - index_length c))
    with (block_size c + index_length c) by lia.
  replace (64 - index_length c - (64 - block_size c - index_length c))
    with (block_size c) by lia.
  apply mod_div_pow2; lia.
Qed.

Lemma subindex_of_spec a : subindex_of c a = a mod 2 ^ block_size c.
Proof.
  pose proof block_size_range. unfold subindex_of. rewrite shift_field by lia.
  replace (64 - (64 - block_size c)) with (block_size c) by lia.
  rewrite Z.sub_diag, Z.div_1_r. done.
Qed.

Lemma index_of_range a : 0 ≤ index_of c a < num_blocks c.
Proof.
  pose proof (cw_index _ Hwf). rewrite index_of_spec, (cw_blocks _ Hwf).
  apply Z.mod_pos_bound, pow2_pos. lia.
Qed.

Lemma subindex_of_range a : 0 ≤ subindex_of c a < 2 ^ block_size c.
Proof.
  pose proof block_size_range. rewrite subindex_of_spec.
  apply Z.mod_pos_bound, pow2_pos. lia.
Qed.

Lemma tag_of_range a : urange 32 a → urange 32 (tag_of c a).
Proof.
  intros [? ?]. pose proof block_size_range. pose proof (cw_index _ Hwf).
  unfold tag_of. rewrite Z.shiftr_div_pow2 by lia.
  pose proof (pow2_pos (block_size c + index_length c)). split.
  - apply Z.div_pos; lia.
  - apply Z.div_lt_upper_bound; [lia|]. nia.
Qed.

(** The tag of a physical address fits its bit-field. *)
Lemma tag_field_small a : urange 32 a → tag_field c (tag_of c a) = tag_of c a.
Proof.
  intros Ha. destruct (tag_of_range a Ha). apply wrap_small.
  destruct (is_data c); split; lia.
Qed.

Lemma tag_of_range64 a : urange 32 a → urange 64 (tag_of c a).
Proof. intros Ha. destruct (tag_of_range a Ha). split; lia. Qed.

Lemma tag_field_range t : urange 64 (tag_field c t).
Proof.
  unfold tag_field. pose proof (wrap_range 50 t). pose proof (wrap_range 51 t).
  unfold urange in *. destruct (is_data c); lia.
Qed.

(** The three fields determine the address. *)
Lemma fields_compose a :
  a = tag_of c a * 2 ^ (block_size c + index_length c)
      + index_of c a * 2 ^ block_size c + subindex_of c a.
Proof.
  pose proof block_size_range. pose proof (cw_index _ Hwf).
  rewrite tag_of_spec, index_of_spec, subindex_of_spec.
  rewrite Z.pow_add_r by lia.
  pose proof (pow2_pos (block_size c)). pose proof (pow2_pos (index_length c)).
  pose proof (Z.div_mod a (2 ^ block_size c) ltac:(lia)).
  pose proof (Z.div_mod (a / 2 ^ block_size c) (2 ^ index_length c) ltac:(lia)). nia.
Qed.

(** Addresses of one block. *)
Lemma same_block a j : 0 ≤ j → subindex_of c a + j < 2 ^ block_size c →
  index_of c (a + j) = index_of c a ∧ tag_of c (a + j) = tag_of c a ∧
  subindex_of c (a + j) = subindex_of c a + j.
Proof.
  intros Hj Hsub. pose proof block_size_range. pose proof (pow2_pos (block_size c) ltac:(lia)).
  rewrite !index_of_spec, !tag_of_spec, !subindex_of_spec in *.
  pose proof (Z.mod_pos_bound a (2 ^ block_size c) ltac:(lia)).
  pose proof (Z.div_mod a (2 ^ block_size c) ltac:(lia)).
  assert ((a + j) / 2 ^ block_size c = a / 2 ^ block_size c) as ->.
  { symmetry. apply (Z.div_unique _ _ _ (a mod 2 ^ block_size c + j)); lia. }
  split_and!; try done. symmetry.
  apply (Z.mod_unique _ _ (a / 2 ^ block_size c)); lia.
Qed.

(** ** Rows *)

Lemma row_is_Some i : 0 ≤ i < num_blocks c * ways c → ∃ r, row c i = Some r ∧ row_wf c r.
Proof.
  intros Hi. destruct (lookup_lt_is_Some_2 (rows c) (Z.to_nat i)) as [r Hr].
  - rewrite (cw_length _ Hwf). lia.
  - exists r. split; [done|]. exact (Forall_lookup_1 _ _ _ _ (cw_rows _ Hwf) Hr).
Qed.

Lemma get_row_Some i r : row c i = Some r → get_row i c = Ok r.
Proof. unfold row, get_row. intros ->. done. Qed.

Lemma row_wf_row i r : row c i = Some r → row_wf c r.
Proof. exact (Forall_lookup_1 _ _ _ _ (cw_rows _ Hwf)). Qed.

Lemma put_row_wf i r : row_wf c r → cache_wf (put_row i r c).
Proof.
  intros Hr. destruct Hwf. constructor; simpl; try done.
  - rewrite length_insert. exact cw_length0.
  - apply Forall_insert; [|by destruct Hr]. eapply Forall_impl; [|exact cw_rows0].
    intros r' []. by constructor.
Qed.

Lemma row_put_eq i r : 0 ≤ i < num_blocks c * ways c → row (put_row i r c) i = Some r.
Proof.
  intros. unfold row, put_row. simpl. rewrite list_lookup_insert_eq; [done|].
  rewrite (cw_length _ Hwf). lia.
Qed.

Lemma row_put_ne i j r : 0 ≤ i → 0 ≤ j → i ≠ j → row (put_row i r c) j = row c j.
Proof. intros. unfold row, put_row. simpl. rewrite list_lookup_insert_ne by lia. done. Qed.
End fields.

(** ** The memory seen through a cache *)

Definition holds (r : cache_row) (t : Z) : bool := valid r && (tag r =? t).

(** The row a lookup of [a] finds. *)
Definition hit_row (c : cache_table) (a : Z) : option cache_row :=
  match row c (index_of c a) with
  | Some r0 =>
      if holds r0 (tag_of c a) then Some r0
      else if is_data c then
        match row c (index_of c a + num_blocks c) with
        | Some r1 => if holds r1 (tag_of c a) then Some r1 else None
        | None => None
        end
      else None
  | None => None
  end.

Definition cview (c : cache_table) (v : Z → Z) : Z → Z := λ a,
  match hit_row c a with
  | Some r => nth (Z.to_nat (subindex_of c a)) (data r) 0
  | None => v a
  end.

(** The rows in which the block of [a] may be. *)
Definition may_hold (c : cache_table) (a i : Z) : Prop :=
  i = index_of c a ∨ (is_data c = true ∧ i = index_of c a + num_blocks c).

(** A clean row agrees with memory. *)
Definition coherent (c : cache_table) (v : Z → Z) : Prop :=
  ∀ a i r, may_hold c a i → row c i = Some r → holds r (tag_of c a) = true →
    dirty r = false → nth (Z.to_nat (subindex_of c a)) (data r) 0 = v a.

(** A block is in at most one of the two ways. *)
Definition no_duplicates (c : cache_table) : Prop :=
  ∀ a r0 r1, is_data c = true → row c (index_of c a) = Some r0 →
    row c (index_of c a + num_blocks c) = Some r1 →
    holds r0 (tag_of c a) = true → holds r1 (tag_of c a) = true → False.

#[export] Instance cview_proper c : Proper (view_eq ==> view_eq) (cview c).
Proof. intros v1 v2 Hv a. unfold cview. case_match; [done|]. apply Hv. Qed.

Lemma coherent_proper c v1 v2 : v1 ≐ v2 → coherent c v1 → coherent c v2.
Proof. intros Hv H a i r ????. rewrite <-Hv. eauto. Qed.

Lemma holds_spec r t : holds r t = true ↔ valid r = true ∧ tag r = t.
Proof. unfold holds. rewrite andb_true_iff, Z.eqb_eq. done. Qed.

Lemma join_words e : bytes_ok e → length e = 8%nat →
  Z.lor (bytes_to_Z (take 4 e)) (u64 (Z.shiftl (bytes_to_Z (drop 4 e)) 32)) = bytes_to_Z e.
Proof.
  intros He Hl.
  pose proof (bytes_to_Z_range _ (Forall_take _ 4 _ He)) as R1.
  pose proof (bytes_to_Z_range _ (Forall_drop _ 4 _ He)) as R2.
  rewrite length_take_le in R1 by lia. rewrite length_drop, Hl in R2.
  change (urange 32 (bytes_to_Z (take 4 e))) in R1.
  change (urange 32 (bytes_to_Z (drop 4 e))) in R2.
  rewrite wrap_small.
  - rewrite lor_shiftl by (done || lia). rewrite <-(take_drop 4 e) at 3.
    rewrite bytes_to_Z_app, length_take_le by lia. change (8 * Z.of_nat 4) with 32. lia.
  - rewrite Z.shiftl_mul_pow2 by lia. unfold urange in *. lia.
Qed.

Section view.
Context (c : cache_table) (Hwf : cache_wf c).

Lemma may_hold_range a i : may_hold c a i → 0 ≤ i < num_blocks c * ways c.
Proof.
  pose proof (index_of_range c Hwf a). unfold ways.
  intros [->|[-> ->]]; destruct (is_data c); lia.
Qed.

Lemma hit_row_Some a r : hit_row c a = Some r →
  ∃ i, may_hold c a i ∧ row c i = Some r ∧ holds r (tag_of c a) = true.
Proof.
  unfold hit_row. intros H. repeat case_match; simplify_eq.
  all: eexists; split_and!; [|done|done]; first [by left | by right].
Qed.

Lemma hit_row_wf a r : hit_row c a = Some r → row_wf c r.
Proof. intros (i & _ & Hr & _)%hit_row_Some. by eapply row_wf_row. Qed.

(** A miss says that neither way holds the block. *)
Lemma hit_row_None a i r : hit_row c a = None → may_hold c a i → row c i = Some r →
  holds r (tag_of c a) = false.
Proof.
  unfold hit_row. intros H Hi Hr. destruct (holds r (tag_of c a)) eqn:E; [|done].
  destruct (row_is_Some c Hwf (index_of c a)) as (r0 & Hr0 & _).
  { apply (may_hold_range a). by left. }
  rewrite Hr0 in H. destruct Hi as [->|[Hd ->]].
  - rewrite Hr0 in Hr. simplify_eq. by rewrite E in H.
  - rewrite Hd, Hr, E in H. by case_match.
Qed.

(** A row that holds the block makes the lookup succeed. *)
Lemma hit_row_is_Some a i r : may_hold c a i → row c i = Some r →
  holds r (tag_of c a) = true → is_Some (hit_row c a).
Proof.
  intros Hi Hr Hh. destruct (hit_row c a) eqn:E; [done|].
  rewrite (hit_row_None a i r) in Hh; done.
Qed.

Lemma find_row_spec a n sub : is_data c = true ∨ n ≠ 8 ∨ sub ≠ 3 →
  find_row c (index_of c a) (tag_of c a) n sub = Ok (hit_row c a).
Proof.
  intros Hn. unfold find_row, hit_row.
  destruct (row_is_Some c Hwf (index_of c a)) as (r0 & Hr0 & _).
  { apply (may_hold_range a). by left. }
  rewrite (get_row_Some _ _ _ Hr0), Hr0. simpl. destruct (is_data c) eqn:Hd.
  - destruct (row_is_Some c Hwf (index_of c a + num_blocks c)) as (r1 & Hr1 & _).
    { apply (may_hold_range a). by right. }
    rewrite (get_row_Some _ _ _ Hr1), Hr1. unfold holds. simpl. by repeat case_match.
  - destruct Hn as [Hn|Hn]; [congruence|].
    assert (negb (n =? 8) || negb (sub =? 3) = true) as ->.
    { rewrite orb_true_iff, !negb_true_iff, !Z.eqb_neq. done. }
    rewrite andb_true_r. unfold holds. by case_match.
Qed.

(** The bytes of a row as the words [read_access] combines. *)
Lemma word_at_spec r j : row_wf c r → 0 ≤ j → 4 * j + 4 ≤ 2 ^ block_size c →
  word_at r j = Ok (bytes_to_Z (take 4 (drop (Z.to_nat (4 * j)) (data r)))).
Proof.
  intros Hr Hj Hl. unfold word_at. rewrite decide_True; [done|].
  rewrite length_take, length_drop, (row_length _ _ Hr). lia.
Qed.

(** A read of [n] bytes at a word of a row. *)
Lemma read_words_spec r sub n : row_wf c r → access_size n → 0 ≤ sub →
  4 * sub + Z.max 4 n ≤ 2 ^ block_size c →
  (hit ← read_words r sub n; store_value n hit)
  = Ok (take (Z.to_nat n) (drop (Z.to_nat (4 * sub)) (data r))).
Proof.
  intros Hr Hn Hs Hl. set (d := drop (Z.to_nat (4 * sub)) (data r)).
  assert (bytes_ok d) as Hd by apply Forall_drop, Hr.
  assert (Z.max 4 n ≤ Z.of_nat (length d)) as Hdl.
  { unfold d. rewrite length_drop, (row_length _ _ Hr). lia. }
  unfold read_words. rewrite word_at_spec by (done || lia). fold d. simpl.
  assert (∀ x, store_value n x = Ok (Z_to_bytes (Z.to_nat n) x)) as Hst.
  { intros x. unfold store_value. destruct_or! Hn; subst; done. }
  destruct (Z.eqb_spec n 8) as [->|Hn8].
  - rewrite word_at_spec by (done || lia). simpl. rewrite Hst. f_equal.
    replace (Z.to_nat (4 * (sub + 1))) with (Z.to_nat (4 * sub) + 4)%nat by lia.
    rewrite <-drop_drop. fold d.
    rewrite take_drop_commute. change (4 + 4)%nat with 8%nat.
    replace (take 4 d) with (take 4 (take 8 d)) by (rewrite take_take; done).
    set (e := take 8 d).
    assert (bytes_ok e) as He by (by apply Forall_take).
    assert (length e = 8%nat) as Hel by (unfold e; rewrite length_take_le; lia).
    rewrite join_words by done. rewrite <-Hel at 1.
    by apply Z_to_bytes_to_Z.
  - simpl. rewrite Hst. f_equal. destruct_or! Hn; subst; try done.
    all: rewrite Z_to_bytes_take;
      [rewrite take_take; done|by apply Forall_take|rewrite length_take_le; lia].
Qed.

Lemma hit_row_same a a' : index_of c a' = index_of c a → tag_of c a' = tag_of c a →
  hit_row c a' = hit_row c a.
Proof. unfold hit_row. intros -> ->. done. Qed.

(** The bytes of a resident block. *)
Lemma cview_resident v a r n : hit_row c a = Some r →
  subindex_of c a + Z.of_nat n ≤ 2 ^ block_size c →
  get_bytes (cview c v) a n = take n (drop (Z.to_nat (subindex_of c a)) (data r)).
Proof.
  intros Hr Hn. pose proof (subindex_of_range c Hwf a).
  assert (length (take n (drop (Z.to_nat (subindex_of c a)) (data r))) = n) as Hl.
  { rewrite length_take_le; [done|].
    rewrite length_drop, (row_length _ _ (hit_row_wf _ _ Hr)). lia. }
  rewrite <-Hl at 1. apply get_bytes_eq. intros i b Hi.
  pose proof (lookup_lt_Some _ _ _ Hi).
  destruct (same_block c Hwf a (Z.of_nat i)) as (Hidx & Htag & Hsub); [lia|lia|].
  unfold cview. rewrite (hit_row_same a) by done. rewrite Hr, Hsub.
  apply nth_lookup_total. rewrite lookup_take_lt, lookup_drop in Hi by lia.
  rewrite <-Hi. f_equal. lia.
Qed.

(** The offset tests of [read_access] on an address. *)
Lemma word_offset a : a mod 4 = 0 →
  nonzero (Z.land (subindex_of c a) 3) = false ∧
  4 * Z.shiftr (subindex_of c a) 2 = subindex_of c a.
Proof.
  intros Ha. pose proof (block_size_range c Hwf).
  assert (subindex_of c a mod 4 = 0) as Hm.
  { rewrite (subindex_of_spec c Hwf). rewrite <-Ha.
    apply (wrap_wrap 2 (block_size c)). lia. }
  split.
  - apply nonzero_false. change 3 with (Z.ones 2). rewrite Z.land_ones by lia. done.
  - rewrite Z.shiftr_div_pow2 by lia. change (2 ^ 2) with 4.
    pose proof (Z.div_mod (subindex_of c a) 4). lia.
Qed.

(** An aligned access stays inside a block. *)
Lemma aligned_in_block a n : access_size n → a mod 4 = 0 → (n = 8 → a mod 8 = 0) →
  subindex_of c a + Z.max 4 n ≤ 2 ^ block_size c.
Proof.
  intros Hn H4 H8. pose proof (block_size_range c Hwf).
  pose proof (subindex_of_range c Hwf a) as Hr.
  assert (∀ k, 0 ≤ k ≤ 3 → a mod 2 ^ k = 0 → (subindex_of c a) mod 2 ^ k = 0) as Hdiv.
  { intros k Hk Ha. rewrite (subindex_of_spec c Hwf), <-Ha. apply (wrap_wrap k). lia. }
  destruct (Z.eq_dec n 8) as [->|Hn8].
  - pose proof (Hdiv 3 ltac:(lia) (H8 eq_refl)) as Hs. change (2 ^ 3) with 8 in Hs.
    pose proof (Z.div_mod (subindex_of c a) 8 ltac:(lia)).
    destruct (Z.eq_dec (block_size c) 3) as [E|E]; [rewrite E in *; simpl in *; lia|].
    replace (block_size c) with 4 in * by lia. change (2 ^ 4) with 16 in *. lia.
  - pose proof (Hdiv 2 ltac:(lia) H4) as Hs. change (2 ^ 2) with 4 in Hs.
    pose proof (Z.div_mod (subindex_of c a) 4 ltac:(lia)).
    unfold access_size in Hn. replace (Z.max 4 n) with 4 by lia.
    destruct (Z.eq_dec (block_size c) 3) as [E|E]; [rewrite E in *; simpl in *; lia|].
    replace (block_size c) with 4 in * by lia. change (2 ^ 4) with 16 in *. lia.
Qed.

Lemma read_row_spec {A} a r n (k : list Z → outcome A) :
  row_wf c r → access_size n → a mod 4 = 0 → (n = 8 → a mod 8 = 0) →
  (hit ← read_words r (Z.shiftr (subindex_of c a) 2) n; bs ← store_value n hit; k bs)
  = k (take (Z.to_nat n) (drop (Z.to_nat (subindex_of c a)) (data r))).
Proof.
  intros Hr Hn H4 H8. destruct (word_offset a H4) as [_ Hw].
  pose proof (aligned_in_block a n Hn H4 H8). pose proof (subindex_of_range c Hwf a).
  rewrite <-bind_assoc, read_words_spec by (done || lia). rewrite Hw. done.
Qed.

(** The word offset 3 of an instruction block is not a doubleword. *)
Lemma doubleword_offset a n : access_size n → (n = 8 → a mod 8 = 0) →
  n ≠ 8 ∨ Z.shiftr (subindex_of c a) 2 ≠ 3.
Proof.
  intros Hn H8. destruct (Z.eq_dec n 8) as [E|E]; [right|by left].
  pose proof (block_size_range c Hwf). specialize (H8 E).
  rewrite (subindex_of_spec c Hwf), Z.shiftr_div_pow2 by lia. change (2 ^ 2) with 4.
  assert ((a mod 2 ^ block_size c) mod 8 = 0) as Hm.
  { rewrite <-H8. apply (wrap_wrap 3 (block_size c)). lia. }
  intros H3. pose proof (Z.div_mod (a mod 2 ^ block_size c) 4 ltac:(lia)).
  pose proof (Z.div_mod (a mod 2 ^ block_size c) 8 ltac:(lia)).
  pose proof (Z.mod_pos_bound (a mod 2 ^ block_size c) 4 ltac:(lia)). lia.
Qed.
End view.

(** Without duplicates, the row that holds a block is the one found. *)
Lemma hit_row_unique c a i r : cache_wf c → no_duplicates c → may_hold c a i →
  row c i = Some r → holds r (tag_of c a) = true → hit_row c a = Some r.
Proof.
  intros Hwf Hnd Hi Hr Hh. unfold hit_row.
  destruct (row_is_Some c Hwf (index_of c a)) as (r0 & Hr0 & _).
  { eapply may_hold_range; [done|]. by left. }
  rewrite Hr0. destruct Hi as [->|[Hd ->]].
  - rewrite Hr0 in Hr. simplify_eq. by rewrite Hh.
  - destruct (holds r0 (tag_of c a)) eqn:E0; [|by rewrite Hd, Hr, Hh].
    by destruct (Hnd a r0 r).
Qed.

(** ** Replacing a row *)

Section replace.
Context (c : cache_table) (Hwf : cache_wf c) (v : Z → Z).
Context (Hco : coherent c v) (Hnd : no_duplicates c).
(** The block at [a] is not resident; [r'] brings it into row [i]. *)
Context (a i : Z) (r r' : cache_row).
Context (Hmiss : hit_row c a = None) (Hi : may_hold c a i).
Context (Hr : row c i = Some r) (Hclean : dirty r = false).
Context (Hr' : row_wf c r') (Hholds : holds r' (tag_of c a) = true).

Let c' := put_row i r' c.

Lemma replace_wf : cache_wf c'.
Proof. by apply put_row_wf. Qed.

Lemma replace_row_same : row c' i = Some r'.
Proof. apply row_put_eq; [done|]. by eapply may_hold_range. Qed.

Lemma replace_row_other j : 0 ≤ j → j ≠ i → row c' j = row c j.
Proof.
  intros. apply row_put_ne; [|done|done]. pose proof (may_hold_range c Hwf _ _ Hi). lia.
Qed.

(** A row of another set is not the replaced one. *)
Lemma other_set a' j : may_hold c a' j → index_of c a' ≠ index_of c a → j ≠ i.
Proof.
  intros Hj Hne ->. pose proof (index_of_range c Hwf a). pose proof (index_of_range c Hwf a').
  destruct Hi as [Hi'|[? Hi']], Hj as [Hj|[? Hj]]; lia.
Qed.

Lemma may_hold_nonneg a' j : may_hold c a' j → 0 ≤ j.
Proof. intros. by eapply may_hold_range. Qed.

(** A resident block of the new cache is the new one or was resident. *)
Lemma replace_holds a' j q :
  may_hold c a' j → row c' j = Some q → holds q (tag_of c a') = true →
  (j = i ∧ q = r' ∧ index_of c a' = index_of c a ∧ tag_of c a' = tag_of c a) ∨
  (j ≠ i ∧ row c j = Some q).
Proof.
  intros Hj Hq Hh. destruct (decide (j = i)) as [->|Hne].
  - left. rewrite replace_row_same in Hq. simplify_eq.
    rewrite holds_spec in Hh, Hholds. destruct Hh, Hholds. split_and!; try done; [|congruence].
    destruct (decide (index_of c a' = index_of c a)); [done|]. by destruct (other_set a' i).
  - right. split; [done|]. rewrite <-Hq. symmetry. apply replace_row_other; [|done].
    by eapply may_hold_nonneg.
Qed.

Lemma replace_no_duplicates : no_duplicates c'.
Proof.
  intros a' r0 r1 Hd H0 H1 Hh0 Hh1.
  change (is_data c = true) in Hd. change (holds r0 (tag_of c a') = true) in Hh0.
  change (holds r1 (tag_of c a') = true) in Hh1.
  pose proof (index_of_range c Hwf a').
  destruct (replace_holds a' (index_of c a') r0) as [(E0 & -> & Ei & Et)|(N0 & R0)];
    [by left|done|done| |];
  destruct (replace_holds a' (index_of c a' + num_blocks c) r1) as [(E1 & -> & Ei' & Et')|(N1 & R1)];
    try done; try (by right).
  - lia.
  - rewrite Et, (hit_row_None c Hwf a (index_of c a + num_blocks c) r1) in Hh1;
      [done|done|by right|by rewrite <-Ei].
  - rewrite Et', (hit_row_None c Hwf a (index_of c a) r0) in Hh0;
      [done|done|by left|by rewrite <-Ei'].
  - by eapply Hnd.
Qed.

(** The new row holds the bytes of memory. *)
Context (Hdata : ∀ a', index_of c a' = index_of c a → tag_of c a' = tag_of c a →
                       nth (Z.to_nat (subindex_of c a')) (data r') 0 = v a').

Lemma replace_coherent : coherent c' v.
Proof.
  intros a' j q Hj Hq Hh Hd.
  destruct (replace_holds a' j q) as [(-> & -> & ? & ?)|(? & ?)]; [done..| |].
  - by apply Hdata.
  - by eapply Hco.
Qed.

Lemma replace_view : cview c' v ≐ cview c v.
Proof.
  intros a'. unfold cview at 1. change (subindex_of c' a') with (subindex_of c a').
  destruct (hit_row c' a') as [q|] eqn:Hq.
  - apply (hit_row_Some c') in Hq as (j & Hj & Hq & Hh).
    destruct (replace_holds a' j q) as [(-> & -> & Ei & Et)|(Hne & Hrow)]; [done..| |].
    + rewrite Hdata by done. unfold cview. rewrite (hit_row_same c a) by done. by rewrite Hmiss.
    + unfold cview. erewrite (hit_row_unique c a' j); done.
  - unfold cview. destruct (hit_row c a') as [q|] eqn:Hq0; [|done].
    apply hit_row_Some in Hq0 as (j & Hj & Hrow & Hh).
    destruct (decide (j = i)) as [->|Hne].
    + rewrite Hr in Hrow. simplify_eq. symmetry. by eapply Hco.
    + pose proof (hit_row_None c' replace_wf a' j q Hq Hj) as Hf.
      rewrite replace_row_other in Hf by (done || by eapply may_hold_nonneg).
      specialize (Hf Hrow). change (holds q (tag_of c a') = false) in Hf. congruence.
Qed.
End replace.

Section access.
Context {M : Type} `{MemoryPort M, !MemoryPortLaws M}.
Context (c : cache_table) (Hwf : cache_wf c).

(** A hit: the bytes of the view, without a change of the cache or of
    memory. *)
Lemma read_access_hit a n r fu av (m : M) v :
  access_size n → a mod 4 = 0 → (n = 8 → a mod 8 = 0) → hit_row c a = Some r →
  read_access c a n fu av m = Ok (0, get_bytes (cview c v) a (Z.to_nat n), c, m).
Proof.
  intros Hn H4 H8 Hr. unfold read_access.
  rewrite (proj1 (word_offset c Hwf a H4)).
  rewrite (find_row_spec c Hwf) by (right; by apply doubleword_offset). rewrite Hr. simpl.
  rewrite (read_row_spec c Hwf) by (done || by eapply hit_row_wf).
  erewrite cview_resident; [done|done|done|].
  pose proof (aligned_in_block c Hwf a n Hn H4 H8). unfold access_size in Hn. lia.
Qed.

(** The row that a miss of [a] replaces. *)
Definition evict_index (a : Z) : outcome Z :=
  if is_data c then victim c (index_of c a) else Ok (index_of c a).

Definition clean_victim (a : Z) : Prop :=
  match evict_index a with
  | Ok i => match row c i with Some r => dirty r = false | None => False end
  | _ => False
  end.

Lemma evict_index_spec a : ∃ i, evict_index a = Ok i ∧ may_hold c a i.
Proof.
  unfold evict_index. destruct (is_data c) eqn:Hd; [|by eexists; split; [|left]].
  destruct (row_is_Some c Hwf (index_of c a)) as (r0 & Hr0 & _).
  { eapply may_hold_range; [done|]. by left. }
  destruct (row_is_Some c Hwf (index_of c a + num_blocks c)) as (r1 & Hr1 & _).
  { eapply may_hold_range; [done|]. by right. }
  unfold victim. rewrite (get_row_Some _ _ _ Hr0), (get_row_Some _ _ _ Hr1). simpl.
  destruct (valid r0); simpl; [destruct (negb (valid r1) || _)|].
  all: eexists; split; [reflexivity|]; first [by left | by right].
Qed.

(** The size of the block and of the read that fills it. *)
Lemma block_read_size : 2 ^ block_size c = if is_data c then 8 else 16.
Proof. rewrite (cw_block _ Hwf). by destruct (is_data c). Qed.

(** Loading a block into a clean row. *)
Lemma evict_read_clean a (m : M) : port_wf m → port_readable m → urange 32 a →
  a mod 2 ^ block_size c = 0 → a + 2 ^ block_size c ≤ port_limit m → clean_victim a →
  ∃ i r r' m', evict_read c a (index_of c a) (tag_of c a) false m
               = Ok (Some i, put_row i r' c, m') ∧
    may_hold c a i ∧ row c i = Some r ∧ dirty r = false ∧
    row_wf c r' ∧ holds r' (tag_of c a) = true ∧
    data r' = get_bytes (port_view m) a (Z.to_nat (2 ^ block_size c)) ∧
    port_wf m' ∧ port_view m' ≐ port_view m ∧ port_limit m' = port_limit m.
Proof.
  intros Hm Hready Hr32 Hal Hlim Hcl. pose proof (tag_field_small c Hwf a Hr32) as Htag.
  destruct Hr32 as [Ha ?]. destruct (evict_index_spec a) as (i & Hei & Hi).
  destruct (row_is_Some c Hwf i) as (r & Hr & Hrwf); [by eapply may_hold_range|].
  unfold clean_victim in Hcl. rewrite Hei, Hr in Hcl.
  unfold evict_read. unfold evict_index in Hei. rewrite Hei. simpl.
  unfold write_back. rewrite (get_row_Some _ _ _ Hr). simpl.
  rewrite Hcl, andb_false_r. simpl. rewrite (get_row_Some _ _ _ Hr). simpl.
  rewrite <-block_read_size. pose proof block_read_size as Hbs.
  destruct (port_read_ready a (2 ^ block_size c) m)
    as ([[d bs] m'] & Hread & -> & -> & Hm' & Hv' & Hl'); try done.
  { rewrite Hbs. unfold access_size. destruct (is_data c); lia. }
  rewrite Hread. simpl. rewrite patch_full.
  2:{ rewrite length_get_bytes, (row_length _ _ Hrwf). done. }
  simpl. do 4 eexists. split; [done|]. split_and!; try done.
  - constructor; simpl.
    + rewrite length_get_bytes. done.
    + apply get_bytes_ok. intros. by apply port_view_byte.
    + apply tag_field_range.
    + intros Hd. rewrite Hd. exact Hcl.
  - apply holds_spec. simpl. by rewrite Htag.
Qed.

(** A block fetched from a block-aligned address has the bytes of memory
    at every address of the block. *)
Lemma fetched_block v a r' : a mod 2 ^ block_size c = 0 →
  data r' = get_bytes v a (Z.to_nat (2 ^ block_size c)) →
  ∀ a', index_of c a' = index_of c a → tag_of c a' = tag_of c a →
        nth (Z.to_nat (subindex_of c a')) (data r') 0 = v a'.
Proof.
  intros Hal -> a' Hi Ht. pose proof (subindex_of_range c Hwf a').
  pose proof (fields_compose c Hwf a) as Ha. pose proof (fields_compose c Hwf a') as Ha'.
  rewrite Hi, Ht in Ha'. rewrite (subindex_of_spec c Hwf a), Hal in Ha.
  apply nth_lookup_total. rewrite get_bytes_lookup by lia. do 2 f_equal. lia.
Qed.
End access.

(** The invariant of a cache in front of the memory [v]. *)
Record cache_inv (c : cache_table) (v : Z → Z) : Prop := {
  ci_wf : cache_wf c;
  ci_coherent : coherent c v;
  ci_unique : no_duplicates c;
}.

(** A power-on cache satisfies it, whatever memory holds. *)
Lemma construct_cache_inv kind k v : 0 < k ≤ 32 → cache_inv (construct_cache (2 ^ k) kind) v.
Proof.
  intros Hk. assert (∀ i r, row (construct_cache (2 ^ k) kind) i = Some r → valid r = false) as Hr.
  { intros i r Hr. unfold row in Hr. simpl in Hr. apply lookup_replicate in Hr as [-> _]. done. }
  constructor.
  - by apply construct_cache_wf.
  - intros a i r _ H%Hr Hh. apply holds_spec in Hh as [? _]. congruence.
  - intros a r0 r1 _ H%Hr _ Hh. apply holds_spec in Hh as [? _]. congruence.
Qed.

(** What the two access functions need of the memory side on a miss. *)
Definition fills {M} `{MemoryPortLaws M} (c : cache_table) (a : Z) (m : M) : Prop :=
  port_readable m ∧ a mod 2 ^ block_size c = 0 ∧ a + 2 ^ block_size c ≤ port_limit m ∧
  clean_victim c a.

Section transparency.
Context {M : Type} `{MemoryPortLaws M}.

Lemma read_access_returns c a n (m : M) :
  cache_inv c (port_view m) → port_wf m → urange 32 a →
  access_size n → a mod 4 = 0 → (n = 8 → a mod 8 = 0) →
  (is_Some (hit_row c a) ∨ fills c a m) →
  returns (λ '(st, bs, c', m'),
      st = 0 ∧ bs = get_bytes (cview c (port_view m)) a (Z.to_nat n) ∧
      cview c' (port_view m') ≐ cview c (port_view m) ∧
      is_Some (hit_row c' a) ∧ cache_inv c' (port_view m') ∧ port_wf m')
    (read_access c a n false true m).
Proof.
  intros [Hwf Hco Hnd] Hm Ha Hn H4 H8 Hcase. destruct (hit_row c a) as [q|] eqn:Hq.
  { eexists. split; [by apply (read_access_hit c Hwf _ _ q)|].
    simpl. rewrite Hq. split_and!; done. }
  destruct Hcase as [[q' ?]|(Hready & Hal & Hlim & Hcl)]; [done|].
  destruct (evict_read_clean c Hwf a m) as
    (i & r & r' & m' & Hev & Hi & Hr & Hd & Hr' & Hh & Hdata & Hm' & Hv' & Hl'); try done.
  pose proof (fetched_block c Hwf _ _ _ Hal Hdata) as Hfetch.
  pose proof (replace_view c Hwf _ Hco Hnd a i r r' Hq Hi Hr Hd Hr' Hh Hfetch) as Hview.
  assert (hit_row (put_row i r' c) a = Some r') as Hhit.
  { apply (hit_row_unique _ a i); try done.
    - by apply replace_wf.
    - by eapply replace_no_duplicates.
    - by eapply replace_row_same. }
  exists (0, get_bytes (cview c (port_view m)) a (Z.to_nat n), put_row i r' c, m'). split.
  - unfold read_access. rewrite (proj1 (word_offset c Hwf a H4)).
    rewrite (find_row_spec c Hwf) by (right; by apply doubleword_offset).
    rewrite Hq. simpl. rewrite Hev. simpl.
    rewrite (get_row_Some _ _ r') by by eapply replace_row_same. simpl.
    rewrite (read_row_spec c Hwf) by done.
    rewrite <-Hview. erewrite cview_resident; [done|by apply replace_wf|done|].
    pose proof (aligned_in_block c Hwf a n Hn H4 H8). unfold access_size in Hn.
    change (subindex_of c a + Z.of_nat (Z.to_nat n) ≤ 2 ^ block_size c). lia.
  - simpl. rewrite Hhit. split_and!; try done.
    + rewrite Hv'. done.
    + constructor; [by apply replace_wf| |by eapply replace_no_duplicates].
      eapply coherent_proper; [symmetry; done|]. by eapply replace_coherent.
Qed.

(** C4: the caches are transparent to reads.  From a coherent cache, a read
    on a word boundary (a doubleword boundary for 8 bytes) that hits, or that
    misses on the first address of a block inside memory while the row it
    replaces is clean and memory answers at once, returns the bytes of the
    memory the client sees, does not change that memory, leaves the block
    resident, and keeps the invariant. *)
Theorem read_access_transparent c a n (m : M) :
  cache_inv c (port_view m) → port_wf m → urange 32 a →
  access_size n → a mod 4 = 0 → (n = 8 → a mod 8 = 0) →
  (is_Some (hit_row c a) ∨ fills c a m) →
  returns (λ '(st, bs, c', m'),
      st = 0 ∧ bs = get_bytes (cview c (port_view m)) a (Z.to_nat n) ∧
      cview c' (port_view m') ≐ cview c (port_view m) ∧
      is_Some (hit_row c' a) ∧ cache_inv c' (port_view m') ∧ port_wf m')
    (read_access c a n false true m).
Proof. apply read_access_returns. Qed.
End transparency.
