(* ===== verification/CacheWrite.v ===== *)
(** * Writes through the data cache

    Stores that hit the first way, and doubleword stores that miss on a
    clean row, update the memory the client sees; what the other paths of
    [write_access] and [evict_write] do instead. *)
From S2P Require Import Prelude Memory Port Cache CacheSpec.

(** ** Overwriting part of a row *)

Lemma nth_patch (l bs : list Z) (k j : nat) : (k + length bs ≤ length l)%nat →
  nth j (take k l ++ bs ++ drop (k + length bs) l) 0
  = if decide (k ≤ j < k + length bs)%nat then nth (j - k) bs 0 else nth j l 0.
Proof.
  intros Hk. assert (length (take k l) = k) as Ht by (rewrite length_take_le; lia).
  destruct (decide (j < k)%nat) as [Hj|Hj].
  - rewrite app_nth1 by lia. rewrite decide_False by lia.
    rewrite !nth_lookup, lookup_take_lt by done. done.
  - rewrite app_nth2 by lia. rewrite Ht.
    destruct (decide (j < k + length bs)%nat) as [Hj2|Hj2].
    + rewrite app_nth1 by lia. rewrite decide_True by lia. done.
    + rewrite app_nth2 by lia. rewrite decide_False by lia.
      rewrite !nth_lookup, lookup_drop. do 2 f_equal. lia.
Qed.

Lemma memcpy_row_spec c r sub value n : row_wf c r → access_size n → 0 ≤ sub →
  sub + n ≤ 2 ^ block_size c →
  ∃ d, memcpy_row r sub value n = Ok (set_data d r) ∧
    length d = length (data r) ∧ bytes_ok d ∧
    ∀ j, 0 ≤ j → nth (Z.to_nat j) d 0
      = if decide (sub ≤ j < sub + n)
        then nth (Z.to_nat (j - sub)) (Z_to_bytes (Z.to_nat n) value) 0
        else nth (Z.to_nat j) (data r) 0.
Proof.
  intros Hr Hn Hs Hl. unfold memcpy_row.
  rewrite (proj2 (Z.ltb_ge _ _)) by (unfold access_size in Hn; lia).
  assert (0 ≤ n) by (unfold access_size in Hn; lia).
  assert (Z.to_nat sub + length (Z_to_bytes (Z.to_nat n) value) ≤ length (data r))%nat as Hlen.
  { rewrite length_Z_to_bytes, (row_length _ _ Hr). lia. }
  unfold patch_at. rewrite decide_True by done. simpl. eexists. split; [done|].
  split_and!.
  - rewrite !length_app, length_take, length_drop. lia.
  - rewrite !Forall_app. split_and!; [by apply Forall_take, Hr|apply Z_to_bytes_ok|].
    by apply Forall_drop, Hr.
  - intros j Hj. rewrite nth_patch by done. rewrite length_Z_to_bytes in *.
    do 2 case_decide; try lia. f_equal. lia.
Qed.

(** The bytes of a store, seen at the address [a']. *)
Lemma set_bytes_Z v a n value a' : 0 ≤ n →
  set_bytes v a (Z_to_bytes (Z.to_nat n) value) a'
  = if decide (a ≤ a' < a + n)
    then nth (Z.to_nat (a' - a)) (Z_to_bytes (Z.to_nat n) value) 0 else v a'.
Proof.
  intros. unfold set_bytes. rewrite length_Z_to_bytes, Z2Nat.id by done. done.
Qed.

(** Inside a block, comparing addresses is comparing offsets. *)
Lemma block_offsets c a a' n : cache_wf c →
  index_of c a' = index_of c a → tag_of c a' = tag_of c a →
  (a ≤ a' < a + n ↔ subindex_of c a ≤ subindex_of c a' < subindex_of c a + n) ∧
  a' - a = subindex_of c a' - subindex_of c a.
Proof.
  intros Hwf Hi Ht. pose proof (fields_compose c Hwf a) as Ha.
  pose proof (fields_compose c Hwf a') as Ha'. rewrite Hi, Ht in Ha'. lia.
Qed.

(** An address that a store inside the block of [a] touches is in that block. *)
Lemma store_in_block c a a' n : cache_wf c → subindex_of c a + n ≤ 2 ^ block_size c →
  a ≤ a' < a + n → index_of c a' = index_of c a ∧ tag_of c a' = tag_of c a.
Proof.
  intros Hwf Hb Ha. destruct (same_block c Hwf a (a' - a)) as (? & ? & _); [lia|lia|].
  replace (a + (a' - a)) with a' in * by lia. done.
Qed.

(** ** Stores that hit the first way *)

Section first_way.
Context (c : cache_table) (Hwf : cache_wf c) (v : Z → Z) (Hnd : no_duplicates c).
Context (a n value : Z) (Hn : access_size n).
Context (Hblk : subindex_of c a + n ≤ 2 ^ block_size c).
Context (r : cache_row) (d : list Z).
Context (Hr : row c (index_of c a) = Some r) (Hh : holds r (tag_of c a) = true).
Context (Hd : ∀ j, 0 ≤ j → nth (Z.to_nat j) d 0
    = if decide (subindex_of c a ≤ j < subindex_of c a + n)
      then nth (Z.to_nat (j - subindex_of c a)) (Z_to_bytes (Z.to_nat n) value) 0
      else nth (Z.to_nat j) (data r) 0).
Context (Hdl : length d = length (data r)) (Hdb : bytes_ok d).

Let c' := put_row (index_of c a) (set_data d r) c.

Lemma first_way_wf : cache_wf c'.
Proof.
  apply put_row_wf; [done|]. destruct (row_wf_row c Hwf _ _ Hr).
  constructor; simpl; try done. congruence.
Qed.

(** Rows keep their tags and their valid and dirty bits. *)
Lemma first_way_row i q : row c' i = Some q → 0 ≤ i →
  ∃ q0, row c i = Some q0 ∧ holds q = holds q0 ∧ dirty q = dirty q0 ∧
    (i ≠ index_of c a → q = q0).
Proof.
  intros Hq Hi. destruct (decide (i = index_of c a)) as [->|Hne].
  - unfold c' in Hq. rewrite row_put_eq in Hq; [|done|].
    2:{ eapply may_hold_range; [done|]. by left. }
    simplify_eq. exists r. done.
  - unfold c' in Hq. rewrite row_put_ne in Hq; [eauto|by apply index_of_range|done|done].
Qed.

Lemma first_way_unique : no_duplicates c'.
Proof.
  intros a' r0 r1 Hdt H0 H1 Hh0 Hh1. pose proof (index_of_range c Hwf a').
  apply first_way_row in H0 as (q0 & Hq0 & E0 & _); [|exact (proj1 H)].
  apply first_way_row in H1 as (q1 & Hq1 & E1 & _);
    [|change (0 ≤ index_of c a' + num_blocks c); lia].
  rewrite E0 in Hh0. rewrite E1 in Hh1. by eapply (Hnd a').
Qed.

Lemma first_way_same : row c' (index_of c a) = Some (set_data d r).
Proof. apply row_put_eq; [done|]. eapply may_hold_range; [done|]. by left. Qed.

Lemma first_way_other i : 0 ≤ i → i ≠ index_of c a → row c' i = row c i.
Proof. intros. apply row_put_ne; [by apply index_of_range|done|done]. Qed.

(** Lookups outside the block find the same rows. *)
Lemma first_way_miss a' : ¬ (index_of c a' = index_of c a ∧ tag_of c a' = tag_of c a) →
  hit_row c' a' = hit_row c a'.
Proof.
  intros Hne. pose proof (index_of_range c Hwf a). pose proof (index_of_range c Hwf a').
  unfold hit_row. change (index_of c' a') with (index_of c a').
  change (tag_of c' a') with (tag_of c a'). change (is_data c') with (is_data c).
  change (num_blocks c') with (num_blocks c).
  rewrite (first_way_other (index_of c a' + num_blocks c)) by lia.
  destruct (decide (index_of c a' = index_of c a)) as [Hi|Hi].
  - rewrite Hi, first_way_same, Hr.
    assert (holds r (tag_of c a') = false) as Hf.
    { apply not_true_is_false. rewrite holds_spec in Hh |- *. intros [_ E]. apply Hne.
      split; [done|]. destruct Hh. congruence. }
    change (holds (set_data d r)) with (holds r). rewrite Hf. done.
  - rewrite first_way_other by lia. done.
Qed.

Lemma first_way_view :
  cview c' v ≐ set_bytes (cview c v) a (Z_to_bytes (Z.to_nat n) value).
Proof.
  intros a'. assert (0 ≤ n) by (unfold access_size in Hn; lia).
  rewrite set_bytes_Z by done. unfold cview. change (subindex_of c' a') with (subindex_of c a').
  destruct (decide (index_of c a' = index_of c a ∧ tag_of c a' = tag_of c a)) as [[Hi Ht]|Hne].
  - destruct (block_offsets c a a' n Hwf Hi Ht) as [Hoff Hdiff].
    assert (hit_row c' a' = Some (set_data d r)) as ->.
    { unfold hit_row. change (index_of c' a') with (index_of c a').
      change (tag_of c' a') with (tag_of c a'). rewrite Hi, Ht, first_way_same.
      change (holds (set_data d r)) with (holds r). by rewrite Hh. }
    assert (hit_row c a' = Some r) as ->.
    { unfold hit_row. rewrite Hi, Ht, Hr, Hh. done. }
    simpl. rewrite Hd by apply subindex_of_range, Hwf. rewrite Hdiff.
    do 2 case_decide; tauto || done.
  - rewrite first_way_miss by done. rewrite decide_False; [done|].
    intros Ha. by apply Hne, (store_in_block c a a' n).
Qed.

(** A dirty row may differ from memory, so the invariant survives. *)
Lemma first_way_coherent : coherent c v → dirty r = true → coherent c' v.
Proof.
  intros Hco Hdirty a' i q Hi Hq Hhq Hcl.
  assert (0 ≤ i) as Hpos by (eapply (may_hold_range c); [exact Hwf|exact Hi]).
  destruct (decide (i = index_of c a)) as [->|Hne].
  - rewrite first_way_same in Hq. simplify_eq. simpl in Hcl. congruence.
  - rewrite first_way_other in Hq by done. by eapply Hco.
Qed.
End first_way.

(** ** Doubleword stores that miss *)

Section doubleword.
Context (c : cache_table) (v : Z → Z) (Hinv : cache_inv c v) (Hdata : is_data c = true).
Context (a value : Z) (Hal : a mod 8 = 0) (Ha : urange 32 a) (Hmiss : hit_row c a = None).
Context (i : Z) (r : cache_row).
Context (Hi : may_hold c a i) (Hr : row c i = Some r) (Hclean : dirty r = false).

Let Hwf : cache_wf c := ci_wf _ _ Hinv.
Let r' : cache_row := install (tag_of c a) true (set_data (Z_to_bytes 8 value) r).
Let c' : cache_table := put_row i r' c.

Lemma doubleword_block : block_size c = 3.
Proof. rewrite (cw_block _ Hwf), Hdata. done. Qed.

Lemma doubleword_offset0 : subindex_of c a = 0.
Proof. rewrite (subindex_of_spec c Hwf), doubleword_block. done. Qed.

Lemma doubleword_row_wf : row_wf c r'.
Proof.
  constructor; simpl.
  - rewrite doubleword_block. done.
  - apply (Z_to_bytes_ok 8).
  - by apply tag_of_range64.
  - congruence.
Qed.

Lemma doubleword_holds : holds r' (tag_of c a) = true.
Proof. by apply holds_spec. Qed.

(** The store covers its block, and nothing else. *)
Lemma doubleword_covers a' :
  a ≤ a' < a + 8 ↔ index_of c a' = index_of c a ∧ tag_of c a' = tag_of c a.
Proof.
  pose proof doubleword_block as Hb. pose proof doubleword_offset0 as H0. split.
  - intros. apply (store_in_block c a a' 8); [done|rewrite H0, Hb; done|done].
  - intros [Hidx Htag]. apply (block_offsets c a a' 8 Hwf Hidx Htag).
    pose proof (subindex_of_range c Hwf a') as Hs. rewrite Hb in Hs. simpl in Hs. lia.
Qed.

Let v' : Z → Z := set_bytes v a (Z_to_bytes 8 value).

Lemma v'_spec a' : v' a' =
  if decide (a ≤ a' < a + 8) then nth (Z.to_nat (a' - a)) (Z_to_bytes 8 value) 0 else v a'.
Proof. apply (set_bytes_Z v a 8 value a'). lia. Qed.

(** No row holds the block, so the store may be made in memory instead. *)
Lemma doubleword_coherent : coherent c v'.
Proof.
  intros a' j q Hj Hq Hh Hd. rewrite v'_spec. case_decide as Hin.
  - apply doubleword_covers in Hin as [Hidx Htag].
    pose proof (hit_row_None c Hwf a j q Hmiss) as Hf.
    unfold may_hold in Hf, Hj. rewrite Hidx in Hj. rewrite Htag in Hh.
    specialize (Hf Hj Hq). congruence.
  - by eapply (ci_coherent _ _ Hinv).
Qed.

Lemma doubleword_fetch a' : index_of c a' = index_of c a → tag_of c a' = tag_of c a →
  nth (Z.to_nat (subindex_of c a')) (data r') 0 = v' a'.
Proof.
  intros Hidx Htag. rewrite v'_spec.
  rewrite decide_True by (by apply doubleword_covers).
  destruct (block_offsets c a a' 8 Hwf Hidx Htag) as [_ ->].
  rewrite doubleword_offset0, Z.sub_0_r. done.
Qed.

Lemma doubleword_inv' : cache_inv c' v'.
Proof.
  constructor.
  - apply (replace_wf c Hwf i r' doubleword_row_wf).
  - eapply (replace_coherent c Hwf v' doubleword_coherent a i r');
      eauto using doubleword_row_wf, doubleword_holds, doubleword_fetch.
  - eapply (replace_no_duplicates c Hwf (ci_unique _ _ Hinv) a i r');
      eauto using doubleword_row_wf, doubleword_holds.
Qed.

Lemma doubleword_hit a' : index_of c a' = index_of c a → tag_of c a' = tag_of c a →
  hit_row c' a' = Some r'.
Proof.
  intros Hidx Htag. apply (hit_row_unique c' a' i).
  - apply doubleword_inv'.
  - apply doubleword_inv'.
  - unfold may_hold. change (index_of c' a') with (index_of c a').
    rewrite Hidx. exact Hi.
  - by eapply replace_row_same.
  - change (tag_of c' a') with (tag_of c a'). rewrite Htag. apply doubleword_holds.
Qed.

Lemma doubleword_view :
  cview c' v ≐ set_bytes (cview c v) a (Z_to_bytes 8 value).
Proof.
  intros a'. rewrite (set_bytes_Z _ a 8 value a') by lia.
  assert (cview c' v' a' = cview c v' a') as Hrep.
  { eapply (replace_view c Hwf v' doubleword_coherent (ci_unique _ _ Hinv) a i r r');
      eauto using doubleword_row_wf, doubleword_holds, doubleword_fetch. }
  case_decide as Hin.
  - pose proof (proj1 (doubleword_covers a') Hin) as [Hidx Htag].
    unfold cview. rewrite doubleword_hit by done.
    change (subindex_of c' a') with (subindex_of c a').
    rewrite doubleword_fetch, v'_spec, decide_True by done. done.
  - assert (v' a' = v a') as Hv by (rewrite v'_spec, decide_False; done).
    unfold cview in *. rewrite Hv in Hrep. exact Hrep.
Qed.

(** The new row is dirty, so it may differ from memory. *)
Lemma doubleword_inv : cache_inv c' v.
Proof.
  constructor; [apply doubleword_inv'| |apply doubleword_inv'].
  intros a' j q Hj Hq Hh Hd.
  destruct (replace_holds c Hwf a i r' Hi doubleword_row_wf doubleword_holds a' j q)
    as [(-> & -> & _)|(_ & Hq')]; [done..| |].
  - simpl in Hd. discriminate.
  - by eapply (ci_coherent _ _ Hinv).
Qed.
End doubleword.

(** ** The store functions *)

Section stores.
Context {M : Type} `{MemoryPortLaws M}.

(** A store that finds its block in neither way allocates it. *)
Lemma write_access_miss c a value n fu av (m : M) : cache_wf c → is_data c = true →
  hit_row c a = None →
  write_access c a value n fu av m
  = evict_write c a (index_of c a) (tag_of c a) value (subindex_of c a) n fu av m.
Proof.
  intros Hwf Hd Hmiss. unfold write_access. rewrite Hd. simpl.
  destruct (row_is_Some c Hwf (index_of c a)) as (r0 & Hr0 & _).
  { eapply may_hold_range; [done|]. by left. }
  destruct (row_is_Some c Hwf (index_of c a + num_blocks c)) as (r1 & Hr1 & _).
  { eapply may_hold_range; [done|]. by right. }
  pose proof (hit_row_None c Hwf a _ _ Hmiss ltac:(by left) Hr0) as Hf0.
  pose proof (hit_row_None c Hwf a _ _ Hmiss ltac:(by right) Hr1) as Hf1.
  rewrite (get_row_Some _ _ _ Hr0), (get_row_Some _ _ _ Hr1). simpl.
  unfold holds in Hf0, Hf1. rewrite Hf0, Hf1. done.
Qed.

(** A store to a block in the first way. *)
Lemma write_access_first_way c a n value (m : M) r :
  cache_inv c (port_view m) → is_data c = true → access_size n →
  subindex_of c a + n ≤ 2 ^ block_size c →
  row c (index_of c a) = Some r → holds r (tag_of c a) = true →
  ∃ d, write_access c a value n false true m
       = Ok (0, put_row (index_of c a) (set_data d r) c, m) ∧
    let c' := put_row (index_of c a) (set_data d r) c in
    cview c' (port_view m)
      ≐ set_bytes (cview c (port_view m)) a (Z_to_bytes (Z.to_nat n) value) ∧
    is_Some (hit_row c' a) ∧ cache_wf c' ∧ no_duplicates c' ∧
    (dirty r = true → cache_inv c' (port_view m)).
Proof.
  intros Hinv Hdata Hn Hblk Hr Hh. pose proof (ci_wf _ _ Hinv) as Hwf.
  unfold write_access. rewrite Hdata. simpl. rewrite (get_row_Some _ _ _ Hr). simpl.
  assert (Hb := Hh). unfold holds in Hb. rewrite Hb.
  destruct (memcpy_row_spec c r (subindex_of c a) value n) as (d & Hcp & Hdl & Hdb & Hd);
    [by eapply row_wf_row|done|by apply subindex_of_range|done|].
  rewrite Hcp. simpl. exists d. split; [done|]. split_and!.
  - eapply first_way_view; eauto.
  - unfold hit_row. change (index_of _ a) with (index_of c a).
    rewrite (first_way_same c Hwf).
    change (holds (set_data d r) (tag_of _ a)) with (valid r && (tag r =? tag_of c a)).
    rewrite Hb. done.
  - by eapply first_way_wf.
  - eapply first_way_unique; eauto. by destruct Hinv.
  - intros Hdirty. constructor.
    + by eapply first_way_wf.
    + eapply first_way_coherent; eauto. by destruct Hinv.
    + eapply first_way_unique; eauto. by destruct Hinv.
Qed.

(** C5: a store updates the memory the client sees.  In a coherent cache
    (a clean row holds what memory holds) a store of 1, 2, 4 or 8 bytes inside a block whose block is in the first way, or an aligned
    doubleword store that misses and replaces a clean row, succeeds, does
    not touch memory, and changes exactly the bytes it names in the memory
    seen through the cache; the block is then in the cache, once.  The
    invariant is kept when the row that is hit was already dirty, and by
    every such miss. *)
Theorem write_access_view c a n value (m : M) :
  cache_inv c (port_view m) → is_data c = true → urange 32 a → access_size n →
  subindex_of c a + n ≤ 2 ^ block_size c →
  (∃ r, row c (index_of c a) = Some r ∧ holds r (tag_of c a) = true) ∨
  (n = 8 ∧ a mod 8 = 0 ∧ hit_row c a = None ∧ clean_victim c a) →
  ∃ c', write_access c a value n false true m = Ok (0, c', m) ∧
    cview c' (port_view m)
      ≐ set_bytes (cview c (port_view m)) a (Z_to_bytes (Z.to_nat n) value) ∧
    is_Some (hit_row c' a) ∧ cache_wf c' ∧ no_duplicates c' ∧
    (hit_row c a = None ∨ (∃ r, hit_row c a = Some r ∧ dirty r = true) →
     cache_inv c' (port_view m)).
Proof.
  intros Hinv Hdata Ha Hn Hblk Hcase. pose proof (ci_wf _ _ Hinv) as Hwf.
  destruct Hcase as [(r & Hr & Hh)|(-> & Hal & Hmiss & Hcl)].
  - destruct (write_access_first_way c a n value m r) as (d & Hw & ? & ? & ? & ? & Hi);
      try done.
    assert (hit_row c a = Some r) as Hhit by (unfold hit_row; by rewrite Hr, Hh).
    eexists. split; [exact Hw|]. split_and!; try done.
    rewrite Hhit. intros [?|(r' & ? & ?)]; [done|]. simplify_eq. auto.
  - destruct (evict_index_spec c Hwf a) as (i & Hei & Hi).
    unfold clean_victim in Hcl. rewrite Hei in Hcl.
    destruct (row c i) as [r|] eqn:Hr; [|done].
    assert (write_access c a value 8 false true m = Ok (0,
      put_row i (install (tag_of c a) true (set_data (Z_to_bytes 8 value) r)) c, m)) as Hwrite.
    { rewrite write_access_miss by done. unfold evict_write. rewrite Hdata. simpl.
      unfold evict_index in Hei. rewrite Hdata in Hei. rewrite Hei. simpl.
      rewrite (get_row_Some _ _ _ Hr). simpl. rewrite Hcl.
      rewrite (tag_field_small c Hwf a Ha), (doubleword_offset0 c _ Hinv Hdata a Hal). unfold memcpy_row, patch_at.
      rewrite (row_length c r) by (by eapply row_wf_row).
      rewrite (doubleword_block c _ Hinv Hdata). simpl.
      rewrite drop_ge; [done|].
      rewrite (row_length c r) by (by eapply row_wf_row).
      rewrite (doubleword_block c _ Hinv Hdata). done. }
    eexists. split; [exact Hwrite|].
    pose proof (doubleword_inv c _ Hinv Hdata a value Hal Ha Hmiss i r Hi Hcl) as Hinv'.
    split_and!.
    + by apply doubleword_view.
    + erewrite (doubleword_hit c _ Hinv); done.
    + apply Hinv'.
    + apply Hinv'.
    + intros _. exact Hinv'.
Qed.
End stores.

(** ** What the other paths do *)

Section divergence.
Context {M : Type} `{MemoryPortLaws M}.

(** C28: a store that hits the second way is lost.  The data is copied into
    the row of the first way, which holds another block: every byte of the
    addressed block reads as before the store. *)
Theorem second_way_store_lost c a n value (m : M) r0 r1 c' :
  cache_wf c → is_data c = true → access_size n →
  row c (index_of c a) = Some r0 → holds r0 (tag_of c a) = false →
  row c (index_of c a + num_blocks c) = Some r1 → holds r1 (tag_of c a) = true →
  write_access c a value n false true m = Ok (0, c', m) →
  hit_row c' a = Some r1 ∧
  ∀ v a', index_of c a' = index_of c a → tag_of c a' = tag_of c a →
          cview c' v a' = cview c v a'.
Proof.
  intros Hwf Hd Hn Hr0 Hh0 Hr1 Hh1. unfold write_access. rewrite Hd. simpl.
  rewrite (get_row_Some _ _ _ Hr0), (get_row_Some _ _ _ Hr1). simpl.
  assert (Hb0 := Hh0). assert (Hb1 := Hh1). unfold holds in Hb0, Hb1. rewrite Hb0, Hb1.
  intros Hw. apply bind_Ok in Hw as (r & Hcp & [= <-]).
  assert (holds r = holds r0) as Hsame.
  { unfold memcpy_row in Hcp. case_match; [done|].
    apply bind_Ok in Hcp as (d & _ & [= <-]). done. }
  pose proof (index_of_range c Hwf a).
  assert (∀ a', index_of c a' = index_of c a → tag_of c a' = tag_of c a →
                hit_row (put_row (index_of c a) r c) a' = Some r1) as Hhit.
  { intros a' Hi Ht. unfold hit_row. change (index_of _ a') with (index_of c a').
    change (tag_of _ a') with (tag_of c a'). change (is_data _) with (is_data c).
    change (num_blocks _) with (num_blocks c). rewrite Hi, Ht, Hd.
    rewrite row_put_eq, row_put_ne by (done || (unfold ways; rewrite Hd; lia) || lia).
    rewrite Hsame, Hh0, Hr1, Hh1. done. }
  split; [by apply Hhit|]. intros v a' Hi Ht. unfold cview. rewrite Hhit by done.
  unfold hit_row. rewrite Hi, Ht, Hr0, Hh0, Hd, Hr1, Hh1. done.
Qed.

(** C27: the address a row is written back to.  For the first way it is
    the address of the row's block.  For the second way the row number is
    used as it stands, so the bit above the index is forced to 1: the
    address is the right one exactly when the tag is odd. *)
Theorem write_back_address c a r : cache_wf c → urange 32 a →
  tag r = tag_of c a →
  old_address_of c r (index_of c a) = a - subindex_of c a ∧
  (old_address_of c r (index_of c a + num_blocks c) = a - subindex_of c a
   ↔ tag r mod 2 = 1).
Proof.
  intros Hwf [Ha0 Ha] Ht. pose proof (fields_compose c Hwf a) as Hf.
  pose proof (index_of_range c Hwf a) as Hi. pose proof (cw_index _ Hwf).
  pose proof (block_size_range c Hwf). pose proof (subindex_of_range c Hwf a).
  rewrite (cw_blocks _ Hwf) in *. unfold old_address_of. rewrite Ht.
  set (k := index_length c + block_size c) in *. set (lo := index_of c a * 2 ^ block_size c).
  assert (block_size c + index_length c = k) as Hk by lia. rewrite Hk in Hf.
  assert (2 ^ k = 2 ^ index_length c * 2 ^ block_size c) as Hpk
    by (unfold k; rewrite Z.pow_add_r; lia).
  pose proof (pow2_pos (block_size c) ltac:(lia)).
  assert (urange k lo) as Hlo by (unfold urange, lo; nia).
  assert (2 ^ k ≤ 2 ^ 36) by (apply Z.pow_le_mono_r; lia).
  assert (0 ≤ tag_of c a) by (apply Z.shiftr_nonneg; lia).
  assert (tag_field c (Z.shiftl (tag_of c a) k) = Z.shiftl (tag_of c a) k) as Htag.
  { apply wrap_small. assert (urange 50 (Z.shiftl (tag_of c a) k)) as [? ?]
      by (rewrite Z.shiftl_mul_pow2 by lia; unfold urange, lo in *; nia).
    destruct (is_data c); unfold urange; lia. }
  assert (Z.shiftl (index_of c a) (block_size c) = lo) as Elo
    by (apply Z.shiftl_mul_pow2; lia).
  assert (Z.shiftl (index_of c a + 2 ^ index_length c) (block_size c)
          = Z.lor lo (Z.shiftl 1 k)) as Ehi.
  { rewrite lor_shiftl, Z.shiftl_mul_pow2 by (done || lia). unfold lo. lia. }
  rewrite Htag, Elo, Ehi. unfold urange in Hlo.
  rewrite !(wrap_small 64) by (rewrite ?lor_shiftl by (done || lia); unfold urange; lia).
  rewrite Z.lor_comm, lor_shiftl by (done || lia). split; [lia|].
  rewrite (Z.lor_comm lo), Z.lor_assoc, <-Z.shiftl_lor, Z.lor_comm.
  rewrite lor_shiftl by (done || lia). rewrite <-lor_1_odd.
  pose proof (pow2_pos k ltac:(lia)). split; [intros Heq; nia|intros ->; lia].
Qed.
End divergence.

(** ** A store into a clean row *)

(** The second way is in use and the first is clean: a miss replaces the
    first. *)
Record replaces_first (c : cache_table) (i : Z) (r : cache_row) : Prop := {
  rf_data : is_data c = true;
  rf_row : row c i = Some r;
  rf_valid : valid r = true;
  rf_clean : dirty r = false;
  rf_second : ∃ r1, row c (i + num_blocks c) = Some r1 ∧ valid r1 = true;
}.

Lemma replaces_first_victim c i r : replaces_first c i r → victim c i = Ok i.
Proof.
  intros [_ Hr Hv Hd (r1 & Hr1 & Hv1)]. unfold victim.
  rewrite (get_row_Some _ _ _ Hr), (get_row_Some _ _ _ Hr1). simpl. rewrite Hv, Hv1, Hd. done.
Qed.

Lemma put_row_twice i r r' c : put_row i r' (put_row i r c) = put_row i r' c.
Proof. unfold put_row, set_rows. simpl. by rewrite list_insert_insert_eq. Qed.

Section lost.
Context {M : Type} `{MemoryPortLaws M}.

(** What a miss makes of the row it replaces. *)
Lemma evict_read_first c b r bs (m m' : M) :
  replaces_first c (index_of c b) r → length bs = length (data r) →
  port_read b 8 m = Ok (true, bs, m') →
  evict_read c b (index_of c b) (tag_of c b) false m
  = Ok (Some (index_of c b),
        put_row (index_of c b) (mkRow (tag_field c (tag_of c b)) bs false true) c, m').
Proof.
  intros Hf Hl Hread. unfold evict_read, write_back. rewrite (rf_data _ _ _ Hf).
  rewrite (replaces_first_victim _ _ _ Hf). cbn [obind].
  rewrite (get_row_Some _ _ _ (rf_row _ _ _ Hf)). cbn [obind].
  rewrite (rf_clean _ _ _ Hf). cbn [andb obind]. rewrite (get_row_Some _ _ _ (rf_row _ _ _ Hf)).
  cbn [obind]. rewrite (rf_data _ _ _ Hf), Hread. cbn [obind]. rewrite patch_full by done. cbn [obind].
  done.
Qed.

(** A store into the row that is to be replaced does not change that. *)
Lemma replaces_first_stored c a r d : cache_wf c → replaces_first c (index_of c a) r →
  length d = length (data r) →
  replaces_first (put_row (index_of c a) (set_data d r) c) (index_of c a) (set_data d r).
Proof.
  intros Hwf [F1 F2 F3 F4 (r1 & F5 & F6)] Hl. pose proof (index_of_range c Hwf a).
  constructor; try done; [by apply first_way_same|]. exists r1.
  split; [|done]. change (num_blocks (put_row _ _ c)) with (num_blocks c).
  rewrite row_put_ne by (done || lia). done.
Qed.

(** A miss reads the same whatever the row it replaces holds. *)
Lemma read_access_forgets c a r d b k (m m' : M) bs :
  let c' := put_row (index_of c a) (set_data d r) c in
  cache_wf c → cache_wf c' → replaces_first c (index_of c a) r →
  length d = length (data r) → length bs = length (data r) →
  index_of c b = index_of c a → b mod 4 = 0 → hit_row c b = None → hit_row c' b = None →
  port_read b 8 m = Ok (true, bs, m') →
  read_access c' b k false true m = read_access c b k false true m.
Proof.
  intros c' Hwf Hwf' Hf Hd Hbs Hi H4 Hmiss Hmiss' Hread.
  pose proof (replaces_first_stored c a r d Hwf Hf Hd) as Hf'. fold c' in Hf'.
  unfold read_access. change (subindex_of c' b) with (subindex_of c b).
  rewrite (proj1 (word_offset c Hwf b H4)).
  rewrite (find_row_spec c Hwf), (find_row_spec c' Hwf'), Hmiss, Hmiss' by (left; apply Hf).
  cbn [obind negb]. rewrite <-Hi in Hf, Hf'.
  rewrite (evict_read_first c b r bs m m'), (evict_read_first c' b (set_data d r) bs m m')
    by (done || by rewrite <-Hd in Hbs).
  unfold c'. rewrite <-Hi.
  change (index_of (put_row _ _ _) b) with (index_of c b).
  change (tag_of (put_row _ _ _) b) with (tag_of c b).
  change (tag_field (put_row _ _ _)) with (tag_field c). by rewrite put_row_twice.
Qed.

(** C29: a store into a clean row is forgotten.  A write hit does not mark
    the row dirty: in a coherent data cache, when a read miss of the set replaces the row, on the first
    address of a block and with memory that answers at once, nothing is
    written back, and the read, the cache, the memory and the bytes seen
    through the cache are those of a run without the store. *)
Theorem clean_store_forgotten c a n value r b k (m : M) :
  cache_inv c (port_view m) → port_wf m →
  replaces_first c (index_of c a) r → holds r (tag_of c a) = true →
  access_size n → subindex_of c a + n ≤ 2 ^ block_size c →
  urange 32 b → access_size k → b mod 8 = 0 → index_of c b = index_of c a →
  hit_row c b = None → port_readable m → b + 8 ≤ port_limit m →
  ∃ c' bs c'' m', write_access c a value n false true m = Ok (0, c', m) ∧
    read_access c' b k false true m = Ok (0, bs, c'', m') ∧
    read_access c b k false true m = Ok (0, bs, c'', m') ∧
    cview c'' (port_view m') ≐ cview c (port_view m).
Proof.
  intros Hinv Hm Hf Hh Hn Hblk Hb Hk H8 Hi Hmiss Hready Hlim. pose proof (ci_wf _ _ Hinv) as Hwf.
  destruct (write_access_first_way c a n value m r Hinv (rf_data _ _ _ Hf) Hn Hblk
              (rf_row _ _ _ Hf) Hh) as (d & Hw & _ & _ & Hwf' & _).
  pose proof (block_read_size c Hwf) as Hbs. rewrite (rf_data _ _ _ Hf) in Hbs.
  pose proof (row_length _ _ (row_wf_row c Hwf _ _ (rf_row _ _ _ Hf))) as Hl.
  assert (length d = length (data r)) as Hd.
  { rewrite Hl. apply (row_length _ _ (row_wf_row _ Hwf' (index_of c a) (set_data d r)
      (row_put_eq c Hwf _ _ (may_hold_range c Hwf a _ (or_introl eq_refl))))). }
  destruct (port_read_ready b 8 m) as ([[ok bs] m'] & Hread & -> & -> & _); try done;
    [by left; right; right; right|apply Hb|].
  assert (b mod 4 = 0) as H4
    by (rewrite (Z.div_mod b 8), H8 by lia;
        replace (8 * (b / 8) + 0) with (b / 8 * 2 * 4) by lia; apply Z_mod_mult).
  assert (read_access (put_row (index_of c a) (set_data d r) c) b k false true m
          = read_access c b k false true m) as Hsame.
  { apply (read_access_forgets c a r d b k m m' (get_bytes (port_view m) b (Z.to_nat 8)));
      try done; [by rewrite length_get_bytes, Hl, Hbs|].
    rewrite (first_way_miss c Hwf a r d (rf_row _ _ _ Hf) Hh Hd); [done|]. intros [_ Ht].
    pose proof (hit_row_None c Hwf b (index_of c a) r Hmiss ltac:(left; by rewrite Hi)
                  (rf_row _ _ _ Hf)). congruence. }
  destruct (read_access_returns c b k m) as ([[[st bs] c''] m''] & Hrd & -> & -> & Hv & _); try done.
  { right. split_and!; [done|by rewrite Hbs|by rewrite Hbs|].
    unfold clean_victim, evict_index. rewrite (rf_data _ _ _ Hf), Hi.
    rewrite (replaces_first_victim _ _ _ Hf), (rf_row _ _ _ Hf). apply Hf. }
  eexists _, _, c'', m''. split; [exact Hw|]. rewrite Hsame, Hrd. done.
Qed.
End lost.
