(* ===== verification/CacheMemory.v ===== *)
(** * The caches on the framework's memory

    Two misses that do not deliver the block: the framework refuses the read
    that follows the write-back of a dirty row, and it refuses a read that
    is not aligned to the block. *)
From S2P Require Import Prelude Memory Port Cache CacheSpec CacheWrite.

(** A read miss, once [evict_read] has returned a row. *)
Lemma read_access_filled {M} `{MemoryPort M} c a n (m m' : M) c' i r' :
  cache_wf c → cache_wf c' → access_size n → a mod 4 = 0 → (n = 8 → a mod 8 = 0) →
  hit_row c a = None →
  evict_read c a (index_of c a) (tag_of c a) false m = Ok (Some i, c', m') →
  row c' i = Some r' → row_wf c r' →
  read_access c a n false true m
  = Ok (0, take (Z.to_nat n) (drop (Z.to_nat (subindex_of c a)) (data r')), c', m').
Proof.
  intros Hwf Hwf' Hn H4 H8 Hmiss Hev Hr' Hrwf. unfold read_access.
  rewrite (proj1 (word_offset c Hwf a H4)).
  rewrite (find_row_spec c Hwf) by (right; by apply doubleword_offset).
  rewrite Hmiss. simpl. rewrite Hev. simpl. rewrite (get_row_Some _ _ _ Hr'). simpl.
  by rewrite (read_row_spec c Hwf).
Qed.

Section misses.
Context (c : cache_table) (Hwf : cache_wf c) (m : memsys) (Hm : mem_wf m).
Context (a n : Z) (Hn : access_size n) (H4 : a mod 4 = 0) (H8 : n = 8 → a mod 8 = 0).
Context (Hmiss : hit_row c a = None) (Ha : urange 32 a).
Context (i : Z) (r : cache_row) (Hei : evict_index c a = Ok i) (Hr : row c i = Some r).

Lemma misses_range : 0 ≤ i < num_blocks c * ways c.
Proof.
  destruct (evict_index_spec c Hwf a) as (j & Hj & Hmay). rewrite Hei in Hj.
  simplify_eq. by eapply may_hold_range.
Qed.

(** C30: reading over a dirty row returns zeros.  At write latency 0, for a
    read at the first address of a block inside memory and an old block that
    is written back inside memory, the write-back uses the one access of the
    stage, so memory refuses the read of the missing block; its zeros are
    installed as that block and returned. *)
Theorem dirty_eviction_reads_zeros :
  is_data c = true → dirty r = true →
  can_write m → memory_write_latency m = 0 →
  aligned_in (old_address_of c r i) 8 m →
  improper a 8 MEMORY_MAX_READ_BYTES m = false →
  ∃ c' m', read_access c a n false true m
           = Ok (0, replicate (Z.to_nat n) 0, c', m') ∧
    (∃ r', row c' i = Some r' ∧ holds r' (tag_of c a) = true ∧
           data r' = replicate 8 0) ∧
    riscv_mem m' = mem_set (riscv_mem m) (old_address_of c r i)
                     (Z_to_bytes 8 (bytes_to_Z (data r))).
Proof.
  intros Hd Hdirty Hcw Hlat Hold Hprop. pose proof misses_range as Hi.
  pose proof (row_wf_row c Hwf _ _ Hr) as Hrwf.
  set (m1 := written (old_address_of c r i) (bytes_to_Z (data r)) 8 m).
  set (r' := install (tag_of c a) false (set_data (replicate 8 0) (set_dirty false r))).
  assert (evict_read c a (index_of c a) (tag_of c a) false m
          = Ok (Some i, put_row i r' (put_row i (set_dirty false r) c), m1)) as Hev.
  { unfold evict_read. unfold evict_index in Hei. rewrite Hei. simpl.
    unfold write_back. rewrite (get_row_Some _ _ _ Hr). simpl. rewrite Hd, Hdirty. simpl.
    rewrite memory_write_now by (done || by right; right; right). simpl.
    rewrite (get_row_Some _ _ (set_dirty false r)) by by apply row_put_eq. simpl.
    change (is_data (put_row _ _ _)) with (is_data c). rewrite Hd.
    rewrite memory_read_refused; [|done|].
    2:{ intros [_ Hz]. revert Hz. simpl. rewrite land_lor_absorb. intros Hz.
        destruct Hcw as [Hs _]. by rewrite Hz in Hs. }
    simpl. rewrite patch_full.
    { simpl. change (tag_field (put_row _ _ c)) with (tag_field c).
      by rewrite (tag_field_small c Hwf a Ha). }
    simpl. rewrite (row_length _ _ Hrwf), (cw_block _ Hwf), Hd. done. }
  assert (row_wf c r') as Hr'.
  { constructor; simpl.
    - rewrite (cw_block _ Hwf), Hd. done.
    - apply (replicate_bytes_ok 8).
    - by apply tag_of_range64.
    - done. }
  assert (cache_wf (put_row i (set_dirty false r) c)) as Hwf1.
  { apply put_row_wf; [done|]. destruct Hrwf. by constructor. }
  assert (row (put_row i r' (put_row i (set_dirty false r) c)) i = Some r') as Hrow.
  { apply row_put_eq; done. }
  do 2 eexists. split; [|split].
  - erewrite read_access_filled; [|exact Hwf| |done..|exact Hev|exact Hrow|done].
    + do 4 f_equal. simpl (data r').
      pose proof (aligned_in_block c Hwf a n Hn H4 H8) as Hblk.
      rewrite (cw_block _ Hwf), Hd in Hblk. change (2 ^ 3) with 8 in Hblk.
      pose proof (subindex_of_range c Hwf a).
      change [0; 0; 0; 0; 0; 0; 0; 0] with (replicate 8 0).
      rewrite drop_replicate, take_replicate. f_equal. lia.
    + apply put_row_wf; [done|]. destruct Hr'. by constructor.
  - exists r'. split_and!; [done| |done]. by apply holds_spec.
  - done.
Qed.

(** C31: a read miss on a word boundary that is not the first address of its
    block, over a clean row, does not read memory.  The framework refuses the unaligned
    request as finished, after it has cleared one byte: the old contents of the
    replaced row, but for a zero in the first byte, are installed as the
    missing block, and the old bytes are returned. *)
Theorem unaligned_miss_is_stale :
  dirty r = false → a mod 2 ^ block_size c ≠ 0 →
  ∃ c', read_access c a n false true m
        = Ok (0, take (Z.to_nat n) (drop (Z.to_nat (subindex_of c a)) (data r)), c', m) ∧
    row c' i = Some (mkRow (tag_of c a) (0 :: drop 1 (data r)) false true) ∧
    is_Some (hit_row c' a).
Proof.
  intros Hclean Hun. pose proof misses_range as Hi.
  pose proof (row_wf_row c Hwf _ _ Hr) as Hrwf. pose proof (block_read_size c Hwf) as Hbs.
  assert (memory_read a (if is_data c then 8 else 16) m = Ok (true, [0], m)) as Hread.
  { unfold memory_read, improper. rewrite <-Hbs.
    rewrite (proj2 (nonzero_true (a mod 2 ^ block_size c))) by done.
    rewrite !orb_true_r. done. }
  set (d := 0 :: drop 1 (data r)).
  assert (length (data r) = Z.to_nat (2 ^ block_size c)) as Hlen by apply Hrwf.
  pose proof (block_size_range c Hwf).
  assert (8 ≤ 2 ^ block_size c) by (apply (Z.pow_le_mono_r 2 3); lia).
  assert (row_wf c (install (tag_of c a) false (set_data d r))) as Hr'.
  { constructor; simpl; [| |by apply tag_of_range64|done].
    - rewrite length_drop. lia.
    - constructor; [split; lia|]. apply Forall_drop, Hrwf. }
  assert (evict_read c a (index_of c a) (tag_of c a) false m
          = Ok (Some i, put_row i (install (tag_of c a) false (set_data d r)) c, m)) as Hev.
  { unfold evict_read. unfold evict_index in Hei. rewrite Hei. simpl.
    unfold write_back. rewrite (get_row_Some _ _ _ Hr). simpl.
    rewrite Hclean, andb_false_r. simpl. rewrite (get_row_Some _ _ _ Hr). simpl.
    rewrite Hread. simpl. unfold patch. rewrite decide_True by (simpl; lia). simpl.
    rewrite (tag_field_small c Hwf a Ha), Hclean. by destruct (is_data c). }
  assert (row (put_row i (install (tag_of c a) false (set_data d r)) c) i
          = Some (install (tag_of c a) false (set_data d r))) as Hrow by by apply row_put_eq.
  eexists. split; [|split; [exact Hrow|]].
  - erewrite read_access_filled; [|exact Hwf| |done..|exact Hev|exact Hrow|done].
    2:{ by apply put_row_wf. }
    pose proof (subindex_of_range c Hwf a). rewrite (subindex_of_spec c Hwf) in *.
    destruct (Z.to_nat (a mod 2 ^ block_size c)) as [|k] eqn:Ek; [lia|].
    cbn [data install set_data drop]. unfold d. cbn [drop].
    rewrite drop_drop. done.
  - destruct (evict_index_spec c Hwf a) as (j & Hj & Hmay). rewrite Hei in Hj. simplify_eq.
    eapply hit_row_is_Some; [by apply put_row_wf|exact Hmay|exact Hrow|].
    by apply holds_spec.
Qed.
End misses.
