(* ===== verification/CacheFrame.v ===== *)
(** * What every cache call preserves

    Whatever memory answers, and on every path (the ones that lose data
    included), a call that returns leaves a well-formed cache of the same
    kind and well-formed memory, and delivers bytes. *)
From S2P Require Import Prelude Memory Port Cache CacheSpec CacheWrite.

Section frame.
Context {M : Type} `{MemoryPortLaws M}.

(** The state after a call that started in [c] and [m]. *)
Definition kept (c : cache_table) (m : M) (c' : cache_table) (m' : M) : Prop :=
  cache_wf c' ∧ is_data c' = is_data c ∧ port_wf m' ∧ port_limit m' = port_limit m.

Lemma kept_refl c m : cache_wf c → port_wf m → kept c m c m.
Proof. done. Qed.

Lemma kept_trans c m c1 m1 c2 m2 : kept c m c1 m1 → kept c1 m1 c2 m2 → kept c m c2 m2.
Proof. intros (? & ? & ? & ?) (? & ? & ? & ?). unfold kept. split_and!; congruence. Qed.

Lemma kept_put i r c m c1 m1 : kept c m c1 m1 → row_wf c1 r → kept c m (put_row i r c1) m1.
Proof. intros (? & ? & ? & ?) ?. split_and!; try done. by apply put_row_wf. Qed.

Lemma get_row_wf i c : cache_wf c → sat (row_wf c) (get_row i c).
Proof.
  intros Hwf. unfold get_row. destruct (rows c !! Z.to_nat i) as [r|] eqn:E; [|done].
  exact (Forall_lookup_1 _ _ _ _ (cw_rows _ Hwf) E).
Qed.

Lemma row_wf_data c r d : row_wf c r → length d = length (data r) → bytes_ok d →
  row_wf c (set_data d r).
Proof. intros [] ? ?. constructor; simpl; congruence || done. Qed.

Lemma row_wf_clean c r : row_wf c r → row_wf c (set_dirty false r).
Proof. intros []. by constructor. Qed.

Lemma row_wf_install c r t b : row_wf c r → urange 64 t → (is_data c = false → b = false) →
  row_wf c (install t b r).
Proof. intros [] ? ?. by constructor. Qed.

Lemma old_address_range c r i : urange 64 (old_address_of c r i).
Proof. apply lor_range; [done|apply tag_field_range|width]. Qed.

Lemma status_null_kept a m : port_wf m →
  sat (λ '(_, m'), port_wf m' ∧ port_limit m' = port_limit m) (status_null a m).
Proof.
  intros Hm. unfold status_null. eapply sat_bind; [by apply port_status_wf|].
  intros [[ok bs] m'] (_ & ? & _ & ?). by destruct bs.
Qed.

Lemma write_back_kept c i fu m : cache_wf c → port_wf m →
  sat (λ '(_, c', m'), kept c m c' m') (write_back c i fu m).
Proof.
  intros Hwf Hm. unfold write_back. eapply sat_bind; [by apply get_row_wf|]. intros r Hr.
  sat_step; [|by apply kept_refl].
  sat_step; (eapply sat_bind; [by apply status_null_kept
                              || (apply port_write_wf; [done|apply old_address_range|lia])|]).
  all: intros [ok m'] [? ?]; sat_step; split_and!; try done.
  all: by apply put_row_wf, row_wf_clean.
Qed.

Lemma port_answer_kept (b : bool) a n m : port_wf m → urange 64 a → 0 ≤ n →
  sat (λ '(_, bs, m'), bytes_ok bs ∧ port_wf m' ∧ port_limit m' = port_limit m)
    (if b then port_status a m else port_read a n m).
Proof.
  intros Hm Ha Hn. destruct b.
  - eapply sat_mono; [|by apply port_status_wf]. by intros [[? ?] ?] ([? ?] & ? & ? & ?).
  - eapply sat_mono; [|by apply port_read_wf]. by intros [[? ?] ?] ([? ?] & ? & ? & ?).
Qed.

Lemma evict_read_kept c a i t fu m : cache_wf c → port_wf m → urange 64 a →
  sat (λ '(_, c', m'), kept c m c' m') (evict_read c a i t fu m).
Proof.
  intros Hwf Hm Ha. unfold evict_read. eapply sat_bind; [apply sat_true|]. intros j _.
  eapply sat_bind; [by apply write_back_kept|]. intros [[wb c1] m1] K.
  destruct wb as [stall|]; [|done].
  assert (K' := K). destruct K' as (Hwf1 & Hd1 & Hm1 & _).
  eapply sat_bind; [by apply get_row_wf|]. intros r Hr.
  eapply sat_bind; [apply port_answer_kept; [done|done|case_match; lia]|].
  intros [[ok bs] m2] (Hbs & Hm2 & Hl2).
  assert (kept c m c1 m2) as K2 by (eapply kept_trans; [exact K|]; split_and!; done).
  eapply sat_bind; [apply patch_inv; [apply Hr|done]|]. intros d [Hl Hd].
  assert (row_wf c1 (set_data d r)) as Hr' by by apply row_wf_data.
  sat_step; [by apply kept_put|]. apply kept_put; [done|]. apply row_wf_install; [done|apply tag_field_range|].
  intros E'. rewrite E'. by apply Hr'.
Qed.

Lemma store_value_bytes n v : sat (λ bs, bytes_ok bs) (store_value n v).
Proof. unfold store_value. sat_step; [apply Z_to_bytes_ok|done]. Qed.

Lemma read_access_kept c a n fu av m : cache_wf c → port_wf m → urange 64 a →
  sat (λ '(_, bs, c', m'), bytes_ok bs ∧ kept c m c' m') (read_access c a n fu av m).
Proof.
  intros Hwf Hm Ha. unfold read_access. sat_step; [done|].
  eapply sat_bind; [apply sat_true|]. intros [r|] _.
  - eapply sat_bind; [apply sat_true|]. intros v _.
    eapply sat_bind; [apply store_value_bytes|]. intros bs Hbs. done.
  - sat_step; [done|].
    eapply sat_bind; [by apply evict_read_kept|].
    intros [[[i|] c'] m'] K; [|done].
    eapply sat_bind; [apply sat_true|]. intros r _.
    eapply sat_bind; [apply sat_true|]. intros v _.
    eapply sat_bind; [apply store_value_bytes|]. done.
Qed.

Lemma memcpy_row_wf c r sub v n : row_wf c r → sat (row_wf c) (memcpy_row r sub v n).
Proof.
  intros Hr. unfold memcpy_row. sat_step; [done|].
  eapply sat_bind; [apply patch_at_inv; [apply Hr|apply Z_to_bytes_ok]|].
  intros d [? ?]. by apply row_wf_data.
Qed.

(** The last step of a store that misses. *)
Lemma finish_kept c m c1 m1 i t sub v n : kept c m c1 m1 → is_data c = true →
  sat (λ '(_, c', m'), kept c m c' m')
    (r ← get_row i c1; r ← memcpy_row r sub v n; Ok (0, put_row i (install (tag_field c1 t) true r) c1, m1)).
Proof.
  intros K Hd. assert (K' := K). destruct K' as (Hwf1 & Hd1 & _).
  eapply sat_bind; [by apply get_row_wf|]. intros r Hr.
  eapply sat_bind; [by apply memcpy_row_wf|]. intros r' Hr'.
  apply kept_put; [done|]. apply row_wf_install; [done|apply tag_field_range|congruence].
Qed.

Lemma evict_write_kept c a i t v sub n fu av m : cache_wf c → port_wf m → urange 64 a →
  sat (λ '(_, c', m'), kept c m c' m') (evict_write c a i t v sub n fu av m).
Proof.
  intros Hwf Hm Ha. unfold evict_write. sat_step; [done|].
  apply negb_false_iff in E. eapply sat_bind; [apply sat_true|]. intros j _.
  sat_step.
  - sat_step; [done|]. eapply sat_bind; [by apply evict_read_kept|].
    intros [[[k|] c1] m1] K; [|done]. by apply finish_kept.
  - eapply sat_bind; [by apply get_row_wf|]. intros r Hr.
    sat_step; [|by apply finish_kept]. sat_step; [done|].
    eapply (sat_bind (λ '(_, m'), port_wf m' ∧ port_limit m' = port_limit m)).
    { case_match; [by apply status_null_kept|]. apply port_write_wf; [done| |lia].
      apply old_address_range. }
    intros [ok m1] [? ?]. sat_step; [|done]. apply finish_kept; [|done..].
    apply kept_put; [done|]. by apply row_wf_clean.
Qed.

Lemma write_access_kept c a v n fu av m : cache_wf c → port_wf m → urange 64 a →
  sat (λ '(_, c', m'), kept c m c' m') (write_access c a v n fu av m).
Proof.
  intros Hwf Hm Ha. unfold write_access. sat_step; [done|].
  eapply sat_bind; [by apply get_row_wf|]. intros r0 Hr0. sat_step.
  - eapply sat_bind; [by apply memcpy_row_wf|]. intros r Hr. by apply kept_put.
  - eapply sat_bind; [apply sat_true|]. intros r1 _. sat_step.
    + eapply sat_bind; [by apply memcpy_row_wf|]. intros r Hr. by apply kept_put.
    + by apply evict_write_kept.
Qed.
End frame.
