(* ===== verification/TLB.v ===== *)
(** * The translation look-aside buffers, [TLB.c], [TLB.h]

    Eight entries for superpages of 16 KiB, filled by a two-level page-table
    walk that uses at most one memory access per cycle: the walk is a state
    machine whose state is the status byte that the caller hands back. *)
From S2P Require Import Prelude Memory Port.

Record tlb_entry : Type := mkTlbEntry {
  tlb_valid : bool;
  physical_page : Z;
  virtual_page : Z;
}.

Record tlb : Type := mkTlb {
  entries : list tlb_entry;
  cached_second_index : Z;
}.

Definition no_entry : tlb_entry := mkTlbEntry false 0 0.
Definition initial_tlb : tlb := mkTlb (replicate 8 no_entry) 0.

Definition tlb_at (i : Z) (t : tlb) : tlb_entry :=
  default no_entry (entries t !! Z.to_nat i).
Definition set_tlb_at (i : Z) (e : tlb_entry) (t : tlb) : tlb :=
  mkTlb (<[Z.to_nat i := e]> (entries t)) (cached_second_index t).
Definition set_cached (x : Z) (t : tlb) : tlb := mkTlb (entries t) x.

(** A [uint32_t] that was uninitialised before [bs] was stored to it: unless
    all four bytes were written, its value is indeterminate. *)
Definition scalar32 (bs : list Z) : outcome Z :=
  if decide (length bs = 4%nat) then Ok (bytes_to_Z bs) else Undef.

(** The status bytes: [0] and [1] wait for the first and the second level,
    [2] has the first level in [cached_second_index], [0x80] is a page
    fault, [0xFE] a hit, [0xFF] a completed walk (or, as an argument, a
    fresh request). *)
Definition FAULT : Z := 0x80.
Definition HIT : Z := 0xFE.
Definition FRESH : Z := 0xFF.

Section tlb.
Context {M : Type} `{MemoryPort M}.
(** [get_ptbr ()] *)
Variable ptbr : Z.

Definition first_level_address (vpage : Z) : Z :=
  u32 (u32 (Z.shiftl (Z.shiftr (Z.shiftr vpage 2) 8) 2) + ptbr).

Definition second_level_address (second_level_index vpage : Z) : Z :=
  u32 (u32 (Z.shiftl (Z.shiftr (u32 (Z.shiftl second_level_index 1)) 1) 12)
       + u32 (Z.shiftl (Z.land vpage 0xFF) 2)).

(** Lines 49-56: the entry for the superpage, and the simulator's exit
    when the entry's index is not the number of the superpage group. *)
Definition fill_entry (t : tlb) (tlb_index vpage page : Z) : outcome (tlb * Z) :=
  let virtual_superpage := Z.shiftr vpage 2 in
  if negb (Z.shiftr virtual_superpage 3 =? tlb_index) then Exit 1
  else
    let e := mkTlbEntry true
               (wrap 18 (Z.shiftr (u32 (Z.shiftl page 1)) 3))
               (wrap 15 (u16 (Z.shiftr virtual_superpage 3))) in
    Ok (set_tlb_at tlb_index e t, physical_page e).

(** The second half of the walk. *)
Definition second_level (t : tlb) (tlb_index vpage status : Z) (m : M)
    : outcome (Z * Z * tlb * M) :=
  let second_level_index := cached_second_index t in
  if negb (Z.shiftr second_level_index 31 =? 1) then Ok (FAULT, 0, t, m)
  else
    let a := second_level_address second_level_index vpage in
    '(ok, bs, m) ← (if status =? 1 then port_status a m else port_read a 4 m);
    if ok then
      page ← scalar32 bs;
      if Z.shiftr page 31 =? 0 then Ok (FAULT, 0, t, m)
      else
        '(t, p) ← fill_entry t tlb_index vpage page;
        Ok (FRESH, p, t, m)
    else Ok (1, 0, t, m).

(** The results are the new status and [*ret_physical_page], which is set
    only when the status is [0xFF]. *)
Definition update_tlb_entry (t : tlb) (tlb_index vpage status : Z) (m : M)
    : outcome (Z * Z * tlb * M) :=
  if (status =? 0) || (status =? 0xFF) then
    let a := first_level_address vpage in
    '(ok, bs, m) ← (if status =? 0 then port_status a m else port_read a 4 m);
    if ok then
      second_level_index ← scalar32 bs;
      Ok (2, 0, set_cached second_level_index t, m)
    else Ok (0, 0, t, m)
  else second_level t tlb_index vpage status m.

(** [(page << 14) | (virtual_address << 18 >> 18)]; on a hit, [page] is a
    bit-field that is promoted to [int] and then converted. *)
Definition physical_address (page virtual_address : Z) : Z :=
  Z.lor (u32 (Z.shiftl page 14)) (Z.shiftr (u32 (Z.shiftl virtual_address 18)) 18).

(** The second result is [*output]; it is set when the status is [0xFE] or
    [0xFF]. *)
Definition get_address (t : tlb) (virtual_address status : Z) (m : M)
    : outcome (Z * option Z * tlb * M) :=
  let index := Z.land (Z.shiftr virtual_address 14) 7 in
  let e := tlb_at index t in
  if (status =? 0xFF) && (Z.shiftr virtual_address 17 =? virtual_page e) && tlb_valid e
  then Ok (HIT, Some (physical_address (physical_page e) virtual_address), t, m)
  else
    '(new_status, page, t, m) ←
      update_tlb_entry t index (Z.shiftr virtual_address 12) status m;
    if new_status =? 0xFF
    then Ok (FRESH, Some (physical_address page virtual_address), t, m)
    else Ok (new_status, None, t, m).
End tlb.
