(* ===== verification/TLBSpec.v ===== *)
(** * What the TLBs promise

    The page tables as a partial function from virtual to physical addresses
    ([translate]), and the relation between it and the walk of [TLB.c]. *)
From S2P Require Import Prelude Memory Port TLB.

(** ** The page tables *)

Definition table_entry (v : Z → Z) (a : Z) : Z := bytes_to_Z (get_bytes v a 4).

(** The first-level table has an entry per 4 MiB; the second-level index is
    8 bits of the page number. *)
Definition level1_address (ptbr va : Z) : Z := u32 (4 * (va / 2 ^ 22) + ptbr).
Definition level2_address (e va : Z) : Z :=
  (e mod 2 ^ 20) * 4096 + 4 * ((va / 2 ^ 12) mod 2 ^ 8).

(** Bit 31 of an entry is its valid bit. *)
Definition entry_valid (e : Z) : bool := 2 ^ 31 <=? e.

(** The superpage an entry maps to, and an address inside it. *)
Definition superpage (e : Z) : Z := (e / 4) mod 2 ^ 18.
Definition in_superpage (p va : Z) : Z := p * 2 ^ 14 + va mod 2 ^ 14.

Definition translate (v : Z → Z) (ptbr va : Z) : option Z :=
  let e1 := table_entry v (level1_address ptbr va) in
  if entry_valid e1 then
    let e2 := table_entry v (level2_address e1 va) in
    if entry_valid e2 then Some (in_superpage (superpage e2) va) else None
  else None.

(** The superpage number is 18 bits; its upper 15 bits name the group that
    the TLB compares, its lower 3 bits the TLB entry. *)
Definition tlb_group (va : Z) : Z := va / 2 ^ 17.
Definition tlb_index (va : Z) : Z := (va / 2 ^ 14) mod 8.

#[global] Arguments table_entry : simpl never.
#[global] Arguments level1_address : simpl never.
#[global] Arguments level2_address : simpl never.
#[global] Arguments entry_valid : simpl never.
#[global] Arguments superpage : simpl never.
#[global] Arguments in_superpage : simpl never.
#[global] Arguments tlb_group : simpl never.
#[global] Arguments tlb_index : simpl never.
#[global] Arguments fill_entry : simpl never.
#[global] Arguments physical_address : simpl never.

(** ** The code's shifts as arithmetic *)

Lemma first_level_address_spec ptbr va :
  urange 32 va → first_level_address ptbr (Z.shiftr va 12) = level1_address ptbr va.
Proof.
  intros [? ?]. unfold first_level_address, level1_address.
  rewrite !Z.shiftr_shiftr by lia. rewrite Z.shiftr_div_pow2 by lia.
  rewrite Z.shiftl_mul_pow2 by lia. change (12 + (2 + 8)) with 22. change (2 ^ 2) with 4.
  unfold wrap. rewrite Zplus_mod_idemp_l. f_equal. lia.
Qed.

Lemma second_level_address_spec e va :
  urange 32 e → second_level_address e (Z.shiftr va 12) = level2_address e va.
Proof.
  intros He. unfold second_level_address, level2_address.
  rewrite (shift_field 32 e 1 1) by lia. change (32 - 1) with 31.
  rewrite Z.div_1_r. change 0xFF with (Z.ones 8). rewrite Z.land_ones by lia.
  rewrite Z.shiftr_div_pow2, !Z.shiftl_mul_pow2 by lia.
  pose proof (Z.mod_pos_bound (va / 2 ^ 12) (2 ^ 8) ltac:(lia)).
  rewrite (wrap_small 32 (_ * 2 ^ 2)) by (unfold urange; lia).
  assert (u32 ((e mod 2 ^ 31) * 2 ^ 12) = (e mod 2 ^ 20) * 2 ^ 12) as ->.
  { unfold wrap. change (2 ^ 32) with (2 ^ 20 * 2 ^ 12). rewrite Zmult_mod_distr_r.
    f_equal. apply (wrap_wrap 20 31). lia. }
  pose proof (Z.mod_pos_bound e (2 ^ 20) ltac:(lia)).
  rewrite wrap_small by (unfold urange; lia). lia.
Qed.

Lemma physical_address_spec p va : urange 18 p → physical_address p va = in_superpage p va.
Proof.
  intros [? ?]. unfold physical_address, in_superpage.
  rewrite (shift_field 32 va 18 18) by lia. rewrite Z.div_1_r. change (32 - 18) with 14.
  rewrite wrap_small by (rewrite Z.shiftl_mul_pow2 by lia; unfold urange; lia).
  rewrite Z.lor_comm, lor_shiftl; [lia|lia|]. apply Z.mod_pos_bound. lia.
Qed.

Lemma entry_page_spec e : urange 32 e →
  wrap 18 (Z.shiftr (u32 (Z.shiftl e 1)) 3) = superpage e.
Proof.
  intros. rewrite (shift_field 32 e 1 3) by lia. change (32 - 1) with 31. change (3 - 1) with 2.
  change 31 with (2 + 29). rewrite mod_div_pow2 by lia. apply (wrap_wrap 18 29). lia.
Qed.

Lemma index_spec va : Z.land (Z.shiftr va 14) 7 = tlb_index va.
Proof.
  unfold tlb_index. change 7 with (Z.ones 3). rewrite Z.land_ones, Z.shiftr_div_pow2 by lia.
  done.
Qed.

Lemma valid_bit e : urange 32 e →
  (Z.shiftr e 31 =? 1) = entry_valid e ∧ (Z.shiftr e 31 =? 0) = negb (entry_valid e).
Proof.
  intros [? ?]. unfold entry_valid. rewrite Z.shiftr_div_pow2 by lia.
  destruct (Z.leb_spec (2 ^ 31) e).
  - assert (e / 2 ^ 31 = 1) as -> by (symmetry; apply (Z.div_unique _ _ _ (e - 2 ^ 31)); lia).
    done.
  - rewrite Z.div_small by lia. done.
Qed.

Lemma table_entry_range v a : (∀ x, is_byte (v x)) → urange 32 (table_entry v a).
Proof.
  intros Hv. pose proof (bytes_to_Z_range (get_bytes v a 4) (get_bytes_ok v a 4 Hv)) as Hr.
  rewrite length_get_bytes in Hr. exact Hr.
Qed.

(** ** Invariant *)

(** A valid entry was filled for a group equal to its own index. *)
Record entry_ok (i : nat) (e : tlb_entry) : Prop := {
  entry_page : urange 18 (physical_page e);
  entry_vpage : urange 15 (virtual_page e);
  entry_group : tlb_valid e = true → virtual_page e = Z.of_nat i;
}.

Record tlb_wf (t : tlb) : Prop := {
  tlb_length : length (entries t) = 8%nat;
  tlb_entries : ∀ i e, entries t !! i = Some e → entry_ok i e;
  tlb_cached : urange 32 (cached_second_index t);
}.

Lemma initial_tlb_wf : tlb_wf initial_tlb.
Proof.
  constructor; [done| |split; done].
  intros i e Hi. apply lookup_replicate in Hi as [-> _]. constructor; simpl; try split; done || lia.
Qed.

Lemma tlb_index_range va : 0 ≤ tlb_index va < 8.
Proof. apply Z.mod_pos_bound. lia. Qed.

Lemma tlb_at_ok t va : tlb_wf t → entry_ok (Z.to_nat (tlb_index va)) (tlb_at (tlb_index va) t).
Proof.
  intros Ht. pose proof (tlb_index_range va). unfold tlb_at.
  destruct (lookup_lt_is_Some_2 (entries t) (Z.to_nat (tlb_index va))) as [e He].
  - rewrite (tlb_length _ Ht). lia.
  - rewrite He. simpl. by apply Ht.
Qed.

Lemma tlb_at_set i e t : tlb_wf t → 0 ≤ i < 8 → tlb_at i (set_tlb_at i e t) = e.
Proof.
  intros Ht Hi. unfold tlb_at, set_tlb_at. simpl.
  rewrite list_lookup_insert_eq; [done|]. rewrite (tlb_length _ Ht). lia.
Qed.

Lemma set_tlb_at_wf i e t : tlb_wf t → entry_ok (Z.to_nat i) e → tlb_wf (set_tlb_at i e t).
Proof.
  intros [] He. constructor; simpl; [by rewrite length_insert| |done].
  intros j e' Hj. destruct (decide (j = Z.to_nat i)) as [->|Hne].
  - apply list_lookup_insert_Some in Hj as [(_ & -> & _)|(? & _)]; done.
  - rewrite list_lookup_insert_ne in Hj by done. eauto.
Qed.

Lemma set_cached_wf x t : tlb_wf t → urange 32 x → tlb_wf (set_cached x t).
Proof. intros [] ?. by constructor. Qed.

(** ** The walk *)

Lemma scalar32_full bs : length bs = 4%nat → scalar32 bs = Ok (bytes_to_Z bs).
Proof. intros H. unfold scalar32. by rewrite decide_True. Qed.

Lemma scalar32_range bs : bytes_ok bs → sat (urange 32) (scalar32 bs).
Proof.
  intros Hb. unfold scalar32. case_decide as Hl; [|done]. simpl.
  apply bytes_to_Z_range in Hb. by rewrite Hl in Hb.
Qed.

(** The entry that a completed walk leaves for [va]. *)
Definition walked (e2 va : Z) : tlb_entry := mkTlbEntry true (superpage e2) (tlb_group va).

Lemma superpage_range e : urange 18 (superpage e).
Proof. apply Z.mod_pos_bound. lia. Qed.

Lemma tlb_group_range va : urange 32 va → urange 15 (tlb_group va).
Proof.
  intros [? ?]. unfold tlb_group. split; [apply Z.div_pos; lia|].
  apply Z.div_lt_upper_bound; lia.
Qed.

Lemma walked_ok e2 va : urange 32 va → tlb_group va = tlb_index va →
  entry_ok (Z.to_nat (tlb_index va)) (walked e2 va).
Proof.
  intros Hva Hg. constructor; simpl; [apply superpage_range|by apply tlb_group_range|].
  intros _. pose proof (tlb_index_range va). lia.
Qed.

Lemma fill_entry_spec t va e : urange 32 va → urange 32 e →
  fill_entry t (tlb_index va) (Z.shiftr va 12) e
  = if tlb_group va =? tlb_index va
    then Ok (set_tlb_at (tlb_index va) (walked e va) t, superpage e) else Exit 1.
Proof.
  intros Hva He. unfold fill_entry. rewrite !Z.shiftr_shiftr by lia.
  rewrite (Z.shiftr_div_pow2 va) by lia. change (va / 2 ^ (12 + (2 + 3))) with (tlb_group va).
  destruct (_ =? _); simpl; [|done]. rewrite entry_page_spec by done.
  pose proof (tlb_group_range va Hva) as [? ?].
  rewrite (wrap_small 16), (wrap_small 15) by (unfold urange; lia). done.
Qed.

Section walk.
Context {M : Type} `{MemoryPortLaws M}.
Variable ptbr : Z.

(** *** What every call preserves, whatever the port answers *)

Definition walk_status (s : Z) : Prop := s ∈ [0; 1; 2; FAULT; HIT; FRESH].

Definition get_address_post (t : tlb) (m : M) : Z * option Z * tlb * M → Prop :=
  λ '(s, out, t', m'),
    tlb_wf t' ∧ port_wf m' ∧ port_view m' ≐ port_view m ∧ port_limit m' = port_limit m ∧
    walk_status s ∧ (is_Some out ↔ s = HIT ∨ s = FRESH) ∧
    ∀ pa, out = Some pa → urange 32 pa.

Lemma in_superpage_range p va : urange 18 p → urange 32 (in_superpage p va).
Proof.
  intros [? ?]. unfold in_superpage, urange.
  pose proof (Z.mod_pos_bound va (2 ^ 14) ltac:(lia)). lia.
Qed.

Lemma port_answer_wf (b : bool) a m : port_wf m → urange 32 a →
  sat (λ '(_, bs, m'), bytes_ok bs ∧ port_wf m' ∧ port_view m' ≐ port_view m
                       ∧ port_limit m' = port_limit m)
    (if b then port_status a m else port_read a 4 m).
Proof.
  intros Hm [? ?]. destruct b.
  - eapply sat_mono; [|by apply port_status_wf]. intros [[? ?] ?] ([? ?] & ?). done.
  - eapply sat_mono; [|apply port_read_wf; unfold urange; done || lia].
    intros [[? ?] ?] ([? ?] & ?). done.
Qed.

Lemma level2_address_range e va : urange 32 (level2_address e va).
Proof.
  unfold level2_address, urange. pose proof (Z.mod_pos_bound e (2 ^ 20) ltac:(lia)).
  pose proof (Z.mod_pos_bound (va / 2 ^ 12) (2 ^ 8) ltac:(lia)). lia.
Qed.

Definition update_post (t : tlb) (m : M) : Z * Z * tlb * M → Prop :=
  λ '(s, p, t', m'),
    tlb_wf t' ∧ port_wf m' ∧ port_view m' ≐ port_view m ∧ port_limit m' = port_limit m ∧
    s ∈ [0; 1; 2; FAULT; FRESH] ∧ urange 18 p.

Ltac in_list := match goal with |- _ ∈ _ => apply (bool_decide_unpack _); exact I end.

Lemma second_level_wf t va status m : tlb_wf t → port_wf m → urange 32 va →
  sat (update_post t m) (second_level t (tlb_index va) (Z.shiftr va 12) status m).
Proof.
  intros Ht Hm Hva. unfold second_level.
  rewrite second_level_address_spec by apply Ht.
  sat_step; [split_and!; done || in_list|].
  eapply sat_bind; [apply port_answer_wf; [done|apply level2_address_range]|].
  intros [[ok bs] m'] (Hbs & Hm' & Hv & Hl). cbv beta iota.
  destruct ok; [|apply sat_ret; split_and!; done || in_list].
  eapply sat_bind; [by apply scalar32_range|]. intros page Hpage.
  sat_step; [split_and!; done || in_list|].
  rewrite fill_entry_spec by done. destruct (Z.eqb_spec (tlb_group va) (tlb_index va)); [|exact I].
  apply sat_ret. split_and!; try done; [|in_list|apply superpage_range..].
  apply set_tlb_at_wf; [done|by apply walked_ok].
Qed.

Lemma update_tlb_entry_wf t va status m : tlb_wf t → port_wf m → urange 32 va →
  sat (update_post t m) (update_tlb_entry ptbr t (tlb_index va) (Z.shiftr va 12) status m).
Proof.
  intros Ht Hm Hva. unfold update_tlb_entry.
  sat_step; [|by apply second_level_wf].
  rewrite first_level_address_spec by done.
  eapply sat_bind; [apply port_answer_wf; [done|apply wrap_range; lia]|].
  intros [[ok bs] m'] (Hbs & Hm' & Hv & Hl). cbv beta iota.
  destruct ok; [|apply sat_ret; split_and!; done || in_list].
  eapply sat_bind; [by apply scalar32_range|]. intros x Hx.
  split_and!; try done; [by apply set_cached_wf|in_list].
Qed.

Lemma get_address_wf t va status m : tlb_wf t → port_wf m → urange 32 va →
  sat (get_address_post t m) (get_address ptbr t va status m).
Proof.
  intros Ht Hm Hva. unfold get_address. rewrite index_spec.
  sat_step.
  - split_and!; try done; [by unfold walk_status; in_list|split; [by left|done]|].
    intros pa [= <-]. pose proof (tlb_at_ok t va Ht) as He.
    rewrite physical_address_spec by apply He. apply in_superpage_range, He.
  - eapply sat_bind; [by apply update_tlb_entry_wf|].
    intros [[[s p] t'] m'] (Ht' & Hm' & Hv & Hl & Hs & Hp). simpl.
    sat_step; simpl.
    + split_and!; try done; [by unfold walk_status; in_list|split; [by right|done]|].
      intros pa [= <-]. rewrite physical_address_spec by done. by apply in_superpage_range.
    + apply Z.eqb_neq in E0. change 0xFF with FRESH in E0. split_and!; try done.
      * unfold walk_status. repeat (apply elem_of_cons in Hs as [->|Hs]; [in_list|]).
        by apply not_elem_of_nil in Hs.
      * split; [by intros []|]. intros [->| ->]; [|done]. exfalso.
        by apply (bool_decide_pack _) in Hs.
Qed.

(** *** The walk on a port that answers at once *)

(** The entry at [a] is an aligned word of memory. *)
Definition entry_inside (m : M) (a : Z) : Prop := a mod 4 = 0 ∧ a + 4 ≤ port_limit m.

Lemma read_entry a m : port_wf m → port_readable m → 0 ≤ a → entry_inside m a →
  ∃ m', port_read a 4 m = Ok (true, get_bytes (port_view m) a 4, m') ∧
        port_wf m' ∧ port_view m' ≐ port_view m ∧ port_limit m' = port_limit m.
Proof.
  intros Hm Hr Hpos [Ha Hl].
  destruct (port_read_ready a 4 m) as ([[d bs] m'] & E & -> & -> & ?);
    try done; [left; unfold access_size; lia|]. eauto.
Qed.

(** The first half: a request that misses reads the first-level entry. *)
Lemma walk_first t va m : tlb_wf t → port_wf m → port_readable m → urange 32 va →
  (tlb_group va =? virtual_page (tlb_at (tlb_index va) t))
    && tlb_valid (tlb_at (tlb_index va) t) = false →
  entry_inside m (level1_address ptbr va) →
  ∃ m', get_address ptbr t va FRESH m
        = Ok (2, None, set_cached (table_entry (port_view m) (level1_address ptbr va)) t, m')
      ∧ port_wf m' ∧ port_view m' ≐ port_view m ∧ port_limit m' = port_limit m.
Proof.
  intros Ht Hm Hr Hva Hmiss Hin.
  destruct (read_entry (level1_address ptbr va) m) as (m' & E & ?); try done.
  { apply (wrap_range 32). lia. }
  exists m'. split; [|done]. unfold get_address. rewrite index_spec.
  rewrite (Z.shiftr_div_pow2 va 17) by lia. change (va / 2 ^ 17) with (tlb_group va).
  rewrite <-andb_assoc, Hmiss, andb_false_r. unfold update_tlb_entry.
  rewrite first_level_address_spec by done. cbn [orb Z.eqb Pos.eqb FRESH]. rewrite E.
  cbn [obind]. rewrite scalar32_full by apply length_get_bytes. done.
Qed.

(** The second half. *)
Lemma walk_second t va m status : tlb_wf t → port_wf m → port_readable m → urange 32 va →
  status = 2 ∨ status = FAULT →
  cached_second_index t = table_entry (port_view m) (level1_address ptbr va) →
  entry_inside m (level2_address (cached_second_index t) va) →
  ∃ m', get_address ptbr t va status m
        = match translate (port_view m) ptbr va with
          | None => Ok (FAULT, None, t, m')
          | Some pa =>
              if tlb_group va =? tlb_index va
              then Ok (FRESH, Some pa,
                       set_tlb_at (tlb_index va)
                         (walked (table_entry (port_view m)
                                    (level2_address (cached_second_index t) va)) va) t, m')
              else Exit 1
          end
      ∧ port_wf m' ∧ port_view m' ≐ port_view m ∧ port_limit m' = port_limit m.
Proof.
  intros Ht Hm Hr Hva Hs Hc Hin. unfold translate. rewrite <-Hc.
  destruct (read_entry (level2_address (cached_second_index t) va) m) as (m' & E & Hm');
    try done; [apply level2_address_range|].
  assert (get_address ptbr t va status m
    = '(new_status, page, t, m) ← second_level t (tlb_index va) (Z.shiftr va 12) 2 m;
      if new_status =? 0xFF
      then Ok (FRESH, Some (physical_address page va), t, m)
      else Ok (new_status, None, t, m)) as ->.
  { unfold get_address. rewrite index_spec. by destruct Hs as [-> | ->]. }
  unfold second_level. rewrite (proj1 (valid_bit _ (tlb_cached _ Ht))).
  destruct (entry_valid (cached_second_index t)); cbn [negb obind].
  2: { exists m. done. }
  exists m'. split; [|done]. rewrite second_level_address_spec by apply Ht.
  change (2 =? 1) with false. rewrite E. cbn [obind]. rewrite scalar32_full by apply length_get_bytes.
  cbn [obind]. fold (table_entry (port_view m) (level2_address (cached_second_index t) va)).
  set (e2 := table_entry _ _).
  assert (urange 32 e2) as He2 by (apply table_entry_range; intros; by apply port_view_byte).
  rewrite (proj2 (valid_bit _ He2)). destruct (entry_valid e2); cbn [negb obind]; [|done].
  rewrite fill_entry_spec by done. destruct (_ =? _); cbn [obind]; [|done].
  rewrite physical_address_spec by apply superpage_range. done.
Qed.

(** A request that hits changes nothing and uses no memory access. *)
Lemma get_address_hit t va m : tlb_wf t →
  tlb_valid (tlb_at (tlb_index va) t) = true →
  virtual_page (tlb_at (tlb_index va) t) = tlb_group va →
  get_address ptbr t va FRESH m
  = Ok (HIT, Some (in_superpage (physical_page (tlb_at (tlb_index va) t)) va), t, m).
Proof.
  intros Ht Hv Hg. unfold get_address. rewrite index_spec.
  rewrite (Z.shiftr_div_pow2 va 17) by lia. change (va / 2 ^ 17) with (tlb_group va).
  rewrite Hv, Hg, Z.eqb_refl. cbn [andb FRESH Z.eqb Pos.eqb]. rewrite Z.eqb_refl. cbn [andb].
  rewrite physical_address_spec by apply (tlb_at_ok t va Ht). done.
Qed.

Lemma translate_proper v1 v2 va : v1 ≐ v2 → translate v1 ptbr va = translate v2 ptbr va.
Proof. intros Hv. unfold translate, table_entry. by rewrite !Hv. Qed.


(** *** Agreement with the page tables *)

(** Every valid entry is the translation of an address of its superpage. *)
Definition tlb_coherent (v : Z → Z) (t : tlb) : Prop :=
  ∀ i e, entries t !! i = Some e → tlb_valid e = true →
    ∃ va, urange 32 va ∧ tlb_index va = Z.of_nat i ∧ tlb_group va = virtual_page e ∧
          translate v ptbr va = Some (in_superpage (physical_page e) va).

(** The tables map the four pages of a superpage to one superpage, as a TLB
    with an entry per superpage needs. *)
Definition uniform_tables (v : Z → Z) : Prop :=
  ∀ va va' p, urange 32 va → urange 32 va' → va / 2 ^ 14 = va' / 2 ^ 14 →
    translate v ptbr va = Some (in_superpage p va) →
    translate v ptbr va' = Some (in_superpage p va').

(** Between the two halves of a walk the first-level entry is at hand. *)
Definition walk_inv (v : Z → Z) (va s : Z) (t : tlb) : Prop :=
  s = 2 ∨ s = FAULT → cached_second_index t = table_entry v (level1_address ptbr va).

Lemma initial_tlb_coherent v : tlb_coherent v initial_tlb.
Proof. intros i e Hi Hv. apply lookup_replicate in Hi as [-> _]. done. Qed.

Lemma same_superpage va va' :
  tlb_index va = tlb_index va' → tlb_group va = tlb_group va' → va / 2 ^ 14 = va' / 2 ^ 14.
Proof.
  unfold tlb_index, tlb_group. intros Hi Hg. change (2 ^ 17) with (2 ^ 14 * 8) in Hg.
  rewrite <-!Z.div_div in Hg by lia.
  rewrite (Z.div_mod (va / 2 ^ 14) 8), (Z.div_mod (va' / 2 ^ 14) 8) by lia. lia.
Qed.

Lemma set_coherent v t va e : urange 32 va → tlb_coherent v t →
  tlb_group va = virtual_page e →
  translate v ptbr va = Some (in_superpage (physical_page e) va) →
  tlb_coherent v (set_tlb_at (tlb_index va) e t).
Proof.
  intros Hva Hc Hg Htr i e' Hi Hv. pose proof (tlb_index_range va).
  apply list_lookup_insert_Some in Hi as [(<- & <- & _)|(_ & Hi)]; [|by eapply Hc].
  exists va. split_and!; try done. lia.
Qed.

Lemma coherent_view v1 v2 t : v1 ≐ v2 → tlb_coherent v1 t → tlb_coherent v2 t.
Proof.
  intros Hv Hc i e Hi He. destruct (Hc i e Hi He) as (va & ? & ? & ? & Htr).
  exists va. by rewrite <-(translate_proper _ _ va Hv).
Qed.

Lemma walk_inv_view v1 v2 va s t : v1 ≐ v2 → walk_inv v1 va s t → walk_inv v2 va s t.
Proof. intros Hv Hw Hs. rewrite (Hw Hs). unfold table_entry. by rewrite Hv. Qed.

(** A hit answers as the tables do. *)
Lemma hit_translates v t va : tlb_wf t → tlb_coherent v t → uniform_tables v →
  urange 32 va → tlb_valid (tlb_at (tlb_index va) t) = true →
  tlb_group va = virtual_page (tlb_at (tlb_index va) t) →
  translate v ptbr va = Some (in_superpage (physical_page (tlb_at (tlb_index va) t)) va).
Proof.
  intros Ht Hc Hu Hva Hv Hg. pose proof (tlb_index_range va) as Hi.
  destruct (lookup_lt_is_Some_2 (entries t) (Z.to_nat (tlb_index va))) as [e He].
  { rewrite (tlb_length _ Ht). lia. }
  unfold tlb_at in *. rewrite He in *. simpl in *.
  destruct (Hc _ _ He Hv) as (va0 & Hr & Hi0 & Hg0 & Htr).
  apply (Hu va0); try done. apply same_superpage; [lia|congruence].
Qed.

(** The translation that a completed walk stores. *)
Lemma translate_walked v va pa :
  translate v ptbr va = Some pa →
  pa = in_superpage (superpage (table_entry v
         (level2_address (table_entry v (level1_address ptbr va)) va))) va.
Proof. unfold translate. repeat case_match; naive_solver. Qed.

(** C7: no call hands out an address that the page tables do not: from a
    TLB that agrees with uniform tables, when memory answers at once, both
    table entries of the request are aligned and inside memory, and the status
    says fresh, or second half of the walk or page fault with the first-level
    entry of the request kept, every output is the translation of the request
    and every page fault is a failed translation, and the
    agreement is kept.  The only other outcome is the exit of the simulator,
    and only for an address whose upper bits are not its TLB index. *)
Theorem get_address_sound t va status m :
  tlb_wf t → tlb_coherent (port_view m) t → uniform_tables (port_view m) →
  urange 32 va → port_wf m → port_readable m →
  status ∈ [FRESH; 2; FAULT] → walk_inv (port_view m) va status t →
  entry_inside m (level1_address ptbr va) →
  entry_inside m
    (level2_address (table_entry (port_view m) (level1_address ptbr va)) va) →
  ends (λ '(s, out, t', m'),
      tlb_wf t' ∧ tlb_coherent (port_view m') t' ∧ walk_inv (port_view m') va s t' ∧
      port_view m' ≐ port_view m ∧ s ∈ [2; FAULT; HIT; FRESH] ∧
      (∀ pa, out = Some pa → translate (port_view m) ptbr va = Some pa) ∧
      (s = FAULT → translate (port_view m) ptbr va = None))
    (λ code, code = 1 ∧ status ≠ FRESH ∧ tlb_group va ≠ tlb_index va)
    (get_address ptbr t va status m).
Proof.
  intros Ht Hc Hu Hva Hm Hr Hs Hw Hin1 Hin2.
  set (hit := (tlb_group va =? virtual_page (tlb_at (tlb_index va) t))
              && tlb_valid (tlb_at (tlb_index va) t)).
  assert (status = FRESH ∨ status = 2 ∨ status = FAULT) as [->|Hs2] by set_solver.
  - destruct hit eqn:Hhit; subst hit.
    + apply andb_true_iff in Hhit as [Hg%Z.eqb_eq Hv].
      rewrite get_address_hit by done. simpl. split_and!; try done.
      * by intros [?|?].
      * apply (bool_decide_unpack _). exact I.
      * intros pa [= <-]. by apply hit_translates.
    + destruct (walk_first t va m) as (m' & -> & Hm' & Hv & _); try done.
      simpl. split_and!; try done.
      * apply set_cached_wf; [done|]. apply table_entry_range. intros.
        by apply port_view_byte.
      * by eapply coherent_view; [symmetry|].
      * intros _. simpl. unfold table_entry. by rewrite Hv.
      * apply (bool_decide_unpack _). exact I.
  - specialize (Hw Hs2) as Hcache.
    destruct (walk_second t va m status) as (m' & -> & Hm' & Hv & _); try done.
    { by rewrite Hcache. }
    destruct (translate (port_view m) ptbr va) as [pa|] eqn:Htr.
    + destruct (Z.eqb_spec (tlb_group va) (tlb_index va)) as [Hg|Hg].
      2:{ split_and!; [done| |done]. by intros ->; destruct Hs2. }
      simpl. split_and!; try done.
      * apply set_tlb_at_wf; [done|by apply walked_ok].
      * eapply coherent_view; [symmetry; exact Hv|]. apply set_coherent; try done.
        rewrite Hcache, Htr. f_equal. by apply translate_walked.
      * by intros [?|?].
      * apply (bool_decide_unpack _). exact I.
    + simpl. split_and!; try done.
      * by eapply coherent_view; [symmetry|].
      * intros _. rewrite Hcache. unfold table_entry. by rewrite Hv.
      * apply (bool_decide_unpack _). exact I.
Qed.
End walk.
