(* ===== verification/PortFrame.v ===== *)
(** * Relations that the port keeps, its clients keep

    The TLBs and the caches change memory only through the port: a preorder
    on memory states that contains every call of the port contains every call
    of [get_address], [read_access] and [write_access]. *)
From S2P Require Import Prelude Memory Port Cache TLB.

Section frame.
Context {M : Type} `{MemoryPort M} (R : relation M) `{!PreOrder R}.
Hypothesis R_read : ∀ a n m, sat (λ '(_, _, m'), R m m') (port_read a n m).
Hypothesis R_write : ∀ a v n m, sat (λ '(_, m'), R m m') (port_write a v n m).
Hypothesis R_status : ∀ a m, sat (λ '(_, _, m'), R m m') (port_status a m).

Lemma port_answer_frame (b : bool) a n m :
  sat (λ '(_, _, m'), R m m') (if b then port_status a m else port_read a n m).
Proof. destruct b; auto. Qed.

(** *** The TLBs *)

Lemma second_level_frame t i vp st m :
  sat (λ '(_, _, _, m'), R m m') (second_level t i vp st m).
Proof.
  unfold second_level. destruct (negb _); [by apply sat_ret|].
  eapply sat_bind; [apply port_answer_frame|]. intros [[ok bs] m'] HR.
  destruct ok; [|done]. eapply sat_bind; [apply sat_true|]. intros page _.
  destruct (_ =? 0); [done|]. eapply sat_bind; [apply sat_true|]. by intros [? ?] _.
Qed.

Lemma update_tlb_entry_frame p t i vp st m :
  sat (λ '(_, _, _, m'), R m m') (update_tlb_entry p t i vp st m).
Proof.
  unfold update_tlb_entry. destruct (_ || _); [|apply second_level_frame].
  eapply sat_bind; [apply port_answer_frame|]. intros [[ok bs] m'] HR.
  destruct ok; [|done]. eapply sat_bind; [apply sat_true|]. done.
Qed.

Lemma get_address_frame p t va st m :
  sat (λ '(_, _, _, m'), R m m') (get_address p t va st m).
Proof.
  unfold get_address. destruct (_ && _); [by apply sat_ret|].
  eapply sat_bind; [apply update_tlb_entry_frame|]. intros [[[? ?] ?] ?] HR. by case_match.
Qed.

(** *** The caches *)

Lemma status_null_frame a m : sat (λ '(_, m'), R m m') (status_null a m).
Proof.
  unfold status_null. eapply sat_bind; [apply R_status|]. intros [[? bs] ?] HR.
  by destruct bs.
Qed.

Lemma write_back_frame c i fu m : sat (λ '(_, _, m'), R m m') (write_back c i fu m).
Proof.
  unfold write_back. eapply sat_bind; [apply sat_true|]. intros r _.
  destruct (_ && _); [|by apply sat_ret].
  destruct fu; (eapply sat_bind; [apply status_null_frame || apply R_write|]);
    intros [ok m'] HR; by destruct ok.
Qed.

Lemma evict_read_frame c a i t fu m : sat (λ '(_, _, m'), R m m') (evict_read c a i t fu m).
Proof.
  unfold evict_read. eapply sat_bind; [apply sat_true|]. intros j _.
  eapply sat_bind; [apply write_back_frame|]. intros [[[stall|] c1] m1] HR1; [|done].
  eapply sat_bind; [apply sat_true|]. intros r _.
  eapply sat_bind; [apply port_answer_frame|]. intros [[ok bs] m2] HR2.
  eapply sat_bind; [apply sat_true|]. intros d _.
  case_match; simpl; by etrans.
Qed.

Lemma read_access_frame c a n fu av m :
  sat (λ '(_, _, _, m'), R m m') (read_access c a n fu av m).
Proof.
  unfold read_access. destruct (nonzero _); [done|].
  eapply sat_bind; [apply sat_true|]. intros [r|] _.
  - do 2 (eapply sat_bind; [apply sat_true|]; intros ? _). by apply sat_ret.
  - destruct (negb av); [by apply sat_ret|].
    eapply sat_bind; [apply evict_read_frame|]. intros [[[i|] c'] m'] HR; [|done].
    do 3 (eapply sat_bind; [apply sat_true|]; intros ? _). done.
Qed.

Lemma evict_write_frame c a i t v sub n fu av m :
  sat (λ '(_, _, m'), R m m') (evict_write c a i t v sub n fu av m).
Proof.
  unfold evict_write. destruct (negb _); [by apply sat_ret|].
  eapply sat_bind; [apply sat_true|]. intros j _. destruct (negb (n =? 8)).
  - destruct (negb av); [by apply sat_ret|].
    eapply sat_bind; [apply evict_read_frame|]. intros [[[k|] c'] m'] HR; [|done].
    do 2 (eapply sat_bind; [apply sat_true|]; intros ? _). done.
  - eapply sat_bind; [apply sat_true|]. intros r _. destruct (dirty r).
    + destruct (negb av); [by apply sat_ret|].
      eapply (sat_bind (λ '(_, m'), R m m')).
      { destruct fu; [apply status_null_frame|apply R_write]. }
      intros [ok m'] HR. destruct ok; [|done].
      do 2 (eapply sat_bind; [apply sat_true|]; intros ? _). done.
    + do 2 (eapply sat_bind; [apply sat_true|]; intros ? _). by apply sat_ret.
Qed.

Lemma write_access_frame c a v n fu av m :
  sat (λ '(_, _, m'), R m m') (write_access c a v n fu av m).
Proof.
  unfold write_access. destruct (negb _); [by apply sat_ret|].
  eapply sat_bind; [apply sat_true|]. intros r0 _. destruct (_ && _).
  - eapply sat_bind; [apply sat_true|]. intros r _. by apply sat_ret.
  - eapply sat_bind; [apply sat_true|]. intros r1 _. destruct (_ && _).
    + eapply sat_bind; [apply sat_true|]. intros r _. by apply sat_ret.
    + apply evict_write_frame.
Qed.
End frame.

(** The instruction cache never writes: a relation that contains the reads
    and polls is enough. *)
Section instruction_side.
Context {M : Type} `{MemoryPort M} (R : relation M) `{!PreOrder R}.
Hypothesis R_read : ∀ a n m, sat (λ '(_, _, m'), R m m') (port_read a n m).
Hypothesis R_status : ∀ a m, sat (λ '(_, _, m'), R m m') (port_status a m).

Lemma fetch_access_frame c a n fu av m : is_data c = false →
  sat (λ '(_, _, _, m'), R m m') (read_access c a n fu av m).
Proof.
  intros Hd. unfold read_access. destruct (nonzero _); [done|].
  eapply sat_bind; [apply sat_true|]. intros [r|] _.
  { do 2 (eapply sat_bind; [apply sat_true|]; intros ? _). by apply sat_ret. }
  destruct (negb av); [by apply sat_ret|]. eapply (sat_bind (λ '(_, _, m'), R m m')).
  - unfold evict_read, write_back. rewrite Hd. cbn [obind andb].
    destruct (get_row (index_of c a) c) as [r| |] eqn:Er; [|done..]. cbn [obind].
    rewrite Er. cbn [obind].
    eapply sat_bind; [by apply (port_answer_frame R)|]. intros [[ok bs] m'] HR.
    eapply sat_bind; [apply sat_true|]. intros d _. by case_match.
  - intros [[[i|] c'] m'] HR; [|done].
    do 3 (eapply sat_bind; [apply sat_true|]; intros ? _). done.
Qed.
End instruction_side.
