(* ===== verification/Instruction.v ===== *)
(** * Instruction words and pipeline registers

    [riscv.h]: a [struct riscv_instruction] is a packed 32-bit word; the
    four format structures are views of the same word, so the model keeps
    the word and reads the bit-fields from it.
    [riscv_pipeline_registers.h]: the four stage registers. *)
From S2P Require Import Prelude.

(** ** Bit-fields ([riscv.h], lines 7-48) *)

Definition opcode (i : Z) : Z := bits i 0 7.
Definition rd_field (i : Z) : Z := bits i 7 5.
Definition funct3 (i : Z) : Z := bits i 12 3.
Definition rs1_field (i : Z) : Z := bits i 15 5.
Definition rs2_field (i : Z) : Z := bits i 20 5.
Definition funct7 (i : Z) : Z := bits i 25 7.
(** [riscv_i_instruction_data.imm] *)
Definition i_imm (i : Z) : Z := bits i 20 12.
(** [riscv_s_instruction_data.imm2] and [.imm] *)
Definition s_imm2 (i : Z) : Z := bits i 7 5.
Definition s_imm (i : Z) : Z := bits i 25 7.
(** [riscv_u_instruction_data.imm] *)
Definition u_imm (i : Z) : Z := bits i 12 20.

(** ** Stage registers *)

Record stage_reg_d : Type := mkD {
  d_pc : Z;
  d_new_pc : Z;
  d_instruction : Z;
  d_not_stalled : Z;
  will_be_stalled : Z;
  d_tlb_stall_status : Z;
}.

Record stage_reg_x : Type := mkX {
  x_pc : Z;
  x_new_pc : Z;
  x_instruction : Z;
  x_not_stalled : Z;
  rs1_value : Z;
  rs2_value : Z;
  rs1 : Z;
  rs2 : Z;
  rd : Z;
}.

(** [readWrite]: 3 for a register write, 2 for a memory read, 1 for a memory
    write, 0 for no operation. *)
Record stage_reg_m : Type := mkM {
  m_address : Z;
  size : Z;
  readWrite : Z;
  signExtend : Z;
  m_reg : Z;
  m_value : Z;
  m_tainted_executions : Z;
  wasStalled : Z;
  stallStatus : Z;
  m_pc : Z;
}.

Record stage_reg_w : Type := mkW {
  w_reg : Z;
  w_value : Z;
  w_op : Z;
  global_memory_stall : Z;
  w_tlb_stall_status : Z;
  w_tainted_executions : Z;
  memory_register : stage_reg_m;
}.

(** The all-zero registers that [initialize_state] puts in place. *)
Definition zero_d : stage_reg_d := mkD 0 0 0 0 0 0.
Definition zero_x : stage_reg_x := mkX 0 0 0 0 0 0 0 0 0.
Definition zero_m : stage_reg_m := mkM 0 0 0 0 0 0 0 0 0 0.
Definition zero_w : stage_reg_w := mkW 0 0 0 0 0 0 zero_m.

(** ** Invariants: every field has the range of its C type *)

Record d_wf (d : stage_reg_d) : Prop := {
  d_wf_pc : urange 64 (d_pc d);
  d_wf_new_pc : urange 64 (d_new_pc d);
  d_wf_instruction : urange 32 (d_instruction d);
  d_wf_not_stalled : urange 8 (d_not_stalled d);
  d_wf_will : urange 8 (will_be_stalled d);
  d_wf_tlb : urange 8 (d_tlb_stall_status d);
}.

Record x_wf (x : stage_reg_x) : Prop := {
  x_wf_pc : urange 64 (x_pc x);
  x_wf_new_pc : urange 64 (x_new_pc x);
  x_wf_instruction : urange 32 (x_instruction x);
  x_wf_not_stalled : urange 8 (x_not_stalled x);
  x_wf_rs1_value : urange 64 (rs1_value x);
  x_wf_rs2_value : urange 64 (rs2_value x);
  x_wf_rs1 : srange 16 (rs1 x);
  x_wf_rs2 : srange 16 (rs2 x);
  x_wf_rd : srange 16 (rd x);
}.

Record m_wf (m : stage_reg_m) : Prop := {
  m_wf_address : urange 64 (m_address m);
  m_wf_size : urange 8 (size m);
  m_wf_readWrite : urange 8 (readWrite m);
  m_wf_signExtend : urange 8 (signExtend m);
  m_wf_reg : urange 64 (m_reg m);
  m_wf_value : urange 64 (m_value m);
  m_wf_tainted : urange 8 (m_tainted_executions m);
  m_wf_wasStalled : urange 8 (wasStalled m);
  m_wf_stallStatus : urange 8 (stallStatus m);
  m_wf_pc : urange 64 (m_pc m);
}.

Record w_wf (w : stage_reg_w) : Prop := {
  w_wf_reg : urange 64 (w_reg w);
  w_wf_value : urange 64 (w_value w);
  w_wf_op : urange 8 (w_op w);
  w_wf_stall : urange 8 (global_memory_stall w);
  w_wf_tlb : urange 8 (w_tlb_stall_status w);
  w_wf_tainted : urange 8 (w_tainted_executions w);
  w_wf_memory : m_wf (memory_register w);
}.

Lemma zero_regs_wf : d_wf zero_d ∧ x_wf zero_x ∧ m_wf zero_m ∧ w_wf zero_w.
Proof. split_and!; repeat constructor; simpl; lia. Qed.

#[export] Hint Resolve d_wf_pc d_wf_new_pc d_wf_instruction d_wf_not_stalled d_wf_will d_wf_tlb
  x_wf_pc x_wf_new_pc x_wf_instruction x_wf_not_stalled x_wf_rs1_value x_wf_rs2_value
  x_wf_rs1 x_wf_rs2 x_wf_rd
  m_wf_address m_wf_size m_wf_readWrite m_wf_signExtend m_wf_reg m_wf_value m_wf_tainted
  m_wf_wasStalled m_wf_stallStatus m_wf_pc
  w_wf_reg w_wf_value w_wf_op w_wf_stall w_wf_tlb w_wf_tainted w_wf_memory : width.
