(* ===== verification/ISA.v ===== *)
(** * A reference semantics for the instructions

    The RV64IM instructions that the simulator implements, as the
    instruction-set manual defines them: immediates, the arithmetic, the
    effect of an instruction on the registers, memory and the program
    counter.  [ISARefinement] compares the handlers with it. *)
From S2P Require Import Prelude Instruction.

(** ** Immediates *)

Definition imm_I (i : Z) : Z := swrap 12 (bits i 20 12).
Definition imm_S (i : Z) : Z := swrap 12 (bits i 25 7 * 2 ^ 5 + bits i 7 5).
Definition imm_B (i : Z) : Z :=
  swrap 13 (bits i 31 1 * 2 ^ 12 + bits i 7 1 * 2 ^ 11 + bits i 25 6 * 2 ^ 5 + bits i 8 4 * 2).
Definition imm_U (i : Z) : Z := swrap 32 (bits i 12 20 * 2 ^ 12).
Definition imm_J (i : Z) : Z :=
  swrap 21 (bits i 31 1 * 2 ^ 20 + bits i 12 8 * 2 ^ 12 + bits i 20 1 * 2 ^ 11
            + bits i 21 10 * 2).

(** ** Arithmetic *)

Inductive alu_op : Type :=
  | ADD | SUB | SLL | SLT | SLTU | XOR | SRL | SRA | OR | AND
  | MUL | MULH | MULHSU | MULHU | DIV | DIVU | REM | REMU
  | ADDW | SUBW | SLLW | SRLW | SRAW | MULW | DIVW | DIVUW | REMW | REMUW.

#[export] Instance alu_op_eq_dec : EqDecision alu_op.
Proof. solve_decision. Defined.

(** Sign extension of a 32-bit result to 64 bits. *)
Definition sext32 (v : Z) : Z := u64 (i32 v).

Definition flag (b : bool) : Z := if b then 1 else 0.

(** Division rounds towards zero; dividing by zero gives -1 and leaves the
    dividend as remainder; the quotient that does not fit wraps. *)
Definition div_signed (w x y : Z) : Z := if y =? 0 then -1 else swrap w (Z.quot x y).
Definition rem_signed (x y : Z) : Z := if y =? 0 then x else Z.rem x y.
Definition div_unsigned (w x y : Z) : Z := if y =? 0 then 2 ^ w - 1 else x / y.
Definition rem_unsigned (x y : Z) : Z := if y =? 0 then x else x mod y.

(** The operands and the result are register values, in [0, 2^64). *)
Definition alu (op : alu_op) (a b : Z) : Z :=
  match op with
  | ADD => u64 (a + b)
  | SUB => u64 (a - b)
  | SLL => u64 (Z.shiftl a (b mod 64))
  | SLT => flag (i64 a <? i64 b)
  | SLTU => flag (a <? b)
  | XOR => Z.lxor a b
  | SRL => Z.shiftr a (b mod 64)
  | SRA => u64 (Z.shiftr (i64 a) (b mod 64))
  | OR => Z.lor a b
  | AND => Z.land a b
  | MUL => u64 (a * b)
  | MULH => u64 (Z.shiftr (i64 a * i64 b) 64)
  | MULHSU => u64 (Z.shiftr (i64 a * b) 64)
  | MULHU => u64 (Z.shiftr (a * b) 64)
  | DIV => u64 (div_signed 64 (i64 a) (i64 b))
  | DIVU => div_unsigned 64 a b
  | REM => u64 (rem_signed (i64 a) (i64 b))
  | REMU => rem_unsigned a b
  | ADDW => sext32 (a + b)
  | SUBW => sext32 (a - b)
  | SLLW => sext32 (Z.shiftl a (b mod 32))
  | SRLW => sext32 (Z.shiftr (u32 a) (b mod 32))
  | SRAW => sext32 (Z.shiftr (i32 a) (b mod 32))
  | MULW => sext32 (a * b)
  | DIVW => sext32 (div_signed 32 (i32 a) (i32 b))
  | DIVUW => sext32 (div_unsigned 32 (u32 a) (u32 b))
  | REMW => sext32 (rem_signed (i32 a) (i32 b))
  | REMUW => sext32 (rem_unsigned (u32 a) (u32 b))
  end.

(** ** Decoding *)

(** Register-register instructions, opcodes [0x33] and [0x3B]. *)
Definition decode_op (f3 f7 : Z) : option alu_op :=
  match f7, f3 with
  | 0, 0 => Some ADD | 0, 1 => Some SLL | 0, 2 => Some SLT | 0, 3 => Some SLTU
  | 0, 4 => Some XOR | 0, 5 => Some SRL | 0, 6 => Some OR | 0, 7 => Some AND
  | 0x20, 0 => Some SUB | 0x20, 5 => Some SRA
  | 1, 0 => Some MUL | 1, 1 => Some MULH | 1, 2 => Some MULHSU | 1, 3 => Some MULHU
  | 1, 4 => Some DIV | 1, 5 => Some DIVU | 1, 6 => Some REM | 1, 7 => Some REMU
  | _, _ => None
  end.

Definition decode_op32 (f3 f7 : Z) : option alu_op :=
  match f7, f3 with
  | 0, 0 => Some ADDW | 0, 1 => Some SLLW | 0, 5 => Some SRLW
  | 0x20, 0 => Some SUBW | 0x20, 5 => Some SRAW
  | 1, 0 => Some MULW | 1, 4 => Some DIVW | 1, 5 => Some DIVUW
  | 1, 6 => Some REMW | 1, 7 => Some REMUW
  | _, _ => None
  end.

(** Register-immediate instructions, opcodes [0x13] and [0x1B]: the operation
    and its second operand.  A 64-bit shift has a 6-bit count. *)
Definition decode_opimm (i : Z) : option (alu_op * Z) :=
  let imm := u64 (imm_I i) in
  match funct3 i with
  | 0 => Some (ADD, imm)
  | 1 => if bits i 26 6 =? 0 then Some (SLL, bits i 20 6) else None
  | 2 => Some (SLT, imm)
  | 3 => Some (SLTU, imm)
  | 4 => Some (XOR, imm)
  | 5 => match bits i 26 6 with
         | 0 => Some (SRL, bits i 20 6)
         | 0x10 => Some (SRA, bits i 20 6)
         | _ => None
         end
  | 6 => Some (OR, imm)
  | 7 => Some (AND, imm)
  | _ => None
  end.

Definition decode_opimm32 (i : Z) : option (alu_op * Z) :=
  match funct3 i with
  | 0 => Some (ADDW, u64 (imm_I i))
  | 1 => if funct7 i =? 0 then Some (SLLW, bits i 20 5) else None
  | 5 => match funct7 i with
         | 0 => Some (SRLW, bits i 20 5)
         | 0x20 => Some (SRAW, bits i 20 5)
         | _ => None
         end
  | _ => None
  end.

Definition branch_taken (f3 a b : Z) : option bool :=
  match f3 with
  | 0 => Some (a =? b)
  | 1 => Some (negb (a =? b))
  | 4 => Some (i64 a <? i64 b)
  | 5 => Some (i64 b <=? i64 a)
  | 6 => Some (a <? b)
  | 7 => Some (b <=? a)
  | _ => None
  end.

(** ** Effects *)

Inductive effect : Type :=
  | No_effect
  | Write_reg (reg v : Z)
  | Read_mem (reg a n : Z) (sx : bool)
  | Write_mem (a n v : Z).

#[export] Instance effect_eq_dec : EqDecision effect.
Proof. solve_decision. Defined.

(** The size of a load and whether it is extended with its sign bit; a
    doubleword is not extended. *)
Definition load_kind (f3 : Z) : option (Z * bool) :=
  match f3 with
  | 0 => Some (1, true) | 1 => Some (2, true) | 2 => Some (4, true) | 3 => Some (8, false)
  | 4 => Some (1, false) | 5 => Some (2, false) | 6 => Some (4, false)
  | _ => None
  end.

Definition store_size (f3 : Z) : option Z :=
  match f3 with 0 => Some 1 | 1 => Some 2 | 2 => Some 4 | 3 => Some 8 | _ => None end.

(** The next program counter and the effect of the instruction word [i] at
    [pc] with the source registers' values [a] and [b]; [None] for a word
    that is not an instruction of the subset (fences and environment calls
    are outside it). *)
Definition execute (i pc a b : Z) : option (Z * effect) :=
  let next := u64 (pc + 4) in
  let write v := Some (next, Write_reg (rd_field i) v) in
  match opcode i with
  | 0x17 => write (u64 (pc + imm_U i))
  | 0x37 => write (u64 (imm_U i))
  | 0x6F => Some (u64 (pc + imm_J i), Write_reg (rd_field i) next)
  | 0x67 => if funct3 i =? 0
            then Some (Z.land (u64 (a + imm_I i)) (u64 (-2)), Write_reg (rd_field i) next)
            else None
  | 0x03 => match load_kind (funct3 i) with
            | Some (n, sx) => Some (next, Read_mem (rd_field i) (u64 (a + imm_I i)) n sx)
            | None => None
            end
  | 0x63 => match branch_taken (funct3 i) a b with
            | Some taken => Some (if taken then u64 (pc + imm_B i) else next, No_effect)
            | None => None
            end
  | 0x23 => match store_size (funct3 i) with
            | Some n => Some (next, Write_mem (u64 (a + imm_S i)) n (b mod 2 ^ (8 * n)))
            | None => None
            end
  | 0x13 => match decode_opimm i with Some (op, v) => write (alu op a v) | None => None end
  | 0x1B => match decode_opimm32 i with Some (op, v) => write (alu op a v) | None => None end
  | 0x33 => match decode_op (funct3 i) (funct7 i) with
            | Some op => write (alu op a b) | None => None end
  | 0x3B => match decode_op32 (funct3 i) (funct7 i) with
            | Some op => write (alu op a b) | None => None end
  | _ => None
  end.
