(* ===== verification/Execute.v ===== *)
(** * Instruction handlers, [riscv_virtualizer.c] lines 45-954

    Each handler gets the execute-stage register [x], the address of the
    next instruction ([*pc] on entry is [x->pc + 4]), the instruction word
    and the memory-stage register being filled; it returns the new [*pc],
    the register, and what it printed. *)
From S2P Require Import Prelude Instruction.

(** What the simulator prints. *)
Inductive event : Type :=
  | Illegal_instruction (pc instruction : Z).

Abbreviation hresult := (outcome (Z * stage_reg_m * list event)).

(** The message shows [( *pc) - 4], the address of the instruction. *)
Definition riscv_illegal_instruction (pc i : Z) (m : stage_reg_m) : hresult :=
  Ok (pc, m, [Illegal_instruction (u64 (pc - 4)) i]).

Definition riscv_nop (pc i : Z) (m : stage_reg_m) : hresult := Ok (pc, m, []).

Definition prepare_register_write (reg value : Z) (m : stage_reg_m) : stage_reg_m :=
  mkM (m_address m) (size m) 3 (signExtend m) reg value
    (m_tainted_executions m) (wasStalled m) (stallStatus m) (m_pc m).

(** A handler that writes [v] to [rd] and goes on to the next instruction. *)
Definition write_rd (pc i : Z) (m : stage_reg_m) (v : Z) : hresult :=
  Ok (pc, prepare_register_write (rd_field i) v m, []).

(** [if (immediate & (1 << 11)) { immediate |= 0b1111 << 12;
    immediate |= 0xFFFFFFFFFFFF0000; }] *)
Definition extend_imm12 (immediate : Z) : Z :=
  if nonzero (Z.land immediate (Z.shiftl 1 11))
  then Z.lor (Z.lor immediate (Z.shiftl 0xF 12)) 0xFFFFFFFFFFFF0000
  else immediate.

(** [if (temp & (0b1 << 11)) { temp |= 0b1111 << 12;
    temp = (int64_t) (int16_t) temp; }], [temp] a [uint64_t]. *)
Definition extend_temp (temp : Z) : Z :=
  if nonzero (Z.land temp (Z.shiftl 1 11))
  then u64 (i16 (Z.lor temp (Z.shiftl 0xF 12)))
  else temp.

Section handlers.
(** [current_stage_x_register] *)
Variable x : stage_reg_x.
Let a := rs1_value x.
Let b := rs2_value x.

Definition riscv_auipc (pc i : Z) (m : stage_reg_m) : hresult :=
  write_rd pc i m (u64 (pc + i32 (Z.shiftl (u_imm i) 12))).

Definition riscv_lui (pc i : Z) (m : stage_reg_m) : hresult :=
  let temp := u64 (i32 (Z.shiftl (u_imm i) 12)) in
  write_rd pc i m (u64 (i32 temp)).

(** Lines 74-81: the immediate of a jump, as an [int64_t]. *)
Definition jal_offset (i : Z) : Z :=
  let immediate := u_imm i in
  let mask := 0xFFFFF in
  let immediate :=
    Z.lor (Z.lor (Z.lor
      (Z.shiftl (Z.land (Z.shiftr immediate 19) 1) 19)
      (Z.shiftr (Z.land mask (u64 (Z.shiftl immediate 12))) 1))
      (Z.shiftl (Z.land (Z.shiftr immediate 8) 1) 10))
      (Z.shiftr (Z.land mask (u64 (Z.shiftl immediate 1))) 10) in
  let immediate :=
    if nonzero (Z.land immediate (Z.shiftl 1 19))
    then Z.lor (Z.lor immediate (Z.shiftl 0xF 20)) 0xFFFFFFFFFF000000
    else immediate in
  i64 (u64 (Z.shiftl immediate 1)).

Definition riscv_jal (pc i : Z) (m : stage_reg_m) : hresult :=
  Ok (u64 (pc - 4 + jal_offset i), prepare_register_write (rd_field i) pc m, []).

(** A non-zero [funct3] is reported, and the jump is done all the same. *)
Definition riscv_jalr (pc i : Z) (m : stage_reg_m) : hresult :=
  let out := if nonzero (funct3 i) then [Illegal_instruction (u64 (pc - 4)) i] else [] in
  let offset := i64 (extend_imm12 (i_imm i)) in
  Ok (u64 (offset + a), prepare_register_write (rd_field i) pc m, out).

(** ** Loads *)

Definition load (n sx : Z) (pc i : Z) (m : stage_reg_m) : hresult :=
  let offset := i64 (extend_imm12 (i_imm i)) in
  Ok (pc, mkM (u64 (a + offset)) n 2 sx (rd_field i) (m_value m)
            (m_tainted_executions m) (wasStalled m) (stallStatus m) (m_pc m), []).

Definition riscv_lb : Z → Z → stage_reg_m → hresult := load 1 1.
Definition riscv_lh : Z → Z → stage_reg_m → hresult := load 2 1.
Definition riscv_lw : Z → Z → stage_reg_m → hresult := load 4 1.
Definition riscv_ld : Z → Z → stage_reg_m → hresult := load 8 0.
Definition riscv_lbu : Z → Z → stage_reg_m → hresult := load 1 0.
Definition riscv_lhu : Z → Z → stage_reg_m → hresult := load 2 0.
Definition riscv_lwu : Z → Z → stage_reg_m → hresult := load 4 0.

Definition riscv_load_dispatch (pc i : Z) (m : stage_reg_m) : hresult :=
  match funct3 i with
  | 0 => riscv_lb pc i m
  | 1 => riscv_lh pc i m
  | 2 => riscv_lw pc i m
  | 3 => riscv_ld pc i m
  | 4 => riscv_lbu pc i m
  | 5 => riscv_lhu pc i m
  | 6 => riscv_lwu pc i m
  | _ => riscv_illegal_instruction pc i m
  end.

(** ** Branches *)

(** The three lines that every branch starts with. *)
Definition branch_range (i : Z) : Z :=
  let raw_range :=
    Z.lor (Z.lor (Z.lor
      (Z.shiftl (Z.shiftr (s_imm i) 6) 11)
      (Z.land (s_imm2 i) 1))
      (Z.shiftl (Z.land (s_imm i) 0x3F) 5))
      (Z.shiftl (Z.shiftr (s_imm2 i) 1) 1) in
  let sized_range := u16 (Z.land raw_range 0xFFE) in
  i16 (Z.lor sized_range
         (if nonzero (Z.land sized_range (Z.shiftl 11 1)) then Z.shiftl 0xF 12 else 0)).

Definition branch (taken : bool) (pc i : Z) (m : stage_reg_m) : hresult :=
  Ok (if taken then u64 (pc - 4 + branch_range i) else pc, m, []).

Definition riscv_beq : Z → Z → stage_reg_m → hresult := branch (a =? b).
Definition riscv_bne : Z → Z → stage_reg_m → hresult := branch (negb (a =? b)).
Definition riscv_blt : Z → Z → stage_reg_m → hresult := branch (i64 a <? i64 b).
Definition riscv_bge : Z → Z → stage_reg_m → hresult := branch (i64 b <=? i64 a).
Definition riscv_bltu : Z → Z → stage_reg_m → hresult := branch (a <? b).
Definition riscv_bgeu : Z → Z → stage_reg_m → hresult := branch (b <=? a).

Definition riscv_branch_dispatch (pc i : Z) (m : stage_reg_m) : hresult :=
  match funct3 i with
  | 0 => riscv_beq pc i m
  | 1 => riscv_bne pc i m
  | 4 => riscv_blt pc i m
  | 5 => riscv_bge pc i m
  | 6 => riscv_bltu pc i m
  | 7 => riscv_bgeu pc i m
  | _ => riscv_illegal_instruction pc i m
  end.

(** ** Stores *)

(** [instruction.data.s.imm2 | instruction.data.s.imm << 5] *)
Definition store_imm (i : Z) : Z := Z.lor (s_imm2 i) (Z.shiftl (s_imm i) 5).

Definition store (n v : Z) (pc i : Z) (m : stage_reg_m) : hresult :=
  let offset := i64 (extend_imm12 (store_imm i)) in
  Ok (pc, mkM (u64 (a + offset)) n 1 0 (m_reg m) v
            (m_tainted_executions m) (wasStalled m) (stallStatus m) (m_pc m), []).

Definition riscv_sb : Z → Z → stage_reg_m → hresult := store 1 (u8 b).
Definition riscv_sh : Z → Z → stage_reg_m → hresult := store 2 (u16 b).
Definition riscv_sw : Z → Z → stage_reg_m → hresult := store 4 (u32 b).
Definition riscv_sd : Z → Z → stage_reg_m → hresult := store 8 b.

Definition riscv_store_dispatch (pc i : Z) (m : stage_reg_m) : hresult :=
  match funct3 i with
  | 0 => riscv_sb pc i m
  | 1 => riscv_sh pc i m
  | 2 => riscv_sw pc i m
  | 3 => riscv_sd pc i m
  | _ => riscv_illegal_instruction pc i m
  end.

(** ** Arithmetic with an immediate *)

Definition riscv_addiw (pc i : Z) (m : stage_reg_m) : hresult :=
  let temp := extend_temp (i_imm i) in
  v ← signed 32 (i32 a + i32 temp);
  write_rd pc i m (u64 v).

Definition riscv_addi (pc i : Z) (m : stage_reg_m) : hresult :=
  let temp := extend_temp (i_imm i) in
  v ← signed 64 (i64 a + i64 temp);
  write_rd pc i m (u64 v).

Definition riscv_slliw (pc i : Z) (m : stage_reg_m) : hresult :=
  v ← shl 32 (u32 a) (u32 (i_imm i));
  write_rd pc i m v.

Definition riscv_slli (pc i : Z) (m : stage_reg_m) : hresult :=
  v ← shl 64 a (i_imm i);
  write_rd pc i m v.

Definition riscv_slti (pc i : Z) (m : stage_reg_m) : hresult :=
  let temp := extend_temp (i_imm i) in
  write_rd pc i m (if i64 a <? i64 temp then 1 else 0).

Definition riscv_sltiu (pc i : Z) (m : stage_reg_m) : hresult :=
  write_rd pc i m (if a <? i_imm i then 1 else 0).

Definition riscv_xori (pc i : Z) (m : stage_reg_m) : hresult :=
  write_rd pc i m (Z.lxor a (extend_temp (i_imm i))).

Definition riscv_srliw (pc i : Z) (m : stage_reg_m) : hresult :=
  v ← shr 32 (u32 a) (u32 (i_imm i));
  write_rd pc i m v.

Definition riscv_srli (pc i : Z) (m : stage_reg_m) : hresult :=
  v ← shr 64 a (i_imm i);
  write_rd pc i m v.

(** The shift count of the next two is the whole 12-bit immediate. *)
Definition riscv_sraiw (pc i : Z) (m : stage_reg_m) : hresult :=
  v ← shr 32 (i32 a) (i32 (i_imm i));
  write_rd pc i m (u32 v).

Definition riscv_srai (pc i : Z) (m : stage_reg_m) : hresult :=
  v ← shr 64 (i64 a) (i64 (i_imm i));
  write_rd pc i m (u64 v).

Definition riscv_ori (pc i : Z) (m : stage_reg_m) : hresult :=
  write_rd pc i m (Z.lor a (extend_temp (i_imm i))).

Definition riscv_andi (pc i : Z) (m : stage_reg_m) : hresult :=
  write_rd pc i m (Z.land a (extend_temp (i_imm i))).

Definition riscv_arithmetic1_64_dispatch (pc i : Z) (m : stage_reg_m) : hresult :=
  match funct3 i with
  | 0 => riscv_addiw pc i m
  | 1 => if nonzero (funct7 i) then riscv_illegal_instruction pc i m
         else riscv_slliw pc i m
  | 5 => match funct7 i with
         | 0 => riscv_srliw pc i m
         | 0x20 => riscv_sraiw pc i m
         | _ => riscv_illegal_instruction pc i m
         end
  | _ => riscv_illegal_instruction pc i m
  end.

Definition riscv_arithmetic1_dispatch (pc i : Z) (m : stage_reg_m) : hresult :=
  match funct3 i with
  | 0 => riscv_addi pc i m
  | 1 => if nonzero (funct7 i) then riscv_illegal_instruction pc i m
         else riscv_slli pc i m
  | 2 => riscv_slti pc i m
  | 3 => riscv_sltiu pc i m
  | 4 => riscv_xori pc i m
  | 5 => match funct7 i with
         | 0 => riscv_srli pc i m
         | 0x20 => riscv_srai pc i m
         | _ => riscv_illegal_instruction pc i m
         end
  | 6 => riscv_ori pc i m
  | 7 => riscv_andi pc i m
  | _ => riscv_illegal_instruction pc i m
  end.

(** ** Arithmetic on two registers *)

Definition riscv_addw (pc i : Z) (m : stage_reg_m) : hresult :=
  v ← signed 32 (i32 a + i32 b); write_rd pc i m (u64 v).

Definition riscv_add (pc i : Z) (m : stage_reg_m) : hresult :=
  v ← signed 32 (i32 a + i32 b); write_rd pc i m (u64 v).

Definition riscv_subw (pc i : Z) (m : stage_reg_m) : hresult :=
  v ← signed 32 (i32 a - i32 b); write_rd pc i m (u64 v).

Definition riscv_sub (pc i : Z) (m : stage_reg_m) : hresult :=
  v ← signed 64 (i64 a - i64 b); write_rd pc i m (u64 v).

Definition riscv_mulw (pc i : Z) (m : stage_reg_m) : hresult :=
  let reg1 := Z.land a 0xFFFFFFFF in
  let reg2 := Z.land b 0xFFFFFFFF in
  result ← signed 64 (i64 reg1 * i64 reg2);
  let result := Z.land result 0xFFFFFFFF in
  write_rd pc i m (u64 (i32 result)).

Definition riscv_mul (pc i : Z) (m : stage_reg_m) : hresult :=
  v ← signed 64 (i64 a * i64 b); write_rd pc i m (u64 v).

Definition riscv_sllw (pc i : Z) (m : stage_reg_m) : hresult :=
  v ← shl 32 (u32 a) (u32 b); write_rd pc i m v.

Definition riscv_sll (pc i : Z) (m : stage_reg_m) : hresult :=
  v ← shl 64 a b; write_rd pc i m v.

Definition riscv_mulh (pc i : Z) (m : stage_reg_m) : hresult :=
  product ← signed 64 (i64 a * i64 b);
  write_rd pc i m (Z.shiftr (u64 product) 32).

Definition riscv_slt (pc i : Z) (m : stage_reg_m) : hresult :=
  write_rd pc i m (if i64 a <? i64 b then 1 else 0).

(** An [int64_t] times a [uint64_t] is an unsigned product. *)
Definition riscv_mulhsu (pc i : Z) (m : stage_reg_m) : hresult :=
  let product := u64 (u64 (i64 a) * b) in
  write_rd pc i m (Z.shiftr product 32).

Definition riscv_sltu (pc i : Z) (m : stage_reg_m) : hresult :=
  write_rd pc i m (if a <? b then 1 else 0).

Definition riscv_mulhu (pc i : Z) (m : stage_reg_m) : hresult :=
  let product := u64 (a * b) in
  write_rd pc i m (Z.shiftr product 32).

Definition riscv_xor (pc i : Z) (m : stage_reg_m) : hresult :=
  write_rd pc i m (Z.lxor (u32 a) (u32 b)).

(** The guard of the signed divisions: [LONG_MIN] and [LLONG_MIN] are
    compared as [uint64_t]. *)
Definition div_special : bool :=
  (b =? 0) || ((b =? u64 (-1)) && (a =? u64 (- 2 ^ 63))).

Definition riscv_divw (pc i : Z) (m : stage_reg_m) : hresult :=
  if div_special then write_rd pc i m (u64 (-1))
  else
    let reg1 := Z.land a 0xFFFFFFFF in
    let reg2 := Z.land b 0xFFFFFFFF in
    result ← sdiv 32 (i32 reg1) (i32 reg2);
    let result := i32 (Z.land (u32 result) 0xFFFFFFFF) in
    write_rd pc i m (u64 result).

Definition riscv_div (pc i : Z) (m : stage_reg_m) : hresult :=
  if div_special then write_rd pc i m (u64 (-1))
  else v ← sdiv 64 (i64 a) (i64 b); write_rd pc i m (u64 v).

Definition riscv_srlw (pc i : Z) (m : stage_reg_m) : hresult :=
  v ← shr 64 a b; write_rd pc i m v.

Definition riscv_srl (pc i : Z) (m : stage_reg_m) : hresult :=
  v ← shr 32 (u32 a) (u32 b); write_rd pc i m v.

Definition riscv_sraw (pc i : Z) (m : stage_reg_m) : hresult :=
  v ← shr 32 (i32 a) (i32 b); write_rd pc i m (u32 v).

Definition riscv_sra (pc i : Z) (m : stage_reg_m) : hresult :=
  v ← shr 64 (i64 a) (i64 b); write_rd pc i m (u64 v).

Definition riscv_divuw (pc i : Z) (m : stage_reg_m) : hresult :=
  if b =? 0 then write_rd pc i m (u64 (-1))
  else
    let reg1 := Z.land a 0xFFFFFFFF in
    let reg2 := Z.land b 0xFFFFFFFF in
    result ← udiv (u32 reg1) (u32 reg2);
    write_rd pc i m (u64 (i64 result)).

Definition riscv_divu (pc i : Z) (m : stage_reg_m) : hresult :=
  if b =? 0 then write_rd pc i m (u64 (-1))
  else v ← udiv a b; write_rd pc i m v.

Definition riscv_or (pc i : Z) (m : stage_reg_m) : hresult :=
  write_rd pc i m (Z.lor a b).

Definition riscv_remw (pc i : Z) (m : stage_reg_m) : hresult :=
  if div_special then write_rd pc i m (u64 (-1))
  else
    let reg1 := Z.land a 0xFFFFFFFF in
    let reg2 := Z.land b 0xFFFFFFFF in
    result ← srem 32 (i32 reg1) (i32 reg2);
    let result := i32 (Z.land (u32 result) 0xFFFFFFFF) in
    write_rd pc i m (u64 result).

Definition riscv_rem (pc i : Z) (m : stage_reg_m) : hresult :=
  if div_special then write_rd pc i m (u64 (-1))
  else v ← srem 64 (i64 a) (i64 b); write_rd pc i m (u64 v).

Definition riscv_and (pc i : Z) (m : stage_reg_m) : hresult :=
  write_rd pc i m (Z.land a b).

Definition riscv_remuw (pc i : Z) (m : stage_reg_m) : hresult :=
  if b =? 0 then write_rd pc i m (u64 (-1))
  else
    let reg1 := Z.land a 0xFFFFFFFF in
    let reg2 := Z.land b 0xFFFFFFFF in
    result ← umod (u32 reg1) (u32 reg2);
    write_rd pc i m (u64 (i64 result)).

Definition riscv_remu (pc i : Z) (m : stage_reg_m) : hresult :=
  if b =? 0 then write_rd pc i m (u64 (-1))
  else v ← umod a b; write_rd pc i m v.

Definition riscv_arithmetic2_dispatch (pc i : Z) (m : stage_reg_m) : hresult :=
  match funct3 i, funct7 i with
  | 0, 0 => riscv_add pc i m
  | 0, 0x20 => riscv_sub pc i m
  | 0, 1 => riscv_mul pc i m
  | 1, 0 => riscv_sll pc i m
  | 1, 1 => riscv_mulh pc i m
  | 2, 0 => riscv_slt pc i m
  | 2, 1 => riscv_mulhsu pc i m
  | 3, 0 => riscv_sltu pc i m
  | 3, 1 => riscv_mulhu pc i m
  | 4, 0 => riscv_xor pc i m
  | 4, 1 => riscv_div pc i m
  | 5, 0 => riscv_srl pc i m
  | 5, 0x20 => riscv_sra pc i m
  | 5, 1 => riscv_divu pc i m
  | 6, 0 => riscv_or pc i m
  | 6, 1 => riscv_rem pc i m
  | 7, 0 => riscv_and pc i m
  | 7, 1 => riscv_remu pc i m
  | _, _ => riscv_illegal_instruction pc i m
  end.

Definition riscv_arithmetic2_64_dispatch (pc i : Z) (m : stage_reg_m) : hresult :=
  match funct3 i, funct7 i with
  | 0, 0 => riscv_addw pc i m
  | 0, 0x20 => riscv_subw pc i m
  | 0, 1 => riscv_mulw pc i m
  | 1, 0 => riscv_sllw pc i m
  | 4, 1 => riscv_divw pc i m
  | 5, 0 => riscv_srlw pc i m
  | 5, 0x20 => riscv_sraw pc i m
  | 5, 1 => riscv_divuw pc i m
  | 6, 1 => riscv_remw pc i m
  | 7, 1 => riscv_remuw pc i m
  | _, _ => riscv_illegal_instruction pc i m
  end.
End handlers.

(** ** The dispatch table, lines 956-990 *)

(** The functions whose addresses the table holds. *)
Inductive handler : Type :=
  | Illegal | Auipc | Lui | Jal | Jalr | Load_dispatch | Branch_dispatch
  | Store_dispatch | Arithmetic1_dispatch | Arithmetic1_64_dispatch
  | Arithmetic2_dispatch | Arithmetic2_64_dispatch | Nop.

#[export] Instance handler_eq_dec : EqDecision handler.
Proof. solve_decision. Defined.

Definition call (h : handler) (x : stage_reg_x) : Z → Z → stage_reg_m → hresult :=
  match h with
  | Illegal => riscv_illegal_instruction
  | Auipc => riscv_auipc
  | Lui => riscv_lui
  | Jal => riscv_jal
  | Jalr => riscv_jalr x
  | Load_dispatch => riscv_load_dispatch x
  | Branch_dispatch => riscv_branch_dispatch x
  | Store_dispatch => riscv_store_dispatch x
  | Arithmetic1_dispatch => riscv_arithmetic1_dispatch x
  | Arithmetic1_64_dispatch => riscv_arithmetic1_64_dispatch x
  | Arithmetic2_dispatch => riscv_arithmetic2_dispatch x
  | Arithmetic2_64_dispatch => riscv_arithmetic2_64_dispatch x
  | Nop => riscv_nop
  end.

(** The table after [initialise]. *)
Definition major_dispatch_table : list handler :=
  foldr (λ '(op, h) t, <[Z.to_nat op := h]> t) (replicate 128 Illegal)
    [(0x17, Auipc); (0x37, Lui); (0x6F, Jal); (0x67, Jalr); (0x03, Load_dispatch);
     (0x63, Branch_dispatch); (0x23, Store_dispatch); (0x13, Arithmetic1_dispatch);
     (0x1B, Arithmetic1_64_dispatch); (0x33, Arithmetic2_dispatch);
     (0x3B, Arithmetic2_64_dispatch); (0x0F, Nop); (0x73, Nop)].

(** [major_dispatch_table[op] (&pc, instruction, new_m_reg)]; a table that
    is not initialised holds null pointers. *)
Definition dispatch (table : list handler) (x : stage_reg_x) (pc : Z) (m : stage_reg_m)
    : hresult :=
  match table !! Z.to_nat (opcode (x_instruction x)) with
  | Some h => call h x pc (x_instruction x) m
  | None => Undef
  end.
