(* ===== verification/ISARefinement.v ===== *)
(** * The handlers against the reference semantics

    For every instruction, the operands for which the handler is defined and
    agrees with [ISA.execute] ([agrees], [agrees_imm], [conforms]), the proof
    that it does, and the operands on which it does not. *)
From S2P Require Import Prelude Instruction Execute ISA.

(** ** Lemmas on widths *)

Lemma swrap_cong w x y : 0 < w → wrap w x = wrap w y → swrap w x = swrap w y.
Proof.
  intros Hw H. rewrite <-(swrap_wrap w w x), <-(swrap_wrap w w y) by lia. by rewrite H.
Qed.

Lemma swrap_swrap w v x : 0 < w ≤ v → swrap w (swrap v x) = swrap w x.
Proof. intros. apply swrap_cong; [lia|]. apply wrap_swrap. lia. Qed.

Lemma wrap_add w x y x' y' : wrap w x = wrap w x' → wrap w y = wrap w y' →
  wrap w (x + y) = wrap w (x' + y').
Proof. unfold wrap. intros Hx Hy. by rewrite Zplus_mod, Hx, Hy, <-Zplus_mod. Qed.

Lemma wrap_sub w x y x' y' : wrap w x = wrap w x' → wrap w y = wrap w y' →
  wrap w (x - y) = wrap w (x' - y').
Proof. unfold wrap. intros Hx Hy. by rewrite Zminus_mod, Hx, Hy, <-Zminus_mod. Qed.

Lemma wrap_mul w x y x' y' : wrap w x = wrap w x' → wrap w y = wrap w y' →
  wrap w (x * y) = wrap w (x' * y').
Proof. unfold wrap. intros Hx Hy. by rewrite Zmult_mod, Hx, Hy, <-Zmult_mod. Qed.

(** The conversions drop out below a conversion to the same width. *)
Lemma wrap_swrap_same w x : 0 < w → wrap w (swrap w x) = wrap w x.
Proof. intros. apply wrap_swrap. lia. Qed.

Lemma signed_Ok w x : srange w x → signed w x = Ok x.
Proof. intros. unfold signed. by rewrite decide_True. Qed.

Lemma shl_Ok w x n : 0 ≤ n < w → shl w x n = Ok (wrap w (Z.shiftl x n)).
Proof. intros. unfold shl. by rewrite (proj2 (shift_ok_spec w n)). Qed.

Lemma shr_Ok w x n : 0 ≤ n < w → shr w x n = Ok (Z.shiftr x n).
Proof. intros. unfold shr. by rewrite (proj2 (shift_ok_spec w n)). Qed.

Lemma sdiv_Ok w x y : y ≠ 0 → srange w (Z.quot x y) → sdiv w x y = Ok (Z.quot x y).
Proof.
  intros Hy Hr. unfold sdiv. destruct (Z.eqb_spec y 0); [done|]. by apply signed_Ok.
Qed.

Lemma srem_Ok w x y : y ≠ 0 → srange w (Z.quot x y) → srem w x y = Ok (Z.rem x y).
Proof.
  intros Hy Hr. unfold srem. destruct (Z.eqb_spec y 0); [done|]. by rewrite decide_True.
Qed.

(** A quotient of [w]-bit integers fits unless it is [-2^(w-1) / -1]. *)
Lemma quot_range w x y : 0 < w → srange w x → srange w y → y ≠ 0 →
  ¬ (x = - 2 ^ (w - 1) ∧ y = -1) → srange w (Z.quot x y).
Proof.
  unfold srange. intros Hw Hx Hy Hne Hno.
  pose proof (pow2_pos (w - 1) ltac:(lia)).
  assert (Z.abs (Z.quot x y) ≤ Z.abs x) as Hle.
  { rewrite <-Z.quot_abs by done. apply Z.quot_le_upper_bound; nia. }
  destruct (Z.eq_dec (Z.quot x y) (2 ^ (w - 1))) as [He|]; [|lia].
  exfalso. pose proof (Z.quot_rem' x y). pose proof (Z.rem_bound_abs x y Hne).
  nia.
Qed.

Lemma low32 x : Z.land x 0xFFFFFFFF = u32 x.
Proof. change 0xFFFFFFFF with (Z.ones 32). apply Z.land_ones. lia. Qed.

(** The signed readings of 0, of the largest and of the middle value. *)
Lemma swrap_cases w x : 0 < w → urange w x →
  (swrap w x = 0 ↔ x = 0) ∧ (swrap w x = -1 ↔ x = 2 ^ w - 1) ∧
  (swrap w x = - 2 ^ (w - 1) ↔ x = 2 ^ (w - 1)).
Proof.
  intros Hw Hx. rewrite swrap_urange by done. destruct Hx.
  assert (2 ^ w = 2 * 2 ^ (w - 1)).
  { replace w with (Z.succ (w - 1)) at 1 by lia. rewrite Z.pow_succ_r; lia. }
  pose proof (pow2_pos (w - 1) ltac:(lia)). destruct (Z.ltb_spec x (2 ^ (w - 1))); lia.
Qed.

Lemma shiftr_bound x k n : 0 ≤ k → 0 ≤ x < n → 0 ≤ Z.shiftr x k < n.
Proof.
  intros. rewrite Z.shiftr_div_pow2 by done. pose proof (pow2_pos k ltac:(lia)). split.
  - apply Z.div_pos; lia.
  - apply Z.le_lt_trans with x; [|lia]. apply Z.div_le_upper_bound; nia.
Qed.

Lemma sext32_small v : 0 ≤ v < 2 ^ 31 → sext32 v = v.
Proof.
  intros. unfold sext32. rewrite swrap_small, wrap_small by (unfold srange, urange; lia). done.
Qed.

Lemma wrap_shiftl w x k : 0 ≤ w → 0 ≤ k → wrap w (Z.shiftl (wrap w x) k) = wrap w (Z.shiftl x k).
Proof.
  intros. rewrite !Z.shiftl_mul_pow2 by done. apply wrap_mul; [|done]. apply wrap_wrap. lia.
Qed.

Lemma lxor_low a b : a / 2 ^ 32 = b / 2 ^ 32 → Z.lxor (u32 a) (u32 b) = Z.lxor a b.
Proof.
  intros H. apply Z.bits_inj'. intros k Hk. unfold wrap. rewrite !Z.lxor_spec.
  destruct (Z.lt_ge_cases k 32); [by rewrite !Z.mod_pow2_bits_low by lia|].
  rewrite !Z.mod_pow2_bits_high by lia. replace k with ((k - 32) + 32) by lia.
  rewrite <-!Z.div_pow2_bits by lia. rewrite H. by destruct (Z.testbit _ _).
Qed.

Lemma bits_testbit x lo n k : 0 ≤ lo → 0 ≤ n → 0 ≤ k →
  Z.testbit (bits x lo n) k = (k <? n) && Z.testbit x (k + lo).
Proof.
  intros. unfold bits. rewrite Z.land_spec, Z.shiftr_spec, Z.testbit_ones_nonneg by lia.
  apply andb_comm.
Qed.

(** A field of a field. *)
Lemma bits_bits x lo n lo' n' : 0 ≤ lo → 0 ≤ lo' → 0 ≤ n' → lo' + n' ≤ n →
  bits (bits x lo n) lo' n' = bits x (lo + lo') n'.
Proof.
  intros. apply Z.bits_inj'. intros k Hk. rewrite !bits_testbit by lia.
  destruct (Z.ltb_spec k n'); [|done]. rewrite (proj2 (Z.ltb_lt (k + lo') n)) by lia.
  simpl. f_equal. lia.
Qed.

(** A property of all [w]-bit values, by evaluation. *)
Lemma exhaustive (w : nat) (f : Z → bool) :
  forallb (λ k, f (Z.of_nat k)) (seq 0 (Nat.pow 2 w)) = true →
  ∀ v, urange (Z.of_nat w) v → f v = true.
Proof.
  intros H v [? Hv]. rewrite forallb_forall in H. rewrite <-(Z2Nat.id v) by done.
  apply H, in_seq. rewrite <-(Nat2Z.id (0 + 2 ^ w)). split; [lia|].
  apply Z2Nat.inj_lt; [done|lia|]. rewrite Nat.add_0_l, Nat2Z.inj_pow. done.
Qed.

(** ** Register-register instructions *)

(** The handler that the dispatch functions choose for an operation. *)
Definition rr_handler (op : alu_op) (x : stage_reg_x) : Z → Z → stage_reg_m → hresult :=
  match op with
  | ADD => riscv_add x | SUB => riscv_sub x | SLL => riscv_sll x | SLT => riscv_slt x
  | SLTU => riscv_sltu x | XOR => riscv_xor x | SRL => riscv_srl x | SRA => riscv_sra x
  | OR => riscv_or x | AND => riscv_and x
  | MUL => riscv_mul x | MULH => riscv_mulh x | MULHSU => riscv_mulhsu x
  | MULHU => riscv_mulhu x | DIV => riscv_div x | DIVU => riscv_divu x
  | REM => riscv_rem x | REMU => riscv_remu x
  | ADDW => riscv_addw x | SUBW => riscv_subw x | SLLW => riscv_sllw x
  | SRLW => riscv_srlw x | SRAW => riscv_sraw x | MULW => riscv_mulw x
  | DIVW => riscv_divw x | DIVUW => riscv_divuw x | REMW => riscv_remw x
  | REMUW => riscv_remuw x
  end.

Lemma arithmetic2_dispatch_spec x pc i m :
  riscv_arithmetic2_dispatch x pc i m
  = match decode_op (funct3 i) (funct7 i) with
    | Some op => rr_handler op x pc i m
    | None => riscv_illegal_instruction pc i m
    end.
Proof.
  unfold riscv_arithmetic2_dispatch, decode_op.
  generalize (funct3 i), (funct7 i). intros f3 f7.
  destruct (decide (f7 = 0)) as [->|]; [repeat case_match; done|].
  destruct (decide (f7 = 1)) as [->|]; [repeat case_match; done|].
  destruct (decide (f7 = 0x20)) as [->|]; [repeat case_match; done|].
  repeat case_match; done.
Qed.

Lemma arithmetic2_64_dispatch_spec x pc i m :
  riscv_arithmetic2_64_dispatch x pc i m
  = match decode_op32 (funct3 i) (funct7 i) with
    | Some op => rr_handler op x pc i m
    | None => riscv_illegal_instruction pc i m
    end.
Proof.
  unfold riscv_arithmetic2_64_dispatch, decode_op32.
  generalize (funct3 i), (funct7 i). intros f3 f7.
  destruct (decide (f7 = 0)) as [->|]; [repeat case_match; done|].
  destruct (decide (f7 = 1)) as [->|]; [repeat case_match; done|].
  destruct (decide (f7 = 0x20)) as [->|]; [repeat case_match; done|].
  repeat case_match; done.
Qed.

(** The one signed quotient of 64 bits that overflows, and of 32 bits. *)
Definition overflows (a b : Z) : Prop := a = 2 ^ 63 ∧ b = 2 ^ 64 - 1.
Definition overflows32 (a b : Z) : Prop := u32 a = 2 ^ 31 ∧ u32 b = 2 ^ 32 - 1.

(** The operands on which a register-register handler is defined and right.
    The handlers of [ADD], [XOR], [SRL] and the [MULH] group work on 32-bit
    operands or results; shift counts are not reduced; 32-bit results of
    shifts and unsigned divisions are not sign-extended; a signed overflow is
    undefined in C; remainders by zero are -1. *)
Definition agrees (op : alu_op) (a b : Z) : Prop :=
  match op with
  | ADD => srange 32 (i64 a) ∧ srange 32 (i64 b) ∧ srange 32 (i64 a + i64 b)
  | SUB => srange 64 (i64 a - i64 b)
  | SLL | SRA => b < 64
  | SLT | SLTU | OR | AND | DIVU => True
  | XOR => a / 2 ^ 32 = b / 2 ^ 32
  | SRL => a < 2 ^ 32 ∧ b < 32
  | MUL => srange 64 (i64 a * i64 b)
  | MULH => 0 ≤ i64 a * i64 b < 2 ^ 32
  | MULHSU | MULHU => a * b < 2 ^ 32
  | DIV => ¬ overflows a b
  | REM => b ≠ 0 ∧ ¬ overflows a b
  | REMU => b ≠ 0
  | ADDW => srange 32 (i32 a + i32 b)
  | SUBW => srange 32 (i32 a - i32 b)
  | SLLW => b < 32 ∧ u32 (Z.shiftl a b) < 2 ^ 31
  | SRLW => a < 2 ^ 31 ∧ b < 32
  | SRAW => 0 ≤ i32 a ∧ b < 32
  | MULW => u32 a * u32 b < 2 ^ 63
  | DIVW => b = 0 ∨ u32 b ≠ 0 ∧ ¬ overflows a b ∧ ¬ overflows32 a b
  | DIVUW => b = 0 ∨ u32 b ≠ 0 ∧ u32 a / u32 b < 2 ^ 31
  | REMW => u32 b ≠ 0 ∧ ¬ overflows a b ∧ ¬ overflows32 a b
  | REMUW => u32 b ≠ 0 ∧ u32 a mod u32 b < 2 ^ 31
  end.

#[export] Instance agrees_dec op a b : Decision (agrees op a b).
Proof. destruct op; unfold agrees, overflows, overflows32; apply _. Defined.

Section rr.
Context (x : stage_reg_x) (pc i : Z) (m : stage_reg_m).
Abbreviation a := (rs1_value x).
Abbreviation b := (rs2_value x).
Context (Ha : urange 64 a) (Hb : urange 64 b).

(** [handler] writes the value that the reference semantics gives. *)
Abbreviation right op := (agrees op a b →
  rr_handler op x pc i m = write_rd pc i m (alu op a b)).

Lemma add_right : right ADD.
Proof.
  intros (H1 & H2 & H3). simpl. unfold riscv_add.
  rewrite <-(swrap_swrap 32 64 a), <-(swrap_swrap 32 64 b) by lia.
  rewrite !(swrap_small 32 (i64 _)), signed_Ok by (done || lia). simpl. f_equal.
  apply wrap_add; apply wrap_swrap; lia.
Qed.

Lemma sub_right : right SUB.
Proof.
  intros H. simpl. unfold riscv_sub. rewrite signed_Ok by done. simpl. f_equal.
  apply wrap_sub; apply wrap_swrap; lia.
Qed.

Lemma mul_right : right MUL.
Proof.
  intros H. simpl. unfold riscv_mul. rewrite signed_Ok by done. simpl. f_equal.
  apply wrap_mul; apply wrap_swrap; lia.
Qed.

Lemma sll_right : right SLL.
Proof.
  intros H. destruct Hb. simpl in H |- *. unfold riscv_sll. rewrite shl_Ok by lia.
  by rewrite Z.mod_small by lia.
Qed.

Lemma i64_count : b < 64 → i64 b = b.
Proof. intros. destruct Hb. apply swrap_small; unfold srange; lia. Qed.

Lemma sra_right : right SRA.
Proof.
  intros H. destruct Hb. simpl in H |- *. unfold riscv_sra.
  rewrite i64_count, shr_Ok by lia. by rewrite Z.mod_small by lia.
Qed.

Lemma srl_right : right SRL.
Proof.
  intros [H1 H2]. destruct Ha, Hb. simpl. unfold riscv_srl.
  rewrite !(wrap_small 32), shr_Ok by (unfold urange; lia). by rewrite Z.mod_small by lia.
Qed.

Lemma xor_right : right XOR.
Proof. intros H. simpl. unfold riscv_xor. by rewrite lxor_low. Qed.

Lemma mulh_right : right MULH.
Proof.
  intros H. simpl in H. simpl. unfold riscv_mulh.
  rewrite signed_Ok by (unfold srange; lia). simpl.
  rewrite (wrap_small 64 (_ * _)) by (unfold urange; lia).
  rewrite !Z.shiftr_div_pow2, !Z.div_small by lia. done.
Qed.

Lemma mulhsu_right : right MULHSU.
Proof.
  intros H. destruct Ha as [Ha1 Ha2], Hb as [Hb1 Hb2]. simpl in H |- *. unfold riscv_mulhsu.
  rewrite wrap_swrap, (wrap_small 64 a) by (unfold urange; lia).
  rewrite (wrap_small 64 (a * b)) by (unfold urange; nia).
  assert (i64 a * b = a * b) as ->.
  { rewrite swrap_urange by (unfold urange; lia). destruct (Z.ltb_spec a (2 ^ (64 - 1))); [done|].
    assert (b = 0) as -> by nia. lia. }
  rewrite !Z.shiftr_div_pow2, !Z.div_small by nia. done.
Qed.

Lemma mulhu_right : right MULHU.
Proof.
  intros H. destruct Ha as [Ha1 Ha2], Hb as [Hb1 Hb2]. simpl in H |- *. unfold riscv_mulhu.
  rewrite (wrap_small 64 (a * b)) by (unfold urange; nia).
  rewrite !Z.shiftr_div_pow2, !Z.div_small by nia. done.
Qed.

Lemma div_special_spec : div_special x = true ↔ b = 0 ∨ overflows a b.
Proof.
  unfold div_special, overflows. change (u64 (-1)) with (2 ^ 64 - 1).
  change (u64 (- 2 ^ 63)) with (2 ^ 63).
  rewrite orb_true_iff, andb_true_iff, !Z.eqb_eq. tauto.
Qed.

Lemma i64_quot : b ≠ 0 → ¬ overflows a b →
  i64 b ≠ 0 ∧ srange 64 (Z.quot (i64 a) (i64 b)).
Proof.
  intros Hb0 Hno. destruct (swrap_cases 64 a) as (_ & _ & Ham); [lia|done|].
  destruct (swrap_cases 64 b) as (Hbz & Hbm & _); [lia|done|]. split; [tauto|].
  apply quot_range; [lia|apply swrap_range; lia..|tauto|].
  unfold overflows in Hno. change (64 - 1) with 63 in *. tauto.
Qed.

Lemma div_right : right DIV.
Proof.
  intros Hno. simpl in Hno |- *. unfold riscv_div, div_signed.
  destruct (swrap_cases 64 b) as (Hbz & _ & _); [lia|done|].
  destruct (div_special x) eqn:E.
  - apply div_special_spec in E as [E|?]; [|done].
    rewrite (proj2 Hbz E). done.
  - assert (b ≠ 0 ∧ ¬ overflows a b) as [Hb0 _].
    { rewrite <-not_true_iff_false, div_special_spec in E. tauto. }
    destruct (i64_quot Hb0 Hno) as [? ?]. rewrite sdiv_Ok by done. simpl.
    destruct (Z.eqb_spec (i64 b) 0); [done|]. by rewrite (swrap_small 64 (Z.quot _ _)) by (done || lia).
Qed.

Lemma rem_right : right REM.
Proof.
  intros [Hb0 Hno]. simpl. unfold riscv_rem, rem_signed.
  destruct (div_special x) eqn:E; [by apply div_special_spec in E as [?|?]|].
  destruct (i64_quot Hb0 Hno) as [? ?]. rewrite srem_Ok by done. simpl.
  by destruct (Z.eqb_spec (i64 b) 0).
Qed.

Lemma divu_right : right DIVU.
Proof.
  intros _. simpl. unfold riscv_divu, div_unsigned, udiv.
  destruct (Z.eqb_spec b 0); done.
Qed.

Lemma remu_right : right REMU.
Proof.
  intros H. simpl in H |- *. unfold riscv_remu, rem_unsigned, umod.
  destruct (Z.eqb_spec b 0); done.
Qed.

(** *** 32-bit operations *)

Lemma i32_u32 v : i32 (u32 v) = i32 v.
Proof. apply swrap_wrap. lia. Qed.

Lemma addw_right : right ADDW.
Proof.
  intros H. simpl in H |- *. unfold riscv_addw, sext32. rewrite signed_Ok by done. simpl.
  rewrite <-(swrap_small 32 (i32 a + i32 b)) by (done || lia).
  do 2 f_equal. apply swrap_cong; [lia|]. apply wrap_add; apply wrap_swrap; lia.
Qed.

Lemma subw_right : right SUBW.
Proof.
  intros H. simpl in H |- *. unfold riscv_subw, sext32. rewrite signed_Ok by done. simpl.
  rewrite <-(swrap_small 32 (i32 a - i32 b)) by (done || lia).
  do 2 f_equal. apply swrap_cong; [lia|]. apply wrap_sub; apply wrap_swrap; lia.
Qed.

Lemma mulw_right : right MULW.
Proof.
  intros H. simpl in H |- *. unfold riscv_mulw, sext32. rewrite !low32.
  pose proof (wrap_range 32 a ltac:(lia)) as [? ?].
  pose proof (wrap_range 32 b ltac:(lia)) as [? ?].
  rewrite (swrap_small 64 (u32 a)), (swrap_small 64 (u32 b)) by (unfold srange; lia).
  rewrite signed_Ok by (unfold srange; nia). simpl. rewrite low32, i32_u32.
  do 2 f_equal. apply swrap_cong; [lia|]. apply wrap_mul; apply wrap_wrap; lia.
Qed.

Lemma sllw_right : right SLLW.
Proof.
  intros [H1 H2]. destruct Hb. simpl in H1 |- *. unfold riscv_sllw, sext32.
  rewrite (wrap_small 32 b), shl_Ok by (unfold urange; lia). simpl.
  rewrite (Z.mod_small b), wrap_shiftl by lia.
  rewrite <-i32_u32. pose proof (wrap_range 32 (Z.shiftl a b) ltac:(lia)) as [? ?].
  fold (sext32 (u32 (Z.shiftl a b))). by rewrite sext32_small by done.
Qed.

Lemma srlw_right : right SRLW.
Proof.
  intros [H1 H2]. destruct Ha, Hb. simpl. unfold riscv_srlw.
  rewrite shr_Ok by lia. simpl. rewrite (Z.mod_small b), (wrap_small 32) by (unfold urange; lia).
  rewrite sext32_small; [done|]. apply shiftr_bound; lia.
Qed.

Lemma sraw_right : right SRAW.
Proof.
  intros [H1 H2]. destruct Hb. pose proof (swrap_range 32 a ltac:(lia)) as [? ?].
  simpl. unfold riscv_sraw.
  rewrite (swrap_small 32 b), shr_Ok by (unfold srange; lia). simpl. rewrite (Z.mod_small b) by lia.
  pose proof (shiftr_bound (i32 a) b (2 ^ 31) ltac:(lia) ltac:(lia)) as [? ?].
  rewrite sext32_small, wrap_small by (unfold urange; lia). done.
Qed.

Lemma u32_zero : u32 b ≠ 0 → b ≠ 0.
Proof. intros H E. by rewrite E in H. Qed.

Lemma i32_quot : u32 b ≠ 0 → ¬ overflows32 a b →
  i32 b ≠ 0 ∧ srange 32 (Z.quot (i32 a) (i32 b)).
Proof.
  intros Hb0 Hno. rewrite <-(i32_u32 a), <-(i32_u32 b).
  destruct (swrap_cases 32 (u32 a)) as (_ & _ & Ham); [lia|apply wrap_range; lia|].
  destruct (swrap_cases 32 (u32 b)) as (Hbz & Hbm & _); [lia|apply wrap_range; lia|].
  split; [tauto|]. apply quot_range; [lia|apply swrap_range; lia..|tauto|].
  unfold overflows32 in Hno. change (32 - 1) with 31 in *. tauto.
Qed.

Lemma divw_right : right DIVW.
Proof.
  intros H. simpl in H |- *. unfold riscv_divw, div_signed.
  destruct (div_special x) eqn:E.
  - apply div_special_spec in E as [->|?]; [done|]. destruct H as [->|]; [done|tauto].
  - assert (b ≠ 0) as Hb0.
    { intros Hb0. rewrite <-not_true_iff_false, div_special_spec in E. tauto. }
    destruct H as [?|(Hz & _ & Hno)]; [done|]. destruct (i32_quot Hz Hno) as [? Hq].
    rewrite !low32, !i32_u32, sdiv_Ok by done. simpl.
    rewrite low32, !i32_u32. destruct (Z.eqb_spec (i32 b) 0); [done|].
    unfold sext32. by rewrite swrap_swrap by lia.
Qed.

Lemma remw_right : right REMW.
Proof.
  intros (Hz & Hno & Hno32). pose proof (u32_zero Hz). simpl. unfold riscv_remw, rem_signed.
  destruct (div_special x) eqn:E; [by apply div_special_spec in E as [?|?]|].
  destruct (i32_quot Hz Hno32) as [? ?]. rewrite !low32, !i32_u32, srem_Ok by done. simpl.
  rewrite low32, !i32_u32. by destruct (Z.eqb_spec (i32 b) 0).
Qed.

Lemma divuw_right : right DIVUW.
Proof.
  intros H. simpl in H |- *. unfold riscv_divuw, div_unsigned, udiv.
  pose proof (wrap_range 32 a ltac:(lia)) as [? ?].
  pose proof (wrap_range 32 b ltac:(lia)) as [? ?].
  destruct (Z.eqb_spec b 0) as [->|Hb0]; [done|]. destruct H as [?|[Hz Hq]]; [done|].
  rewrite !low32, !wrap_wrap by lia. destruct (Z.eqb_spec (u32 b) 0); [done|]. simpl.
  pose proof (Z.div_pos (u32 a) (u32 b) ltac:(lia) ltac:(lia)).
  rewrite sext32_small, swrap_small, wrap_small by (unfold srange, urange; lia). done.
Qed.

Lemma remuw_right : right REMUW.
Proof.
  intros [Hz Hr]. pose proof (u32_zero Hz). simpl.
  unfold riscv_remuw, rem_unsigned, umod.
  pose proof (wrap_range 32 b ltac:(lia)) as [? ?].
  destruct (Z.eqb_spec b 0) as [|Hb0]; [done|].
  rewrite !low32, !wrap_wrap by lia. destruct (Z.eqb_spec (u32 b) 0); [done|]. simpl.
  pose proof (Z.mod_pos_bound (u32 a) (u32 b) ltac:(lia)).
  rewrite sext32_small, swrap_small, wrap_small by (unfold srange, urange; lia). done.
Qed.

Lemma rr_right op : right op.
Proof.
  destruct op; auto using add_right, sub_right, sll_right, xor_right, srl_right, sra_right,
    mul_right, mulh_right, mulhsu_right, mulhu_right, div_right, divu_right, rem_right,
    remu_right, addw_right, subw_right, sllw_right, srlw_right, sraw_right, mulw_right,
    divw_right, divuw_right, remw_right, remuw_right.
Qed.
End rr.

(** ** Immediates *)

Lemma i_imm_range i : urange 12 (i_imm i).
Proof. apply bits_range. lia. Qed.

Lemma land_bit x k : 0 ≤ k → nonzero (Z.land x (Z.shiftl 1 k)) = Z.testbit x k.
Proof.
  intros Hk. apply eq_true_iff_eq. rewrite nonzero_true. split.
  - intros H. destruct (Z.testbit x k) eqn:E; [done|]. destruct H.
    apply Z.bits_inj'. intros j Hj. rewrite Z.land_spec, Z.bits_0, Z.shiftl_1_l.
    destruct (Z.eq_dec j k) as [->|]; [by rewrite E|].
    rewrite Z.pow2_bits_false by lia. apply andb_false_r.
  - intros E H. assert (Z.testbit (Z.land x (Z.shiftl 1 k)) k = false) as E'
      by (by rewrite H, Z.bits_0).
    rewrite Z.land_spec, E, Z.shiftl_1_l, Z.pow2_bits_true in E' by done. done.
Qed.

Lemma sign_bit w x : 0 ≤ w → urange (w + 1) x → Z.testbit x w = (2 ^ w <=? x).
Proof.
  intros Hw [? Hx]. rewrite Z.pow_add_r in Hx by lia. pose proof (pow2_pos w Hw).
  apply eq_true_iff_eq. rewrite Z.testbit_true, Z.leb_le by done.
  assert (x / 2 ^ w < 2) by (apply Z.div_lt_upper_bound; lia).
  pose proof (Z.div_pos x (2 ^ w) ltac:(lia) ltac:(lia)).
  rewrite Z.mod_small by lia. split; intros.
  - rewrite (Z.div_mod x (2 ^ w)) by lia. pose proof (Z.mod_pos_bound x (2 ^ w)). nia.
  - pose proof (Z.div_le_lower_bound x (2 ^ w) 1). lia.
Qed.

Lemma extend_imm12_spec v : urange 12 v → extend_imm12 v = u64 (swrap 12 v).
Proof.
  intros Hv. unfold extend_imm12. rewrite land_bit, (sign_bit 11), swrap_urange by done.
  destruct Hv as [? ?]. change (2 ^ (12 - 1)) with (2 ^ 11).
  destruct (Z.leb_spec (2 ^ 11) v), (Z.ltb_spec v (2 ^ 11)); try lia.
  - change 0xFFFFFFFFFFFF0000 with (Z.shiftl 0xFFFFFFFFFFFF 16).
    rewrite !lor_shiftl by (rewrite ?lor_shiftl; unfold urange; lia).
    unfold wrap. rewrite <-(Z_mod_plus_full _ 1), Z.mod_small; lia.
  - rewrite wrap_small by (unfold urange; lia). done.
Qed.

Lemma extend_temp_spec v : urange 12 v → extend_temp v = u64 (swrap 12 v).
Proof.
  intros Hv. unfold extend_temp. rewrite land_bit, (sign_bit 11), (swrap_urange 12) by done.
  destruct Hv as [? ?]. change (2 ^ (12 - 1)) with (2 ^ 11).
  destruct (Z.leb_spec (2 ^ 11) v), (Z.ltb_spec v (2 ^ 11)); try lia.
  - rewrite lor_shiftl, (swrap_urange 16) by (unfold urange; lia).
    destruct (Z.ltb_spec (v + 15 * 2 ^ 12) (2 ^ (16 - 1))); [lia|]. f_equal. lia.
  - rewrite wrap_small by (unfold urange; lia). done.
Qed.

Lemma srange_imm_I i : srange 12 (imm_I i).
Proof. apply swrap_range. lia. Qed.

Lemma i64_u64 v : srange 64 v → i64 (u64 v) = v.
Proof. intros. rewrite swrap_wrap, swrap_small by (done || lia). done. Qed.

Lemma srange_12_64 v : srange 12 v → srange 64 v.
Proof. unfold srange. lia. Qed.

Lemma i_offset i : i64 (extend_imm12 (i_imm i)) = imm_I i.
Proof.
  rewrite extend_imm12_spec by apply i_imm_range. apply i64_u64, srange_12_64, srange_imm_I.
Qed.

Lemma temp_imm i : extend_temp (i_imm i) = u64 (imm_I i).
Proof. by rewrite extend_temp_spec by apply i_imm_range. Qed.

Lemma store_imm_spec i : store_imm i = bits i 25 7 * 2 ^ 5 + bits i 7 5.
Proof.
  unfold store_imm, s_imm2, s_imm. rewrite lor_shiftl; [lia|lia|apply bits_range; lia].
Qed.

Lemma s_offset i : i64 (extend_imm12 (store_imm i)) = imm_S i.
Proof.
  pose proof (bits_range i 25 7 ltac:(lia)) as [? ?].
  pose proof (bits_range i 7 5 ltac:(lia)) as [? ?].
  rewrite store_imm_spec, extend_imm12_spec by (unfold urange; lia).
  apply i64_u64, srange_12_64, swrap_range. lia.
Qed.

Lemma u_value i : i32 (Z.shiftl (u_imm i) 12) = imm_U i.
Proof. by rewrite Z.shiftl_mul_pow2 by lia. Qed.

(** The branch offset that the handlers compute drops bit 11 of the offset
    and extends the sign when a bit of [11 << 1] is set: it is the encoded
    offset exactly when that is a 12-bit offset whose sign those bits tell. *)
Definition branch_offset_ok (off : Z) : bool :=
  (-2048 <=? off) && (off <? 2048) && eqb (off <? 0) (nonzero (Z.land off 22)).

(** [branch_range] on the two fields, [v = imm * 32 + imm2]. *)
Definition range_of_fields (v : Z) : Z :=
  branch_range (Z.lor (Z.shiftl (Z.shiftr v 5) 25) (Z.shiftl (Z.land v 31) 7)).

Lemma branch_range_fields i : branch_range i = range_of_fields (s_imm i * 32 + s_imm2 i).
Proof.
  pose proof (bits_range i 25 7 ltac:(lia)) as [? ?].
  pose proof (bits_range i 7 5 ltac:(lia)) as [? ?].
  unfold range_of_fields. set (v := s_imm i * 32 + s_imm2 i).
  assert (Z.shiftr v 5 = s_imm i) as ->.
  { unfold v. rewrite Z.shiftr_div_pow2, Z.div_add_l by lia.
    rewrite (Z.div_small (s_imm2 i)) by (unfold s_imm2; lia). lia. }
  assert (Z.land v 31 = s_imm2 i) as ->.
  { unfold v. change 31 with (Z.ones 5). rewrite Z.land_ones, Z.add_comm, Z_mod_plus_full by lia.
    apply Z.mod_small. unfold s_imm2. lia. }
  set (j := Z.lor _ _).
  assert (s_imm j = s_imm i ∧ s_imm2 j = s_imm2 i) as [E1 E2].
  { unfold j. rewrite Z.lor_comm, lor_shiftl; [|lia|].
    2: { rewrite Z.shiftl_mul_pow2 by lia. unfold urange, s_imm2; lia. }
    rewrite Z.shiftl_mul_pow2 by lia. unfold s_imm at 1, s_imm2 at 2.
    rewrite !bits_alt by lia. split.
    - rewrite Z.div_add by lia. rewrite (Z.div_small (_ * _)) by (unfold s_imm2; lia).
      rewrite Z.add_0_l, Z.mod_small; unfold s_imm; lia.
    - replace (s_imm2 i * 2 ^ 7 + s_imm i * 2 ^ 25)
        with ((s_imm2 i + s_imm i * 2 ^ 13 * 2 ^ 5) * 2 ^ 7) by lia.
      rewrite Z.div_mul, Z_mod_plus_full, Z.mod_small by (unfold s_imm2; lia). done. }
  unfold branch_range. by rewrite E1, E2.
Qed.

Definition imm_B_fields (v : Z) : Z :=
  let s := v / 32 in
  let t := v mod 32 in
  swrap 13 (bits s 6 1 * 2 ^ 12 + bits t 0 1 * 2 ^ 11 + bits s 0 6 * 2 ^ 5 + bits t 1 4 * 2).

Lemma imm_B_fields_spec i : imm_B i = imm_B_fields (s_imm i * 32 + s_imm2 i).
Proof.
  pose proof (bits_range i 7 5 ltac:(lia)) as [? ?].
  unfold imm_B, imm_B_fields.
  assert ((s_imm i * 32 + s_imm2 i) / 32 = s_imm i) as ->.
  { rewrite Z.div_add_l, Z.div_small by (unfold s_imm2; lia). lia. }
  assert ((s_imm i * 32 + s_imm2 i) mod 32 = s_imm2 i) as ->.
  { rewrite Z.add_comm, Z_mod_plus_full. apply Z.mod_small. unfold s_imm2. lia. }
  unfold s_imm, s_imm2. by rewrite !bits_bits by lia.
Qed.

Lemma branch_range_spec i :
  branch_range i = imm_B i ↔ branch_offset_ok (imm_B i) = true.
Proof.
  rewrite branch_range_fields, imm_B_fields_spec.
  pose proof (bits_range i 25 7 ltac:(lia)) as [? ?].
  pose proof (bits_range i 7 5 ltac:(lia)) as [? ?].
  assert (urange 12 (s_imm i * 32 + s_imm2 i)) as Hv
    by (unfold urange, s_imm, s_imm2; lia).
  revert Hv. generalize (s_imm i * 32 + s_imm2 i). intros v Hv.
  assert (eqb (range_of_fields v =? imm_B_fields v) (branch_offset_ok (imm_B_fields v)) = true)
    as E.
  { revert v Hv. apply (exhaustive 12 (λ v, eqb (range_of_fields v =? imm_B_fields v)
                                             (branch_offset_ok (imm_B_fields v)))).
    vm_compute. done. }
  apply eqb_prop in E. by rewrite <-E, Z.eqb_eq.
Qed.

(** The jump offset. *)
Lemma jal_raw v : urange 20 v →
  Z.lor (Z.lor (Z.lor
    (Z.shiftl (Z.land (Z.shiftr v 19) 1) 19)
    (Z.shiftr (Z.land 0xFFFFF (u64 (Z.shiftl v 12))) 1))
    (Z.shiftl (Z.land (Z.shiftr v 8) 1) 10))
    (Z.shiftr (Z.land 0xFFFFF (u64 (Z.shiftl v 1))) 10)
  = bits v 19 1 * 2 ^ 19 + bits v 0 8 * 2 ^ 11 + bits v 8 1 * 2 ^ 10 + bits v 9 10.
Proof.
  intros [? ?]. change (Z.land (Z.shiftr v 19) 1) with (bits v 19 1).
  change (Z.land (Z.shiftr v 8) 1) with (bits v 8 1).
  rewrite !(wrap_small 64) by (rewrite Z.shiftl_mul_pow2 by lia; unfold urange; lia).
  assert (Z.shiftr (Z.land 0xFFFFF (Z.shiftl v 12)) 1 = Z.shiftl (bits v 0 8) 11) as ->.
  { change 0xFFFFF with (Z.ones 20). apply Z.bits_inj'. intros k Hk.
    rewrite Z.shiftr_spec, Z.land_spec, Z.testbit_ones_nonneg, !Z.shiftl_spec by lia.
    destruct (Z.lt_ge_cases k 11).
    { rewrite !Z.testbit_neg_r by lia. apply andb_false_r. }
    rewrite bits_testbit by lia. replace (k + 1 - 12) with (k - 11 + 0) by lia.
    f_equal. destruct (Z.ltb_spec (k + 1) 20), (Z.ltb_spec (k - 11) 8); lia. }
  assert (Z.shiftr (Z.land 0xFFFFF (Z.shiftl v 1)) 10 = bits v 9 10) as ->.
  { change 0xFFFFF with (Z.ones 20). apply Z.bits_inj'. intros k Hk.
    rewrite Z.shiftr_spec, Z.land_spec, Z.testbit_ones_nonneg, !Z.shiftl_spec by lia.
    rewrite bits_testbit by lia. replace (k + 10 - 1) with (k + 9) by lia.
    f_equal. destruct (Z.ltb_spec (k + 10) 20), (Z.ltb_spec k 10); lia. }
  pose proof (bits_range v 19 1 ltac:(lia)) as [? ?].
  pose proof (bits_range v 0 8 ltac:(lia)) as [? ?].
  pose proof (bits_range v 8 1 ltac:(lia)) as [? ?].
  pose proof (bits_range v 9 10 ltac:(lia)) as [? ?].
  assert (∀ hi lo k, 0 ≤ k → urange k lo → Z.lor (Z.shiftl hi k) lo = lo + hi * 2 ^ k) as Hlor
    by (intros; rewrite Z.lor_comm; by apply lor_shiftl).
  rewrite (Hlor (bits v 19 1) (Z.shiftl _ 11) 19)
    by (rewrite ?Z.shiftl_mul_pow2 by lia; unfold urange; lia).
  replace (_ + _) with (Z.shiftl (bits v 0 8 + bits v 19 1 * 2 ^ 8) 11)
    by (rewrite !Z.shiftl_mul_pow2 by lia; lia).
  rewrite (Hlor _ (Z.shiftl _ 10) 11) by (rewrite ?Z.shiftl_mul_pow2 by lia; unfold urange; lia).
  replace (_ + _) with
    (Z.shiftl (bits v 8 1 + (bits v 0 8 + bits v 19 1 * 2 ^ 8) * 2) 10)
    by (rewrite !Z.shiftl_mul_pow2 by lia; lia).
  rewrite Hlor by (unfold urange; lia). lia.
Qed.

Lemma jal_offset_spec i : jal_offset i = imm_J i.
Proof.
  unfold jal_offset, imm_J. rewrite jal_raw by (apply bits_range; lia).
  unfold u_imm. rewrite !bits_bits by lia.
  change (12 + 19) with 31. change (12 + 0) with 12. change (12 + 8) with 20.
  change (12 + 9) with 21.
  pose proof (bits_range i 31 1 ltac:(lia)) as [? ?].
  pose proof (bits_range i 12 8 ltac:(lia)) as [? ?].
  pose proof (bits_range i 20 1 ltac:(lia)) as [? ?].
  pose proof (bits_range i 21 10 ltac:(lia)) as [? ?].
  set (r := _ + bits i 21 10).
  replace (swrap 21 _) with (swrap 21 (r * 2)) by (f_equal; unfold r; lia).
  assert (urange 20 r) as Hr by (unfold urange, r; lia). clearbody r. clear -Hr.
  rewrite land_bit, (sign_bit 19) by done. destruct Hr as [? ?].
  rewrite (swrap_urange 21) by (unfold urange; lia).
  destruct (Z.leb_spec (2 ^ 19) r).
  - change 0xFFFFFFFFFF000000 with (Z.shiftl 0xFFFFFFFFFF 24).
    rewrite (lor_shiftl r) by (unfold urange; lia). rewrite lor_shiftl by (unfold urange; lia).
    rewrite Z.shiftl_mul_pow2 by lia.
    destruct (Z.ltb_spec (r * 2) (2 ^ (21 - 1))); [lia|].
    replace (_ * 2 ^ 1) with (r * 2 - 2 ^ 21 + 1 * 2 ^ 65) by lia.
    rewrite swrap_wrap by lia. unfold swrap. change (2 ^ 65) with (2 * 2 ^ 64).
    replace (_ + _) with (r * 2 - 2 ^ 21 + 2 ^ (64 - 1) + 2 * 2 ^ 64) by lia.
    rewrite Z_mod_plus_full, Z.mod_small by lia. lia.
  - destruct (Z.ltb_spec (r * 2) (2 ^ (21 - 1))); [|lia].
    rewrite Z.shiftl_mul_pow2 by lia. change (2 ^ 1) with 2.
    rewrite wrap_small, swrap_small by (unfold urange, srange; lia). done.
Qed.

(** ** Register-immediate instructions *)

Lemma bits_split x lo n k : 0 ≤ lo → 0 ≤ n → 0 ≤ k →
  bits x lo (n + k) = bits x lo n + 2 ^ n * bits x (lo + n) k.
Proof.
  intros. rewrite !bits_alt by lia. rewrite Z.pow_add_r by lia.
  pose proof (pow2_pos n ltac:(lia)). pose proof (pow2_pos k ltac:(lia)).
  rewrite Z.rem_mul_r by lia. do 2 f_equal. rewrite Z.pow_add_r, Z.div_div by lia. done.
Qed.

(** A count below 32 leaves the upper seven bits to [funct7]. *)
Lemma shift_count i : bits i 26 6 = 0 → bits i 20 6 < 32 →
  funct7 i = 0 ∧ i_imm i = bits i 20 6 ∧ bits i 20 5 = bits i 20 6.
Proof.
  intros H6 Hc. pose proof (bits_range i 20 5 ltac:(lia)) as [? ?].
  pose proof (bits_range i 25 1 ltac:(lia)) as [? ?].
  unfold funct7, i_imm.
  pose proof (bits_split i 25 1 6 ltac:(lia) ltac:(lia) ltac:(lia)) as E1.
  pose proof (bits_split i 20 5 1 ltac:(lia) ltac:(lia) ltac:(lia)) as E2.
  pose proof (bits_split i 20 6 6 ltac:(lia) ltac:(lia) ltac:(lia)) as E3.
  change (1 + 6) with 7 in E1. change (25 + 1) with 26 in E1. change (5 + 1) with 6 in E2.
  change (20 + 5) with 25 in E2. change (6 + 6) with 12 in E3. change (20 + 6) with 26 in E3.
  lia.
Qed.

Lemma shift_count32 i : funct7 i = 0 → i_imm i = bits i 20 5.
Proof.
  unfold funct7, i_imm. intros H.
  pose proof (bits_split i 20 5 7 ltac:(lia) ltac:(lia) ltac:(lia)) as E.
  change (5 + 7) with 12 in E. change (20 + 5) with 25 in E. lia.
Qed.

(** The operands on which a register-immediate handler is defined and right.
    Arithmetic right shifts take the whole immediate field, with the bit that
    marks them, as count; counts of 32 and more are reported as illegal;
    [SLTIU] does not extend the immediate. *)
Definition agrees_imm (op : alu_op) (a v : Z) : Prop :=
  match op with
  | ADD => srange 64 (i64 a + i64 v)
  | SLL | SRL => v < 32
  | SLTU => v < 2048
  | SRA | SRAW => False
  | ADDW => srange 32 (i32 a + i32 v)
  | SLLW => u32 (Z.shiftl a v) < 2 ^ 31
  | SRLW => Z.shiftr (u32 a) v < 2 ^ 31
  | _ => True
  end.

#[export] Instance agrees_imm_dec op a v : Decision (agrees_imm op a v).
Proof. destruct op; unfold agrees_imm; apply _. Defined.

Section ri.
Context (x : stage_reg_x) (pc i : Z) (m : stage_reg_m).
Abbreviation a := (rs1_value x).
Context (Ha : urange 64 a).

Lemma addi_right : agrees_imm ADD a (u64 (imm_I i)) →
  riscv_addi x pc i m = write_rd pc i m (alu ADD a (u64 (imm_I i))).
Proof.
  intros H. simpl in H. unfold riscv_addi. rewrite temp_imm, signed_Ok by done. simpl.
  f_equal. apply wrap_add; apply wrap_swrap; lia.
Qed.

Lemma addiw_right : agrees_imm ADDW a (u64 (imm_I i)) →
  riscv_addiw x pc i m = write_rd pc i m (alu ADDW a (u64 (imm_I i))).
Proof.
  intros H. simpl in H. unfold riscv_addiw. rewrite temp_imm, signed_Ok by done. simpl.
  unfold sext32. rewrite <-(swrap_small 32 (i32 a + _)) by (done || lia).
  do 2 f_equal. apply swrap_cong; [lia|]. apply wrap_add; apply wrap_swrap; lia.
Qed.

(** An immediate below 2048 is its own extension. *)
Lemma sltiu_right : agrees_imm SLTU a (u64 (imm_I i)) →
  riscv_sltiu x pc i m = write_rd pc i m (alu SLTU a (u64 (imm_I i))).
Proof.
  simpl. intros H. unfold riscv_sltiu, flag.
  assert (u64 (imm_I i) = i_imm i) as ->; [|done].
  pose proof (i_imm_range i) as Hr. unfold imm_I in *.
  fold (i_imm i) in *. rewrite swrap_urange in * by (done || lia). destruct Hr as [? ?].
  destruct (Z.ltb_spec (i_imm i) (2 ^ (12 - 1))).
  - apply wrap_small. unfold urange. lia.
  - exfalso. unfold wrap in H. rewrite <-(Z_mod_plus_full _ 1), Z.mod_small in H; lia.
Qed.

Lemma slli_right : bits i 26 6 = 0 → bits i 20 6 < 32 →
  riscv_slli x pc i m = write_rd pc i m (alu SLL a (bits i 20 6)).
Proof.
  intros H6 Hc. destruct (shift_count i H6 Hc) as (_ & E & _).
  pose proof (bits_range i 20 6 ltac:(lia)) as [? ?].
  unfold riscv_slli. rewrite E, shl_Ok by lia. simpl. by rewrite Z.mod_small by lia.
Qed.

Lemma srli_right : bits i 26 6 = 0 → bits i 20 6 < 32 →
  riscv_srli x pc i m = write_rd pc i m (alu SRL a (bits i 20 6)).
Proof.
  intros H6 Hc. destruct (shift_count i H6 Hc) as (_ & E & _).
  pose proof (bits_range i 20 6 ltac:(lia)) as [? ?].
  unfold riscv_srli. rewrite E, shr_Ok by lia. simpl. by rewrite Z.mod_small by lia.
Qed.

Lemma slliw_right : funct7 i = 0 → u32 (Z.shiftl a (bits i 20 5)) < 2 ^ 31 →
  riscv_slliw x pc i m = write_rd pc i m (alu SLLW a (bits i 20 5)).
Proof.
  intros H7 Hr. pose proof (bits_range i 20 5 ltac:(lia)) as [? ?].
  unfold riscv_slliw. rewrite (shift_count32 i H7), (wrap_small 32 (bits _ _ _)), shl_Ok
    by (unfold urange; lia).
  simpl. rewrite (Z.mod_small (bits _ _ _)), wrap_shiftl by lia.
  unfold sext32. rewrite <-(i32_u32 (Z.shiftl _ _)). set (v := u32 (Z.shiftl _ _)) in *.
  pose proof (wrap_range 32 (Z.shiftl a (bits i 20 5)) ltac:(lia)) as [? ?].
  fold (sext32 v). by rewrite sext32_small by done.
Qed.

Lemma srliw_right : funct7 i = 0 → Z.shiftr (u32 a) (bits i 20 5) < 2 ^ 31 →
  riscv_srliw x pc i m = write_rd pc i m (alu SRLW a (bits i 20 5)).
Proof.
  intros H7 Hr. pose proof (bits_range i 20 5 ltac:(lia)) as [? ?].
  unfold riscv_srliw. rewrite (shift_count32 i H7), (wrap_small 32 (bits _ _ _)), shr_Ok
    by (unfold urange; lia).
  simpl. rewrite (Z.mod_small (bits _ _ _)) by lia.
  pose proof (wrap_range 32 a ltac:(lia)) as [? ?].
  pose proof (shiftr_bound (u32 a) (bits i 20 5) (2 ^ 32) ltac:(lia) ltac:(lia)).
  by rewrite sext32_small by lia.
Qed.

Lemma opimm_right op v : decode_opimm i = Some (op, v) → agrees_imm op a v →
  riscv_arithmetic1_dispatch x pc i m = write_rd pc i m (alu op a v).
Proof.
  unfold decode_opimm, riscv_arithmetic1_dispatch. intros Hd Hag.
  repeat case_match; simplify_eq; simpl in Hag;
    auto using addi_right, sltiu_right; try done;
    try (unfold riscv_slti, riscv_xori, riscv_ori, riscv_andi; by rewrite temp_imm).
  all: repeat match goal with H : (_ =? _) = true |- _ => apply Z.eqb_eq in H end.
  all: auto using slli_right, srli_right.
  all: destruct (shift_count i) as (E & _); [done..|]; rewrite E in *; done.
Qed.

Lemma opimm32_right op v : decode_opimm32 i = Some (op, v) → agrees_imm op a v →
  riscv_arithmetic1_64_dispatch x pc i m = write_rd pc i m (alu op a v).
Proof.
  unfold decode_opimm32, riscv_arithmetic1_64_dispatch. intros Hd Hag.
  repeat case_match; simplify_eq; simpl in Hag; auto using addiw_right; try done.
  all: repeat match goal with H : (_ =? _) = true |- _ => apply Z.eqb_eq in H end.
  all: auto using slliw_right, srliw_right.
  all: match goal with H : nonzero _ = true |- _ => apply nonzero_true in H end; done.
Qed.
End ri.

(** ** All instructions *)

(** What a memory-stage register asks the later stages to do. *)
Definition effect_of (m : stage_reg_m) : effect :=
  match readWrite m with
  | 3 => Write_reg (m_reg m) (m_value m)
  | 2 => Read_mem (m_reg m) (m_address m) (size m) (nonzero (signExtend m))
  | 1 => Write_mem (m_address m) (size m) (m_value m)
  | _ => No_effect
  end.

(** The instructions and operands on which the simulator follows the
    instruction set. *)
Definition conforms (i a b : Z) : Prop :=
  match opcode i with
  | 0x17 => False
  | 0x67 => (a + imm_I i) mod 2 = 0
  | 0x63 => branch_taken (funct3 i) a b = Some true → branch_offset_ok (imm_B i) = true
  | 0x13 => match decode_opimm i with Some (op, v) => agrees_imm op a v | None => True end
  | 0x1B => match decode_opimm32 i with Some (op, v) => agrees_imm op a v | None => True end
  | 0x33 => match decode_op (funct3 i) (funct7 i) with
            | Some op => agrees op a b | None => True end
  | 0x3B => match decode_op32 (funct3 i) (funct7 i) with
            | Some op => agrees op a b | None => True end
  | _ => True
  end.

Lemma dispatch_opcode x pc m h :
  major_dispatch_table !! Z.to_nat (opcode (x_instruction x)) = Some h →
  dispatch major_dispatch_table x pc m = call h x pc (x_instruction x) m.
Proof. unfold dispatch. by intros ->. Qed.

Lemma pc_relative pc off : u64 (u64 (pc + 4) - 4 + off) = u64 (pc + off).
Proof.
  rewrite (wrap_add 64 (u64 (pc + 4) - 4) off pc off); [done| |done].
  rewrite (wrap_sub 64 (u64 (pc + 4)) 4 (pc + 4) 4); [f_equal; lia| |done].
  apply wrap_wrap. lia.
Qed.

Lemma even_target v : v mod 2 = 0 → Z.land (u64 v) (u64 (-2)) = u64 v.
Proof.
  intros H. apply Z.bits_inj'. intros k Hk. rewrite Z.land_spec.
  destruct (Z.lt_ge_cases k 64).
  2: { unfold wrap. by rewrite !Z.mod_pow2_bits_high by lia. }
  unfold wrap. rewrite !Z.mod_pow2_bits_low by lia.
  destruct (Z.eq_dec k 0) as [->|].
  - pose proof (Z.bit0_mod v) as E. destruct (Z.testbit v 0); [simpl in E; lia|done].
  - replace (Z.testbit (-2) k) with true; [apply andb_true_r|].
    replace (-2) with (Z.lnot (2 ^ 0)) by done.
    by rewrite Z.lnot_spec, Z.pow2_bits_false by lia.
Qed.

Section all.
Context (x : stage_reg_x) (m : stage_reg_m).
Abbreviation i := (x_instruction x).
Abbreviation next := (u64 (x_pc x + 4)).
Abbreviation a := (rs1_value x).
Abbreviation b := (rs2_value x).
Context (Ha : urange 64 a) (Hb : urange 64 b) (Hm : readWrite m = 0).

(** [r] is the reference outcome [(npc, e)]. *)
Definition realises (npc : Z) (e : effect) (r : hresult) : Prop :=
  ∃ m', r = Ok (npc, m', []) ∧ effect_of m' = e ∧
        m_tainted_executions m' = m_tainted_executions m ∧
        wasStalled m' = wasStalled m ∧ m_pc m' = m_pc m.

Lemma write_realises v : realises next (Write_reg (rd_field i) v) (write_rd next i m v).
Proof. eexists. split; [reflexivity|]. done. Qed.

Lemma jal_realises :
  realises (u64 (x_pc x + imm_J i)) (Write_reg (rd_field i) next) (riscv_jal next i m).
Proof.
  eexists. split; [unfold riscv_jal; by rewrite jal_offset_spec, pc_relative|]. done.
Qed.

Lemma jalr_realises : funct3 i = 0 → (a + imm_I i) mod 2 = 0 →
  realises (Z.land (u64 (a + imm_I i)) (u64 (-2))) (Write_reg (rd_field i) next)
    (riscv_jalr x next i m).
Proof.
  intros Hf Hev. eexists. split.
  - unfold riscv_jalr. rewrite Hf, i_offset, Z.add_comm, even_target by done. done.
  - done.
Qed.

Lemma load_realises n sx : load_kind (funct3 i) = Some (n, sx) →
  realises next (Read_mem (rd_field i) (u64 (a + imm_I i)) n sx) (riscv_load_dispatch x next i m).
Proof.
  unfold load_kind, riscv_load_dispatch, riscv_lb, riscv_lh, riscv_lw, riscv_ld, riscv_lbu,
    riscv_lhu, riscv_lwu, load. rewrite i_offset.
  intros. repeat case_match; simplify_eq; eexists; split; done.
Qed.

Lemma store_realises n : store_size (funct3 i) = Some n →
  realises next (Write_mem (u64 (a + imm_S i)) n (b mod 2 ^ (8 * n)))
    (riscv_store_dispatch x next i m).
Proof.
  unfold store_size, riscv_store_dispatch, riscv_sb, riscv_sh, riscv_sw, riscv_sd, store.
  rewrite s_offset. pose proof (wrap_small 64 b Hb) as E. unfold wrap in E.
  intros. repeat case_match; simplify_eq; eexists; (split; [reflexivity|]); try done.
  split; [|done]. change (8 * 8) with 64. by rewrite E.
Qed.

Lemma branch_realises taken : branch_taken (funct3 i) a b = Some taken →
  (taken = true → branch_offset_ok (imm_B i) = true) →
  realises (if taken then u64 (x_pc x + imm_B i) else next) No_effect
    (riscv_branch_dispatch x next i m).
Proof.
  intros Ht Hok. exists m. split; [|by unfold effect_of; rewrite Hm].
  assert (riscv_branch_dispatch x next i m = branch taken next i m) as ->.
  { unfold branch_taken, riscv_branch_dispatch in *. repeat case_match; simplify_eq; done. }
  unfold branch. destruct taken; [|done].
  rewrite (proj2 (branch_range_spec i)), pc_relative by auto. done.
Qed.

Lemma lui_realises :
  realises next (Write_reg (rd_field i) (u64 (imm_U i))) (riscv_lui next i m).
Proof.
  unfold riscv_lui. rewrite u_value, swrap_wrap by lia. unfold imm_U at 2.
  rewrite swrap_swrap by lia. apply write_realises.
Qed.

Lemma op_realises op : decode_op (funct3 i) (funct7 i) = Some op → agrees op a b →
  realises next (Write_reg (rd_field i) (alu op a b)) (riscv_arithmetic2_dispatch x next i m).
Proof.
  intros Hd Hag. rewrite arithmetic2_dispatch_spec, Hd, rr_right by done. apply write_realises.
Qed.

Lemma op32_realises op : decode_op32 (funct3 i) (funct7 i) = Some op → agrees op a b →
  realises next (Write_reg (rd_field i) (alu op a b))
    (riscv_arithmetic2_64_dispatch x next i m).
Proof.
  intros Hd Hag. rewrite arithmetic2_64_dispatch_spec, Hd, rr_right by done.
  apply write_realises.
Qed.

Lemma opimm_realises op v : decode_opimm i = Some (op, v) → agrees_imm op a v →
  realises next (Write_reg (rd_field i) (alu op a v)) (riscv_arithmetic1_dispatch x next i m).
Proof. intros Hd Hag. rewrite (opimm_right x next i m op v) by done. apply write_realises. Qed.

Lemma opimm32_realises op v : decode_opimm32 i = Some (op, v) → agrees_imm op a v →
  realises next (Write_reg (rd_field i) (alu op a v))
    (riscv_arithmetic1_64_dispatch x next i m).
Proof. intros Hd Hag. rewrite (opimm32_right x next i m op v) by done. apply write_realises. Qed.
End all.

(** Every instruction of the subset, in the domain [conforms]. *)
Lemma execute_realises x m npc e :
  urange 64 (rs1_value x) → urange 64 (rs2_value x) → readWrite m = 0 →
  execute (x_instruction x) (x_pc x) (rs1_value x) (rs2_value x) = Some (npc, e) →
  conforms (x_instruction x) (rs1_value x) (rs2_value x) →
  realises m npc e (dispatch major_dispatch_table x (u64 (x_pc x + 4)) m).
Proof.
  intros Ha Hb Hm He Hc. unfold execute in He. unfold conforms in Hc.
  repeat case_match; simplify_eq;
    (erewrite dispatch_opcode;
     [|match goal with H : opcode _ = _ |- _ => rewrite H; reflexivity end]); cbn [call].
  all: try done.
  all: try (by apply load_realises); try (by apply store_realises);
       try (by apply jal_realises); try (by apply lui_realises);
       try (by apply op_realises); try (by apply op32_realises);
       try (by apply opimm_realises); try (by apply opimm32_realises).
  - apply jalr_realises; [|done]. by apply Z.eqb_eq.
  - apply (branch_realises x m Hm true); auto.
  - by apply (branch_realises x m Hm false).
Qed.

(** ** Words that are not instructions *)

(** The opcodes with a handler of their own. *)
Definition major_opcodes : list Z :=
  [0x17; 0x37; 0x6F; 0x67; 0x03; 0x63; 0x23; 0x13; 0x1B; 0x33; 0x3B; 0x0F; 0x73].

Lemma other_opcode i : opcode i ∉ major_opcodes →
  major_dispatch_table !! Z.to_nat (opcode i) = Some Illegal.
Proof.
  pose proof (bits_range i 0 7 ltac:(lia)) as Hr. change (urange 7 (opcode i)) in Hr.
  revert Hr. generalize (opcode i). intros v Hv Hno.
  assert (bool_decide (v ∈ major_opcodes)
          || bool_decide (major_dispatch_table !! Z.to_nat v = Some Illegal) = true) as E.
  { revert v Hv Hno. intros v Hv _. revert v Hv.
    apply (exhaustive 7 (λ v, bool_decide (v ∈ major_opcodes)
      || bool_decide (major_dispatch_table !! Z.to_nat v = Some Illegal))). vm_compute. done. }
  apply orb_true_iff in E as [E|E]; by apply bool_decide_eq_true in E.
Qed.

Lemma funct7_split i : funct7 i = bits i 25 1 + 2 * bits i 26 6.
Proof. apply (bits_split i 25 1 6); lia. Qed.

Lemma opimm_illegal x pc i m : decode_opimm i = None →
  riscv_arithmetic1_dispatch x pc i m = riscv_illegal_instruction pc i m.
Proof.
  pose proof (funct7_split i) as E. pose proof (bits_range i 25 1 ltac:(lia)) as [? ?].
  unfold decode_opimm, riscv_arithmetic1_dispatch. intros Hd.
  destruct (funct3 i) as [|p|p] eqn:Ef; simplify_eq; [|done].
  repeat (destruct p as [p|p|]; simplify_eq; try done).
  - destruct (funct7 i) as [|q|q] eqn:E7; [|do 6 (destruct q as [q|q|]; try done)|done].
    + assert (bits i 26 6 = 0) as E6 by lia. by rewrite E6 in Hd.
    + assert (bits i 26 6 = 16) as E6 by lia. by rewrite E6 in Hd.
  - destruct (Z.eqb_spec (bits i 26 6) 0); [done|].
    by rewrite (proj2 (nonzero_true (funct7 i))) by lia.
Qed.

Lemma opimm32_illegal x pc i m : decode_opimm32 i = None →
  riscv_arithmetic1_64_dispatch x pc i m = riscv_illegal_instruction pc i m.
Proof.
  unfold decode_opimm32, riscv_arithmetic1_64_dispatch, nonzero. intros Hd.
  repeat case_match; done.
Qed.

Lemma illegal_message x m : urange 64 (x_pc x) →
  riscv_illegal_instruction (u64 (x_pc x + 4)) (x_instruction x) m
  = Ok (u64 (x_pc x + 4), m, [Illegal_instruction (x_pc x) (x_instruction x)]).
Proof.
  intros. unfold riscv_illegal_instruction. do 4 f_equal.
  rewrite <-(Z.add_0_r (_ - 4)), pc_relative, Z.add_0_r. by apply wrap_small.
Qed.


(** ** Where the handlers leave the instruction set *)

Lemma u64_add_inj p v w : srange 63 v → srange 63 w → u64 (p + v) = u64 (p + w) → v = w.
Proof.
  unfold srange. intros Hv Hw H. assert (u64 (v - w) = 0) as H0.
  { replace (v - w) with ((p + v) - (p + w)) by lia.
    rewrite (wrap_sub 64 _ (p + w) (p + w) (p + w)); [|done|done].
    by rewrite Z.sub_diag. }
  apply Z.mod_divide in H0 as [k Hk]; [|done]. assert (k = 0); nia.
Qed.

Lemma branch_range_small i : srange 63 (branch_range i).
Proof.
  unfold branch_range. match goal with |- srange _ (i16 ?e) =>
    pose proof (swrap_range 16 e ltac:(lia)) end.
  unfold srange in *. lia.
Qed.

Lemma imm_B_small i : srange 63 (imm_B i).
Proof.
  unfold imm_B. match goal with |- srange _ (swrap 13 ?e) =>
    pose proof (swrap_range 13 e ltac:(lia)) end.
  unfold srange in *. lia.
Qed.

(** C26: a taken branch goes to the target of the instruction set exactly
    when the offset fits 12 bits and its sign is told by bits 1, 2 and 4 of
    the offset.  Every other taken branch goes astray: the handlers test
    [11 << 1] where the sign is bit 11 and drop bit 11 of the offset. *)
Theorem branch_target_exact x m pc' m' out :
  opcode (x_instruction x) = 0x63 →
  branch_taken (funct3 (x_instruction x)) (rs1_value x) (rs2_value x) = Some true →
  dispatch major_dispatch_table x (u64 (x_pc x + 4)) m = Ok (pc', m', out) →
  pc' = u64 (x_pc x + imm_B (x_instruction x))
  ↔ branch_offset_ok (imm_B (x_instruction x)) = true.
Proof.
  intros Hop Ht. erewrite dispatch_opcode by (rewrite Hop; reflexivity). cbn [call].
  assert (riscv_branch_dispatch x (u64 (x_pc x + 4)) (x_instruction x) m
          = branch true (u64 (x_pc x + 4)) (x_instruction x) m) as ->.
  { unfold branch_taken, riscv_branch_dispatch in *. repeat case_match; simplify_eq;
      unfold riscv_beq, riscv_bne, riscv_blt, riscv_bge, riscv_bltu, riscv_bgeu; congruence. }
  unfold branch. rewrite pc_relative. intros [= <- _ _]. rewrite <-branch_range_spec. split.
  - apply u64_add_inj; [apply branch_range_small|apply imm_B_small].
  - by intros ->.
Qed.

(** C33: [AUIPC] adds its immediate to the address of the next instruction:
    the value it writes is always 4 more than the instruction set's. *)
Theorem auipc_off_by_four x m v :
  opcode (x_instruction x) = 0x17 →
  execute (x_instruction x) (x_pc x) (rs1_value x) (rs2_value x)
  = Some (u64 (x_pc x + 4), Write_reg (rd_field (x_instruction x)) v) →
  realises m (u64 (x_pc x + 4)) (Write_reg (rd_field (x_instruction x)) (u64 (v + 4)))
    (dispatch major_dispatch_table x (u64 (x_pc x + 4)) m).
Proof.
  intros Hop. unfold execute. rewrite Hop. intros [= <-].
  erewrite dispatch_opcode by (rewrite Hop; reflexivity). cbn [call].
  unfold riscv_auipc. rewrite u_value.
  replace (u64 (u64 (x_pc x + 4) + imm_U (x_instruction x)))
    with (u64 (u64 (x_pc x + imm_U (x_instruction x)) + 4)); [apply write_realises|].
  rewrite (wrap_add 64 (u64 (x_pc x + 4)) _ (x_pc x + 4) (imm_U (x_instruction x)));
    [|apply wrap_wrap; lia|done].
  rewrite (wrap_add 64 (u64 (x_pc x + imm_U _)) _ (x_pc x + imm_U (x_instruction x)) 4);
    [f_equal; lia|apply wrap_wrap; lia|done].
Qed.

(** Encodings, with [rd] 3, [rs1] 1 and [rs2] 2. *)
Definition r_type (op f3 f7 : Z) : Z :=
  op + 3 * 2 ^ 7 + f3 * 2 ^ 12 + 1 * 2 ^ 15 + 2 * 2 ^ 20 + f7 * 2 ^ 25.
Definition i_type (op f3 imm : Z) : Z :=
  op + 3 * 2 ^ 7 + f3 * 2 ^ 12 + 1 * 2 ^ 15 + imm * 2 ^ 20.
