(* ===== verification/Divergence.v ===== *)
(** * Arithmetic that leaves the instruction set

    Outside the domain [conforms] of [ISARefinement]: for which operands the
    handlers of some register-register instructions write the architectural
    value, and what becomes of the arithmetic right shifts by a constant. *)
From S2P Require Import Prelude Instruction ISA Execute ISARefinement.

(** ** Register-register instructions *)

(** Operands on which the handler of an instruction below is defined (or, for
    division and remainders, takes a branch of its own). *)
Definition singled_out (op : alu_op) (a b : Z) : Prop :=
  match op with
  | ADD => srange 32 (i32 a + i32 b)
  | XOR => True
  | SRL | SLLW | SRAW => b < 32
  | SRLW => 0 < b < 32
  | REM | REMU => b = 0
  | DIV => overflows a b
  | DIVUW | REMUW => u32 b ≠ 0
  | _ => False
  end.

(** The condition on them under which the value written is the architectural
    one.  [ADD], [XOR] and [SRL] drop the upper halves; [SRLW] does not;
    [SLLW], [SRAW], [DIVUW] and [REMUW] do not extend the sign; remainders by
    zero are -1, and so is the quotient that overflows. *)
Definition coincides (op : alu_op) (a b : Z) : Prop :=
  match op with
  | ADD => u64 ((a - i32 a) + (b - i32 b)) = 0
  | XOR => a / 2 ^ 32 = b / 2 ^ 32
  | SRL | SRLW => a < 2 ^ 32
  | SLLW => u32 (Z.shiftl a b) < 2 ^ 31
  | SRAW => 0 ≤ i32 a
  | REM | REMU => a = 2 ^ 64 - 1
  | DIVUW => u32 a / u32 b < 2 ^ 31
  | REMUW => u32 a mod u32 b < 2 ^ 31
  | _ => False
  end.

Lemma sext32_same v : urange 32 v → v = sext32 v ↔ v < 2 ^ 31.
Proof.
  intros [? ?]. split; [|intros; by rewrite sext32_small].
  intros E. destruct (Z.lt_ge_cases v (2 ^ 31)); [done|exfalso]. revert E. unfold sext32.
  rewrite swrap_urange by (unfold urange; lia).
  destruct (Z.ltb_spec v (2 ^ (32 - 1))); [lia|]. unfold wrap.
  rewrite <-(Z_mod_plus_full _ 1), Z.mod_small by lia. lia.
Qed.

(** The upper half is lost exactly when there is one. *)
Lemma shiftr_low a b : urange 64 a → 0 ≤ b < 32 →
  Z.shiftr (u32 a) b = Z.shiftr a b ↔ a < 2 ^ 32.
Proof.
  intros [? ?] Hb. split; [|by intros; rewrite wrap_small by (unfold urange; lia)].
  intros E. destruct (Z.lt_ge_cases a (2 ^ 32)); [done|exfalso].
  pose proof (wrap_range 32 a ltac:(lia)) as [? ?].
  rewrite !Z.shiftr_div_pow2 in E by lia. pose proof (pow2_pos b ltac:(lia)).
  assert (2 ^ b * 2 ^ (32 - b) = 2 ^ 32) as Hp by (rewrite <-Z.pow_add_r by lia; f_equal; lia).
  assert (u32 a / 2 ^ b < 2 ^ (32 - b)) by (apply Z.div_lt_upper_bound; lia).
  assert (2 ^ (32 - b) ≤ a / 2 ^ b) by (apply Z.div_le_lower_bound; lia). lia.
Qed.

Lemma wrap_zero_iff w x y : 0 ≤ w → wrap w x = wrap w y ↔ wrap w (y - x) = 0.
Proof.
  intros Hw. pose proof (pow2_pos w Hw). unfold wrap. split; intros E.
  - by rewrite Zminus_mod, E, Z.sub_diag, Zmod_0_l.
  - replace y with (x + (y - x)) by lia. by rewrite Zplus_mod, E, Z.add_0_r, Z.mod_mod by lia.
Qed.

Section rr.
Context (x : stage_reg_x) (pc i : Z) (m : stage_reg_m).
Abbreviation a := (rs1_value x).
Abbreviation b := (rs2_value x).
Context (Ha : urange 64 a) (Hb : urange 64 b).

(** The handler writes a value, which is the architectural one exactly when
    the condition holds. *)
Abbreviation exact op := (singled_out op a b →
  ∃ v, rr_handler op x pc i m = write_rd pc i m v ∧ (v = alu op a b ↔ coincides op a b)).

Lemma add_exact : exact ADD.
Proof.
  intros H. simpl in H |- *. unfold riscv_add. rewrite signed_Ok by done. cbn [obind].
  eexists. split; [done|]. rewrite wrap_zero_iff by lia.
  by replace (a + b - (i32 a + i32 b)) with (a - i32 a + (b - i32 b)) by lia.
Qed.

Lemma xor_exact : exact XOR.
Proof.
  intros _. simpl. eexists. split; [done|]. split; [|by apply lxor_low].
  intros E. apply Z.bits_inj'. intros k Hk. rewrite !Z.div_pow2_bits by lia.
  apply (f_equal (λ z, Z.testbit z (k + 32))) in E. unfold wrap in E.
  rewrite !Z.lxor_spec, !Z.mod_pow2_bits_high in E by lia.
  destruct (Z.testbit a _), (Z.testbit b _); done.
Qed.

Lemma srl_exact : exact SRL.
Proof.
  intros H. destruct Hb. simpl in H |- *. unfold riscv_srl.
  rewrite (wrap_small 32 b), shr_Ok by (unfold urange; lia). cbn [obind].
  eexists. split; [done|]. rewrite (Z.mod_small b) by lia. by apply shiftr_low.
Qed.

Lemma sllw_exact : exact SLLW.
Proof.
  intros H. destruct Hb. simpl in H |- *. unfold riscv_sllw.
  rewrite (wrap_small 32 b), shl_Ok by (unfold urange; lia). cbn [obind].
  eexists. split; [done|]. rewrite (Z.mod_small b), wrap_shiftl by lia.
  unfold sext32. rewrite <-(i32_u32 (Z.shiftl a b)). fold (sext32 (u32 (Z.shiftl a b))).
  apply sext32_same, wrap_range. lia.
Qed.

Lemma srlw_exact : exact SRLW.
Proof.
  intros H. simpl in H |- *. unfold riscv_srlw. rewrite shr_Ok by lia. cbn [obind].
  eexists. split; [done|]. rewrite (Z.mod_small b) by lia.
  pose proof (wrap_range 32 a ltac:(lia)) as [? ?].
  rewrite sext32_small; [rewrite <-(shiftr_low a b) by (done || lia); split; by intros ->|].
  rewrite Z.shiftr_div_pow2 by lia. pose proof (pow2_pos b ltac:(lia)).
  assert (2 ^ 1 ≤ 2 ^ b) by (apply Z.pow_le_mono_r; lia).
  split; [apply Z.div_pos; lia|]. apply Z.div_lt_upper_bound; nia.
Qed.

Lemma sraw_exact : exact SRAW.
Proof.
  intros H. destruct Hb. simpl in H |- *. unfold riscv_sraw.
  rewrite (swrap_small 32 b), shr_Ok by (unfold srange; lia). cbn [obind].
  eexists. split; [done|]. rewrite (Z.mod_small b) by lia.
  set (v := Z.shiftr (i32 a) b). unfold sext32. rewrite <-(i32_u32 v). fold (sext32 (u32 v)).
  rewrite sext32_same by (apply wrap_range; lia).
  pose proof (swrap_range 32 a ltac:(lia)) as [? ?]. change (32 - 1) with 31 in *.
  assert (- 2 ^ 31 ≤ v < 2 ^ 31 ∧ (0 ≤ v ↔ 0 ≤ i32 a)) as [? Hs].
  { unfold v. rewrite Z.shiftr_div_pow2 by lia. pose proof (pow2_pos b ltac:(lia)). split.
    - split; [apply Z.div_le_lower_bound; nia|apply Z.div_lt_upper_bound; nia].
    - split; intros; [|apply Z.div_pos; lia].
      destruct (Z.lt_ge_cases (i32 a) 0); [|done].
      pose proof (Z.div_lt_upper_bound (i32 a) (2 ^ b) 0). lia. }
  rewrite <-Hs. unfold wrap. destruct (Z.lt_ge_cases v 0).
  - rewrite <-(Z_mod_plus_full _ 1), Z.mod_small by lia. lia.
  - rewrite Z.mod_small by lia. lia.
Qed.

Lemma rem_exact : exact REM.
Proof.
  intros H. simpl in H. cbn [rr_handler alu coincides]. unfold riscv_rem.
  rewrite (proj2 (div_special_spec x)) by by left. eexists. split; [done|].
  rewrite H. change (rem_signed (i64 a) (i64 0)) with (i64 a).
  rewrite wrap_swrap, (wrap_small 64 a) by (done || lia).
  change (u64 (-1)) with (2 ^ 64 - 1). split; intros E; by symmetry.
Qed.

Lemma remu_exact : exact REMU.
Proof.
  intros H. simpl in H. cbn [rr_handler alu coincides]. unfold riscv_remu. rewrite H.
  eexists. split; [done|]. change (rem_unsigned a 0) with a.
  change (u64 (-1)) with (2 ^ 64 - 1). split; intros E; by symmetry.
Qed.

Lemma div_exact : exact DIV.
Proof.
  intros H. simpl in H. cbn [rr_handler alu coincides]. unfold riscv_div.
  rewrite (proj2 (div_special_spec x)) by by right. eexists. split; [done|].
  destruct H as [-> ->]. split; [|done]. vm_compute. discriminate.
Qed.

(** The two divisions of 32-bit unsigned numbers. *)
Lemma unsigned_exact v : 0 ≤ v < 2 ^ 32 → u64 (i64 v) = v ∧ (v = sext32 v ↔ v < 2 ^ 31).
Proof.
  intros. split; [|by apply sext32_same].
  rewrite swrap_small, wrap_small by (unfold srange, urange; lia). done.
Qed.

Lemma divuw_exact : exact DIVUW.
Proof.
  intros H. simpl in H. cbn [rr_handler alu coincides]. unfold riscv_divuw, div_unsigned, udiv.
  pose proof (wrap_range 32 a ltac:(lia)) as [? ?]. pose proof (wrap_range 32 b ltac:(lia)) as [? ?].
  rewrite (proj2 (Z.eqb_neq b 0)) by by apply u32_zero. cbv zeta.
  rewrite !low32, !wrap_wrap, (proj2 (Z.eqb_neq _ _) H) by lia. cbn [obind].
  destruct (unsigned_exact (u32 a / u32 b)) as [-> ?]; [|by eexists].
  split; [apply Z.div_pos; lia|apply Z.div_lt_upper_bound; nia].
Qed.

Lemma remuw_exact : exact REMUW.
Proof.
  intros H. simpl in H. cbn [rr_handler alu coincides]. unfold riscv_remuw, rem_unsigned, umod.
  pose proof (wrap_range 32 a ltac:(lia)) as [? ?]. pose proof (wrap_range 32 b ltac:(lia)) as [? ?].
  rewrite (proj2 (Z.eqb_neq b 0)) by by apply u32_zero. cbv zeta.
  rewrite !low32, !wrap_wrap, (proj2 (Z.eqb_neq _ _) H) by lia. cbn [obind].
  pose proof (Z.mod_pos_bound (u32 a) (u32 b) ltac:(lia)).
  destruct (unsigned_exact (u32 a mod u32 b)) as [-> ?]; [lia|by eexists].
Qed.

Lemma rr_exact op : exact op.
Proof.
  destruct op; try (by intros []);
    auto using add_exact, xor_exact, srl_exact, sllw_exact, srlw_exact, sraw_exact,
      rem_exact, remu_exact, div_exact, divuw_exact, remuw_exact.
Qed.
End rr.


(** ** Arithmetic right shifts by a constant *)

Lemma sra_field i : bits i 26 6 = 0x10 →
  i_imm i = 1024 + bits i 20 6 ∧ funct7 i = 0x20 + bits i 20 6 / 32.
Proof.
  intros H. unfold i_imm, funct7.
  pose proof (bits_split i 20 6 6 ltac:(lia) ltac:(lia) ltac:(lia)) as E1.
  pose proof (bits_split i 25 1 6 ltac:(lia) ltac:(lia) ltac:(lia)) as E2.
  pose proof (bits_split i 20 5 1 ltac:(lia) ltac:(lia) ltac:(lia)) as E3.
  change (6 + 6) with 12 in E1. change (20 + 6) with 26 in E1. change (1 + 6) with 7 in E2.
  change (25 + 1) with 26 in E2. change (5 + 1) with 6 in E3. change (20 + 5) with 25 in E3.
  rewrite H in E1, E2.
  pose proof (bits_range i 20 5 ltac:(lia)) as [? ?]. pose proof (bits_range i 25 1 ltac:(lia)) as [? ?].
  split; [lia|]. assert (bits i 20 6 / 32 = bits i 25 1) as ->; [|lia].
  symmetry. apply (Z.div_unique _ _ _ (bits i 20 5)); lia.
Qed.

Lemma decode_sra i n : decode_opimm i = Some (SRA, n) →
  funct3 i = 5 ∧ bits i 26 6 = 0x10 ∧ n = bits i 20 6.
Proof. unfold decode_opimm. repeat case_match; intros [=]; done. Qed.

Lemma decode_sraw i n : decode_opimm32 i = Some (SRAW, n) →
  funct3 i = 5 ∧ funct7 i = 0x20 ∧ bits i 26 6 = 0x10.
Proof.
  unfold decode_opimm32. intros Hd.
  assert (funct3 i = 5 ∧ funct7 i = 0x20) as [H3 H7]
    by (revert Hd; repeat case_match; intros [=]; done).
  split_and!; [done..|]. unfold funct7 in H7.
  pose proof (bits_split i 25 1 6 ltac:(lia) ltac:(lia) ltac:(lia)) as E.
  change (1 + 6) with 7 in E. change (25 + 1) with 26 in E.
  pose proof (bits_range i 25 1 ltac:(lia)) as [? ?]. lia.
Qed.

(** C32: [SRAI] and [SRAIW] are never carried out.  The shift count that the
    handlers use includes the bit that tells the arithmetic from the logical
    shift, so it is never below 1024 and the C shift is undefined; only
    [SRAI] by 32 or more does not get that far, and is reported as an illegal
    instruction. *)
Theorem srai_not_executed x m n : urange 64 (x_pc x) →
  (opcode (x_instruction x) = 0x13 → decode_opimm (x_instruction x) = Some (SRA, n) →
   dispatch major_dispatch_table x (u64 (x_pc x + 4)) m
   = if n <? 32 then Undef
     else Ok (u64 (x_pc x + 4), m, [Illegal_instruction (x_pc x) (x_instruction x)])) ∧
  (opcode (x_instruction x) = 0x1B → decode_opimm32 (x_instruction x) = Some (SRAW, n) →
   dispatch major_dispatch_table x (u64 (x_pc x + 4)) m = Undef).
Proof.
  intros Hpc. assert (∀ w k, w ≤ 64 → 1024 ≤ k → shift_ok w k = false) as Hno.
  { intros w k ? ?. apply not_true_iff_false. rewrite shift_ok_spec. lia. }
  split; intros Hop Hd; (erewrite dispatch_opcode by (rewrite Hop; reflexivity)); cbn [call].
  - apply decode_sra in Hd as (H3 & H6 & ->).
    destruct (sra_field (x_instruction x) H6) as [E1 E2].
    pose proof (bits_range (x_instruction x) 20 6 ltac:(lia)) as [? ?].
    unfold riscv_arithmetic1_dispatch. rewrite H3, E2.
    destruct (Z.ltb_spec (bits (x_instruction x) 20 6) 32).
    + rewrite Z.div_small by lia. unfold riscv_srai, shr. rewrite E1.
      rewrite (swrap_small 64 (1024 + _)), Hno by (unfold srange; lia). done.
    + replace (bits (x_instruction x) 20 6 / 32) with 1
        by (apply (Z.div_unique _ _ _ (bits (x_instruction x) 20 6 - 32)); lia).
      by apply illegal_message.
  - apply decode_sraw in Hd as (H3 & H7 & H6).
    destruct (sra_field (x_instruction x) H6) as [E1 _].
    pose proof (bits_range (x_instruction x) 20 6 ltac:(lia)) as [? ?].
    unfold riscv_arithmetic1_64_dispatch. rewrite H3, H7. unfold riscv_sraiw, shr. rewrite E1.
    rewrite (swrap_small 32 (1024 + _)), Hno by (unfold srange; lia). done.
Qed.
