(* ===== verification/ExecuteFrame.v ===== *)
(** * What every handler preserves

    A handler that returns leaves a program counter and a memory-stage
    register within the widths of their C types. *)
From S2P Require Import Prelude Instruction Execute ISA ISARefinement.

Definition h_wf : Z * stage_reg_m * list event → Prop := λ '(pc, m, _), urange 64 pc ∧ m_wf m.

Lemma urange_weaken w v x : 0 ≤ w ≤ v → urange w x → urange v x.
Proof.
  intros ? [? ?]. pose proof (Z.pow_le_mono_r 2 w v ltac:(lia) ltac:(lia)). split; lia.
Qed.

Lemma shl_range w x n : 0 ≤ w → sat (urange w) (shl w x n).
Proof. intros. unfold shl. sat_step; [by apply wrap_range|done]. Qed.

Lemma shr_range w x n : urange w x → sat (urange w) (shr w x n).
Proof.
  intros [? ?]. unfold shr. destruct (shift_ok w n) eqn:E; [|done].
  apply shift_ok_spec in E. apply shiftr_bound; lia.
Qed.

Lemma udiv_range w x y : urange w x → urange w y → sat (urange w) (udiv x y).
Proof.
  intros [? ?] [? ?]. unfold udiv. destruct (Z.eqb_spec y 0); [done|]. simpl. split.
  - apply Z.div_pos; lia.
  - apply Z.le_lt_trans with x; [|done]. apply Z.div_le_upper_bound; nia.
Qed.

Lemma umod_range w x y : urange w x → urange w y → sat (urange w) (umod x y).
Proof.
  intros [? ?] [? ?]. unfold umod. destruct (Z.eqb_spec y 0); [done|]. simpl.
  pose proof (Z.mod_pos_bound x y). split; lia.
Qed.

Lemma shiftr_range w x k : 0 ≤ k → urange w x → urange w (Z.shiftr x k).
Proof. intros ? ?. by apply shiftr_bound. Qed.

Lemma u32_range v : urange 64 (u32 v).
Proof. apply (urange_weaken 32); width. Qed.

Lemma flag_range (b : bool) : urange 64 (if b then 1 else 0).
Proof. by destruct b. Qed.

#[export] Hint Resolve u32_range flag_range lor_range lxor_range land_range shiftr_range : width.

Section handlers.
Context (x : stage_reg_x) (Hx : x_wf x) (pc i : Z) (m : stage_reg_m).
Context (Hpc : urange 64 pc) (Hm : m_wf m).

Lemma field_range lo n : 0 ≤ n ≤ 64 → urange 64 (bits i lo n).
Proof. intros. apply (urange_weaken n); width. Qed.

Lemma write_rd_wf v : urange 64 v → sat h_wf (write_rd pc i m v).
Proof.
  intros Hv. split; [done|]. destruct Hm. constructor; simpl; try done.
  by apply field_range.
Qed.

(** A value computed with a chance of undefined behaviour, then written. *)
Lemma bind_rd_wf (P : Z → Prop) o f : sat P o → (∀ v, P v → urange 64 (f v)) →
  sat h_wf (v ← o; write_rd pc i m (f v)).
Proof. intros Ho Hf. eapply sat_bind; [exact Ho|]. intros v Hv. apply write_rd_wf. auto. Qed.

Lemma bind_wrap_wf o (f : Z → Z) : sat h_wf (v ← o; write_rd pc i m (u64 (f v))).
Proof. apply (bind_rd_wf (λ _, True)); [apply sat_true|]. intros. width. Qed.

Lemma extend_temp_range : urange 64 (extend_temp (i_imm i)).
Proof. rewrite temp_imm. width. Qed.

Let Ha : urange 64 (rs1_value x) := x_wf_rs1_value _ Hx.
Let Hb : urange 64 (rs2_value x) := x_wf_rs2_value _ Hx.
Let Ht := extend_temp_range.

Lemma illegal_wf : sat h_wf (riscv_illegal_instruction pc i m).
Proof. done. Qed.

Lemma rr_wf op : sat h_wf (rr_handler op x pc i m).
Proof.
  destruct op; simpl;
    unfold riscv_add, riscv_sub, riscv_sll, riscv_slt, riscv_sltu, riscv_xor, riscv_srl,
      riscv_sra, riscv_or, riscv_and, riscv_mul, riscv_mulh, riscv_mulhsu, riscv_mulhu,
      riscv_div, riscv_divu, riscv_rem, riscv_remu, riscv_addw, riscv_subw, riscv_sllw,
      riscv_srlw, riscv_sraw, riscv_mulw, riscv_divw, riscv_divuw, riscv_remw, riscv_remuw.
  all: try (apply write_rd_wf; width; fail).
  all: try (apply bind_wrap_wf).
  all: try (sat_step; [apply write_rd_wf; width|]).
  all: try (apply bind_wrap_wf).
  - apply (bind_rd_wf (urange 64) _ (λ v, v)); [by apply shl_range|done].
  - apply (bind_rd_wf (urange 32) _ (λ v, v)); [apply shr_range; width|].
    intros v. by apply urange_weaken.
  - apply (bind_rd_wf (λ _, True) _ (λ v, Z.shiftr (u64 v) 32)); [apply sat_true|].
    intros. width.
  - apply (bind_rd_wf (urange 64) _ (λ v, v)); [by apply udiv_range|done].
  - apply (bind_rd_wf (urange 64) _ (λ v, v)); [by apply umod_range|done].
  - apply (bind_rd_wf (urange 32) _ (λ v, v)); [by apply shl_range|].
    intros v. by apply urange_weaken.
  - apply (bind_rd_wf (urange 64) _ (λ v, v)); [by apply shr_range|done].
  - apply (bind_rd_wf (λ _, True) _ (λ v, u32 v)); [apply sat_true|]. intros. width.
Qed.

Lemma arithmetic1_wf : sat h_wf (riscv_arithmetic1_dispatch x pc i m).
Proof.
  unfold riscv_arithmetic1_dispatch. repeat case_match; try apply illegal_wf.
  all: unfold riscv_addi, riscv_slli, riscv_slti, riscv_sltiu, riscv_xori,
    riscv_srli, riscv_srai, riscv_ori, riscv_andi.
  all: try apply bind_wrap_wf; try (apply write_rd_wf; width; fail).
  - apply (bind_rd_wf (urange 64) _ (λ v, v)); [by apply shr_range|done].
  - apply (bind_rd_wf (urange 64) _ (λ v, v)); [by apply shl_range|done].
Qed.

Lemma arithmetic1_64_wf : sat h_wf (riscv_arithmetic1_64_dispatch x pc i m).
Proof.
  unfold riscv_arithmetic1_64_dispatch. repeat case_match; try apply illegal_wf.
  all: unfold riscv_addiw, riscv_slliw, riscv_srliw, riscv_sraiw; try apply bind_wrap_wf.
  - apply (bind_rd_wf (urange 32) _ (λ v, v)); [apply shr_range; width|].
    intros v. by apply urange_weaken.
  - apply (bind_rd_wf (λ _, True) _ (λ v, u32 v)); [apply sat_true|]. intros. width.
  - apply (bind_rd_wf (urange 32) _ (λ v, v)); [by apply shl_range|].
    intros v. by apply urange_weaken.
Qed.

Lemma load_wf : sat h_wf (riscv_load_dispatch x pc i m).
Proof.
  assert (∀ n sx, urange 8 n → urange 8 sx → sat h_wf (load x n sx pc i m)) as Hl.
  { intros. split; [done|]. destruct Hm. constructor; simpl; try done; [width|].
    by apply field_range. }
  unfold riscv_load_dispatch. repeat case_match; try apply illegal_wf; by apply Hl.
Qed.

Lemma store_wf : sat h_wf (riscv_store_dispatch x pc i m).
Proof.
  assert (∀ n v, urange 8 n → urange 64 v → sat h_wf (store x n v pc i m)) as Hs.
  { intros. split; [done|]. destruct Hm. constructor; simpl; try done. width. }
  unfold riscv_store_dispatch. repeat case_match; try apply illegal_wf; apply Hs; try done.
  - apply (urange_weaken 8); width.
  - width.
  - apply (urange_weaken 16); width.
Qed.

Lemma branch_wf_pc b : sat h_wf (branch b pc i m).
Proof. split; [|done]. case_match; [width|done]. Qed.

Lemma call_wf h : sat h_wf (call h x pc i m).
Proof.
  destruct h; cbn [call]; try done.
  - apply write_rd_wf. width.
  - apply write_rd_wf. width.
  - split; [width|]. destruct Hm. constructor; simpl; try done. by apply field_range.
  - split; [width|]. destruct Hm. constructor; simpl; try done. by apply field_range.
  - apply load_wf.
  - unfold riscv_branch_dispatch. repeat case_match; apply branch_wf_pc || apply illegal_wf.
  - apply store_wf.
  - apply arithmetic1_wf.
  - apply arithmetic1_64_wf.
  - rewrite arithmetic2_dispatch_spec. case_match; [apply rr_wf|done].
  - rewrite arithmetic2_64_dispatch_spec. case_match; [apply rr_wf|done].
Qed.
End handlers.

Lemma dispatch_wf t x pc m : x_wf x → urange 64 pc → m_wf m → sat h_wf (dispatch t x pc m).
Proof. intros. unfold dispatch. case_match; [by apply call_wf|done]. Qed.
