(* ===== verification/Pipeline.v ===== *)
(** * The five stages, [riscv_virtualizer.c] lines 14-43 and 956-1248

    The state is every static variable of the program; a stage is a function
    from the state and the stage register it fills to the new state and that
    register.  A stage register that is being filled keeps, in the fields a
    stage does not write, what the previous cycle left there. *)
From S2P Require Import Prelude Memory Port Registers BranchPredictor Cache.
From S2P Require Import TLB Instruction Execute.

Record sim : Type := mkSim {
  msys : memsys;
  regs : regfile;
  program_counter : Z;
  ptbr : Z;
  cur_d : stage_reg_d;
  cur_x : stage_reg_x;
  cur_m : stage_reg_m;
  cur_w : stage_reg_w;
  btable : branch_table;
  has_initialised : bool;
  dispatch_table : list handler;
  instruction_cache : cache_table;
  data_cache : cache_table;
  itlb : tlb;
  dtlb : tlb;
  output : list event;
}.

Definition set_msys (v : memsys) (s : sim) : sim :=
  mkSim v (regs s) (program_counter s) (ptbr s) (cur_d s) (cur_x s) (cur_m s) (cur_w s)
    (btable s) (has_initialised s) (dispatch_table s) (instruction_cache s)
    (data_cache s) (itlb s) (dtlb s) (output s).
Definition set_regs (v : regfile) (s : sim) : sim :=
  mkSim (msys s) v (program_counter s) (ptbr s) (cur_d s) (cur_x s) (cur_m s) (cur_w s)
    (btable s) (has_initialised s) (dispatch_table s) (instruction_cache s)
    (data_cache s) (itlb s) (dtlb s) (output s).
Definition set_pc (v : Z) (s : sim) : sim :=
  mkSim (msys s) (regs s) v (ptbr s) (cur_d s) (cur_x s) (cur_m s) (cur_w s)
    (btable s) (has_initialised s) (dispatch_table s) (instruction_cache s)
    (data_cache s) (itlb s) (dtlb s) (output s).
Definition set_stage_regs (d : stage_reg_d) (x : stage_reg_x) (m : stage_reg_m)
    (w : stage_reg_w) (s : sim) : sim :=
  mkSim (msys s) (regs s) (program_counter s) (ptbr s) d x m w
    (btable s) (has_initialised s) (dispatch_table s) (instruction_cache s)
    (data_cache s) (itlb s) (dtlb s) (output s).
Definition set_btable (v : branch_table) (s : sim) : sim :=
  mkSim (msys s) (regs s) (program_counter s) (ptbr s) (cur_d s) (cur_x s) (cur_m s) (cur_w s)
    v (has_initialised s) (dispatch_table s) (instruction_cache s)
    (data_cache s) (itlb s) (dtlb s) (output s).
(** The instruction side and the data side of the memory hierarchy: a TLB, a
    cache and memory. *)
Definition set_iside (t : tlb) (c : cache_table) (m : memsys) (s : sim) : sim :=
  mkSim m (regs s) (program_counter s) (ptbr s) (cur_d s) (cur_x s) (cur_m s) (cur_w s)
    (btable s) (has_initialised s) (dispatch_table s) c
    (data_cache s) t (dtlb s) (output s).
Definition set_dside (t : tlb) (c : cache_table) (m : memsys) (s : sim) : sim :=
  mkSim m (regs s) (program_counter s) (ptbr s) (cur_d s) (cur_x s) (cur_m s) (cur_w s)
    (btable s) (has_initialised s) (dispatch_table s) (instruction_cache s)
    c (itlb s) t (output s).
Definition set_ptbr (v : Z) (s : sim) : sim :=
  mkSim (msys s) (regs s) (program_counter s) v (cur_d s) (cur_x s) (cur_m s) (cur_w s)
    (btable s) (has_initialised s) (dispatch_table s) (instruction_cache s)
    (data_cache s) (itlb s) (dtlb s) (output s).
Definition add_output (v : list event) (s : sim) : sim :=
  mkSim (msys s) (regs s) (program_counter s) (ptbr s) (cur_d s) (cur_x s) (cur_m s) (cur_w s)
    (btable s) (has_initialised s) (dispatch_table s) (instruction_cache s)
    (data_cache s) (itlb s) (dtlb s) (output s ++ v).

Definition initialise (s : sim) : sim :=
  if has_initialised s then s
  else mkSim (msys s) (regs s) (program_counter s) (ptbr s)
         (cur_d s) (cur_x s) (cur_m s) (cur_w s) (btable s)
         true major_dispatch_table
         (construct_cache 512 CACHE_INSTRUCTION) (construct_cache 2048 CACHE_DATA)
         (itlb s) (dtlb s) (output s).

(** ** Forwarding *)

(** The result is 2 (stall), 1 with the forwarded value, or 0.  [rd] is an
    [int16_t] compared with a [uint64_t]. *)
Definition forwarded_register_read_single (s : sim) (reg : Z) : Z * option Z :=
  if u64 (rd (cur_x s)) =? reg then (2, None)
  else if (readWrite (cur_m s) =? 3) && (m_reg (cur_m s) =? reg)
  then (1, Some (m_value (cur_m s)))
  else if w_reg (cur_w s) =? reg then (1, Some (w_value (cur_w s)))
  else (0, None).

(** The result is the stall flag and [*value_a], [*value_b]; [va] and [vb]
    are what they held before. *)
Definition forwarded_register_read (s : sim) (register_a register_b va vb : Z)
    : bool * Z * Z :=
  let '(fa, oa) := forwarded_register_read_single s register_a in
  let '(fb, ob) := forwarded_register_read_single s register_b in
  let va := default va oa in
  let vb := default vb ob in
  if (fa =? 2) || (fb =? 2) then (true, va, vb)
  else if nonzero fa && nonzero fb then (false, va, vb)
  else if nonzero fa then (false, va, (register_read register_b register_b (regs s)).2)
  else if nonzero fb then (false, (register_read register_a register_a (regs s)).2, vb)
  else let '(ra, rb) := register_read register_a register_b (regs s) in (false, ra, rb).

(** ** Fetch *)

Definition stage_fetch (s : sim) (new_d : stage_reg_d) : outcome (stage_reg_d * sim) :=
  let s := initialise s in
  let pc := program_counter s in
  let d := cur_d s in
  '(status, out, t, m) ←
    get_address (ptbr s) (itlb s) (u32 pc)
      (if will_be_stalled d =? 2 then d_tlb_stall_status d else 0xFF) (msys s);
  let s := set_iside t (instruction_cache s) m s in
  if negb (status =? 0xFE) && negb (status =? 0xFF) then
    Ok (mkD (d_pc new_d) (d_new_pc new_d) (d_instruction new_d) (d_not_stalled new_d)
          2 status, s)
  else
    let physical_pc := default 0 out in
    '(read_status, bs, c, m) ←
      read_access (instruction_cache s) physical_pc 4
        (will_be_stalled d =? 1) (status =? 0xFE) (msys s);
    let s := set_iside (itlb s) c m s in
    if nonzero read_status then
      Ok (mkD 0 0 0 0 (if read_status =? 2 then 3 else 1) 0xFF, s)
    else
      instr ← patch (Z_to_bytes 4 (d_instruction new_d)) bs;
      let new_pc := predict_address pc (btable s) in
      Ok (mkD pc new_pc (bytes_to_Z instr) 1 0 (d_tlb_stall_status new_d), set_pc new_pc s).

(** ** Decode *)

Definition decoding_type (op : Z) : Z :=
  match op with
  | 0x17 | 0x37 | 0x6F => 1
  | 0x23 | 0x63 => 2
  | 0x33 | 0x3B => 3
  | _ => 0
  end.

(** [rs1], [rs2] and [rd] of an instruction; -1 for a register it has not. *)
Definition operands (i : Z) : Z * Z * Z :=
  match decoding_type (opcode i) with
  | 0 => (rs1_field i, -1, rd_field i)
  | 1 => (-1, -1, rd_field i)
  | 2 => (rs1_field i, rs2_field i, -1)
  | _ => (rs1_field i, rs2_field i, rd_field i)
  end.

(** The bubble that a stall in decode puts into the execute stage. *)
Definition bubble (d : stage_reg_d) : stage_reg_x :=
  mkX (d_pc d) (d_new_pc d) (d_instruction d) 0 (u64 (-1)) (u64 (-1)) (-1) (-1) (-1).

(** A load in the memory stage whose destination the instruction names; the
    [int16_t] numbers are compared with a [uint64_t]. *)
Definition load_hazard (m : stage_reg_m) (r1 r2 r3 : Z) : bool :=
  (readWrite m =? 2) &&
  ((m_reg m =? u64 r1) || (m_reg m =? u64 r2) || (m_reg m =? u64 r3)).

Definition stage_decode (s : sim) (new_x : stage_reg_x) : stage_reg_x * sim :=
  let d := cur_d s in
  if (d_not_stalled d =? 0) || nonzero (global_memory_stall (cur_w s)) then
    (mkX (x_pc new_x) (x_new_pc new_x) (x_instruction new_x) 0 (rs1_value new_x)
       (rs2_value new_x) (rs1 new_x) (rs2 new_x) (rd new_x), s)
  else
    let s := initialise s in
    let i := d_instruction d in
    let '(r1, r2, r3) := operands i in
    if load_hazard (cur_m s) r1 r2 r3 then (bubble d, set_pc (d_pc d) s)
    else
      let '(register_stall, v1, v2) :=
        if (r1 =? -1) && (r2 =? -1) then (false, u64 (-1), u64 (-1))
        else if negb (r1 =? -1) && (r2 =? -1) then
          let '(st, v1, _) := forwarded_register_read s (rs1_field i) 0
                                (rs1_value new_x) (rs2_value new_x) in
          (st, v1, u64 (-1))
        else forwarded_register_read s (rs1_field i) (rs2_field i)
               (rs1_value new_x) (rs2_value new_x) in
      if (register_stall : bool) then (bubble d, set_pc (d_pc d) s)
      else (mkX (d_pc d) (d_new_pc d) i 1 v1 v2 r1 r2 r3, s).

(** ** Execute *)

Definition set_tainted (v : Z) (m : stage_reg_m) : stage_reg_m :=
  mkM (m_address m) (size m) (readWrite m) (signExtend m) (m_reg m) (m_value m)
    v (wasStalled m) (stallStatus m) (m_pc m).

(** Lines 1115-1118: an empty operation at [pc]. *)
Definition start_execute (pc : Z) (m : stage_reg_m) : stage_reg_m :=
  mkM (m_address m) (size m) 0 (signExtend m) (m_reg m) (m_value m) 0 0 (stallStatus m) pc.

(** [tainted_executions] is first decremented and then overwritten by 1 on
    the stall path. *)
Definition stage_execute (s : sim) (new_m : stage_reg_m) : outcome (stage_reg_m * sim) :=
  let x := cur_x s in
  if nonzero (global_memory_stall (cur_w s)) then
    let new_m := memory_register (cur_w s) in
    Ok (set_tainted 1 new_m, set_pc (m_pc new_m) s)
  else
    let new_m := start_execute (x_pc x) new_m in
    if x_not_stalled x =? 0 then Ok (new_m, s)
    else if 0 <? m_tainted_executions (cur_m s) then
      Ok (set_tainted (u8 (m_tainted_executions (cur_m s) - 1)) new_m, s)
    else
      let s := initialise s in
      if x_instruction x =? 0 then Ok (new_m, s)
      else
        let next := u64 (x_pc x + 4) in
        '(pc, new_m, out) ← dispatch (dispatch_table s) x next new_m;
        let s := add_output out s in
        let '(new_m, s) :=
          if negb (pc =? x_new_pc x) then (set_tainted 1 new_m, set_pc pc s)
          else (new_m, s) in
        let s := if negb (pc =? next)
                 then set_btable (update_entry (x_pc x) pc (pc =? next) (btable s)) s
                 else s in
        Ok (new_m, s).

(** ** Memory *)

(** A register [w] that does nothing: [value], [reg] and [op] are 0. *)
Definition idle_w (stall tlb_status tainted : Z) (mr : stage_reg_m) : stage_reg_w :=
  mkW 0 0 0 stall tlb_status tainted mr.

(** Lines 1168-1176 and 1209-1217: stall for the TLB. *)
Definition tlb_stall (stall status : Z) (m : stage_reg_m) : stage_reg_w :=
  idle_w stall status 1
    (mkM (m_address m) (size m) (readWrite m) (signExtend m) (m_reg m) (m_value m)
       (m_tainted_executions m) 1 status (m_pc m)).

(** Lines 1182-1189 and 1223-1231: stall for the cache. *)
Definition cache_stall (stall tlb_status missed tainted : Z) (m : stage_reg_m) : stage_reg_w :=
  idle_w stall tlb_status tainted
    (mkM (m_address m) (size m) (readWrite m) (signExtend m) (m_reg m) (m_value m)
       (m_tainted_executions m) (if missed =? 2 then 2 else 1) 0xFF (m_pc m)).

(** The loop of lines 1193-1195. *)
Fixpoint fill_ff (n : nat) (i v : Z) : Z :=
  match n with
  | O => v
  | S n => fill_ff n (i + 1) (Z.lor v (u64 (Z.shiftl 0xFF (8 * i))))
  end.

(** Lines 1192-1196: [0b1 << (size * 8 - 1)] is an [int], converted to
    [uint64_t] by the [&]; a shift count above 31 is undefined. *)
Definition sign_extend (m : stage_reg_m) (v : Z) : outcome Z :=
  if signExtend m =? 0 then Ok v
  else if shift_ok 32 (size m * 8 - 1) then
    let mask := u64 (i32 (Z.shiftl 1 (size m * 8 - 1))) in
    Ok (if nonzero (Z.land v mask) then fill_ff (Z.to_nat (8 - size m)) (size m) v else v)
  else Undef.

Definition stage_memory (s : sim) (new_w : stage_reg_w) : outcome (stage_reg_w * sim) :=
  let s := initialise s in
  let m := cur_m s in
  let mr := memory_register new_w in
  let ts := w_tlb_stall_status new_w in
  if 0 <? w_tainted_executions (cur_w s) then
    Ok (idle_w 0 ts (u8 (w_tainted_executions (cur_w s) - 1)) mr, s)
  else if readWrite m =? 3 then Ok (mkW (m_reg m) (m_value m) 1 0 ts 0 mr, s)
  else if (readWrite m =? 2) || (readWrite m =? 1) then
    '(status, out, t, ms) ←
      get_address (ptbr s) (dtlb s) (u32 (m_address m))
        (if nonzero (wasStalled m) then stallStatus m else 0xFF) (msys s);
    let s := set_dside t (data_cache s) ms s in
    if negb (status =? 0xFE) && negb (status =? 0xFF) then
      Ok (tlb_stall (if readWrite m =? 2 then 2 else 3) status m, s)
    else
      let physical_address := default 0 out in
      if readWrite m =? 2 then
        '(missed, bs, c, ms) ←
          read_access (data_cache s) physical_address (size m)
            (wasStalled m =? 1) (status =? 0xFE) (msys s);
        let s := set_dside (dtlb s) c ms s in
        if nonzero missed then
          Ok (cache_stall (if missed =? 2 then 4 else 1) ts missed 1 m, s)
        else
          v ← patch_u64 (w_value new_w) bs;
          v ← sign_extend m v;
          Ok (mkW (m_reg m) v 1 0 ts 0 mr, s)
      else
        '(missed, c, ms) ←
          write_access (data_cache s) physical_address (m_value m) (size m)
            (wasStalled m =? 1) (status =? 0xFE) (msys s);
        let s := set_dside (dtlb s) c ms s in
        if nonzero missed then
          Ok (cache_stall (if missed =? 2 then 5 else 1) ts missed 0 m, s)
        else Ok (idle_w 0 ts 0 mr, s)
  else Ok (idle_w 0 ts 0 mr, s).

(** ** Write-back *)

Definition stage_writeback (s : sim) : sim :=
  let w := cur_w s in
  if w_op w =? 0 then s
  else
    let s := initialise s in
    set_regs (register_write (w_reg w) (w_value w) (regs s)) s.
