(* ===== verification/DecodeSpec.v ===== *)
(** * What the decode stage promises

    The forwarding network and the stall logic of [stage_decode], against a
    declarative account: which registers an instruction reads, when it has to
    wait, and which value of a register it must see. *)
From S2P Require Import Prelude Registers BranchPredictor Cache TLB Instruction.
From S2P Require Import Execute Pipeline.

(** The registers that the decode stage looks up for an instruction; with an
    immediate, register 0 is looked up in place of the second. *)
Definition sources (i : Z) : list Z :=
  match decoding_type (opcode i) with
  | 0 => [rs1_field i; 0]
  | 1 => []
  | _ => [rs1_field i; rs2_field i]
  end.

(** The instruction has to wait: for a load in the memory stage that targets
    one of its registers, or for the instruction in the execute stage. *)
Definition hazard (s : sim) (i : Z) : bool :=
  let '(r1, r2, r3) := operands i in
  load_hazard (cur_m s) r1 r2 r3 || existsb (λ r, u64 (rd (cur_x s)) =? r) (sources i).

(** The value of register [r] once the memory stage's instruction is done. *)
Definition latest (s : sim) (r : Z) : Z :=
  if (readWrite (cur_m s) =? 3) && (m_reg (cur_m s) =? r) then m_value (cur_m s)
  else register_read_one r (regs s).

(** What the instruction issued from [d] carries to the execute stage. *)
Definition issued (s : sim) (d : stage_reg_d) : stage_reg_x :=
  let '(r1, r2, r3) := operands (d_instruction d) in
  let operand r := if r =? -1 then u64 (-1) else latest s r in
  mkX (d_pc d) (d_new_pc d) (d_instruction d) 1 (operand r1) (operand r2) r1 r2 r3.

(** The write-back stage's result is in the register file. *)
Definition retired (s : sim) : Prop :=
  register_read_one (w_reg (cur_w s)) (regs s) = w_value (cur_w s).

(** ** Write-back *)

Lemma initialise_frame s :
  cur_d (initialise s) = cur_d s ∧ cur_x (initialise s) = cur_x s ∧
  cur_m (initialise s) = cur_m s ∧ cur_w (initialise s) = cur_w s ∧
  regs (initialise s) = regs s ∧ program_counter (initialise s) = program_counter s ∧
  msys (initialise s) = msys s ∧ btable (initialise s) = btable s ∧
  ptbr (initialise s) = ptbr s ∧ itlb (initialise s) = itlb s ∧
  dtlb (initialise s) = dtlb s ∧ output (initialise s) = output s.
Proof. unfold initialise. case_match; done. Qed.

(** ** Forwarding *)

Section forward.
Context (s : sim) (Hregs : regs_wf (regs s)) (Hret : retired s).

Lemma forward_single r :
  forwarded_register_read_single s r
  = if u64 (rd (cur_x s)) =? r then (2, None)
    else if (readWrite (cur_m s) =? 3) && (m_reg (cur_m s) =? r)
            || (w_reg (cur_w s) =? r)
    then (1, Some (latest s r)) else (0, None).
Proof.
  unfold forwarded_register_read_single, latest.
  destruct (_ =? _); [done|]. destruct (_ && _); [done|]. simpl.
  destruct (Z.eqb_spec (w_reg (cur_w s)) r) as [<-|]; [|done]. by rewrite Hret.
Qed.

(** Without a hit in a later stage the register file has the value. *)
Lemma latest_file r :
  (readWrite (cur_m s) =? 3) && (m_reg (cur_m s) =? r) || (w_reg (cur_w s) =? r) = false →
  register_read_one r (regs s) = latest s r.
Proof.
  intros H. apply orb_false_iff in H as [H _]. unfold latest. by rewrite H.
Qed.

Lemma forward_stalls ra rb va vb :
  (u64 (rd (cur_x s)) =? ra) || (u64 (rd (cur_x s)) =? rb) = true →
  (forwarded_register_read s ra rb va vb).1.1 = true.
Proof.
  intros H. unfold forwarded_register_read. rewrite !forward_single.
  apply orb_true_iff in H as [->| ->]; simpl; repeat case_match; simplify_eq; try done;
    by rewrite ?orb_true_r in *.
Qed.

Lemma forward_values ra rb va vb :
  (u64 (rd (cur_x s)) =? ra) || (u64 (rd (cur_x s)) =? rb) = false →
  forwarded_register_read s ra rb va vb = (false, latest s ra, latest s rb).
Proof.
  intros [H1 H2]%orb_false_iff. unfold forwarded_register_read.
  rewrite !forward_single, H1, H2, !register_read_wf by done.
  destruct (_ || (w_reg (cur_w s) =? ra)) eqn:Ea, (_ || (w_reg (cur_w s) =? rb)) eqn:Eb;
    simpl; rewrite ?latest_file by done; done.
Qed.
End forward.

Lemma field_not_minus i : (rs1_field i =? -1) = false ∧ (rs2_field i =? -1) = false.
Proof.
  split; apply Z.eqb_neq.
  - pose proof (bits_range i 15 5 ltac:(lia)) as [? ?]. unfold rs1_field. lia.
  - pose proof (bits_range i 20 5 ltac:(lia)) as [? ?]. unfold rs2_field. lia.
Qed.

Lemma decoding_type_cases op :
  decoding_type op = 0 ∨ decoding_type op = 1 ∨ decoding_type op = 2 ∨ decoding_type op = 3.
Proof. unfold decoding_type. repeat case_match; auto. Qed.

Lemma decode_stalled s new_x :
  d_not_stalled (cur_d s) = 0 ∨ global_memory_stall (cur_w s) ≠ 0 →
  ∃ x, stage_decode s new_x = (x, s) ∧ x_not_stalled x = 0.
Proof.
  intros H. unfold stage_decode.
  replace (_ || _) with true; [eexists; split; done|].
  symmetry. apply orb_true_iff. rewrite Z.eqb_eq, nonzero_true. done.
Qed.

(** The instruction waits for the execute stage, or its operands are read. *)
Ltac decode_case s0 Hregs Hret :=
  match goal with |- context [forwarded_register_read s0 ?a ?b ?va ?vb] =>
    destruct ((u64 (rd (cur_x s0)) =? a) || (u64 (rd (cur_x s0)) =? b)) eqn:E;
    [pose proof (forward_stalls s0 Hret a b va vb E) as E1;
     destruct (forwarded_register_read s0 a b va vb) as [[[] ?] ?]; [done|discriminate E1]
    |by rewrite (forward_values s0 Hregs Hret a b va vb E)]
  end.

(** The whole stage, once the write-back is in the register file. *)
Lemma decode_exact s new_x :
  regs_wf (regs s) → retired s →
  d_not_stalled (cur_d s) ≠ 0 → global_memory_stall (cur_w s) = 0 →
  stage_decode s new_x
  = if hazard s (d_instruction (cur_d s))
    then (bubble (cur_d s), set_pc (d_pc (cur_d s)) (initialise s))
    else (issued s (cur_d s), initialise s).
Proof.
  intros Hregs Hret Hd Hw. unfold stage_decode.
  rewrite (proj2 (Z.eqb_neq _ _) Hd), Hw. simpl.
  destruct (initialise_frame s) as (Ed & Ex & Em & Ew & Er & _).
  set (s0 := initialise s) in *.
  assert (regs_wf (regs s0)) as Hregs0 by by rewrite Er.
  assert (retired s0) as Hret0 by (unfold retired in *; by rewrite Er, Ew).
  assert (hazard s = hazard s0) as -> by (unfold hazard; by rewrite Em, Ex).
  assert (∀ r, latest s r = latest s0 r) as Hl by (intros; unfold latest; by rewrite Em, Er).
  clearbody s0. set (i := d_instruction (cur_d s)).
  unfold hazard, issued, operands, sources. fold i.
  destruct (decoding_type_cases (opcode i)) as [-> | [-> | [-> | ->]]];
    rewrite ?(proj1 (field_not_minus i)), ?(proj2 (field_not_minus i)), ?Hl;
    cbn [existsb Z.eqb Pos.eqb andb orb negb]; rewrite ?orb_false_r;
    (destruct (load_hazard _ _ _ _); [done|]); cbn [orb]; [|done|..].
  all: decode_case s0 Hregs0 Hret0.
Qed.

Lemma stage_writeback_regs s : regs_wf (regs s) →
  (w_op (cur_w s) ≠ 0 → urange 64 (w_value (cur_w s))) → regs_wf (regs (stage_writeback s)).
Proof.
  intros Hregs Hv. unfold stage_writeback. destruct (Z.eqb_spec (w_op (cur_w s)) 0); [done|].
  destruct (initialise_frame s) as (_ & _ & _ & Ew & Er & _). simpl. rewrite Er.
  apply register_write_wf; auto.
Qed.

(** The write-back stage retires what it holds: a result for a register other
    than 0, or no operation. *)
Lemma writeback_retires s :
  regs_wf (regs s) → 0 ≤ w_reg (cur_w s) < 32 →
  (w_op (cur_w s) ≠ 0 ∧ w_reg (cur_w s) ≠ 0 ∨ w_reg (cur_w s) = 0 ∧ w_value (cur_w s) = 0) →
  retired (stage_writeback s) ∧ cur_w (stage_writeback s) = cur_w s.
Proof.
  intros Hregs Hr Hcase. unfold stage_writeback, retired.
  destruct (Z.eqb_spec (w_op (cur_w s)) 0) as [Hop|Hop].
  - destruct Hcase as [[? _]|[-> ->]]; [done|]. done.
  - destruct (initialise_frame s) as (_ & _ & _ & Ew & Er & _). simpl. rewrite Ew, Er.
    split; [|done]. rewrite register_read_one_write by (done || lia).
    rewrite Z.eqb_refl, Z.mod_small by lia. simpl. unfold nonzero.
    destruct Hcase as [[_ H0]|[-> ->]]; [by rewrite (proj2 (Z.eqb_neq _ _) H0)|done].
Qed.

(** The write-back stage holds a result for a register other than 0, or it is
    idle (its fields are 0): all that the memory stage produces, except a
    non-zero result for register 0. *)
Definition w_proper (w : stage_reg_w) : Prop :=
  0 ≤ w_reg w < 32 ∧
  (w_op w ≠ 0 ∧ w_reg w ≠ 0 ∨ w_reg w = 0 ∧ w_value w = 0).

#[export] Instance w_proper_dec w : Decision (w_proper w).
Proof. unfold w_proper. apply _. Defined.

(** ** The contract of the stage

    Stated on the formats of the instruction set, apart from the code's own
    classification and tests. *)

(** The registers an instruction reads and the one it writes: [AUIPC], [LUI]
    and [JAL] read none; stores and branches read two and write none;
    register-register operations read two; all others are taken to be of the
    immediate format. *)
Definition reads (i : Z) : list Z :=
  if decide (opcode i ∈ [0x17; 0x37; 0x6F]) then []
  else if decide (opcode i ∈ [0x23; 0x63; 0x33; 0x3B]) then [rs1_field i; rs2_field i]
  else [rs1_field i].

Definition writes (i : Z) : option Z :=
  if decide (opcode i ∈ [0x23; 0x63]) then None else Some (rd_field i).

(** The instruction cannot be issued: a load that is in the memory stage has
    not delivered a register that the instruction reads or writes, or the
    instruction in the execute stage is to write a register that it reads.
    An instruction of the immediate format also waits for a write to register
    0 there. *)
Definition must_wait (s : sim) (i : Z) : Prop :=
  (readWrite (cur_m s) = 2 ∧
   (m_reg (cur_m s) ∈ reads i ∨ writes i = Some (m_reg (cur_m s)))) ∨
  rd (cur_x s) ∈ reads i ∨
  (length (reads i) = 1%nat ∧ rd (cur_x s) = 0).

#[export] Instance must_wait_dec s i : Decision (must_wait s i).
Proof. unfold must_wait. apply _. Defined.

(** The code's four formats. *)
Lemma formats i :
  (decoding_type (opcode i) = 0 ∧ reads i = [rs1_field i] ∧ writes i = Some (rd_field i)) ∨
  (decoding_type (opcode i) = 1 ∧ reads i = [] ∧ writes i = Some (rd_field i)) ∨
  (decoding_type (opcode i) = 2 ∧ reads i = [rs1_field i; rs2_field i] ∧ writes i = None) ∨
  (decoding_type (opcode i) = 3 ∧ reads i = [rs1_field i; rs2_field i] ∧
   writes i = Some (rd_field i)).
Proof.
  unfold reads, writes. generalize (opcode i). intros op.
  destruct (decide (op ∈ [0x17; 0x37; 0x6F; 0x23; 0x63; 0x33; 0x3B])) as [H|H].
  { repeat (apply elem_of_cons in H as [->|H]; [vm_compute; tauto|]).
    by apply not_elem_of_nil in H. }
  left. rewrite !decide_False by (set_solver). split; [|done].
  unfold decoding_type. repeat case_match; try done; destruct H; apply (bool_decide_unpack _); done.
Qed.

Lemma fields_range i : 0 ≤ rs1_field i < 32 ∧ 0 ≤ rs2_field i < 32 ∧ 0 ≤ rd_field i < 32.
Proof. split_and!; apply (bits_range i _ 5); lia. Qed.

(** Comparisons of an [int16_t] with a register number. *)
Lemma wrap_reg r k : srange 16 r → 0 ≤ k < 32 → (u64 r =? k) = bool_decide (r = k).
Proof.
  intros [? ?] Hk. destruct (Z.lt_ge_cases r 0).
  - rewrite bool_decide_eq_false_2 by lia. apply Z.eqb_neq. unfold wrap.
    rewrite <-(Z_mod_plus_full _ 1), Z.mod_small; lia.
  - rewrite wrap_small by (unfold urange; lia). destruct (Z.eqb_spec r k);
      [by rewrite bool_decide_eq_true_2|by rewrite bool_decide_eq_false_2].
Qed.

(** The tests of the code decide the contract's condition. *)
Lemma hazard_spec s i : srange 16 (rd (cur_x s)) → 0 ≤ m_reg (cur_m s) < 32 →
  hazard s i = bool_decide (must_wait s i).
Proof.
  intros Hx Hm. destruct (fields_range i) as (H1 & H2 & H3).
  assert (u64 (-1) ≠ m_reg (cur_m s)) as Hn by (vm_compute (u64 (-1)); lia).
  apply eq_true_iff_eq. rewrite bool_decide_eq_true.
  unfold hazard, must_wait, operands, sources, load_hazard.
  destruct (formats i) as [(-> & -> & ->)|[(-> & -> & ->)|[(-> & -> & ->)|(-> & -> & ->)]]];
    cbn [existsb length]; rewrite ?wrap_reg by (done || lia);
    rewrite ?orb_true_iff, ?andb_true_iff, ?orb_true_iff, ?bool_decide_eq_true, ?Z.eqb_eq,
      ?(wrap_small 64 (rs1_field i)), ?(wrap_small 64 (rs2_field i)), ?(wrap_small 64 (rd_field i))
      by (unfold urange; lia);
    rewrite ?elem_of_cons, ?elem_of_nil, ?(inj_iff Some);
    revert Hn; generalize (u64 (-1)); intros n Hn; intuition (congruence || lia).
Qed.

(** What is issued, on the formats of the instruction set. *)
Lemma issued_spec s d : let i := d_instruction d in let x := issued s d in
  x_pc x = d_pc d ∧ x_new_pc x = d_new_pc d ∧ x_instruction x = i ∧ x_not_stalled x = 1 ∧
  rd x = default (-1) (writes i) ∧
  (∀ r, reads i !! 0%nat = Some r → rs1 x = r ∧ rs1_value x = latest s r) ∧
  (∀ r, reads i !! 1%nat = Some r → rs2 x = r ∧ rs2_value x = latest s r).
Proof.
  cbv zeta. destruct (field_not_minus (d_instruction d)) as [E1 E2]. unfold issued, operands.
  destruct (formats (d_instruction d))
    as [(-> & -> & ->)|[(-> & -> & ->)|[(-> & -> & ->)|(-> & -> & ->)]]];
    rewrite ?E1, ?E2; cbn; split_and!; try reflexivity;
    intros r E; try discriminate E; injection E as <-; split; reflexivity.
Qed.


(** C36: register 0 is not protected on the forwarding path: an instruction
    that reads it right behind a register write to it gets the written value,
    where the register file gives 0. *)
Theorem x0_forwarded s new_x :
  regs_wf (regs s) → retired s →
  d_not_stalled (cur_d s) ≠ 0 → global_memory_stall (cur_w s) = 0 →
  readWrite (cur_m s) = 3 → m_reg (cur_m s) = 0 → u64 (rd (cur_x s)) ≠ 0 →
  decoding_type (opcode (d_instruction (cur_d s))) = 0 →
  rs1_field (d_instruction (cur_d s)) = 0 →
  rs1_value (stage_decode s new_x).1 = m_value (cur_m s) ∧
  register_read_one 0 (regs s) = 0.
Proof.
  intros Hregs Hret Hd Hw Hrw Hreg Hrd Hty Hrs1. split; [|done].
  rewrite decode_exact by done.
  assert (hazard s (d_instruction (cur_d s)) = false) as ->.
  { unfold hazard, operands, sources. rewrite Hty, Hrs1. unfold load_hazard. rewrite Hrw.
    cbn [existsb]. rewrite (proj2 (Z.eqb_neq _ _) Hrd). done. }
  unfold issued, operands. rewrite Hty, Hrs1. simpl. unfold latest. by rewrite Hrw, Hreg.
Qed.
