(* ===== verification/ExecuteSpec.v ===== *)
(** * What the execute stage promises

    The stage around the handlers: the effect of an instruction, redirection
    of the fetch stage, marking of the instruction behind a misprediction. *)
From S2P Require Import Prelude Memory Port Registers BranchPredictor Cache.
From S2P Require Import TLB Instruction Execute ISA ISARefinement Pipeline.
From S2P Require Import DecodeSpec.

(** The dispatch table is filled, or will be by the next [initialise]. *)
Definition table_ok (s : sim) : Prop :=
  has_initialised s = true → dispatch_table s = major_dispatch_table.

Lemma initialise_table s : table_ok s → dispatch_table (initialise s) = major_dispatch_table.
Proof. unfold table_ok, initialise. destruct (has_initialised s); [by intros ->|done]. Qed.

(** The execute stage has an instruction to run. *)
Record runs (s : sim) : Prop := {
  runs_stall : global_memory_stall (cur_w s) = 0;
  runs_valid : x_not_stalled (cur_x s) ≠ 0;
  runs_clean : m_tainted_executions (cur_m s) = 0;
  runs_word : x_instruction (cur_x s) ≠ 0;
}.

Section execute_stage.
Context (s : sim) (Hs : runs s) (Htable : table_ok s).
Abbreviation x := (cur_x s).
Abbreviation next := (u64 (x_pc x + 4)).

(** The stage when the handler has returned. *)
Lemma stage_execute_handler new_m pc m' out :
  dispatch major_dispatch_table x next (start_execute (x_pc x) new_m) = Ok (pc, m', out) →
  stage_execute s new_m
  = Ok (if pc =? x_new_pc x then m' else set_tainted 1 m',
        let s1 := add_output out (initialise s) in
        let s1 := if pc =? x_new_pc x then s1 else set_pc pc s1 in
        if pc =? next then s1
        else set_btable (update_entry (x_pc x) pc false (btable s1)) s1).
Proof.
  intros Hh. destruct Hs as [Hst Hv Hc Hi]. unfold stage_execute.
  rewrite Hst, Hc, (proj2 (Z.eqb_neq _ _) Hv), (proj2 (Z.eqb_neq _ _) Hi). cbn [nonzero Z.eqb negb].
  rewrite initialise_table by done. change (0 <? 0) with false. cbv iota beta zeta.
  rewrite Hh. cbn [obind].
  destruct (pc =? x_new_pc x), (pc =? next) eqn:E; cbn [negb]; done.
Qed.
End execute_stage.


(** C35: a stall in decode cancels a jump.  When the instruction behind a
    jump-and-link (on the wrong path) reads the link register, decode waits
    for the jump in the execute stage and sets the program counter back to
    that instruction, after the execute stage has set it to the target: the
    pipeline goes on along the wrong path. *)
Theorem decode_stall_cancels_jump s new_m new_x :
  runs s → table_ok s → regs_wf (regs s) → retired s →
  opcode (x_instruction (cur_x s)) = 0x6F →
  rd (cur_x s) = rd_field (x_instruction (cur_x s)) →
  d_not_stalled (cur_d s) ≠ 0 →
  rd (cur_x s) ∈ sources (d_instruction (cur_d s)) →
  u64 (x_pc (cur_x s) + imm_J (x_instruction (cur_x s))) ≠ x_new_pc (cur_x s) →
  ∃ m' s1, stage_execute s new_m = Ok (m', s1) ∧
    program_counter s1 = u64 (x_pc (cur_x s) + imm_J (x_instruction (cur_x s))) ∧
    program_counter (stage_decode s1 new_x).2 = d_pc (cur_d s).
Proof.
  intros Hs Ht Hregs Hret Hop Hrd Hd Hsrc Hne.
  destruct (jal_realises (cur_x s) (start_execute (x_pc (cur_x s)) new_m))
    as (m' & Hj & _).
  erewrite (stage_execute_handler s Hs Ht new_m).
  2: { erewrite dispatch_opcode by (rewrite Hop; reflexivity). exact Hj. }
  eexists _, _. split; [done|].
  rewrite (proj2 (Z.eqb_neq _ _) Hne). cbv zeta.
  set (s1 := if (_ =? _) then _ else _).
  destruct (initialise_frame s) as (Ed & Ex & Em & Ew & Er & _).
  assert (cur_d s1 = cur_d s ∧ cur_x s1 = cur_x s ∧ cur_w s1 = cur_w s ∧ regs s1 = regs s ∧
          program_counter s1 = u64 (x_pc (cur_x s) + imm_J (x_instruction (cur_x s))))
    as (Ed1 & Ex1 & Ew1 & Er1 & Ep1).
  { unfold s1. case_match; simpl; done. }
  split; [done|]. clearbody s1.
  rewrite decode_exact; rewrite ?Er1, ?Ed1, ?Ew1; try done.
  - assert (hazard s1 (d_instruction (cur_d s)) = true) as ->; [|done].
    unfold hazard. destruct (operands _) as [[? ?] ?]. apply orb_true_iff. right.
    apply existsb_exists. exists (rd (cur_x s)). split; [by apply list_elem_of_In|].
    rewrite Ex1, Hrd, wrap_small by (pose proof (bits_range (x_instruction (cur_x s)) 7 5) as Hb;
      unfold urange, rd_field in *; lia). apply Z.eqb_refl.
  - unfold retired in *. by rewrite Ew1, Er1.
  - apply Hs.
Qed.
