(* ===== verification/MemoryStageSpec.v ===== *)
(** * What the memory stage promises

    Register results pass through; a stalled access is kept and replayed;
    what becomes of the instruction behind it; the value of a load; stores and
    loads that hit. *)
From S2P Require Import Prelude Memory Port Registers BranchPredictor Cache.
From S2P Require Import CacheSpec CacheWrite TLB TLBSpec Instruction Execute.
From S2P Require Import ISA ISARefinement Pipeline DecodeSpec.

(** ** Stalls *)

(** Every stall of the stage keeps the access in [memory_register]; all but
    the stall of a store for the cache squash the next use of the stage. *)
Lemma stage_memory_stall s new_w :
  sat (λ '(w, s'),
      global_memory_stall w ≠ 0 →
      effect_of (memory_register w) = effect_of (cur_m s) ∧
      m_pc (memory_register w) = m_pc (cur_m s) ∧
      wasStalled (memory_register w) ≠ 0 ∧ w_op w = 0 ∧
      w_tainted_executions w
      = if (readWrite (cur_m s) =? 1) && negb (global_memory_stall w =? 3) then 0 else 1)
    (stage_memory s new_w).
Proof.
  unfold stage_memory. destruct (initialise_frame s) as (_ & _ & Em & Ew & _).
  set (s0 := initialise s) in *. rewrite Em, Ew. clearbody s0.
  destruct (0 <? _); [done|]. destruct (readWrite (cur_m s) =? 3); [done|].
  destruct (readWrite (cur_m s) =? 2) eqn:E2; [|destruct (readWrite (cur_m s) =? 1) eqn:E1; [|done]];
    cbn [orb]; (eapply sat_bind; [apply sat_true|]); intros [[[status out] t] ms] _;
    cbv zeta; (destruct (negb (status =? 254) && negb (status =? 255)); [intros _; simpl|]).
  - apply Z.eqb_eq in E2. split_and!; try done. simpl. by rewrite E2.
  - apply Z.eqb_eq in E2. rewrite E2.
    eapply sat_bind; [apply sat_true|]. intros [[[missed bs] c] ms'] _.
    destruct (nonzero missed); [intros _; split_and!; try done; simpl; by case_match|].
    eapply sat_bind; [apply sat_true|]. intros v _.
    eapply sat_bind; [apply sat_true|]. done.
  - done.
  - eapply sat_bind; [apply sat_true|]. intros [[missed c] ms'] _.
    destruct (nonzero missed); [|done]. intros _. destruct (missed =? 2) eqn:Em2; simpl; rewrite ?Em2; done.
Qed.

(** C10: a stalled access is not lost.  When the memory stage stalls, it
    writes no register and keeps the access; in the next cycle the execute
    stage, whatever instruction it holds, hands that same access back to the
    memory stage, marked as stalled, and has the pipeline refetch from the
    instruction of the access. *)
Theorem stalled_access_replayed s new_w w s' s1 new_m :
  stage_memory s new_w = Ok (w, s') → global_memory_stall w ≠ 0 → cur_w s1 = w →
  w_op w = 0 ∧
  ∃ m1 s2, stage_execute s1 new_m = Ok (m1, s2) ∧
    effect_of m1 = effect_of (cur_m s) ∧ wasStalled m1 ≠ 0 ∧
    m_pc m1 = m_pc (cur_m s) ∧ program_counter s2 = m_pc (cur_m s).
Proof.
  intros Hm Hst Hw. pose proof (sat_Ok _ _ _ (stage_memory_stall s new_w) Hm Hst)
    as (He & Hpc & Hws & Hop & _). subst w.
  split; [done|]. unfold stage_execute. rewrite (proj2 (nonzero_true _) Hst).
  eexists _, _. split; [done|]. simpl. split_and!; try done.
Qed.

(** C38: what a stall does to the register write behind it.  The execute
    stage has computed the following instruction in the cycle of the stall,
    and in the next cycle the pipeline is sent back to the instruction of the
    access, so that the following one is fetched and executed again.  A load
    that stalls, and a store that waits for the TLB, discard the result that
    was computed; a store that waits for the cache does not: the result is
    written now, and a second time after the replay, from the register it has
    just changed. *)
Theorem store_stall_repeats_next s new_w w s' s1 new_w1 new_m :
  stage_memory s new_w = Ok (w, s') → global_memory_stall w ≠ 0 →
  cur_w s1 = w → readWrite (cur_m s1) = 3 →
  (∃ m1 s2, stage_execute s1 new_m = Ok (m1, s2) ∧ program_counter s2 = m_pc (cur_m s)) ∧
  ∃ w1 s1', stage_memory s1 new_w1 = Ok (w1, s1') ∧
    if (readWrite (cur_m s) =? 1) && negb (global_memory_stall w =? 3)
    then w_op w1 = 1 ∧ w_reg w1 = m_reg (cur_m s1) ∧ w_value w1 = m_value (cur_m s1)
    else w_op w1 = 0.
Proof.
  intros Hm Hst Hw Hnext. pose proof (sat_Ok _ _ _ (stage_memory_stall s new_w) Hm Hst)
    as (_ & Hpc & _ & _ & Ht). subst w. split.
  - unfold stage_execute. rewrite (proj2 (nonzero_true _) Hst). by eexists _, _.
  - unfold stage_memory. destruct (initialise_frame s1) as (_ & _ & -> & -> & _). rewrite Ht, Hnext.
    case_match; by eexists _, _.
Qed.

(** ** The value of a load *)

(** The register that receives the bytes keeps its old upper bytes; they are
    replaced when the load extends a set sign bit, for a word also when one of
    them is not zero. *)
Definition load_result (old n : Z) (sx : bool) (bs : list Z) : Z :=
  let v := bytes_to_Z bs in
  let hi := old / 2 ^ (8 * n) in
  if sx && ((2 ^ (8 * n - 1) <=? v) || ((n =? 4) && nonzero hi))
  then v + (2 ^ 64 - 2 ^ (8 * n)) else v + hi * 2 ^ (8 * n).

(** The value that the instruction set gives. *)
Definition load_value (n : Z) (sx : bool) (bs : list Z) : Z :=
  u64 (if sx then swrap (8 * n) (bytes_to_Z bs) else bytes_to_Z bs).

Lemma fill_ff_lor n i v : fill_ff n i v = Z.lor v (fill_ff n i 0).
Proof.
  revert i v. induction n as [|n IH]; intros i v; cbn [fill_ff]; [by rewrite Z.lor_0_r|].
  rewrite IH, (IH _ (Z.lor 0 _)), Z.lor_0_l, Z.lor_assoc. done.
Qed.

Lemma lor_ones_high lo hi k j : 0 ≤ k → 0 < j → urange k lo → urange j hi →
  Z.lor (lo + hi * 2 ^ k) (Z.shiftl (Z.ones j) k) = lo + (2 ^ j - 1) * 2 ^ k.
Proof.
  intros Hk Hj Hlo [? Hhi]. rewrite <-(lor_shiftl lo hi k), <-Z.lor_assoc, <-Z.shiftl_lor by done.
  rewrite Z.lor_ones_low; [|done|].
  - rewrite lor_shiftl, Z.ones_equiv by done. lia.
  - destruct (Z.eq_dec hi 0) as [->|]; [simpl; lia|apply Z.log2_lt_pow2; lia].
Qed.

Lemma patch_u64_value old bs : urange 64 old → bytes_ok bs → (length bs ≤ 8)%nat →
  patch_u64 old bs
  = Ok (bytes_to_Z bs + old / 2 ^ (8 * Z.of_nat (length bs)) * 2 ^ (8 * Z.of_nat (length bs))).
Proof.
  intros Hold Hbs Hl. unfold patch_u64, patch. rewrite length_Z_to_bytes.
  rewrite decide_True by done. cbn [obind]. f_equal. rewrite bytes_to_Z_app.
  set (k := 8 * Z.of_nat (length bs)). f_equal. rewrite Z.mul_comm. f_equal.
  pose proof (bytes_to_Z_to_bytes 8 old) as E. rewrite Z.mod_small in E by done.
  rewrite <-(take_drop (length bs) (Z_to_bytes 8 old)), bytes_to_Z_app in E.
  rewrite length_take, length_Z_to_bytes, Nat.min_l in E by done. fold k in E.
  pose proof (bytes_to_Z_range (take (length bs) (Z_to_bytes 8 old))) as Hr.
  rewrite length_take, length_Z_to_bytes, Nat.min_l in Hr by done. fold k in Hr.
  destruct Hr as [? ?]; [apply Forall_take, Z_to_bytes_ok|].
  revert E H H0. generalize (Z_to_bytes 8 old). intros l E ? ?.
  rewrite <-E. rewrite (Z.mul_comm (2 ^ k)), Z.div_add by (pose proof (pow2_pos k); lia).
  rewrite Z.div_small by done. done.
Qed.

Lemma testbit_low lo hi k i : 0 ≤ i < k → urange k lo →
  Z.testbit (lo + hi * 2 ^ k) i = Z.testbit lo i.
Proof.
  intros Hi Hlo. rewrite <-lor_shiftl by (done || lia).
  rewrite Z.lor_spec, Z.shiftl_spec, (Z.testbit_neg_r hi) by lia. apply orb_false_r.
Qed.

(** [1 << 31] as an [int] is negative: the mask of a word has 33 bits. *)
Lemma word_mask y : urange 64 y →
  nonzero (Z.land y 0xFFFFFFFF80000000) = (2 ^ 31 <=? y).
Proof.
  intros [? ?]. change 0xFFFFFFFF80000000 with (Z.shiftl (Z.ones 33) 31).
  assert (Z.land y (Z.shiftl (Z.ones 33) 31) = y / 2 ^ 31 * 2 ^ 31) as ->.
  { rewrite <-Z.shiftl_mul_pow2, <-Z.shiftr_div_pow2 by lia. apply Z.bits_inj'. intros i Hi.
    rewrite Z.land_spec, !Z.shiftl_spec by done. destruct (Z.lt_ge_cases i 31).
    - rewrite (Z.testbit_neg_r (Z.ones 33)), (Z.testbit_neg_r (Z.shiftr y 31)) by lia. apply andb_false_r.
    - rewrite Z.shiftr_spec, Z.testbit_ones_nonneg by lia. replace (i - 31 + 31) with i by lia.
      destruct (Z.ltb_spec (i - 31) 33); [apply andb_true_r|].
      rewrite <-(Z.mod_small y (2 ^ 64)), Z.mod_pow2_bits_high by lia. done. }
  apply eq_true_iff_eq. rewrite nonzero_true, Z.leb_le.
  pose proof (Z.div_mod y (2 ^ 31)). pose proof (Z.mod_pos_bound y (2 ^ 31)).
  split; [|intros; apply Z.neq_mul_0; split; [|done]; intros E]; intros; nia.
Qed.

Lemma sign_mask n lo hi : n = 1 ∨ n = 2 ∨ n = 4 →
  urange (8 * n) lo → urange (64 - 8 * n) hi →
  nonzero (Z.land (lo + hi * 2 ^ (8 * n)) (u64 (i32 (Z.shiftl 1 (n * 8 - 1)))))
  = (2 ^ (8 * n - 1) <=? lo) || ((n =? 4) && nonzero hi).
Proof.
  intros [-> | [-> | ->]] Hlo Hhi.
  - change (u64 _) with (Z.shiftl 1 7). rewrite land_bit, testbit_low by (done || lia).
    rewrite (sign_bit 7) by done. by rewrite orb_false_r.
  - change (u64 _) with (Z.shiftl 1 15). rewrite land_bit, testbit_low by (done || lia).
    rewrite (sign_bit 15) by done. by rewrite orb_false_r.
  - change (u64 _) with 0xFFFFFFFF80000000. destruct Hlo, Hhi.
    rewrite word_mask by (unfold urange; lia). simpl (4 =? 4). simpl andb.
    apply eq_true_iff_eq. rewrite orb_true_iff, nonzero_true, !Z.leb_le. lia.
Qed.

Lemma fill_mask n lo hi : n = 1 ∨ n = 2 ∨ n = 4 →
  urange (8 * n) lo → urange (64 - 8 * n) hi →
  fill_ff (Z.to_nat (8 - n)) n (lo + hi * 2 ^ (8 * n)) = lo + (2 ^ 64 - 2 ^ (8 * n)).
Proof.
  intros Hn Hlo Hhi. rewrite fill_ff_lor.
  replace (fill_ff (Z.to_nat (8 - n)) n 0) with (Z.shiftl (Z.ones (64 - 8 * n)) (8 * n))
    by (destruct Hn as [-> | [-> | ->]]; done).
  rewrite lor_ones_high by (done || lia). destruct Hn as [-> | [-> | ->]]; done.
Qed.

(** The exact result of the load path. *)
Lemma load_path m old bs :
  urange 64 old → bytes_ok bs → access_size (size m) → Z.of_nat (length bs) = size m →
  (size m = 8 → signExtend m = 0) →
  (v ← patch_u64 old bs; sign_extend m v)
  = Ok (load_result old (size m) (nonzero (signExtend m)) bs).
Proof.
  intros Hold Hbs Hn Hl H8. unfold access_size in Hn.
  rewrite patch_u64_value by (done || lia). rewrite Hl. simpl obind.
  set (hi := old / _). unfold sign_extend, load_result. fold hi.
  destruct (Z.eqb_spec (signExtend m) 0) as [E|E].
  { unfold nonzero. rewrite E. done. }
  assert (size m = 1 ∨ size m = 2 ∨ size m = 4) as Hn3 by lia.
  pose proof (bytes_to_Z_range bs Hbs) as Hlo. rewrite Hl in Hlo.
  assert (urange (64 - 8 * size m) hi) as Hhi.
  { destruct Hold. unfold hi. split; [apply Z.div_pos; lia|].
    apply Z.div_lt_upper_bound; [lia|]. rewrite <-Z.pow_add_r by lia.
    replace (_ + _) with 64 by lia. done. }
  unfold shift_ok. rewrite (proj2 (Z.leb_le _ _)), (proj2 (Z.ltb_lt _ _)) by lia. cbn [andb].
  rewrite sign_mask, fill_mask by done. unfold nonzero at 2. rewrite (proj2 (Z.eqb_neq _ _) E).
  cbn [negb andb]. by case_match.
Qed.

Lemma load_result_clean old n sx bs : access_size n → bytes_ok bs → Z.of_nat (length bs) = n →
  (n = 8 → sx = false) → old / 2 ^ (8 * n) = 0 → load_result old n sx bs = load_value n sx bs.
Proof.
  intros Hn Hbs Hl H8 H0. unfold load_result, load_value. rewrite H0, andb_false_r, orb_false_r.
  pose proof (bytes_to_Z_range bs Hbs) as Hr. rewrite Hl in Hr. destruct Hr as [? ?].
  assert (2 ^ (8 * n) ≤ 2 ^ 64) by (apply Z.pow_le_mono_r; unfold access_size in Hn; lia).
  unfold access_size in Hn. destruct sx; simpl.
  - rewrite swrap_urange by (unfold urange; lia).
    destruct (Z.leb_spec (2 ^ (8 * n - 1)) (bytes_to_Z bs)),
      (Z.ltb_spec (bytes_to_Z bs) (2 ^ (8 * n - 1))); try lia.
    + assert (2 ^ (8 * n) < 2 ^ 64).
      { apply Z.pow_lt_mono_r; [lia..|]. destruct (Z.eq_dec n 8); [by discriminate H8|lia]. }
      unfold wrap. rewrite <-(Z_mod_plus_full _ 1), Z.mod_small; lia.
    + rewrite wrap_small by (unfold urange; lia). lia.
  - rewrite wrap_small by (unfold urange; lia). lia.
Qed.

(** ** Accesses that hit *)

(** The memory stage of [s] holds an access of kind [k] (2 for a load, 1 for a
    store), fresh or retried from the start, whose translation is in the data
    TLB and is [pa]. *)
Record accesses (s : sim) (k pa : Z) : Prop := {
  acc_init : has_initialised s = true;
  acc_clean : w_tainted_executions (cur_w s) = 0;
  acc_kind : readWrite (cur_m s) = k;
  acc_fresh : wasStalled (cur_m s) = 0 ∨ (wasStalled (cur_m s) = 2 ∧ stallStatus (cur_m s) = 0xFF);
  acc_size : access_size (size (cur_m s));
  acc_tlb : tlb_wf (dtlb s);
  acc_valid : tlb_valid (tlb_at (tlb_index (u32 (m_address (cur_m s)))) (dtlb s)) = true;
  acc_group : virtual_page (tlb_at (tlb_index (u32 (m_address (cur_m s)))) (dtlb s))
              = tlb_group (u32 (m_address (cur_m s)));
  acc_pa : pa = in_superpage
                  (physical_page (tlb_at (tlb_index (u32 (m_address (cur_m s)))) (dtlb s)))
                  (u32 (m_address (cur_m s)));
}.

(** The stage up to the cache. *)
Lemma stage_memory_access s new_w k pa : accesses s k pa → k = 1 ∨ k = 2 →
  stage_memory s new_w
  = if k =? 2 then
      '(missed, bs, c, ms) ←
        read_access (data_cache s) pa (size (cur_m s)) false true (msys s);
      let s := set_dside (dtlb s) c ms s in
      if nonzero missed then
        Ok (cache_stall (if missed =? 2 then 4 else 1) (w_tlb_stall_status new_w) missed 1
              (cur_m s), s)
      else
        v ← patch_u64 (w_value new_w) bs;
        v ← sign_extend (cur_m s) v;
        Ok (mkW (m_reg (cur_m s)) v 1 0 (w_tlb_stall_status new_w) 0 (memory_register new_w), s)
    else
      '(missed, c, ms) ←
        write_access (data_cache s) pa (m_value (cur_m s)) (size (cur_m s)) false true (msys s);
      let s := set_dside (dtlb s) c ms s in
      if nonzero missed then
        Ok (cache_stall (if missed =? 2 then 5 else 1) (w_tlb_stall_status new_w) missed 0
              (cur_m s), s)
      else Ok (idle_w 0 (w_tlb_stall_status new_w) 0 (memory_register new_w), s).
Proof.
  intros [Hi Hc Hk Hf _ Ht Hv Hg ->] Hk12. unfold stage_memory, initialise. rewrite Hi, Hc, Hk.
  change (0 <? 0) with false.
  assert ((if nonzero (wasStalled (cur_m s)) then stallStatus (cur_m s) else 0xFF) = FRESH) as ->
    by (by destruct Hf as [-> | [-> ->]]).
  assert ((wasStalled (cur_m s) =? 1) = false) as -> by (by destruct Hf as [-> | [-> _]]).
  rewrite get_address_hit by done. destruct Hk12 as [-> | ->]; done.
Qed.

Lemma get_set_bytes_length v a bs n : length bs = n → get_bytes (set_bytes v a bs) a n = bs.
Proof. intros <-. apply get_set_bytes_eq. Qed.

Lemma cview_byte c (m : memsys) a : cache_wf c → mem_wf m → is_byte (cview c (port_view m) a).
Proof.
  intros Hwf Hm. unfold cview. destruct (hit_row c a) as [r|] eqn:Hr.
  - pose proof (row_bytes _ _ (hit_row_wf _ Hwf _ _ Hr)) as Hb.
    destruct (nth_in_or_default (Z.to_nat (subindex_of c a)) (data r) 0) as [Hin|Hz];
      [|rewrite Hz; split; lia].
    exact (proj1 (List.Forall_forall _ _) Hb _ Hin).
  - by apply (port_view_byte (M := memsys)).
Qed.

(** A load that hits the cache. *)
Lemma load_hits s new_w pa :
  accesses s 2 pa → cache_wf (data_cache s) → is_Some (hit_row (data_cache s) pa) →
  mem_wf (msys s) →
  pa mod 4 = 0 → (size (cur_m s) = 8 → pa mod 8 = 0 ∧ signExtend (cur_m s) = 0) →
  urange 64 (w_value new_w) →
  stage_memory s new_w
  = Ok (mkW (m_reg (cur_m s))
          (load_result (w_value new_w) (size (cur_m s)) (nonzero (signExtend (cur_m s)))
             (get_bytes (cview (data_cache s) (port_view (msys s))) pa
                (Z.to_nat (size (cur_m s)))))
          1 0 (w_tlb_stall_status new_w) 0 (memory_register new_w),
        set_dside (dtlb s) (data_cache s) (msys s) s).
Proof.
  intros Hacc Hwf [r Hr] Hm H4 H8 Hold. pose proof (acc_size _ _ _ Hacc) as Hn.
  rewrite (stage_memory_access s new_w 2 pa) by auto. cbn [Z.eqb Pos.eqb].
  rewrite (read_access_hit _ Hwf pa (size (cur_m s)) r false true (msys s)
             (port_view (msys s))); [|done|done|tauto|done].
  cbn [obind]. cbv zeta. cbn [nonzero Z.eqb negb]. rewrite <-bind_assoc. 
  change (cur_m (set_dside _ _ _ s)) with (cur_m s).
  rewrite load_path; [done|done| |done| |tauto].
  { apply get_bytes_ok. intros a. by apply cview_byte. }
  rewrite length_get_bytes. unfold access_size in Hn. lia.
Qed.

(** C9: a load on a word boundary (a doubleword boundary for 8 bytes) that
    hits the data TLB and the data cache delivers its value in one cycle
    without a memory access.  The value is exactly [load_result]; it is the
    architectural value whenever the upper bytes of the last result of the stage were zero
    (a narrow load keeps them otherwise). *)
Theorem load_hit_delivers s new_w pa :
  accesses s 2 pa → cache_wf (data_cache s) → is_Some (hit_row (data_cache s) pa) →
  mem_wf (msys s) →
  pa mod 4 = 0 → (size (cur_m s) = 8 → pa mod 8 = 0 ∧ signExtend (cur_m s) = 0) →
  urange 64 (w_value new_w) →
  let n := size (cur_m s) in
  let sx := nonzero (signExtend (cur_m s)) in
  let bs := get_bytes (cview (data_cache s) (port_view (msys s))) pa (Z.to_nat n) in
  ∃ w, stage_memory s new_w = Ok (w, s) ∧
    w_op w = 1 ∧ w_reg w = m_reg (cur_m s) ∧ global_memory_stall w = 0 ∧
    w_value w = load_result (w_value new_w) n sx bs ∧
    (w_value new_w / 2 ^ (8 * n) = 0 → w_value w = load_value n sx bs).
Proof.
  intros Hacc Hwf Hhit Hm H4 H8 Hold n sx bs. pose proof (acc_size _ _ _ Hacc) as Hn.
  eexists. split; [rewrite (load_hits s new_w pa) by done; by destruct s|].
  split_and!; try done. intros H0. simpl. apply load_result_clean; try done.
  - apply get_bytes_ok. intros a. by apply cview_byte.
  - unfold bs. rewrite length_get_bytes. unfold n, access_size in *. lia.
  - intros E. unfold sx. rewrite (proj2 (H8 E)). done.
Qed.

(** C8: a load sees the store before it.  A store on a word boundary (a
    doubleword boundary for 8 bytes) that hits the data TLB and the first way
    of the cache completes in one cycle without a memory access; a later load
    of the same address and size that hits the data TLB, with cache and memory
    as the store left them and with zero upper bytes in the stage's previous result, delivers
    the stored value, extended as the instruction set says. *)
Theorem store_then_load s new_w pa r s2 new_w2 :
  accesses s 1 pa → cache_inv (data_cache s) (port_view (msys s)) →
  is_data (data_cache s) = true → mem_wf (msys s) →
  row (data_cache s) (index_of (data_cache s) pa) = Some r →
  holds r (tag_of (data_cache s) pa) = true →
  pa mod 4 = 0 → (size (cur_m s) = 8 → pa mod 8 = 0) →
  ∃ w s', stage_memory s new_w = Ok (w, s') ∧ w_op w = 0 ∧ global_memory_stall w = 0 ∧
    msys s' = msys s ∧
    (accesses s2 2 pa → data_cache s2 = data_cache s' → msys s2 = msys s' →
     size (cur_m s2) = size (cur_m s) →
     (size (cur_m s2) = 8 → signExtend (cur_m s2) = 0) →
     urange 64 (w_value new_w2) → w_value new_w2 / 2 ^ (8 * size (cur_m s2)) = 0 →
     ∃ w2 s3, stage_memory s2 new_w2 = Ok (w2, s3) ∧ w_op w2 = 1 ∧
       w_reg w2 = m_reg (cur_m s2) ∧
       w_value w2 = load_value (size (cur_m s2)) (nonzero (signExtend (cur_m s2)))
                      (Z_to_bytes (Z.to_nat (size (cur_m s))) (m_value (cur_m s)))).
Proof.
  intros Hacc Hinv Hd Hm Hr Hh H4 H8. pose proof (acc_size _ _ _ Hacc) as Hn.
  pose proof (ci_wf _ _ Hinv) as Hwf.
  destruct (write_access_first_way (data_cache s) pa (size (cur_m s)) (m_value (cur_m s))
              (msys s) r) as (d & Hw & Hview & Hhit & Hwf' & _); try done.
  { pose proof (aligned_in_block _ Hwf pa _ Hn H4 H8). lia. }
  rewrite (stage_memory_access s new_w 1 pa) by auto. cbn [Z.eqb Pos.eqb]. rewrite Hw.
  eexists _, _. split; [done|]. do 3 (split; [done|]). simpl.
  intros Hacc2 Ec Em En H8' Hold H0. rewrite (load_hits s2 new_w2 pa).
  - eexists _, _. do 3 (split; [done|]). simpl. rewrite Ec, Em, Hview, En in *.
    rewrite get_set_bytes_length by apply length_Z_to_bytes. apply load_result_clean; try done.
    + apply Z_to_bytes_ok.
    + rewrite length_Z_to_bytes. unfold access_size in Hn. lia.
    + intros E. by rewrite H8'.
  - done.
  - by rewrite Ec.
  - by rewrite Ec.
  - by rewrite Em.
  - done.
  - rewrite En in *. auto.
  - done.
Qed.
