(* ===== verification/Simulator.v ===== *)
(** * The simulator loop, [riscv_sim_framework.c] lines 429-488 and 660-675 *)
From S2P Require Import Prelude Memory Port Registers BranchPredictor Cache.
From S2P Require Import TLB Instruction Execute Pipeline.

Definition RISCV_INSTR_EBREAK : Z := 0x00100073.

(** The local variables of [simulator_execute_instructions].  They are not
    initialised: their first values are an argument of the model. *)
Record locals : Type := mkLocals {
  inst : Z;
  new_d_reg : stage_reg_d;
  new_x_reg : stage_reg_x;
  new_m_reg : stage_reg_m;
  new_w_reg : stage_reg_w;
}.

Definition enter_stage (bit : Z) (s : sim) : sim := set_msys (set_stage bit (msys s)) s.

(** Lines 464-467: the instruction at the program counter; when the program
    counter is outside memory, [inst] keeps its value. *)
Definition fetch_inst (s : sim) (old : Z) : outcome Z :=
  bs ← memory_dump (program_counter s) 4 (msys s);
  Ok (match bs with Some bs => bytes_to_Z bs | None => old end).

(** Lines 468-486: one cycle. *)
Definition cycle (s : sim) (l : locals) : outcome (sim * locals) :=
  let s := set_regs (register_reset_cycle (regs s)) s in
  let s := stage_writeback (enter_stage STAGE_W_BIT s) in
  '(w, s) ← stage_memory (enter_stage STAGE_M_BIT s) (new_w_reg l);
  '(m, s) ← stage_execute (enter_stage STAGE_X_BIT s) (new_m_reg l);
  let '(x, s) := stage_decode (enter_stage STAGE_D_BIT s) (new_x_reg l) in
  '(d, s) ← stage_fetch (enter_stage STAGE_F_BIT s) (new_d_reg l);
  let s := set_stage_regs d x m w s in
  Ok (set_msys (end_of_cycle (msys s)) s, mkLocals (inst l) d x m w).

(** The loop; the number of steps is the recursion argument. *)
Fixpoint simulator_execute_instructions (n_steps : nat) (s : sim) (l : locals)
    : outcome (sim * locals) :=
  match n_steps with
  | O => Ok (s, l)
  | S n =>
      i ← fetch_inst s (inst l);
      let l := mkLocals i (new_d_reg l) (new_x_reg l) (new_m_reg l) (new_w_reg l) in
      if i =? RISCV_INSTR_EBREAK then Ok (s, l)
      else
        '(s, l) ← cycle s l;
        simulator_execute_instructions n s l
  end.

(** [initialize_state]; it does not touch the register file, the caches, the
    TLBs, the branch table or [ptbr]. *)
Definition initialize_state (s : sim) : sim :=
  let ms := memory_initialize_pending (msys s) in
  let ms := mkMem (riscv_mem ms) (riscv_mem_size ms) (memory_read_latency ms)
              (memory_write_latency ms) 0 0 0 0 0 (memory_pending ms)
              (current_stage ms) (memory_accesses_issued ms) in
  set_stage_regs zero_d zero_x zero_m zero_w (set_pc 0 (set_msys ms s)).

(** The static variables at program start, with the two latencies that
    [main] takes from its options. *)
Definition boot_memory (read_latency write_latency : Z) : memsys :=
  mkMem ∅ 0 read_latency write_latency 0 0 0 0 0
    (replicate MEMORY_MAX_PENDING no_pending) 0 0.

Definition boot (read_latency write_latency : Z) : sim :=
  mkSim (boot_memory read_latency write_latency) initial_registers 0 0
    zero_d zero_x zero_m zero_w initial_branch_table false [] no_cache no_cache
    initial_tlb initial_tlb [].

Definition memory_size : Z := 8 * 1024 * 1024.

(** Lines 942-943 of [main]. *)
Definition start (read_latency write_latency : Z) : outcome sim :=
  let s := boot read_latency write_latency in
  ms ← memory_initialize memory_size (msys s);
  Ok (initialize_state (set_msys ms s)).
