(* ===== verification/Squash.v ===== *)
(** * Squashing after a misprediction

    Two consecutive cycles: the execute stage finds in the first that the
    predicted successor was wrong, and drops in the second what decode has
    handed to it meanwhile. *)
From S2P Require Import Prelude Memory Port Registers BranchPredictor Cache.
From S2P Require Import TLB Instruction Execute ISA ISARefinement Pipeline.
From S2P Require Import DecodeSpec ExecuteSpec Simulator.

(** ** What a stage leaves alone *)

(** The registers between the stages, the branch table and the output are the
    same, and the dispatch table stays filled. *)
Record quiet (s s' : sim) : Prop := {
  q_d : cur_d s' = cur_d s;
  q_x : cur_x s' = cur_x s;
  q_m : cur_m s' = cur_m s;
  q_w : cur_w s' = cur_w s;
  q_btable : btable s' = btable s;
  q_output : output s' = output s;
  q_table : table_ok s → table_ok s';
}.

#[export] Instance quiet_preorder : PreOrder quiet.
Proof. split; [by constructor|]. intros s1 s2 s3 [] []. constructor; try congruence. auto. Qed.

Lemma quiet_initialise s : quiet s (initialise s).
Proof.
  constructor; [..|intros Ht _; by apply initialise_table];
    unfold initialise; by destruct (has_initialised s).
Qed.

(** Changes of memory, registers, caches, TLBs and the program counter. *)
Lemma quiet_sides s t c m : quiet s (set_dside t c m s) ∧ quiet s (set_iside t c m s).
Proof. split; by constructor. Qed.

Lemma quiet_pc s pc : quiet s (set_pc pc s).
Proof. by constructor. Qed.

Lemma quiet_regs s r : quiet s (set_regs r s).
Proof. by constructor. Qed.

Lemma quiet_enter s bit : quiet s (enter_stage bit s).
Proof. by constructor. Qed.

Lemma quiet_then s1 s2 s3 : quiet s1 s2 → quiet s2 s3 → quiet s1 s3.
Proof. apply PreOrder_Transitive. Qed.

Lemma writeback_quiet s : quiet s (stage_writeback s).
Proof.
  unfold stage_writeback. case_match; [reflexivity|].
  eapply quiet_then; [apply quiet_initialise|apply quiet_regs].
Qed.

Lemma memory_quiet s new_w : sat (λ '(_, s'), quiet s s') (stage_memory s new_w).
Proof.
  unfold stage_memory. pose proof (quiet_initialise s) as Hi. set (s0 := initialise s) in *.
  clearbody s0. cbv zeta.
  assert (∀ t c m t' c' m', quiet s (set_dside t c m (set_dside t' c' m' s0))) as H2.
  { intros. do 2 (eapply quiet_then; [|apply quiet_sides]). done. }
  assert (∀ t c m, quiet s (set_dside t c m s0)) as H1.
  { intros. eapply quiet_then; [done|apply quiet_sides]. }
  destruct (0 <? _); [done|]. destruct (_ =? 3); [done|]. destruct (_ || _); [|done].
  eapply sat_bind; [apply sat_true|]. intros [[[status out] t] ms] _.
  destruct (negb _ && negb _); [apply H1|]. destruct (_ =? 2).
  - eapply sat_bind; [apply sat_true|]. intros [[[missed bs] c] ms'] _.
    destruct (nonzero missed); [apply H2|]. eapply sat_bind; [apply sat_true|]. intros v _.
    eapply sat_bind; [apply sat_true|]. intros v' _. apply H2.
  - eapply sat_bind; [apply sat_true|]. intros [[missed c] ms'] _.
    destruct (nonzero missed); apply H2.
Qed.

Lemma decode_quiet s new_x : quiet s (stage_decode s new_x).2.
Proof.
  unfold stage_decode. case_match; [reflexivity|].
  destruct (operands _) as [[? ?] ?]. pose proof (quiet_initialise s) as Hi.
  assert (quiet s (set_pc (d_pc (cur_d s)) (initialise s))) as Hp
    by (eapply quiet_then; [done|apply quiet_pc]).
  destruct (load_hazard _ _ _ _); [done|].
  match goal with |- context [match ?r with (_, _) => _ end] => destruct r as [[[] ?] ?] end; done.
Qed.

Lemma fetch_quiet s new_d : sat (λ '(_, s'), quiet s s') (stage_fetch s new_d).
Proof.
  unfold stage_fetch. pose proof (quiet_initialise s) as Hi. set (s0 := initialise s) in *.
  clearbody s0. cbv zeta. eapply sat_bind; [apply sat_true|]. intros [[[status out] t] ms] _.
  assert (quiet s (set_iside t (instruction_cache s0) ms s0)) as H1
    by (eapply quiet_then; [done|apply quiet_sides]).
  destruct (negb _ && negb _); [done|].
  eapply sat_bind; [apply sat_true|]. intros [[[st bs] c] ms'] _.
  set (s1 := set_iside _ _ ms s0) in *.
  assert (quiet s (set_iside (itlb s1) c ms' s1)) as H2
    by (eapply quiet_then; [done|apply quiet_sides]).
  destruct (nonzero st); [done|]. eapply sat_bind; [apply sat_true|]. intros i _.
  eapply quiet_then; [done|apply quiet_pc].
Qed.

(** A cycle seen from the execute stage. *)
Lemma cycle_execute s l s' l' : cycle s l = Ok (s', l') →
  ∃ e m e', quiet s e ∧ stage_execute e (new_m_reg l) = Ok (m, e') ∧
    cur_m s' = m ∧ btable s' = btable e' ∧ output s' = output e'.
Proof.
  intros Hc. unfold cycle in Hc. apply bind_Ok in Hc as ([w s2] & Em & Hc).
  apply bind_Ok in Hc as ([m s3] & Ex & Hc).
  pose proof (decode_quiet (enter_stage STAGE_D_BIT s3) (new_x_reg l)) as Hd.
  destruct (stage_decode _ _) as [x s4]. apply bind_Ok in Hc as ([d s5] & Ef & Hc).
  injection Hc as <- <-. exists (enter_stage STAGE_X_BIT s2), m, s3.
  pose proof (sat_Ok _ _ _ (memory_quiet _ _) Em) as Hm.
  pose proof (sat_Ok _ _ _ (fetch_quiet _ _) Ef) as Hf.
  assert (quiet s3 s5) as H35.
  { etrans; [apply (quiet_enter s3 STAGE_D_BIT)|]. etrans; [exact Hd|].
    etrans; [apply (quiet_enter s4 STAGE_F_BIT)|exact Hf]. }
  split; [|split; [exact Ex|]].
  - etrans; [apply quiet_regs|]. etrans; [apply (quiet_enter _ STAGE_W_BIT)|].
    etrans; [apply writeback_quiet|]. etrans; [apply (quiet_enter _ STAGE_M_BIT)|].
    etrans; [exact Hm|apply quiet_enter].
  - destruct H35. by split_and!.
Qed.

(** ** Two cycles *)

(** A slot that the execute stage skips, because it is empty or marked. *)
Lemma execute_skips e new_m : global_memory_stall (cur_w e) = 0 →
  m_tainted_executions (cur_m e) = 1 ∨ x_not_stalled (cur_x e) = 0 →
  ∃ m, stage_execute e new_m = Ok (m, e) ∧ effect_of m = No_effect ∧ m_tainted_executions m = 0.
Proof.
  intros Hst Hskip. unfold stage_execute. rewrite Hst. cbn [nonzero Z.eqb negb].
  destruct (Z.eqb_spec (x_not_stalled (cur_x e)) 0) as [|Hv]; [by eexists|].
  destruct Hskip as [-> |]; [by eexists|done].
Qed.

(** C19: a misprediction squashes what is behind it, and no more.  When the
    instruction in the execute stage turns out to have another successor than
    the predicted one, the memory-stage register is marked; in the next cycle,
    if memory does not stall, whatever decode has meanwhile handed over (the
    instruction behind, or an empty slot when decode stalled) has no effect on
    registers, memory, output and branch table, and the mark is gone: the
    instruction after it, if there is one and memory does not stall, runs. *)
Theorem misprediction_squashes s l s1 l1 s2 l2 pc m' out :
  runs s → table_ok s →
  dispatch major_dispatch_table (cur_x s) (u64 (x_pc (cur_x s) + 4))
    (start_execute (x_pc (cur_x s)) (new_m_reg l)) = Ok (pc, m', out) →
  pc ≠ x_new_pc (cur_x s) →
  cycle s l = Ok (s1, l1) → global_memory_stall (cur_w s1) = 0 →
  cycle s1 l1 = Ok (s2, l2) →
  effect_of (cur_m s1) = effect_of m' ∧ m_tainted_executions (cur_m s1) = 1 ∧
  effect_of (cur_m s2) = No_effect ∧ output s2 = output s1 ∧ btable s2 = btable s1 ∧
  (global_memory_stall (cur_w s2) = 0 → x_not_stalled (cur_x s2) ≠ 0 →
   x_instruction (cur_x s2) ≠ 0 → runs s2).
Proof.
  intros Hr Ht Hd Hpc C1 Hst C2.
  destruct (cycle_execute _ _ _ _ C1) as (e & m & e' & Hq & Ex & Em & _ & _).
  assert (runs e) as Hre by (destruct Hr, Hq; constructor; congruence).
  rewrite <-(q_x _ _ Hq) in Hd, Hpc.
  rewrite (stage_execute_handler e Hre (q_table _ _ Hq Ht) _ _ _ _ Hd) in Ex.
  rewrite (proj2 (Z.eqb_neq _ _) Hpc) in Ex. injection Ex as <- _.
  assert (m_tainted_executions (cur_m s1) = 1) as Hm1 by by rewrite Em.
  destruct (cycle_execute _ _ _ _ C2) as (f & m2 & f' & Hq2 & Ex2 & Em2 & Eb & Eo).
  destruct (execute_skips f (new_m_reg l1)) as (m3 & Ex3 & He & Ht3).
  { by rewrite (q_w _ _ Hq2). }
  { left. by rewrite (q_m _ _ Hq2). }
  rewrite Ex3 in Ex2. injection Ex2 as <- <-. destruct Hq2.
  split_and!; try congruence; [by rewrite Em|]. intros. constructor; congruence.
Qed.
