(* ===== verification/FetchSpec.v ===== *)
(** * What the fetch stage promises

    A fetch that finds its translation and its block delivers the word of
    memory at the program counter and moves on to the predicted address; a
    fetch that waits for the instruction TLB leaves the instruction before it
    in place. *)
From S2P Require Import Prelude Memory Port Registers BranchPredictor Cache.
From S2P Require Import CacheSpec TLB TLBSpec Instruction Execute Pipeline DecodeSpec.
From S2P Require Import Simulator.

(** ** A fetch that succeeds *)

(** The fetch stage starts a request, and the translation of the program
    counter, [pa], is in the instruction TLB. *)
Record fetches (s : sim) (pa : Z) : Prop := {
  fe_init : has_initialised s = true;
  fe_fresh : will_be_stalled (cur_d s) ≠ 1 ∧ will_be_stalled (cur_d s) ≠ 2;
  fe_tlb : tlb_wf (itlb s);
  fe_valid : tlb_valid (tlb_at (tlb_index (u32 (program_counter s))) (itlb s)) = true;
  fe_group : virtual_page (tlb_at (tlb_index (u32 (program_counter s))) (itlb s))
             = tlb_group (u32 (program_counter s));
  fe_pa : pa = in_superpage
                 (physical_page (tlb_at (tlb_index (u32 (program_counter s))) (itlb s)))
                 (u32 (program_counter s));
}.

(** The stage up to the cache. *)
Lemma stage_fetch_access s new_d pa : fetches s pa →
  stage_fetch s new_d
  = '(st, bs, c, m) ← read_access (instruction_cache s) pa 4 false true (msys s);
    let s := set_iside (itlb s) c m s in
    if nonzero st then Ok (mkD 0 0 0 0 (if st =? 2 then 3 else 1) 0xFF, s)
    else
      instr ← patch (Z_to_bytes 4 (d_instruction new_d)) bs;
      let new_pc := predict_address (program_counter s) (btable s) in
      Ok (mkD (program_counter s) new_pc (bytes_to_Z instr) 1 0 (d_tlb_stall_status new_d),
          set_pc new_pc s).
Proof.
  intros [Hi [H1 H2] Ht Hv Hg ->]. unfold stage_fetch, initialise. rewrite Hi.
  rewrite (proj2 (Z.eqb_neq _ _) H2), (proj2 (Z.eqb_neq _ _) H1). change 255 with FRESH.
  rewrite get_address_hit by done. done.
Qed.

(** C12: fetch.  With the translation of the program counter in the TLB and
    the word in the instruction cache, or readable into it, the fetch stage
    hands the word of memory at the program counter to decode, with its
    address and the predicted successor, and continues at that successor;
    memory as the stage sees it is as before, and the word is in the cache
    afterwards. *)
Theorem fetch_delivers s new_d pa :
  fetches s pa → cache_inv (instruction_cache s) (port_view (msys s)) → mem_wf (msys s) →
  urange 32 pa → pa mod 4 = 0 →
  is_Some (hit_row (instruction_cache s) pa) ∨ fills (instruction_cache s) pa (msys s) →
  ∃ d s', stage_fetch s new_d = Ok (d, s') ∧
    d_not_stalled d = 1 ∧ will_be_stalled d = 0 ∧
    d_pc d = program_counter s ∧ d_new_pc d = predict_address (program_counter s) (btable s) ∧
    d_instruction d
      = bytes_to_Z (get_bytes (cview (instruction_cache s) (port_view (msys s))) pa 4) ∧
    program_counter s' = d_new_pc d ∧ itlb s' = itlb s ∧
    cview (instruction_cache s') (port_view (msys s'))
      ≐ cview (instruction_cache s) (port_view (msys s)) ∧
    is_Some (hit_row (instruction_cache s') pa) ∧
    cache_inv (instruction_cache s') (port_view (msys s')).
Proof.
  intros Hf Hinv Hm Hpa H4 Hcase. rewrite (stage_fetch_access s new_d pa Hf).
  destruct (read_access_returns (instruction_cache s) pa 4 (msys s))
    as ([[[st bs] c'] m'] & -> & -> & -> & Hv & Hh & Hi & _); try done; [by right; right; left|].
  cbn [obind]. cbv zeta. cbn [nonzero Z.eqb negb].
  rewrite patch_full by (rewrite length_get_bytes, length_Z_to_bytes; done). cbn [obind].
  by eexists _, _.
Qed.

(** ** A fetch that waits for the TLB *)

(** A result that waits for the TLB keeps the instruction of the register. *)
Lemma stage_fetch_tlb_stall s new_d :
  sat (λ '(d, _), will_be_stalled d = 2 →
        d_pc d = d_pc new_d ∧ d_new_pc d = d_new_pc new_d ∧
        d_instruction d = d_instruction new_d ∧ d_not_stalled d = d_not_stalled new_d)
    (stage_fetch s new_d).
Proof.
  unfold stage_fetch. eapply sat_bind; [apply sat_true|]. intros [[[status out] t] m] _.
  cbv zeta. destruct (negb _ && negb _); [done|].
  eapply sat_bind; [apply sat_true|]. intros [[[st bs] c] m'] _.
  destruct (nonzero st); [simpl; by destruct (st =? 2)|].
  eapply sat_bind; [apply sat_true|]. done.
Qed.

(** Decode does not look at the fields that tell about stalls of fetch. *)
Lemma stage_decode_ext s d new_x :
  d_pc d = d_pc (cur_d s) → d_new_pc d = d_new_pc (cur_d s) →
  d_instruction d = d_instruction (cur_d s) → d_not_stalled d = d_not_stalled (cur_d s) →
  (stage_decode (set_stage_regs d (cur_x s) (cur_m s) (cur_w s) s) new_x).1
  = (stage_decode s new_x).1.
Proof.
  intros E1 E2 E3 E4. unfold stage_decode, bubble.
  change (cur_d (set_stage_regs d _ _ _ s)) with d.
  change (cur_w (set_stage_regs d _ _ _ s)) with (cur_w s). rewrite E1, E2, E3, E4.
  destruct (_ || _); [done|]. destruct (operands _) as [[r1 r2] r3].
  replace (cur_m (initialise (set_stage_regs d (cur_x s) (cur_m s) (cur_w s) s)))
    with (cur_m (initialise s)) by (unfold initialise; simpl; by destruct (has_initialised s)).
  destruct (load_hazard _ _ _ _); [done|].
  assert (∀ a b va vb,
    forwarded_register_read (initialise (set_stage_regs d (cur_x s) (cur_m s) (cur_w s) s)) a b va vb
    = forwarded_register_read (initialise s) a b va vb) as Hfw.
  { intros. unfold initialise. cbn [has_initialised set_stage_regs]. by destruct (has_initialised s). }
  rewrite !Hfw.
  match goal with |- context [match ?r with (_, _) => _ end] => destruct r as [[[] ?] ?] end; done.
Qed.

(** C37: a fetch that waits for the TLB repeats the instruction before it.
    In every cycle after the first the register that fetch fills still holds
    the instruction that decode is working on.  When fetch has to wait for
    the TLB it does not clear it: the next cycle decodes the same instruction
    again, as if it had just been fetched, also when it has been executed or
    squashed in the meantime. *)
Theorem fetch_tlb_stall_repeats s l s1 l1 new_x :
  cycle s l = Ok (s1, l1) → new_d_reg l = cur_d s → will_be_stalled (cur_d s1) = 2 →
  d_instruction (cur_d s1) = d_instruction (cur_d s) ∧
  d_not_stalled (cur_d s1) = d_not_stalled (cur_d s) ∧
  (stage_decode s1 new_x).1
  = (stage_decode (set_stage_regs (cur_d s) (cur_x s1) (cur_m s1) (cur_w s1) s1) new_x).1.
Proof.
  intros Hc Hl Hst. unfold cycle in Hc. apply bind_Ok in Hc as ([w s2] & _ & Hc).
  apply bind_Ok in Hc as ([m s3] & _ & Hc).
  destruct (stage_decode _ _) as [x s4]. apply bind_Ok in Hc as ([d s5] & Ef & Hc).
  injection Hc as <- <-. cbn [cur_d set_msys set_stage_regs] in Hst |- *.
  destruct (sat_Ok _ _ _ (stage_fetch_tlb_stall _ _) Ef Hst) as (E1 & E2 & E3 & E4).
  rewrite Hl in E1, E2, E3, E4. split; [done|]. split; [done|].
  symmetry. apply stage_decode_ext; by simpl.
Qed.
