(* ===== verification/SimulatorSpec.v ===== *)
(** * What the simulator promises

    The invariant of the whole state, kept by every cycle and every run
    that ends; the breakpoint. *)
From S2P Require Import Prelude Memory Port Registers BranchPredictor Cache.
From S2P Require Import CacheSpec CacheFrame PortFrame TLB TLBSpec Instruction.
From S2P Require Import Execute ISARefinement ExecuteFrame Pipeline DecodeSpec ExecuteSpec.
From S2P Require Import MemoryStageSpec Simulator.

(** The two caches, once [initialise] has built them. *)
Definition caches_wf (ic dc : cache_table) : Prop :=
  cache_wf ic ∧ is_data ic = false ∧ cache_wf dc ∧ is_data dc = true.

Record sim_wf (s : sim) : Prop := {
  sw_mem : mem_wf (msys s);
  sw_regs : regs_wf (regs s);
  sw_pc : urange 64 (program_counter s);
  sw_d : d_wf (cur_d s);
  sw_x : x_wf (cur_x s);
  sw_m : m_wf (cur_m s);
  sw_w : w_wf (cur_w s);
  sw_btable : branch_wf (btable s);
  sw_table : table_ok s;
  sw_caches : has_initialised s = true → caches_wf (instruction_cache s) (data_cache s);
  sw_itlb : tlb_wf (itlb s);
  sw_dtlb : tlb_wf (dtlb s);
}.

(** The local registers of the loop hold values of their types; nothing else
    is known of them before the first cycle. *)
Record locals_wf (l : locals) : Prop := {
  lw_inst : urange 32 (inst l);
  lw_d : d_wf (new_d_reg l);
  lw_x : x_wf (new_x_reg l);
  lw_m : m_wf (new_m_reg l);
  lw_w : w_wf (new_w_reg l);
}.

#[export] Hint Resolve sw_mem sw_regs sw_pc sw_d sw_x sw_m sw_w sw_btable sw_itlb sw_dtlb
  lw_inst lw_d lw_x lw_m lw_w : width.

(** ** Updates *)

Lemma caches_built : caches_wf (construct_cache 512 CACHE_INSTRUCTION) (construct_cache 2048 CACHE_DATA).
Proof.
  split_and!; try done.
  - apply (construct_cache_wf CACHE_INSTRUCTION 9). lia.
  - apply (construct_cache_wf CACHE_DATA 11). lia.
Qed.

Lemma initialise_wf s : sim_wf s → sim_wf (initialise s) ∧ has_initialised (initialise s) = true.
Proof.
  intros Hs. unfold initialise. destruct (has_initialised s) eqn:E; [done|].
  destruct Hs. split; [|done]. constructor; simpl; try done. intros _. apply caches_built.
Qed.

Lemma enter_stage_wf b s : sim_wf s → sim_wf (enter_stage b s).
Proof. intros []. constructor; simpl; try done. by apply set_stage_wf. Qed.

Lemma set_pc_wf v s : urange 64 v → sim_wf s → sim_wf (set_pc v s).
Proof. intros ? []. by constructor. Qed.

Lemma set_regs_wf r s : regs_wf r → sim_wf s → sim_wf (set_regs r s).
Proof. intros ? []. by constructor. Qed.

Lemma set_btable_wf t s : branch_wf t → sim_wf s → sim_wf (set_btable t s).
Proof. intros ? []. by constructor. Qed.

Lemma add_output_wf o s : sim_wf s → sim_wf (add_output o s).
Proof. intros []. by constructor. Qed.

Lemma set_iside_wf t c m s : tlb_wf t → mem_wf m →
  (has_initialised s = true → cache_wf c ∧ is_data c = false) → sim_wf s →
  sim_wf (set_iside t c m s).
Proof.
  intros ? ? Hc []. constructor; simpl; try done. intros Hi.
  destruct (Hc Hi), (sw_caches0 Hi) as (_ & _ & ? & ?). done.
Qed.

Lemma set_dside_wf t c m s : tlb_wf t → mem_wf m →
  (has_initialised s = true → cache_wf c ∧ is_data c = true) → sim_wf s →
  sim_wf (set_dside t c m s).
Proof.
  intros ? ? Hc []. constructor; simpl; try done. intros Hi.
  destruct (Hc Hi), (sw_caches0 Hi) as (? & ? & _). done.
Qed.

(** ** Write-back and decode *)

Lemma stage_writeback_wf s : sim_wf s → sim_wf (stage_writeback s).
Proof.
  intros Hs. unfold stage_writeback. case_match; [done|].
  destruct (initialise_wf s Hs) as [Hi _]. apply set_regs_wf; [|done].
  apply register_write_wf; width.
Qed.

Lemma forward_single_range s r : sim_wf s →
  ∀ v, (forwarded_register_read_single s r).2 = Some v → urange 64 v.
Proof.
  intros Hs v. unfold forwarded_register_read_single. repeat case_match; simpl;
    intros; simplify_eq; width.
Qed.

Lemma forward_range s ra rb va vb : sim_wf s → urange 64 va → urange 64 vb →
  let '(_, a, b) := forwarded_register_read s ra rb va vb in urange 64 a ∧ urange 64 b.
Proof.
  intros Hs Ha Hb. unfold forwarded_register_read.
  pose proof (forward_single_range s ra Hs) as Hra.
  pose proof (forward_single_range s rb Hs) as Hrb.
  destruct (forwarded_register_read_single s ra) as [fa oa].
  destruct (forwarded_register_read_single s rb) as [fb ob]. simpl in *.
  assert (urange 64 (default va oa)) by (destruct oa; auto).
  assert (urange 64 (default vb ob)) by (destruct ob; auto).
  rewrite !register_read_wf by width. repeat case_match; simplify_eq; simpl; split; width.
Qed.

Lemma operands_range i : let '(r1, r2, r3) := operands i in srange 16 r1 ∧ srange 16 r2 ∧ srange 16 r3.
Proof.
  assert (∀ lo, srange 16 (bits i lo 5)) as H.
  { intros lo. pose proof (bits_range i lo 5 ltac:(lia)) as [? ?]. unfold srange. lia. }
  assert (srange 16 (-1)) by (unfold srange; lia).
  unfold operands, rs1_field, rs2_field, rd_field. repeat case_match; simplify_eq; auto.
Qed.

Lemma bubble_wf d : d_wf d → x_wf (bubble d).
Proof. intros []. constructor; simpl; try done; width; unfold srange; lia. Qed.

Lemma stage_decode_wf s new_x : sim_wf s → x_wf new_x →
  x_wf (stage_decode s new_x).1 ∧ sim_wf (stage_decode s new_x).2.
Proof.
  intros Hs Hx. unfold stage_decode. case_match; [split; [destruct Hx; by constructor|done]|].
  destruct (initialise_wf s Hs) as [Hi _].
  destruct (initialise_frame s) as (Ed & _). pose proof (sw_d _ Hs) as Hd.
  pose proof (operands_range (d_instruction (cur_d s))) as Ho.
  destruct (operands _) as [[r1 r2] r3]. destruct Ho as (? & ? & ?).
  assert (sim_wf (set_pc (d_pc (cur_d s)) (initialise s))) by (apply set_pc_wf; width).
  assert (x_wf (bubble (cur_d s))) by by apply bubble_wf.
  destruct (load_hazard _ _ _ _); [done|].
  match goal with |- context [match ?r with (_, _) => _ end] =>
    assert (let '(_, v1, v2) := r in urange 64 v1 ∧ urange 64 v2) as Hr end.
  { repeat case_match; simplify_eq; try (split; width; fail).
    - pose proof (forward_range (initialise s) (rs1_field (d_instruction (cur_d s))) 0
        (rs1_value new_x) (rs2_value new_x) Hi) as Hf.
      match goal with H : forwarded_register_read _ _ _ _ _ = _ |- _ => rewrite H in Hf end.
      destruct Hf; width.
    - pose proof (forward_range (initialise s) (rs1_field (d_instruction (cur_d s)))
        (rs2_field (d_instruction (cur_d s))) (rs1_value new_x) (rs2_value new_x) Hi) as Hf.
      match goal with H : forwarded_register_read _ _ _ _ _ = _ |- _ => rewrite H in Hf end.
      destruct Hf; width. }
  match goal with |- context [match ?r with (_, _) => _ end] => destruct r as [[st v1] v2] end.
  destruct Hr. destruct st; [done|]. split; [|done]. constructor; simpl; width.
Qed.

(** ** Execute *)

Lemma set_tainted_wf v m : urange 8 v → m_wf m → m_wf (set_tainted v m).
Proof. intros ? []. by constructor. Qed.

Lemma start_execute_wf pc m : urange 64 pc → m_wf m → m_wf (start_execute pc m).
Proof. intros ? []. by constructor. Qed.

Lemma stage_execute_wf s new_m : sim_wf s → m_wf new_m →
  sat (λ '(m, s'), m_wf m ∧ sim_wf s') (stage_execute s new_m).
Proof.
  intros Hs Hm. pose proof (sw_w _ Hs) as Hw. pose proof (sw_x _ Hs) as Hx.
  unfold stage_execute. destruct (nonzero _).
  { split; [apply set_tainted_wf; [done|width]|apply set_pc_wf; width]. }
  assert (m_wf (start_execute (x_pc (cur_x s)) new_m)) as Hm' by (apply start_execute_wf; width).
  do 2 (destruct (_ : bool); [split; [try apply set_tainted_wf; width|done]|]).
  destruct (initialise_wf s Hs) as [Hi _].
  destruct (_ =? 0); [done|].
  eapply sat_bind; [apply dispatch_wf; width|]. intros [[pc m1] out] [Hpc Hm1].
  destruct (negb (pc =? x_new_pc (cur_x s))), (negb (pc =? u64 (x_pc (cur_x s) + 4))); simpl.
  all: split; [try apply set_tainted_wf; done|].
  all: repeat (apply set_btable_wf; [apply update_entry_wf; width|]).
  all: repeat (apply set_pc_wf; [done|]); by apply add_output_wf.
Qed.

(** ** Memory *)

Lemma sign_extend_range m v : urange 64 v → sat (urange 64) (sign_extend m v).
Proof.
  intros Hv. unfold sign_extend. do 2 (sat_step; try done). case_match; [|done].
  generalize (size m) at 2 as i. generalize (Z.to_nat (8 - size m)) as n. clear -Hv.
  intros n. revert v Hv. induction n as [|n IH]; intros v Hv i; simpl; [done|].
  apply IH. apply lor_range; width.
Qed.

Lemma tlb_stall_wf k st m : urange 8 k → urange 8 st → m_wf m → w_wf (tlb_stall k st m).
Proof. intros ? ? []. by repeat (constructor; simpl; try done). Qed.

Lemma cache_stall_wf k ts missed t m : urange 8 k → urange 8 ts → urange 8 t → m_wf m →
  w_wf (cache_stall k ts missed t m).
Proof. intros ? ? ? []. repeat (constructor; simpl; try done). all: by case_match. Qed.

Lemma idle_w_wf k ts t mr : urange 8 k → urange 8 ts → urange 8 t → m_wf mr →
  w_wf (idle_w k ts t mr).
Proof. intros. by constructor. Qed.

Lemma walk_status_range s : walk_status s → urange 8 s.
Proof.
  unfold walk_status. intros H. repeat (apply elem_of_cons in H as [->|H]; [done|]).
  by apply not_elem_of_nil in H.
Qed.

Lemma output_range (out : option Z) : (∀ pa, out = Some pa → urange 32 pa) →
  urange 64 (default 0 out).
Proof.
  intros H. destruct out as [pa|]; [|done]. apply (urange_weaken 32); [lia|]. by apply H.
Qed.

Lemma stage_memory_wf s new_w : sim_wf s → w_wf new_w →
  sat (λ '(w, s'), w_wf w ∧ sim_wf s') (stage_memory s new_w).
Proof.
  intros Hs0 Hnw. destruct (initialise_wf s Hs0) as [Hs Hi]. unfold stage_memory.
  set (s0 := initialise s) in *. clearbody s0. pose proof (sw_m _ Hs) as Hm.
  pose proof (sw_caches _ Hs Hi) as (_ & _ & Hdc & Hdk).
  destruct (0 <? _); [split; [apply idle_w_wf; width; done|done]|].
  destruct (_ =? 3); [split; [constructor; simpl; width|done]|].
  destruct (_ || _); [|split; [apply idle_w_wf; width; done|done]].
  pose proof (sw_mem _ Hs) as Hmem. pose proof (sw_itlb _ Hs). pose proof (sw_dtlb _ Hs).
  eapply sat_bind; [apply (get_address_wf (M := memsys)); [done..|apply wrap_range; lia]|].
  intros [[[status out] t] ms] (Ht & Hms & _ & _ & Hst & _ & Hout).
  apply output_range in Hout. apply walk_status_range in Hst. cbv zeta.
  assert (sim_wf (set_dside t (data_cache s0) ms s0)) as Hs1 by (by apply set_dside_wf).
  set (s1 := set_dside t (data_cache s0) ms s0) in *.
  assert (has_initialised s1 = true) as Hi1 by done.
  destruct (negb _ && negb _); [split; [apply tlb_stall_wf; [by case_match|done..]|done]|].
  destruct (_ =? 2).
  - eapply sat_bind; [by apply (read_access_kept (M := memsys))|].
    intros [[[missed bs] c] ms'] (Hbs & Hc & Hck & Hms' & _).
    assert (sim_wf (set_dside (dtlb s1) c ms' s1)) as Hs2
      by (apply set_dside_wf; try done; rewrite Hck; done).
    destruct (nonzero missed); [split; [apply cache_stall_wf; width; by case_match|done]|].
    eapply sat_bind; [by apply patch_u64_inv|]. intros v Hv.
    eapply sat_bind; [by apply sign_extend_range|]. intros v' Hv'.
    split; [constructor; simpl; width|done].
  - eapply sat_bind; [by apply (write_access_kept (M := memsys))|].
    intros [[missed c] ms'] (Hc & Hck & Hms' & _).
    assert (sim_wf (set_dside (dtlb s1) c ms' s1)) as Hs2
      by (apply set_dside_wf; try done; rewrite Hck; done).
    destruct (nonzero missed); [split; [apply cache_stall_wf; width; by case_match|done]|].
    split; [apply idle_w_wf; width; done|done].
Qed.

(** ** Fetch *)

Lemma stage_fetch_wf s new_d : sim_wf s → d_wf new_d →
  sat (λ '(d, s'), d_wf d ∧ sim_wf s') (stage_fetch s new_d).
Proof.
  intros Hs0 Hnd. destruct (initialise_wf s Hs0) as [Hs Hi]. unfold stage_fetch.
  set (s0 := initialise s) in *. clearbody s0.
  pose proof (sw_caches _ Hs Hi) as (Hic & Hik & _).
  pose proof (sw_mem _ Hs) as Hmem. pose proof (sw_itlb _ Hs). pose proof (sw_dtlb _ Hs).
  eapply sat_bind; [apply (get_address_wf (M := memsys)); [done..|apply wrap_range; lia]|].
  intros [[[status out] t] ms] (Ht & Hms & _ & _ & Hst & _ & Hout).
  apply output_range in Hout. apply walk_status_range in Hst. cbv zeta.
  assert (sim_wf (set_iside t (instruction_cache s0) ms s0)) as Hs1 by (by apply set_iside_wf).
  set (s1 := set_iside t (instruction_cache s0) ms s0) in *.
  destruct (negb _ && negb _); [split; [destruct Hnd; by constructor|done]|].
  eapply sat_bind; [by apply (read_access_kept (M := memsys))|].
  intros [[[st bs] c] ms'] (Hbs & Hc & Hck & Hms' & _).
  assert (sim_wf (set_iside (itlb s1) c ms' s1)) as Hs2
    by (apply set_iside_wf; try done; rewrite Hck; done).
  destruct (nonzero st); [split; [constructor; simpl; try done; by case_match|done]|].
  eapply sat_bind; [apply patch_inv; [apply Z_to_bytes_ok|done]|]. intros instr [Hl Hin].
  assert (urange 64 (predict_address (program_counter s0) (btable s0)))
    by (apply predict_address_range; width).
  split.
  - constructor; simpl; width; try done. pose proof (bytes_to_Z_range instr Hin) as Hr.
    rewrite Hl, length_Z_to_bytes in Hr. done.
  - by apply set_pc_wf.
Qed.

(** ** The clock *)

(** Same cycle, same configuration. *)
Definition same_cycle (m m' : memsys) : Prop :=
  cycle_counter m' = cycle_counter m ∧ riscv_mem_size m' = riscv_mem_size m ∧
  memory_read_latency m' = memory_read_latency m ∧
  memory_write_latency m' = memory_write_latency m.

#[export] Instance same_cycle_preorder : PreOrder same_cycle.
Proof. split; [done|]. intros ? ? ? (? & ? & ? & ?) (? & ? & ? & ?). split_and!; congruence. Qed.

Lemma add_pending_cycle a n o m : same_cycle m (memory_add_pending a n o m).2.
Proof. destruct (memory_add_pending_frame a n o m) as [l ->]. done. Qed.

Lemma memory_read_cycle a n m : sat (λ '(_, _, m'), same_cycle m m') (memory_read a n m).
Proof.
  unfold memory_read. repeat sat_step; try done.
  - eapply sat_bind; [apply sat_true|done].
  - match goal with |- context [memory_add_pending ?a ?k ?o ?m0] =>
      pose proof (add_pending_cycle a k o m0) as Hp;
      destruct (memory_add_pending a k o m0) as [? ?] end. done.
Qed.

Lemma memory_status_cycle a m : sat (λ '(_, _, m'), same_cycle m m') (memory_status a m).
Proof.
  unfold memory_status. case_match; [case_match|done]. sat_step; [|done].
  eapply sat_bind; [apply sat_true|done].
Qed.

Lemma memory_write_cycle a v n m : sat (λ '(_, m'), same_cycle m m') (memory_write a v n m).
Proof.
  unfold memory_write. repeat sat_step; [done|done|].
  unfold memory_load. case_match; simpl; [|case_match; simpl; [done|]].
  all: sat_step; [done|].
  all: match goal with |- context [memory_add_pending ?a ?k ?o ?m0] =>
      pose proof (add_pending_cycle a k o m0) as Hp;
      destruct (memory_add_pending a k o m0) as [? ?] end; done.
Qed.

Lemma initialise_msys s : msys (initialise s) = msys s.
Proof. by destruct (initialise_frame s) as (_ & _ & _ & _ & _ & _ & ? & _). Qed.

Lemma stage_memory_cycle s new_w :
  sat (λ '(_, s'), same_cycle (msys s) (msys s')) (stage_memory s new_w).
Proof.
  unfold stage_memory. rewrite <-(initialise_msys s).
  set (s0 := initialise s) in *. clearbody s0.
  destruct (0 <? _); [done|]. destruct (_ =? 3); [done|]. destruct (_ || _); [|done].
  eapply sat_bind; [apply (get_address_frame same_cycle); auto using memory_read_cycle,
    memory_status_cycle|].
  intros [[[status out] t] ms] HR. cbv zeta. destruct (negb _ && negb _); [done|].
  destruct (_ =? 2).
  - eapply sat_bind; [apply (read_access_frame same_cycle); auto using memory_read_cycle,
      memory_status_cycle, memory_write_cycle|].
    intros [[[missed bs] c] ms'] HR'. assert (same_cycle (msys s0) ms') by by etrans.
    destruct (nonzero missed); [done|].
    do 2 (eapply sat_bind; [apply sat_true|]; intros ? _). done.
  - eapply sat_bind; [apply (write_access_frame same_cycle); auto using memory_read_cycle,
      memory_status_cycle, memory_write_cycle|].
    intros [[missed c] ms'] HR'. assert (same_cycle (msys s0) ms') by by etrans.
    by destruct (nonzero missed).
Qed.

Lemma stage_fetch_cycle s new_d :
  sat (λ '(_, s'), same_cycle (msys s) (msys s')) (stage_fetch s new_d).
Proof.
  unfold stage_fetch. rewrite <-(initialise_msys s).
  set (s0 := initialise s) in *. clearbody s0.
  eapply sat_bind; [apply (get_address_frame same_cycle); auto using memory_read_cycle,
    memory_status_cycle|].
  intros [[[status out] t] ms] HR. cbv zeta. destruct (negb _ && negb _); [done|].
  eapply sat_bind; [apply (read_access_frame same_cycle); auto using memory_read_cycle,
    memory_status_cycle, memory_write_cycle|].
  intros [[[st bs] c] ms'] HR'. assert (same_cycle (msys s0) ms') by by etrans.
  destruct (nonzero st); [done|]. eapply sat_bind; [apply sat_true|]. done.
Qed.

Lemma stage_execute_msys s new_m : sat (λ '(_, s'), msys s' = msys s) (stage_execute s new_m).
Proof.
  unfold stage_execute. destruct (nonzero _); [done|].
  do 2 (destruct (_ : bool); [done|]). rewrite <-(initialise_msys s).
  set (s0 := initialise s). clearbody s0. destruct (_ =? 0); [done|].
  eapply sat_bind; [apply sat_true|]. intros [[pc m1] out] _.
  by destruct (negb _), (negb _).
Qed.

Lemma stage_decode_msys s new_x : msys (stage_decode s new_x).2 = msys s.
Proof.
  unfold stage_decode. case_match; [done|]. rewrite <-(initialise_msys s).
  set (s0 := initialise s). clearbody s0. destruct (operands _) as [[? ?] ?].
  destruct (load_hazard _ _ _ _); [done|].
  match goal with |- context [match ?r with (_, _) => _ end] => destruct r as [[[] ?] ?] end; done.
Qed.

Lemma stage_writeback_msys s : msys (stage_writeback s) = msys s.
Proof. unfold stage_writeback. case_match; [done|]. apply initialise_msys. Qed.

(** ** A cycle *)

Definition cycle_post (s : sim) (l : locals) : sim * locals → Prop := λ '(s', l'),
  sim_wf s' ∧ locals_wf l' ∧ inst l' = inst l ∧
  cycle_counter (msys s') = u64 (cycle_counter (msys s) + 1).

Lemma cycle_wf s l : sim_wf s → locals_wf l → sat (cycle_post s l) (cycle s l).
Proof.
  intros Hs Hl. unfold cycle.
  set (s1 := stage_writeback _).
  assert (sim_wf s1) as Hs1.
  { apply stage_writeback_wf, enter_stage_wf, set_regs_wf; [|done].
    apply register_reset_cycle_wf. width. }
  assert (cycle_counter (msys s1) = cycle_counter (msys s)) as Ec1
    by (unfold s1; by rewrite stage_writeback_msys).
  clearbody s1.
  eapply sat_bind.
  { apply (sat_spec (λ '(w, s2), (w_wf w ∧ sim_wf s2) ∧
                       same_cycle (msys (enter_stage STAGE_M_BIT s1)) (msys s2))).
    intros [w s2] E. split.
    - apply (sat_Ok _ _ _ (stage_memory_wf _ (new_w_reg l) (enter_stage_wf STAGE_M_BIT _ Hs1)
               (lw_w _ Hl)) E).
    - apply (sat_Ok _ _ _ (stage_memory_cycle _ _) E). }
  intros [w s2] [[Hw Hs2] [Ec2 _]].
  eapply sat_bind.
  { apply (sat_spec (λ '(m, s3), (m_wf m ∧ sim_wf s3) ∧
                       msys s3 = msys (enter_stage STAGE_X_BIT s2))).
    intros [m s3] E. split.
    - apply (sat_Ok _ _ _ (stage_execute_wf _ (new_m_reg l) (enter_stage_wf STAGE_X_BIT _ Hs2)
               (lw_m _ Hl)) E).
    - apply (sat_Ok _ _ _ (stage_execute_msys _ _) E). }
  intros [m s3] [[Hm Hs3] Ec3].
  pose proof (stage_decode_wf _ (new_x_reg l) (enter_stage_wf STAGE_D_BIT _ Hs3) (lw_x _ Hl))
    as [Hx Hs4].
  pose proof (stage_decode_msys (enter_stage STAGE_D_BIT s3) (new_x_reg l)) as Ec4.
  destruct (stage_decode _ _) as [x s4]. simpl in Hx, Hs4, Ec4.
  eapply sat_bind.
  { apply (sat_spec (λ '(d, s5), (d_wf d ∧ sim_wf s5) ∧
                       same_cycle (msys (enter_stage STAGE_F_BIT s4)) (msys s5))).
    intros [d s5] E. split.
    - apply (sat_Ok _ _ _ (stage_fetch_wf _ (new_d_reg l) (enter_stage_wf STAGE_F_BIT _ Hs4)
               (lw_d _ Hl)) E).
    - apply (sat_Ok _ _ _ (stage_fetch_cycle _ _) E). }
  intros [d s5] [[Hd Hs5] [Ec5 _]]. simpl in *. split_and!; try done.
  - destruct Hs5. constructor; simpl; try done. by apply end_of_cycle_wf.
  - destruct Hl. by constructor.
  - rewrite Ec5, Ec4. simpl. rewrite Ec3. simpl. rewrite Ec2, Ec1. done.
Qed.

Lemma fetch_inst_range s old : sim_wf s → urange 32 old → sat (urange 32) (fetch_inst s old).
Proof.
  intros Hs Ho. unfold fetch_inst.
  eapply sat_bind; [apply (memory_dump_bytes _ _ _ (sw_mem _ Hs))|]. intros [bs|] [Hb Hl]; [|done].
  simpl in *. pose proof (bytes_to_Z_range bs Hb) as Hr. apply (urange_weaken (8 * Z.of_nat (length bs)));
    [lia|done].
Qed.

(** ** Runs *)

Lemma boot_memory_wf rl wl : urange 64 rl → urange 64 wl → mem_wf (boot_memory rl wl).
Proof.
  intros. constructor; simpl; try done. repeat (constructor; [by constructor|]). constructor.
Qed.

(** The state that the commands start from. *)
Lemma start_wf rl wl : urange 64 rl → urange 64 wl → returns sim_wf (start rl wl).
Proof.
  intros Hrl Hwl. unfold start.
  destruct (memory_initialize memory_size (boot_memory rl wl)) as [ms| |] eqn:E; [|done..].
  assert (mem_wf ms) as Hm.
  { refine (sat_Ok _ _ _ (memory_initialize_wf memory_size _ (boot_memory_wf rl wl Hrl Hwl) _ _) E).
    - done.
    - repeat (constructor; [done|]). constructor. }
  eexists. split; [change (msys (boot rl wl)) with (boot_memory rl wl); by rewrite E|]. destruct Hm, zero_regs_wf as (? & ? & ? & ?).
  constructor; simpl; try done.
  - constructor; simpl; try done. repeat (constructor; [by constructor|]). constructor.
  - apply initial_registers_wf.
  - apply initial_branch_table_wf.
  - apply initial_tlb_wf.
  - apply initial_tlb_wf.
Qed.

Lemma run_wf n s l : sim_wf s → locals_wf l →
  sat (λ '(s', l'), sim_wf s' ∧ locals_wf l') (simulator_execute_instructions n s l).
Proof.
  revert s l. induction n as [|n IH]; intros s l Hs Hl; cbn [simulator_execute_instructions].
  { done. }
  eapply sat_bind; [apply fetch_inst_range; width|]. intros i Hi.
  assert (locals_wf (mkLocals i (new_d_reg l) (new_x_reg l) (new_m_reg l) (new_w_reg l))) as Hl'
    by (destruct Hl; by constructor).
  sat_step; [done|].
  eapply sat_bind; [by apply cycle_wf|]. intros [s1 l1] (Hs1 & Hl1 & _). by apply IH.
Qed.

(** The loop has found a breakpoint: the variable [inst] holds [EBREAK], and
    so does the word at the program counter, if that is inside memory (outside
    memory [inst] keeps the value it had). *)
Definition at_breakpoint (s : sim) (l : locals) : Prop :=
  inst l = RISCV_INSTR_EBREAK ∧
  (program_counter s + 4 ≤ riscv_mem_size (msys s) →
   bytes_to_Z (mem_get (riscv_mem (msys s)) (program_counter s) 4) = RISCV_INSTR_EBREAK).

Lemma fetch_breakpoint s l : sim_wf s → fetch_inst s (inst l) = Ok RISCV_INSTR_EBREAK →
  at_breakpoint s
    (mkLocals RISCV_INSTR_EBREAK (new_d_reg l) (new_x_reg l) (new_m_reg l) (new_w_reg l)).
Proof.
  intros Hs Hf. split; [done|]. intros Hin. unfold fetch_inst in Hf.
  pose proof (sw_pc _ Hs) as [? ?]. pose proof (wf_size _ (sw_mem _ Hs)) as [_ Hmax].
  unfold MEMORY_MAX_SIZE in Hmax.
  rewrite memory_dump_in in Hf by (done || (unfold urange; lia)). by injection Hf.
Qed.

(** C3: a run that ends normally keeps the machine well formed and takes one
    cycle per step.  After [n] steps from a state in which every variable is
    within its type's range and every table has its shape, whatever the
    uninitialised locals hold, the state is such a state again; [k] cycles
    have passed, and [k] is less than [n] only when the loop has found a
    breakpoint: [inst] is [EBREAK], and the word at the program counter, if
    that is inside memory.  (A run can also end the program, on a
    superpage mismatch or a misaligned access, or be undefined.) *)
Theorem run_keeps_invariant n s l :
  sim_wf s → locals_wf l →
  sat (λ '(s', l'), sim_wf s' ∧ locals_wf l' ∧
      ∃ k, (k ≤ n)%nat ∧
        cycle_counter (msys s') = u64 (cycle_counter (msys s) + Z.of_nat k) ∧
        ((k < n)%nat → at_breakpoint s' l'))
    (simulator_execute_instructions n s l).
Proof.
  revert s l. induction n as [|n IH]; intros s l Hs Hl; cbn [simulator_execute_instructions].
  { split_and!; [done..|]. exists 0%nat. rewrite Z.add_0_r, wrap_small; [|apply Hs].
    split_and!; [done..|lia]. }
  pose proof (fetch_inst_range s (inst l) Hs ltac:(width)) as Hr.
  destruct (fetch_inst s (inst l)) as [i| |] eqn:Hf; [|done..]. simpl in Hr. cbn [obind].
  assert (locals_wf (mkLocals i (new_d_reg l) (new_x_reg l) (new_m_reg l) (new_w_reg l))) as Hl'
    by (destruct Hl; by constructor).
  destruct (Z.eqb_spec i RISCV_INSTR_EBREAK) as [->|].
  { split_and!; [done..|]. exists 0%nat. rewrite Z.add_0_r, wrap_small; [|apply Hs].
    split_and!; [lia|done|]. intros _. by apply fetch_breakpoint. }
  eapply sat_bind; [by apply cycle_wf|]. intros [s1 l1] (Hs1 & Hl1 & _ & Ec).
  eapply sat_mono; [|by apply IH]. intros [s2 l2] (? & ? & k & ? & Ec2 & Hk).
  split_and!; [done..|]. exists (S k). split_and!; [lia| |intros; apply Hk; lia].
  rewrite Ec2, Ec. rewrite (wrap_add 64 _ _ (cycle_counter (msys s) + 1) (Z.of_nat k));
    [f_equal; lia|apply wrap_wrap; lia|done].
Qed.

(** C20: a breakpoint halts the machine before the instruction is executed:
    with [EBREAK] at the program counter, any number of steps leaves the
    whole state, the clock included, as it is. *)
Theorem ebreak_halts n s l :
  0 ≤ program_counter s → program_counter s + 4 ≤ riscv_mem_size (msys s) →
  riscv_mem_size (msys s) ≤ MEMORY_MAX_SIZE →
  bytes_to_Z (mem_get (riscv_mem (msys s)) (program_counter s) 4) = RISCV_INSTR_EBREAK →
  ∃ l', simulator_execute_instructions n s l = Ok (s, l').
Proof.
  intros H0 Hin Hmax Hi. destruct n as [|n]; [by eexists|]. simpl.
  unfold fetch_inst. rewrite memory_dump_in.
  - cbn [obind]. change (Z.to_nat 4) with 4%nat. rewrite Hi, Z.eqb_refl. by eexists.
  - unfold urange, MEMORY_MAX_SIZE in *. lia.
  - done.
Qed.
