(* ===== verification/LoadPath.v ===== *)
(** * A load from a cold TLB and a cold cache

    The parts together: a load whose translation is not in the data TLB and
    whose block may not be in the data cache goes through the page-table
    walk, is replayed by the pipeline after every stall, fills the cache, and
    delivers the architectural value, in three or five cycles. *)
From S2P Require Import Prelude Memory Port Registers BranchPredictor Cache.
From S2P Require Import CacheSpec CacheFrame PortFrame TLB TLBSpec Instruction.
From S2P Require Import Execute ISARefinement ExecuteFrame Pipeline DecodeSpec ExecuteSpec.
From S2P Require Import MemoryStageSpec Simulator SimulatorSpec.

(** ** What the other stages leave alone *)

(** The state in which the memory stage of a cycle runs. *)
Definition memory_entry (s : sim) : sim :=
  enter_stage STAGE_M_BIT
    (stage_writeback (enter_stage STAGE_W_BIT (set_regs (register_reset_cycle (regs s)) s))).

(** The data side of the machine is the same. *)
Record data_side (s s' : sim) : Prop := {
  ds_dtlb : dtlb s' = dtlb s;
  ds_cache : data_cache s' = data_cache s;
  ds_ptbr : ptbr s' = ptbr s;
  ds_init : has_initialised s' = true;
  ds_mem : riscv_mem (msys s') = riscv_mem (msys s);
  ds_size : riscv_mem_size (msys s') = riscv_mem_size (msys s);
  ds_latency : memory_read_latency (msys s') = memory_read_latency (msys s);
}.

Lemma data_side_refl s : has_initialised s = true → data_side s s.
Proof. by constructor. Qed.

Lemma data_side_trans s1 s2 s3 : data_side s1 s2 → data_side s2 s3 → data_side s1 s3.
Proof. intros [] []. constructor; congruence. Qed.

Definition same_bytes (m m' : memsys) : Prop :=
  riscv_mem m' = riscv_mem m ∧ riscv_mem_size m' = riscv_mem_size m ∧
  memory_read_latency m' = memory_read_latency m.

#[export] Instance same_bytes_preorder : PreOrder same_bytes.
Proof. split; [done|]. intros ? ? ? (? & ? & ?) (? & ? & ?). split_and!; congruence. Qed.

Lemma memory_read_bytes a n m : sat (λ '(_, _, m'), same_bytes m m') (memory_read a n m).
Proof.
  apply sat_spec. intros [[d bs] m'] E.
  pose proof (sat_Ok _ _ _ (memory_read_frame a n m) E) as [? ?].
  by pose proof (sat_Ok _ _ _ (memory_read_cycle a n m) E) as (_ & _ & ? & _).
Qed.

Lemma memory_status_bytes a m : sat (λ '(_, _, m'), same_bytes m m') (memory_status a m).
Proof.
  apply sat_spec. intros [[d bs] m'] E.
  pose proof (sat_Ok _ _ _ (memory_status_frame a m) E) as [? ?].
  by pose proof (sat_Ok _ _ _ (memory_status_cycle a m) E) as (_ & _ & ? & _).
Qed.

Lemma initialise_id s : has_initialised s = true → initialise s = s.
Proof. intros H. unfold initialise. by rewrite H. Qed.

Lemma enter_stage_data b s : has_initialised s = true → data_side s (enter_stage b s).
Proof. by constructor. Qed.

Lemma memory_entry_data s : has_initialised s = true → data_side s (memory_entry s).
Proof.
  intros H. unfold memory_entry, stage_writeback. case_match; [by constructor|].
  rewrite initialise_id by done. by constructor.
Qed.

Lemma memory_entry_regs s : has_initialised s = true →
  cur_m (memory_entry s) = cur_m s ∧ cur_w (memory_entry s) = cur_w s ∧
  current_stage (msys (memory_entry s)) = STAGE_M_BIT ∧
  memory_accesses_issued (msys (memory_entry s)) = memory_accesses_issued (msys s).
Proof.
  intros H. unfold memory_entry, stage_writeback. case_match; [done|].
  rewrite initialise_id by done. done.
Qed.

Lemma memory_entry_wf s : sim_wf s → sim_wf (memory_entry s).
Proof.
  intros Hs. apply enter_stage_wf, stage_writeback_wf, enter_stage_wf, set_regs_wf; [|done].
  apply register_reset_cycle_wf, Hs.
Qed.

Lemma stage_execute_data s new_m : has_initialised s = true →
  sat (λ '(_, s'), data_side s s') (stage_execute s new_m).
Proof.
  intros H. unfold stage_execute. cbv zeta. destruct (nonzero _); [simpl; by constructor|].
  destruct (x_not_stalled _ =? 0); [simpl; by constructor|].
  destruct (0 <? _); [simpl; by constructor|]. rewrite initialise_id by done.
  destruct (_ =? 0); [simpl; by constructor|].
  eapply sat_bind; [apply sat_true|]. intros [[pc m1] out] _.
  destruct (negb _), (negb _); simpl; by constructor.
Qed.

Lemma stage_decode_data s new_x : has_initialised s = true →
  data_side s (stage_decode s new_x).2.
Proof.
  intros H. unfold stage_decode. case_match; [by constructor|]. rewrite initialise_id by done.
  destruct (operands _) as [[? ?] ?]. destruct (load_hazard _ _ _ _); [by constructor|].
  match goal with |- context [match ?r with (_, _) => _ end] => destruct r as [[[] ?] ?] end;
    by constructor.
Qed.

Lemma stage_fetch_data s new_d : has_initialised s = true →
  is_data (instruction_cache s) = false →
  sat (λ '(_, s'), data_side s s') (stage_fetch s new_d).
Proof.
  intros H Hd. unfold stage_fetch. rewrite initialise_id by done.
  eapply sat_bind; [apply (get_address_frame same_bytes); auto using memory_read_bytes,
    memory_status_bytes|].
  intros [[[status out] t] ms] HR. cbv zeta.
  destruct (negb _ && negb _); [destruct HR as (? & ? & ?); simpl; by constructor|].
  eapply sat_bind; [apply (fetch_access_frame same_bytes); auto using memory_read_bytes,
    memory_status_bytes|].
  intros [[[st bs] c] ms'] HR'. assert (same_bytes (msys s) ms') as (? & ? & ?) by by etrans.
  destruct (nonzero st); [simpl; by constructor|]. eapply sat_bind; [apply sat_true|].
  simpl. by constructor.
Qed.

(** ** A cycle seen from the memory stage *)

Lemma cycle_memory s l s' l' w s1 : sim_wf s → locals_wf l → has_initialised s = true →
  stage_memory (memory_entry s) (new_w_reg l) = Ok (w, s1) → has_initialised s1 = true →
  cycle s l = Ok (s', l') →
  ∃ m s2, stage_execute (enter_stage STAGE_X_BIT s1) (new_m_reg l) = Ok (m, s2) ∧
    cur_w s' = w ∧ new_w_reg l' = w ∧ cur_m s' = m ∧ data_side s1 s' ∧
    memory_accesses_issued (msys s') = 0.
Proof.
  intros Hs Hl Hi Em Hi1 Hc.
  pose proof (sat_Ok _ _ _ (stage_memory_wf _ _ (memory_entry_wf _ Hs) (lw_w _ Hl)) Em) as [_ Hs1].
  unfold cycle in Hc. fold (memory_entry s) in Hc. rewrite Em in Hc. cbn [obind] in Hc.
  apply bind_Ok in Hc as ([m s2] & Ex & Hc).
  pose proof (sat_Ok _ _ _ (stage_execute_wf _ _ (enter_stage_wf STAGE_X_BIT _ Hs1) (lw_m _ Hl)) Ex)
    as [_ Hs2].
  pose proof (sat_Ok _ _ _ (stage_execute_data (enter_stage STAGE_X_BIT s1) _ Hi1) Ex) as Hx.
  pose proof (stage_decode_wf _ (new_x_reg l) (enter_stage_wf STAGE_D_BIT _ Hs2) (lw_x _ Hl))
    as [_ Hs3].
  pose proof (stage_decode_data (enter_stage STAGE_D_BIT s2) (new_x_reg l) (ds_init _ _ Hx)) as Hd.
  destruct (stage_decode _ _) as [x s3]. simpl in Hs3, Hd. apply bind_Ok in Hc as ([d s4] & Ef & Hc).
  pose proof (sw_caches _ Hs3 (ds_init _ _ Hd)) as (_ & Hic & _).
  pose proof (sat_Ok _ _ _ (stage_fetch_data (enter_stage STAGE_F_BIT s3) _ (ds_init _ _ Hd) Hic) Ef)
    as Hf.
  injection Hc as <- <-. exists m, s2. split; [done|]. split_and!; try done.
  destruct Hx, Hd, Hf. constructor; simpl in *; congruence.
Qed.

(** In the cycle after a stall the memory stage rests. *)
Lemma stalled_memory s l : has_initialised s = true → w_tainted_executions (cur_w s) = 1 →
  stage_memory (memory_entry s) (new_w_reg l)
  = Ok (idle_w 0 (w_tlb_stall_status (new_w_reg l)) 0 (memory_register (new_w_reg l)),
        memory_entry s).
Proof.
  intros Hi Ht. destruct (memory_entry_regs s Hi) as (_ & Ew & _).
  unfold stage_memory. rewrite initialise_id by apply (ds_init _ _ (memory_entry_data s Hi)).
  rewrite Ew, Ht. done.
Qed.

(** The cycle after a stall hands the access back to the memory stage. *)
Lemma stalled_cycle s l s' l' : sim_wf s → locals_wf l → has_initialised s = true →
  global_memory_stall (cur_w s) ≠ 0 → w_tainted_executions (cur_w s) = 1 →
  cycle s l = Ok (s', l') →
  cur_m s' = set_tainted 1 (memory_register (cur_w s)) ∧
  w_tainted_executions (cur_w s') = 0 ∧ w_value (new_w_reg l') = 0 ∧
  data_side s s' ∧ memory_accesses_issued (msys s') = 0.
Proof.
  intros Hs Hl Hi Hst Ht Hc. destruct (memory_entry_regs s Hi) as (_ & Ew & _).
  pose proof (memory_entry_data s Hi) as He.
  pose proof (stalled_memory s l Hi Ht) as Em.
  destruct (cycle_memory s l s' l' _ _ Hs Hl Hi Em (ds_init _ _ He) Hc)
    as (m & s2 & Ex & -> & -> & -> & Hd & Hissued).
  unfold stage_execute in Ex.
  change (cur_w (enter_stage STAGE_X_BIT (memory_entry s))) with (cur_w (memory_entry s)) in Ex.
  rewrite Ew, (proj2 (nonzero_true _) Hst) in Ex. injection Ex as <- _.
  split_and!; try done. by eapply data_side_trans.
Qed.

(** ** The attempts of a load *)

(** A miss that finds the access of the stage used up. *)
Lemma read_access_unavailable c a n fu (m : memsys) : cache_wf c → access_size n →
  a mod 4 = 0 → (n = 8 → a mod 8 = 0) → hit_row c a = None →
  read_access c a n fu false m = Ok (2, [], c, m).
Proof.
  intros Hwf Hn H4 H8 Hh. unfold read_access. rewrite (proj1 (word_offset c Hwf a H4)).
  rewrite (find_row_spec c Hwf) by (right; by apply doubleword_offset). by rewrite Hh.
Qed.

Section attempts.
Context (e : sim) (new_w : stage_reg_w).
Context (Hinit : has_initialised e = true) (Htaint : w_tainted_executions (cur_w e) = 0).
Context (Hkind : readWrite (cur_m e) = 2) (Htlb : tlb_wf (dtlb e)).
Context (Hmem : mem_wf (msys e)) (Hready : mem_readable (msys e)).
Abbreviation va := (u32 (m_address (cur_m e))).
Abbreviation view := (port_view (msys e)).
Abbreviation entry1 := (table_entry view (level1_address (ptbr e) va)).

(** The translation is not in the TLB: the walk starts. *)
Lemma attempt_first : wasStalled (cur_m e) = 0 →
  (tlb_group va =? virtual_page (tlb_at (tlb_index va) (dtlb e)))
    && tlb_valid (tlb_at (tlb_index va) (dtlb e)) = false →
  entry_inside (msys e) (level1_address (ptbr e) va) →
  ∃ m', stage_memory e new_w
        = Ok (tlb_stall 2 2 (cur_m e), set_dside (set_cached entry1 (dtlb e)) (data_cache e) m' e) ∧
    same_bytes (msys e) m'.
Proof.
  intros Hf Hmiss Hin.
  destruct (walk_first (ptbr e) (dtlb e) va (msys e)) as (m' & E & _); try done; [width|].
  exists m'. split.
  - unfold stage_memory. rewrite initialise_id, Htaint, Hkind, Hf by done.
    change (0 <? 0) with false. cbn [nonzero Z.eqb Pos.eqb negb orb]. change 255 with FRESH.
    rewrite E. done.
  - exact (sat_Ok _ _ _ (get_address_frame same_bytes memory_read_bytes memory_status_bytes
             _ _ _ _ _) E).
Qed.

(** The walk completes; a block that is not in the cache has to wait. *)
Lemma attempt_second pa : wasStalled (cur_m e) = 1 → stallStatus (cur_m e) = 2 →
  cached_second_index (dtlb e) = entry1 →
  entry_inside (msys e) (level2_address entry1 va) →
  translate view (ptbr e) va = Some pa → tlb_group va = tlb_index va →
  ∃ t m', same_bytes (msys e) m' ∧ tlb_wf t ∧
    tlb_valid (tlb_at (tlb_index va) t) = true ∧
    virtual_page (tlb_at (tlb_index va) t) = tlb_group va ∧
    pa = in_superpage (physical_page (tlb_at (tlb_index va) t)) va ∧
    stage_memory e new_w
    = '(missed, bs, c, ms) ← read_access (data_cache e) pa (size (cur_m e)) true false m';
      let s := set_dside t c ms e in
      if nonzero missed then
        Ok (cache_stall (if missed =? 2 then 4 else 1) (w_tlb_stall_status new_w) missed 1
              (cur_m e), s)
      else
        v ← patch_u64 (w_value new_w) bs;
        v ← sign_extend (cur_m e) v;
        Ok (mkW (m_reg (cur_m e)) v 1 0 (w_tlb_stall_status new_w) 0 (memory_register new_w), s).
Proof.
  intros Hw Hs Hc Hin Htr Hg. pose proof (tlb_index_range va) as Hi.
  destruct (walk_second (ptbr e) (dtlb e) va (msys e) 2) as (m' & E & _); try done;
    [width|by left|by rewrite Hc|].
  rewrite Htr, (proj2 (Z.eqb_eq _ _) Hg) in E.
  exists (set_tlb_at (tlb_index va)
            (walked (table_entry view (level2_address (cached_second_index (dtlb e)) va)) va)
            (dtlb e)), m'. split.
  { exact (sat_Ok _ _ _ (get_address_frame same_bytes memory_read_bytes memory_status_bytes
             _ _ _ _ _) E). }
  split; [apply set_tlb_at_wf; [done|apply walked_ok; [width|done]]|].
  rewrite !tlb_at_set by done. split_and!; [done|done| |].
  - simpl. rewrite Hc. by apply translate_walked.
  - unfold stage_memory. rewrite initialise_id, Htaint, Hkind, Hw, Hs by done.
    change (0 <? 0) with false. cbn [nonzero Z.eqb Pos.eqb negb orb]. rewrite E. done.
Qed.
End attempts.

(** The end of the load path, from bytes to the register [w], after a stall
    has cleared the result. *)
Lemma deliver {A} (m : stage_reg_m) bs (k : Z → A) :
  bytes_ok bs → access_size (size m) → Z.of_nat (length bs) = size m →
  (size m = 8 → signExtend m = 0) →
  (v ← patch_u64 0 bs; v ← sign_extend m v; Ok (k v))
  = Ok (k (load_value (size m) (nonzero (signExtend m)) bs)).
Proof.
  intros Hb Hn Hl H8. rewrite <-bind_assoc, load_path by (done || (split; lia)). cbn [obind].
  rewrite load_result_clean; [done|done|done|done| |].
  - intros E. by rewrite H8.
  - apply Z.div_0_l. unfold access_size in Hn. pose proof (pow2_pos (8 * size m)). lia.
Qed.

(** A load in the cache, or one that may fill it. *)
Lemma load_delivers e new_w pa : accesses e 2 pa → w_value new_w = 0 →
  cache_inv (data_cache e) (port_view (msys e)) → mem_wf (msys e) → urange 32 pa →
  pa mod 4 = 0 → (size (cur_m e) = 8 → pa mod 8 = 0 ∧ signExtend (cur_m e) = 0) →
  is_Some (hit_row (data_cache e) pa) ∨ fills (data_cache e) pa (msys e) →
  ∃ w s', stage_memory e new_w = Ok (w, s') ∧ w_op w = 1 ∧ w_reg w = m_reg (cur_m e) ∧
    has_initialised s' = true ∧
    w_value w = load_value (size (cur_m e)) (nonzero (signExtend (cur_m e)))
                  (get_bytes (cview (data_cache e) (port_view (msys e))) pa
                     (Z.to_nat (size (cur_m e)))).
Proof.
  intros Hacc H0 Hinv Hm Hpa H4 H8 Hcase. pose proof (acc_size _ _ _ Hacc) as Hn.
  rewrite (stage_memory_access e new_w 2 pa) by auto. cbn [Z.eqb Pos.eqb].
  destruct (read_access_returns (data_cache e) pa (size (cur_m e)) (msys e))
    as ([[[st bs] c'] m'] & -> & -> & -> & _); [done|done|done|done|done|tauto|done|].
  cbn [obind]. cbv zeta. cbn [nonzero Z.eqb negb]. rewrite H0.
  change (cur_m (set_dside _ _ _ e)) with (cur_m e).
  rewrite deliver; [by eexists _, _; split_and!; try done; apply (acc_init _ _ _ Hacc)| |done| |tauto].
  - apply get_bytes_ok. intros a. by apply cview_byte, Hm; apply Hinv.
  - rewrite length_get_bytes. unfold access_size in Hn. lia.
Qed.

(** ** The whole path *)

(** At the start of a cycle the memory stage holds a fresh load; its
    translation is [pa], the tables are inside memory, and it is not in the
    data TLB; the block of [pa] is in the data cache, or can be read from
    memory over a clean row. *)
Record cold_load (s : sim) (pa : Z) : Prop := {
  cl_init : has_initialised s = true;
  cl_issued : memory_accesses_issued (msys s) = 0;
  cl_latency : memory_read_latency (msys s) = 0;
  cl_clean : w_tainted_executions (cur_w s) = 0;
  cl_kind : readWrite (cur_m s) = 2;
  cl_fresh : wasStalled (cur_m s) = 0;
  cl_size : access_size (size (cur_m s));
  cl_miss : (tlb_group (u32 (m_address (cur_m s)))
             =? virtual_page (tlb_at (tlb_index (u32 (m_address (cur_m s)))) (dtlb s)))
            && tlb_valid (tlb_at (tlb_index (u32 (m_address (cur_m s)))) (dtlb s)) = false;
  cl_translate : translate (port_view (msys s)) (ptbr s) (u32 (m_address (cur_m s))) = Some pa;
  cl_group : tlb_group (u32 (m_address (cur_m s))) = tlb_index (u32 (m_address (cur_m s)));
  cl_level1 : entry_inside (msys s) (level1_address (ptbr s) (u32 (m_address (cur_m s))));
  cl_level2 : entry_inside (msys s)
    (level2_address
       (table_entry (port_view (msys s)) (level1_address (ptbr s) (u32 (m_address (cur_m s)))))
       (u32 (m_address (cur_m s))));
  cl_cache : cache_inv (data_cache s) (port_view (msys s));
  cl_word : pa mod 4 = 0;
  cl_double : size (cur_m s) = 8 → pa mod 8 = 0 ∧ signExtend (cur_m s) = 0;
  cl_block : is_Some (hit_row (data_cache s) pa) ∨
    (pa mod 2 ^ block_size (data_cache s) = 0 ∧
     pa + 2 ^ block_size (data_cache s) ≤ riscv_mem_size (msys s) ∧
     clean_victim (data_cache s) pa);
}.

(** The memory stage of the cycle that starts in [s] returns. *)
Definition memory_returns (s : sim) (l : locals) : Prop :=
  ∃ r, stage_memory (memory_entry s) (new_w_reg l) = Ok r.

(** For the next [n] cycles the memory stage does not fail, and [Q] holds
    after them, as long as the other stages of these cycles do not end the
    program. *)
Fixpoint memory_completes (n : nat) (Q : sim → locals → Prop) (s : sim) (l : locals) : Prop :=
  match n with
  | O => Q s l
  | S n => memory_returns s l ∧
           ∀ s' l', cycle s l = Ok (s', l') → memory_completes n Q s' l'
  end.

(** One cycle from well-formed states. *)
Lemma cycle_sim_wf s l s' l' : sim_wf s → locals_wf l → cycle s l = Ok (s', l') →
  sim_wf s' ∧ locals_wf l'.
Proof. intros Hs Hl E. by destruct (sat_Ok _ _ _ (cycle_wf s l Hs Hl) E) as (? & ? & _). Qed.

Lemma memory_completes_seq n k (Q R : sim → locals → Prop) s l :
  sim_wf s → locals_wf l → memory_completes n Q s l →
  (∀ s' l', sim_wf s' → locals_wf l' → Q s' l' → memory_completes k R s' l') →
  memory_completes (n + k) R s l.
Proof.
  revert s l. induction n as [|n IH]; intros s l Hs Hl HQ HR; [by apply HR|].
  destruct HQ as [Hm HQ]. split; [done|]. intros s' l' C.
  destruct (cycle_sim_wf _ _ _ _ Hs Hl C). apply IH; auto.
Qed.

Lemma memory_completes_mono n (Q R : sim → locals → Prop) s l :
  (∀ s' l', Q s' l' → R s' l') → memory_completes n Q s l → memory_completes n R s l.
Proof.
  intros HQR. revert s l. induction n as [|n IH]; [intros s l; apply HQR|].
  intros s l [Hm HQ]. split; [done|]. intros s' l' C. by apply IH, HQ.
Qed.

(** One cycle whose memory stage is known. *)
Lemma memory_completes_one (Q : sim → Prop) s l w s1 : sim_wf s → locals_wf l →
  has_initialised s = true → stage_memory (memory_entry s) (new_w_reg l) = Ok (w, s1) →
  has_initialised s1 = true → (∀ s', cur_w s' = w → Q s') →
  memory_completes 1 (λ s' _, Q s') s l.
Proof.
  intros Hs Hl Hi Em Hi1 HQ. split; [by exists (w, s1)|]. intros s' l' C.
  destruct (cycle_memory s l s' l' w s1) as (_ & _ & _ & Ew & _); try done. by apply HQ.
Qed.

(** The load is ready to be retried from [s1] with the TLB [t]: the machine's
    data side is that of [s] but for the TLB. *)
Record retried (s : sim) (t : tlb) (s1 : sim) : Prop := {
  rt_init : has_initialised s1 = true;
  rt_issued : memory_accesses_issued (msys s1) = 0;
  rt_clean : w_tainted_executions (cur_w s1) = 0;
  rt_tlb : dtlb s1 = t;
  rt_cache : data_cache s1 = data_cache s;
  rt_ptbr : ptbr s1 = ptbr s;
  rt_mem : riscv_mem (msys s1) = riscv_mem (msys s);
  rt_size : riscv_mem_size (msys s1) = riscv_mem_size (msys s);
  rt_latency : memory_read_latency (msys s1) = memory_read_latency (msys s);
}.

(** The memory stage runs in a state like the one at the start of its cycle. *)
Lemma memory_entry_retried s t s1 : retried s t s1 → sim_wf s1 →
  memory_read_latency (msys s) = 0 →
  let e := memory_entry s1 in
  has_initialised e = true ∧ w_tainted_executions (cur_w e) = 0 ∧ cur_m e = cur_m s1 ∧
  dtlb e = t ∧ data_cache e = data_cache s ∧ ptbr e = ptbr s ∧
  riscv_mem (msys e) = riscv_mem (msys s) ∧ riscv_mem_size (msys e) = riscv_mem_size (msys s) ∧
  mem_wf (msys e) ∧ mem_readable (msys e) ∧ tlb_wf (dtlb e).
Proof.
  intros [Hi Hs Hc Ht Hca Hp Hm Hz Hl] Hwf H0. cbv zeta.
  destruct (memory_entry_regs s1 Hi) as (Em & Ew & Es & Ei).
  destruct (memory_entry_data s1 Hi) as [D1 D2 D3 D4 D5 D6 D7].
  pose proof (memory_entry_wf s1 Hwf) as He.
  split_and!; try congruence; try apply He. split; [|congruence].
  unfold can_read. rewrite Es, Ei, Hs. done.
Qed.

(** Two cycles that start with a stall of the memory stage: the load is
    retried with the TLB that the stall left. *)
Lemma stall_and_retry s l w t m : sim_wf s → locals_wf l → has_initialised s = true →
  stage_memory (memory_entry s) (new_w_reg l)
  = Ok (w, set_dside t (data_cache s) m (memory_entry s)) →
  same_bytes (msys s) m → global_memory_stall w ≠ 0 → w_tainted_executions w = 1 →
  memory_completes 2 (λ s2 l2, retried s t s2 ∧ w_value (new_w_reg l2) = 0 ∧
                               cur_m s2 = set_tainted 1 (memory_register w)) s l.
Proof.
  intros Hs Hl Hi Em (Hm & Hz & Hlat) Hst Ht. pose proof (memory_entry_data s Hi) as He.
  split; [by eexists|]. intros s1 l1 C1.
  destruct (cycle_sim_wf _ _ _ _ Hs Hl C1) as [Hs1 Hl1].
  destruct (cycle_memory s l s1 l1 w _ Hs Hl Hi Em) as (m' & ? & _ & Ew & _ & _ & Hd & _);
    [apply (ds_init _ _ He)|done|].
  destruct Hd as [D1 D2 D3 D4 D5 D6 D7]. subst w.
  cbn [dtlb data_cache ptbr has_initialised msys set_dside] in D1, D2, D3, D4, D5, D6, D7.
  split; [eexists; by apply stalled_memory|]. intros s2 l2 C2.
  destruct (stalled_cycle s1 l1 s2 l2) as (E1 & E2 & E3 & Hd2 & E4); try done.
  destruct Hd2 as [F1 F2 F3 F4 F5 F6 F7]. destruct He as [G1 G2 G3 G4 G5 G6 G7].
  split_and!; try done. constructor; congruence.
Qed.

(** The result that the load owes. *)
Definition loaded (s : sim) (pa : Z) (w : stage_reg_w) : Prop :=
  w_op w = 1 ∧ w_reg w = m_reg (cur_m s) ∧
  w_value w = load_value (size (cur_m s)) (nonzero (signExtend (cur_m s)))
                (get_bytes (cview (data_cache s) (port_view (msys s))) pa
                   (Z.to_nat (size (cur_m s)))).

Section path.
Context (s : sim) (pa : Z) (Hwf : sim_wf s) (Hcold : cold_load s pa).
Abbreviation va := (u32 (m_address (cur_m s))).
Abbreviation view := (port_view (msys s)).
Abbreviation entry1 := (table_entry view (level1_address (ptbr s) va)).

Lemma same_view (m : memsys) : riscv_mem m = riscv_mem (msys s) → port_view m = view.
Proof. intros E. simpl. by rewrite E. Qed.

Lemma same_inside (m : memsys) a : riscv_mem_size m = riscv_mem_size (msys s) →
  entry_inside (msys s) a → entry_inside m a.
Proof. intros E [? ?]. split; [done|]. simpl in *. by rewrite E. Qed.

Lemma pa_range : urange 32 pa.
Proof.
  rewrite (translate_walked (ptbr s) view va pa (cl_translate _ _ Hcold)).
  apply in_superpage_range, superpage_range.
Qed.

(** The load as it is retried after a stall. *)
Definition retry (m stalled status : Z) : stage_reg_m :=
  mkM (m_address (cur_m s)) (size (cur_m s)) 2 (signExtend (cur_m s)) (m_reg (cur_m s)) m 1
    stalled status (m_pc (cur_m s)).

(** Where the first two cycles lead: the first-level entry is at hand. *)
Definition after_first (s2 : sim) (l2 : locals) : Prop :=
  retried s (set_cached entry1 (dtlb s)) s2 ∧ w_value (new_w_reg l2) = 0 ∧
  ∃ m, cur_m s2 = retry m 1 2.

(** Where the next two lead when the block is missing: the translation is. *)
Definition after_second (s4 : sim) (l4 : locals) : Prop :=
  ∃ t m, retried s t s4 ∧ w_value (new_w_reg l4) = 0 ∧
    tlb_valid (tlb_at (tlb_index va) t) = true ∧
    virtual_page (tlb_at (tlb_index va) t) = tlb_group va ∧
    pa = in_superpage (physical_page (tlb_at (tlb_index va) t)) va ∧
    cur_m s4 = retry m 2 0xFF.

Lemma path_first l : locals_wf l → memory_completes 2 after_first s l.
Proof.
  intros Hl. destruct Hcold.
  assert (retried s (dtlb s) s) as Hr by by constructor.
  destruct (memory_entry_retried s (dtlb s) s Hr Hwf cl_latency0)
    as (Ei & Ec & Em & Et & Eca & Ep & Eb & Ez & Emw & Er & Etw).
  pose proof (same_view _ Eb) as Ev.
  destruct (attempt_first (memory_entry s) (new_w_reg l) Ei Ec ltac:(by rewrite Em) Etw Emw Er)
    as (m & Ea & Hb); rewrite ?Em, ?Et, ?Ep, ?Ev; try done; [by apply same_inside|].
  rewrite Em, Et, Eca, Ep, Ev in Ea.
  eapply memory_completes_mono; [|eapply (stall_and_retry s l); try done].
  - intros s2 l2 (H1 & H2 & H3). split_and!; [done..|]. exists (m_value (cur_m s)).
    rewrite H3. unfold retry. simpl. by rewrite cl_kind0.
  - destruct Hb as (B1 & B2 & B3). destruct (memory_entry_data s cl_init0).
    split_and!; congruence.
Qed.

(** The third cycle completes the walk, and the load if its block is in the
    cache. *)
Lemma path_second s2 l2 : sim_wf s2 → locals_wf l2 → after_first s2 l2 →
  match hit_row (data_cache s) pa with
  | Some _ => memory_completes 1 (λ s3 _, loaded s pa (cur_w s3)) s2 l2
  | None => memory_completes 2 after_second s2 l2
  end.
Proof.
  intros Hs2 Hl2 (Hr & H0 & m & Em2). destruct Hcold. unfold retry in Em2.
  destruct (memory_entry_retried s _ s2 Hr Hs2 cl_latency0)
    as (Ei & Ec & Em & Et & Eca & Ep & Eb & Ez & Emw & Er & Etw).
  pose proof (same_view _ Eb) as Ev. rewrite Em2 in Em.
  destruct (attempt_second (memory_entry s2) (new_w_reg l2) Ei Ec ltac:(by rewrite Em) Etw Emw Er pa)
    as (t & m' & Hb & Htw & Hv & Hg & Hpa & Ea); rewrite ?Em, ?Et, ?Ep, ?Ev; try done.
  { by apply same_inside. }
  rewrite Em, Eca, H0 in *. cbn [m_address size m_reg signExtend] in *.
  pose proof (ci_wf _ _ cl_cache0) as Hcw.
  destruct (hit_row (data_cache s) pa) as [r|] eqn:Hrow.
  - rewrite (read_access_hit _ Hcw pa (size (cur_m s)) r true false m' view) in Ea;
      [|done|done|tauto|done].
    cbn [obind] in Ea. cbv zeta in Ea. cbn [nonzero Z.eqb negb] in Ea.
    rewrite deliver in Ea; [| |done| |cbn [size signExtend]; tauto].
    + eapply (memory_completes_one (λ s3, loaded s pa (cur_w s3))); try done;
        [apply (rt_init _ _ _ Hr)|]. by intros s3 ->.
    + apply get_bytes_ok. intros a. apply cview_byte; [done|apply Hwf].
    + rewrite length_get_bytes. cbn [size]. unfold access_size in cl_size0. lia.
  - rewrite read_access_unavailable in Ea; [|done|done|done|tauto|done].
    cbn [obind] in Ea. cbv zeta in Ea. cbn [nonzero Z.eqb negb Pos.eqb] in Ea.
    rewrite <-(rt_cache _ _ _ Hr) in Ea.
    eapply memory_completes_mono; [|eapply (stall_and_retry s2 l2); try done].
    + intros s4 l4 (H1 & H2 & H3). exists t, m. split_and!; try done.
      destruct H1, Hr. constructor; congruence.
    + apply (rt_init _ _ _ Hr).
    + destruct Hb as (B1 & B2 & B3). destruct (memory_entry_data s2 (rt_init _ _ _ Hr)).
      split_and!; congruence.
Qed.

(** The last attempt finds the translation and reads the block. *)
Lemma path_third s4 l4 : sim_wf s4 → locals_wf l4 → after_second s4 l4 →
  memory_completes 1 (λ s5 _, loaded s pa (cur_w s5)) s4 l4.
Proof.
  intros Hs4 Hl4 (t & m & Hr & H0 & Hv & Hg & Hpa & Em4). destruct Hcold. unfold retry in Em4.
  destruct (memory_entry_retried s t s4 Hr Hs4 cl_latency0)
    as (Ei & Ec & Em & Et & Eca & Ep & Eb & Ez & Emw & Er & Etw).
  pose proof (same_view _ Eb) as Ev. rewrite Em4 in Em.
  destruct (load_delivers (memory_entry s4) (new_w_reg l4) pa) as (w & s' & E & Ho & Hreg & Hi' & Hval);
    rewrite ?Em, ?Eca, ?Ev; try done.
  - constructor; rewrite ?Em, ?Et; try done; [by right|by rewrite <-Et].
  - apply pa_range.
  - destruct cl_block0 as [?|(? & ? & ?)]; [by left|right]. split_and!; try done.
    change (port_limit (msys (memory_entry s4))) with (riscv_mem_size (msys (memory_entry s4))).
    by rewrite Ez.
  - rewrite Em, Eca, Ev in *.
    eapply (memory_completes_one (λ s5, loaded s pa (cur_w s5))); try done;
      [apply (rt_init _ _ _ Hr)|]. by intros s5 ->.
Qed.
End path.

(** C11: a load completes.  From a cold data TLB, at latency 0, with its
    address (whose upper bits are its TLB index) mapped to a word boundary (a
    doubleword boundary for 8 bytes), a coherent data cache and page tables inside memory, a load whose block is in
    the cache delivers its value after three cycles.  So does, after five, one
    at the first address of a block that has to be read from memory over a
    clean row.  On the way are the page-table walk, the stalls and the
    replays: the memory stage fails in none of these cycles, whatever the
    other stages do meanwhile, and the value is the one that the instruction
    set gives for the memory the program sees. *)
Theorem load_completes s l pa : sim_wf s → locals_wf l → cold_load s pa →
  memory_completes (match hit_row (data_cache s) pa with Some _ => 3 | None => 5 end)
    (λ s' _, loaded s pa (cur_w s')) s l.
Proof.
  intros Hs Hl Hc. pose proof (path_second s pa Hs Hc) as H2.
  destruct (hit_row (data_cache s) pa).
  - eapply (memory_completes_seq 2 1); eauto using path_first.
  - eapply (memory_completes_seq 2 3); eauto using path_first. intros s2 l2 Hs2 Hl2 Hf.
    eapply (memory_completes_seq 2 1); eauto using path_third.
Qed.
