(* ===== verification/CString.v ===== *)
(** * The C library's text functions that the command interpreter uses

    Characters are bytes; a C string is the list of its characters without
    the terminating 0.  [strtok_r], [strtol], [strtoul], [strcasecmp],
    [isxdigit], [fgets] and the conversions of [printf], in the C locale. *)
From Stdlib Require Import String Ascii.
From S2P Require Import Prelude.

Abbreviation text := (list Z).

(** The characters of a literal. *)
Definition codes (s : string) : text :=
  map (λ a, Z.of_N (N_of_ascii a)) (list_ascii_of_string s).

Definition newline : Z := 10.

(** The string that a buffer holds: its characters before the first 0. *)
Fixpoint cstr (buf : text) : text :=
  match buf with
  | [] => []
  | c :: buf => if c =? 0 then [] else c :: cstr buf
  end.

(** ** Characters *)

Definition between (lo hi c : Z) : bool := (lo <=? c) && (c <=? hi).

Definition isspace (c : Z) : bool := between 9 13 c || (c =? 32).

Definition tolower (c : Z) : Z := if between 65 90 c then c + 32 else c.

(** The value of a digit or letter in a number of base up to 36. *)
Definition digit_value (c : Z) : option Z :=
  if between 48 57 c then Some (c - 48)
  else if between 97 122 c then Some (c - 87)
  else if between 65 90 c then Some (c - 55)
  else None.

Definition isxdigit (c : Z) : bool :=
  match digit_value c with Some d => d <? 16 | None => false end.

(** [!strcasecmp (a, b)] *)
Definition same_word (a b : text) : bool := bool_decide (map tolower a = map tolower b).

(** ** Tokens *)

Fixpoint drop_while (p : Z → bool) (s : text) : text :=
  match s with
  | [] => []
  | c :: s' => if p c then drop_while p s' else s
  end.

Fixpoint span (p : Z → bool) (s : text) : text * text :=
  match s with
  | [] => ([], [])
  | c :: s' => if p c then let '(a, b) := span p s' in (c :: a, b) else ([], s)
  end.

(** [strtok_r]: the next token and the new [*ctx]; the separator behind the
    token is overwritten by the end of the token. *)
Definition strtok (sep : Z → bool) (ctx : text) : option (text * text) :=
  match drop_while sep ctx with
  | [] => None
  | s => let '(tok, rest) := span (λ c, negb (sep c)) s in Some (tok, drop 1 rest)
  end.

(** All the tokens that repeated calls give: every one takes at least one
    character, so the length of the string is enough fuel ([tokens_eq]). *)
Fixpoint tokens_fuel (fuel : nat) (sep : Z → bool) (ctx : text) : list text :=
  match fuel with
  | O => []
  | S fuel =>
      match strtok sep ctx with
      | None => []
      | Some (tok, ctx) => tok :: tokens_fuel fuel sep ctx
      end
  end.
Definition tokens (sep : Z → bool) (ctx : text) : list text :=
  tokens_fuel (length ctx) sep ctx.

(** ** Numbers *)

(** The digits of [s] from the left, as long as they are digits of [base]. *)
Fixpoint accumulate (base acc : Z) (s : text) : Z :=
  match s with
  | [] => acc
  | c :: s =>
      match digit_value c with
      | Some d => if d <? base then accumulate base (base * acc + d) s else acc
      | None => acc
      end
  end.

(** A [0x] prefix counts only with a hexadecimal digit behind it. *)
Definition hex_prefix (s : text) : bool :=
  match s with
  | z :: x :: d :: _ => (z =? 48) && ((x =? 120) || (x =? 88)) && isxdigit d
  | _ => false
  end.

Definition strip_prefix (base : Z) (s : text) : Z * text :=
  if ((base =? 0) || (base =? 16)) && hex_prefix s then (16, drop 2 s)
  else if base =? 0 then
    match s with
    | c :: _ => if c =? 48 then (8, s) else (10, s)
    | [] => (10, s)
    end
  else (base, s).

(** Sign and magnitude. *)
Definition read_number (base : Z) (s : text) : bool * Z :=
  let s := drop_while isspace s in
  let '(neg, s) :=
    match s with
    | c :: s' => if c =? 45 then (true, s') else if c =? 43 then (false, s') else (false, s)
    | [] => (false, s)
    end in
  let '(base, s) := strip_prefix base s in
  (neg, accumulate base 0 s).

(** [strtol] saturates at the limits of [long]. *)
Definition strtol (base : Z) (s : text) : Z :=
  let '(neg, n) := read_number base s in
  Z.max (- 2 ^ 63) (Z.min (2 ^ 63 - 1) (if neg then - n else n)).

(** [strtoul], [strtoull]: a minus sign negates modulo 2^64. *)
Definition strtoul (base : Z) (s : text) : Z :=
  let '(neg, n) := read_number base s in
  if 2 ^ 64 <=? n then 2 ^ 64 - 1 else if neg then u64 (- n) else n.

(** ** Printing *)

Definition digit_char (upper : bool) (d : Z) : Z :=
  if d <? 10 then d + 48 else if upper then d + 55 else d + 87.

(** The digits of [n], the last one first; 64 bits have at most 64 digits. *)
Fixpoint digits_rev (fuel : nat) (base : Z) (upper : bool) (n : Z) : text :=
  match fuel with
  | O => []
  | S fuel =>
      digit_char upper (n mod base)
      :: (if n / base =? 0 then [] else digits_rev fuel base upper (n / base))
  end.
Definition print_number (base : Z) (upper : bool) (n : Z) : text :=
  rev (digits_rev 64 base upper n).

(** The flag [0] with a width. *)
Definition pad0 (width : nat) (s : text) : text := replicate (width - length s) 48 ++ s.

(** [%012llo], [%02x], [%016llx], [%016llX], [%llx] and [%llu] *)
Definition fmt_012llo (n : Z) : text := pad0 12 (print_number 8 false n).
Definition fmt_02x (n : Z) : text := pad0 2 (print_number 16 false n).
Definition fmt_016llx (n : Z) : text := pad0 16 (print_number 16 false n).
Definition fmt_016llX (n : Z) : text := pad0 16 (print_number 16 true n).
Definition fmt_llx (n : Z) : text := print_number 16 false n.
Definition fmt_llu (n : Z) : text := print_number 10 false n.

(** ** Lines *)

(** At most [n] characters, up to and including a newline, and the rest. *)
Fixpoint take_line (n : nat) (s : text) : text * text :=
  match n, s with
  | O, _ => ([], s)
  | _, [] => ([], [])
  | S n, c :: s =>
      if c =? newline then ([c], s)
      else let '(a, b) := take_line n s in (c :: a, b)
  end.

(** [fgets (buf, size, fp)]; [None] is the result [NULL] at the end of the
    file. *)
Definition fgets (size : nat) (s : text) : option (text * text) :=
  match s with
  | [] => None
  | _ => Some (take_line (size - 1) s)
  end.
