(* ===== verification/CStringSpec.v ===== *)
(** * Lemmas on the text functions

    Tokens are found again in a line that was put together from them; a
    number that was printed is read back; a line of a text is found again. *)
From S2P Require Import Prelude CString.

(** ** Tokens *)

Lemma drop_while_length p s : (length (drop_while p s) ≤ length s)%nat.
Proof. induction s as [|c s IH]; simpl; [done|]. case_match; simpl; lia. Qed.

Lemma drop_while_head p s c r : drop_while p s = c :: r → p c = false.
Proof.
  induction s as [|d s IH]; simpl; [done|]. destruct (p d) eqn:E; [done|]. by intros [= -> _].
Qed.

Lemma span_app p s : (span p s).1 ++ (span p s).2 = s.
Proof.
  induction s as [|c s IH]; simpl; [done|]. case_match; [|done].
  destruct (span p s) as [a b]. simpl in *. by f_equal.
Qed.

Lemma span_word p tok rest : forallb p tok = true →
  match rest with [] => True | c :: _ => p c = false end →
  span p (tok ++ rest) = (tok, rest).
Proof.
  intros Ht Hr. induction tok as [|c tok IH]; simpl in *.
  - destruct rest as [|c r]; [done|]. simpl. by rewrite Hr.
  - apply andb_true_iff in Ht as [-> Ht]. by rewrite IH.
Qed.

(** A token and what is left behind it are shorter than the text. *)
Lemma strtok_shorter sep ctx tok rest : strtok sep ctx = Some (tok, rest) →
  (0 < length tok)%nat ∧ (length tok + length rest ≤ length ctx)%nat ∧
  (rest = [] ∨ length tok + length rest < length ctx)%nat.
Proof.
  unfold strtok. destruct (drop_while sep ctx) as [|c s] eqn:E; [done|].
  pose proof (drop_while_length sep ctx) as Hl. rewrite E in Hl.
  pose proof (drop_while_head _ _ _ _ E) as Hc.
  pose proof (span_app (λ c, negb (sep c)) (c :: s)) as Hs. revert Hs. simpl. rewrite Hc. simpl.
  destruct (span _ s) as [a b]. simpl. intros [= Hs] [= <- <-].
  assert (length (a ++ b) = length s) as Hlen by (by rewrite Hs). rewrite length_app in Hlen.
  simpl in *. rewrite length_drop. split_and!; [lia..|]. destruct b; simpl in *; [by left|right; lia].
Qed.

Lemma tokens_fuel_enough sep n k ctx : (length ctx ≤ n)%nat → (length ctx ≤ k)%nat →
  tokens_fuel n sep ctx = tokens_fuel k sep ctx.
Proof.
  revert k ctx. induction n as [|n IH]; intros k ctx Hn Hk.
  { destruct ctx; [|simpl in *; lia]. by destruct k. }
  destruct k as [|k]; [destruct ctx; [done|simpl in *; lia]|].
  simpl. destruct (strtok sep ctx) as [[tok rest]|] eqn:E; [|done].
  apply strtok_shorter in E. f_equal. apply IH; lia.
Qed.

(** The tokens are those of repeated calls. *)
Lemma tokens_eq sep ctx : tokens sep ctx
  = match strtok sep ctx with None => [] | Some (tok, rest) => tok :: tokens sep rest end.
Proof.
  unfold tokens. destruct ctx as [|c ctx]; [done|]. cbn [length tokens_fuel].
  destruct (strtok sep (c :: ctx)) as [[tok rest]|] eqn:E; [|done].
  apply strtok_shorter in E as (? & ? & ?). simpl in *.
  f_equal. apply tokens_fuel_enough; lia.
Qed.

(** [k] tokens need [k] characters and [k - 1] separators. *)
Lemma tokens_count sep ctx : (2 * length (tokens sep ctx) ≤ length ctx + 1)%nat.
Proof.
  induction ctx as [ctx IH] using (induction_ltof1 _ (@length Z)). unfold ltof in IH.
  rewrite tokens_eq. destruct (strtok sep ctx) as [[tok rest]|] eqn:E; [|simpl; lia].
  apply strtok_shorter in E as (? & ? & [->|?]); simpl; [unfold tokens; simpl; lia|].
  pose proof (IH rest ltac:(lia)). lia.
Qed.

(** A word: at least one character, and no separator. *)
Definition word (sep : Z → bool) (tok : text) : Prop :=
  tok ≠ [] ∧ forallb (λ c, negb (sep c)) tok = true.

Lemma strtok_word sep tok c rest : word sep tok → sep c = true →
  strtok sep (tok ++ c :: rest) = Some (tok, rest).
Proof.
  intros [Hne Hw] Hc. destruct tok as [|d tok]; [done|]. unfold strtok.
  pose proof Hw as Hw'. simpl in Hw'. apply andb_true_iff in Hw' as [Hd _].
  cbn [drop_while app]. apply negb_true_iff in Hd. rewrite Hd.
  rewrite app_comm_cons, (span_word _ (d :: tok) (c :: rest)); [done|done|].
  by rewrite Hc.
Qed.

Lemma strtok_skip sep c ctx : sep c = true → strtok sep (c :: ctx) = strtok sep ctx.
Proof. intros Hc. unfold strtok. simpl. by rewrite Hc. Qed.

Lemma tokens_skip sep c ctx : sep c = true → tokens sep (c :: ctx) = tokens sep ctx.
Proof. intros Hc. by rewrite tokens_eq, strtok_skip, <-tokens_eq. Qed.

Lemma tokens_word sep tok c rest : word sep tok → sep c = true →
  tokens sep (tok ++ c :: rest) = tok :: tokens sep (c :: rest).
Proof. intros Hw Hc. rewrite tokens_eq, strtok_word by done. by rewrite tokens_skip. Qed.

(** Words, each with a separator in front, are the tokens of the line. *)
Lemma tokens_words sep c e words : sep c = true → sep e = true → Forall (word sep) words →
  tokens sep (flat_map (cons c) words ++ [e]) = words.
Proof.
  intros Hc He. induction 1 as [|w ws Hw Hws IH].
  { simpl. by rewrite tokens_skip. }
  cbn [flat_map]. rewrite <-!app_assoc. cbn [app]. rewrite tokens_skip by done.
  rewrite <-IH at 2. destruct ws as [|w' ws].
  - simpl. by rewrite tokens_word.
  - cbn [flat_map]. rewrite <-!app_assoc. cbn [app]. by rewrite tokens_word.
Qed.

(** ** Numbers *)

Definition is_digit (base c : Z) : Prop := ∃ d, digit_value c = Some d ∧ 0 ≤ d < base.

Lemma accumulate_snoc base acc s c d : Forall (is_digit base) s →
  digit_value c = Some d → d < base →
  accumulate base acc (s ++ [c]) = base * accumulate base acc s + d.
Proof.
  intros Hs Hc Hd. revert acc. induction Hs as [|x s (v & Hv & Hb) _ IH]; intros acc; simpl.
  - rewrite Hc. by rewrite (proj2 (Z.ltb_lt _ _) Hd).
  - rewrite Hv. rewrite (proj2 (Z.ltb_lt v base)) by lia. apply IH.
Qed.

Lemma accumulate_zeros base k s : 0 < base →
  accumulate base 0 (replicate k 48 ++ s) = accumulate base 0 s.
Proof.
  intros Hb. induction k as [|k IH]; [done|]. cbn [replicate app accumulate].
  change (digit_value 48) with (Some 0). cbv beta iota.
  rewrite (proj2 (Z.ltb_lt 0 base)), Z.mul_0_r by lia. apply IH.
Qed.

Lemma digit_char_value upper base d : 0 ≤ d < base → base ≤ 16 →
  digit_value (digit_char upper d) = Some d.
Proof.
  intros. unfold digit_char, digit_value, between.
  destruct (Z.ltb_spec d 10); [|destruct upper].
  all: repeat (case_match; [|]); try (f_equal; lia); lia.
Qed.

(** The printed digits are digits, and stand for the number. *)
Lemma digits_rev_value fuel base upper n : 2 ≤ base ≤ 16 → 0 ≤ n < base ^ Z.of_nat fuel →
  Forall (is_digit base) (digits_rev fuel base upper n) ∧
  accumulate base 0 (rev (digits_rev fuel base upper n)) = n ∧
  (fuel ≠ 0%nat → digits_rev fuel base upper n ≠ []).
Proof.
  intros Hb. revert n. induction fuel as [|fuel IH]; intros n Hn.
  { change (base ^ Z.of_nat 0) with 1 in Hn. simpl. split_and!; [constructor|lia|intros []; done]. }
  cbn [digits_rev]. pose proof (Z.mod_pos_bound n base ltac:(lia)).
  assert (is_digit base (digit_char upper (n mod base))) as Hd.
  { exists (n mod base). split; [apply (digit_char_value _ base); lia|done]. }
  pose proof (Z.div_mod n base ltac:(lia)) as Hdm.
  destruct (Z.eqb_spec (n / base) 0) as [E|E].
  - split_and!; [by constructor| |done]. simpl.
    rewrite (digit_char_value _ base) by lia. rewrite (proj2 (Z.ltb_lt _ _)) by lia. lia.
  - destruct (IH (n / base)) as (Hf & Hv & _).
    { split; [apply Z.div_pos; lia|]. apply Z.div_lt_upper_bound; [lia|].
      rewrite <-Z.pow_succ_r, <-Nat2Z.inj_succ by lia. lia. }
    split_and!; [by constructor| |done]. cbn [rev].
    rewrite (accumulate_snoc _ _ _ _ (n mod base));
      [|by apply Forall_rev|apply (digit_char_value _ base); lia|lia].
    rewrite Hv. lia.
Qed.

(** A padded number: its characters and its value. *)
Definition padded (base : Z) (width : nat) (n : Z) : text :=
  pad0 width (print_number base false n).

Lemma padded_value base width n : 2 ≤ base ≤ 16 → 0 ≤ n < 2 ^ 64 →
  padded base width n ≠ [] ∧ Forall (is_digit base) (padded base width n) ∧
  accumulate base 0 (padded base width n) = n.
Proof.
  intros Hb Hn.
  destruct (digits_rev_value 64 base false n Hb) as (Hf & Hv & Hne).
  { split; [lia|]. apply Z.lt_le_trans with (2 ^ 64); [lia|].
    apply Z.pow_le_mono_l. lia. }
  unfold padded, pad0, print_number. split_and!.
  - intros E. apply app_eq_nil in E as [_ E]. apply (f_equal (@rev Z)) in E.
    rewrite rev_involutive in E. by apply Hne.
  - apply Forall_app. split; [|by apply Forall_rev].
    apply Forall_replicate. exists 0. split; [done|lia].
  - rewrite accumulate_zeros by lia. done.
Qed.

(** The characters of a number up to base 16. *)
Lemma is_digit_cases base c : base ≤ 16 → is_digit base c →
  48 ≤ c ≤ 57 ∨ 65 ≤ c ≤ 70 ∨ 97 ≤ c ≤ 102.
Proof.
  intros Hb (d & Hd & ?). unfold digit_value, between in Hd.
  repeat (case_match; simplify_eq); lia.
Qed.

Lemma is_digit_octal c : is_digit 8 c → 48 ≤ c ≤ 55.
Proof.
  intros (d & Hd & ?). unfold digit_value, between in Hd.
  repeat (case_match; simplify_eq); lia.
Qed.

Lemma isxdigit_digit c : is_digit 16 c → isxdigit c = true.
Proof. intros (d & Hd & ?). unfold isxdigit. rewrite Hd. apply Z.ltb_lt. lia. Qed.

Lemma accumulate_nonneg base acc s : 0 ≤ base → 0 ≤ acc → 0 ≤ accumulate base acc s.
Proof.
  intros Hb. revert acc. induction s as [|c s IH]; intros acc Ha; simpl; [done|].
  destruct (digit_value c) as [d|] eqn:E; [|done]. case_match; [|done]. apply IH.
  unfold digit_value, between in E. repeat (case_match; simplify_eq); nia.
Qed.

Lemma hex_prefix_false base c s : base ≤ 16 → Forall (is_digit base) s →
  hex_prefix (c :: s) = false.
Proof.
  intros Hb Hs. destruct Hs as [|x s Hx Hs]; [done|]. destruct Hs as [|y s _ _]; [done|].
  pose proof (is_digit_cases base x Hb Hx). simpl.
  assert ((x =? 120) = false) as -> by lia. assert ((x =? 88) = false) as -> by lia.
  by rewrite andb_false_r.
Qed.

(** [strtol] of plain digits. *)
Lemma strtol_digits base s : 2 ≤ base ≤ 16 → Forall (is_digit base) s →
  strtol base s = Z.min (2 ^ 63 - 1) (accumulate base 0 s).
Proof.
  intros Hb Hs. pose proof (accumulate_nonneg base 0 s ltac:(lia) ltac:(lia)).
  destruct Hs as [|c s Hc Hs].
  { unfold strtol, read_number, strip_prefix. simpl. repeat case_match; simplify_eq/=; lia. }
  pose proof (is_digit_cases base c ltac:(lia) Hc) as Hcc.
  unfold strtol, read_number.
  assert (drop_while isspace (c :: s) = c :: s) as ->.
  { simpl. unfold isspace, between. case_match; [lia|done]. }
  assert ((c =? 45) = false) as -> by lia. assert ((c =? 43) = false) as -> by lia.
  assert (hex_prefix (c :: s) = false) as Hh by (apply (hex_prefix_false base); done || lia).
  unfold strip_prefix. rewrite Hh, andb_false_r.
  assert ((base =? 0) = false) as -> by lia. lia.
Qed.

Lemma strtol_padded base width n : 2 ≤ base ≤ 16 → 0 ≤ n < 2 ^ 63 →
  strtol base (padded base width n) = n.
Proof.
  intros Hb Hn. destruct (padded_value base width n Hb) as (Hne & Hf & Hv); [lia|].
  rewrite strtol_digits, Hv by done. lia.
Qed.

(** The first digit of a number that is not 0 is not 0. *)
Lemma digits_rev_last fuel base upper n : 2 ≤ base ≤ 16 → 0 < n < base ^ Z.of_nat fuel →
  ∃ l c, digits_rev fuel base upper n = l ++ [c] ∧ c ≠ 48.
Proof.
  intros Hb. revert n. induction fuel as [|fuel IH]; intros n Hn.
  { change (base ^ Z.of_nat 0) with 1 in Hn. lia. }
  cbn [digits_rev]. pose proof (Z.div_mod n base ltac:(lia)).
  pose proof (Z.mod_pos_bound n base ltac:(lia)).
  destruct (Z.eqb_spec (n / base) 0) as [E|E].
  - exists [], (digit_char upper (n mod base)). split; [done|]. unfold digit_char.
    repeat case_match; lia.
  - destruct (IH (n / base)) as (l & c & -> & Hc).
    { pose proof (Z.div_pos n base ltac:(lia) ltac:(lia)). split; [lia|].
      apply Z.div_lt_upper_bound; [lia|].
      rewrite <-Z.pow_succ_r, <-Nat2Z.inj_succ by lia. lia. }
    by exists (digit_char upper (n mod base) :: l), c.
Qed.

(** A number in decimal is read back with base 0. *)
Lemma read_decimal n : 0 ≤ n < 2 ^ 64 → read_number 0 (fmt_llu n) = (false, n).
Proof.
  intros Hn. destruct (padded_value 10 0 n ltac:(lia) Hn) as (Hne & Hf & Hv).
  change (padded 10 0 n) with (fmt_llu n) in *.
  destruct (Z.eq_dec n 0) as [->|Hnz]; [done|].
  destruct (digits_rev_last 64 10 false n ltac:(lia)) as (l & c & El & Hc48).
  { split; [lia|]. apply Z.lt_le_trans with (2 ^ 64); [lia|]. by apply Z.pow_le_mono_l. }
  assert (fmt_llu n = c :: rev l) as E.
  { unfold fmt_llu, print_number. by rewrite El, rev_app_distr. }
  rewrite E in *. clear El Hne. pose proof (Forall_inv Hf) as Hc.
  pose proof (Forall_inv_tail Hf) as Hl.
  pose proof (is_digit_cases 10 c ltac:(lia) Hc). unfold read_number.
  assert (drop_while isspace (c :: rev l) = c :: rev l) as ->.
  { simpl. unfold isspace, between. case_match; [lia|done]. }
  assert ((c =? 45) = false) as -> by lia. assert ((c =? 43) = false) as -> by lia.
  unfold strip_prefix. rewrite (hex_prefix_false 10) by (done || lia). cbn [Z.eqb orb andb].
  assert ((c =? 48) = false) as -> by lia. by rewrite Hv.
Qed.

(** The limits of what the functions return. *)
Lemma strtol_range base s : srange 64 (strtol base s).
Proof. unfold srange, strtol. destruct (read_number base s). simpl. lia. Qed.

Lemma read_number_nonneg base s : 0 ≤ base → 0 ≤ (read_number base s).2.
Proof.
  intros Hb. unfold read_number.
  assert (∀ s, 0 ≤ (strip_prefix base s).1) as Hp.
  { intros t. unfold strip_prefix. repeat case_match; simpl; lia. }
  repeat case_match; simpl; match goal with H : strip_prefix base ?t = _ |- _ =>
    specialize (Hp t); rewrite H in Hp end; by apply accumulate_nonneg.
Qed.

Lemma strtoul_range base s : 0 ≤ base → urange 64 (strtoul base s).
Proof.
  intros Hb. pose proof (read_number_nonneg base s Hb) as Hn. unfold strtoul.
  destruct (read_number base s) as [neg n]. simpl in Hn.
  destruct (Z.leb_spec (2 ^ 64) n); [split; lia|]. destruct neg; [width|]. split; lia.
Qed.

(** ** Lines *)

Lemma take_line_app n s : (take_line n s).1 ++ (take_line n s).2 = s.
Proof.
  revert s. induction n as [|n IH]; intros [|c s]; simpl; try done.
  case_match; [done|]. specialize (IH s). destruct (take_line n s). simpl in *. by f_equal.
Qed.

Lemma take_line_length n s : (length (take_line n s).1 ≤ n)%nat.
Proof.
  revert s. induction n as [|n IH]; intros [|c s]; simpl; try lia.
  case_match; simpl; [lia|]. specialize (IH s). destruct (take_line n s). simpl in *. lia.
Qed.

Lemma fgets_line size s buf rest : fgets size s = Some (buf, rest) →
  (length buf ≤ size - 1)%nat ∧ buf ++ rest = s ∧
  (1 < size → length rest < length s)%nat.
Proof.
  unfold fgets. destruct s as [|c s]; [done|]. intros [= E].
  pose proof (take_line_app (size - 1) (c :: s)) as Ha.
  pose proof (take_line_length (size - 1) (c :: s)) as Hl. rewrite E in Ha, Hl. simpl in Ha, Hl.
  split_and!; [done..|]. intros Hs. rewrite <-Ha, length_app.
  destruct buf as [|b buf]; [|simpl; lia]. exfalso.
  destruct (size - 1)%nat eqn:Es; [lia|]. simpl in E.
  destruct (c =? newline); [done|]. by destruct (take_line n s).
Qed.

(** A line that fits is read whole. *)
Lemma fgets_whole size l rest : (length l + 1 < size)%nat → newline ∉ l →
  fgets size (l ++ newline :: rest) = Some (l ++ [newline], rest).
Proof.
  intros Hl Hn. unfold fgets.
  assert (∀ n, (length l < n)%nat → take_line n (l ++ newline :: rest) = (l ++ [newline], rest))
    as Ht.
  { clear Hl. induction l as [|c l IH]; intros n Hl; (destruct n as [|n]; [simpl in Hl; lia|]).
    - simpl. done.
    - apply not_elem_of_cons in Hn as [Hc Hn]. cbn [app take_line].
      assert ((c =? newline) = false) as -> by (by apply Z.eqb_neq). rewrite IH; [done|done|].
      simpl in Hl. lia. }
  rewrite Ht by lia. by destruct l.
Qed.

Lemma cstr_id s : Forall (λ c, c ≠ 0) s → cstr s = s.
Proof.
  induction 1 as [|c s Hc _ IH]; simpl; [done|].
  rewrite (proj2 (Z.eqb_neq _ _) Hc). by f_equal.
Qed.

Lemma cstr_length s : (length (cstr s) ≤ length s)%nat.
Proof. induction s as [|c s IH]; simpl; [done|]. case_match; simpl; lia. Qed.

Lemma cstr_Forall (P : Z → Prop) s : Forall P s → Forall P (cstr s).
Proof. induction 1; simpl; [constructor|]. case_match; constructor; done. Qed.
