(* ===== verification/Commands.v ===== *)
(** * The command interpreter, [riscv_sim_framework.c] lines 429-434, 512-657,
    677-971

    [load] and [dump] with their hexadecimal text format, [execute_line],
    and the loop of [main].  The state is the machine and the outside
    world: the files by name, what is left of standard input, and what has
    been written to standard output and to descriptor 3.  Messages on
    standard error are values of [diagnostic].

    A local variable that the C code reads uninitialised is an argument:
    the locals of the simulator loop, and [offset] in a binary load. *)
From Stdlib Require Import String.
From S2P Require Import Prelude Memory Registers Instruction Execute.
From S2P Require Import Pipeline Simulator CString.

Inductive diagnostic : Type :=
  | Cannot_open (filename : text)
  | Loading (filename : option text) (addr : Z) (is_hex : bool)
  | Bad_offset (lineno : Z)
  | Bad_byte (lineno : Z)
  | Binary_stdin
  | Binary_stdout
  | Binary_dump
  | Dumping (filename : option text) (addr length : Z) (is_hex : bool)
  | Usage (cmd : string)
  | Address_out_of_range (address : Z)
  | Load_failed (filename : option text)
  | Dump_out_of_range (address length : Z)
  | Dump_failed (filename : option text)
  | Bad_register (cmd : string) (reg_num : Z)
  | No_value
  | Bad_steps (n_steps : Z)
  | Outside_memory (cmd : string) (value : Z)
  | Unaligned_value (cmd : string) (value : Z)
  | Unrecognized (cmd : text).

Record world : Type := mkWorld {
  machine : sim;
  files : gmap text text;
  stdin : text;
  stdout : text;
  fd3 : text;
  stderr : list diagnostic;
  (** the static [buf] of [dump_data_to_file] *)
  dump_buf : list Z;
}.

Definition set_machine (s : sim) (w : world) : world :=
  mkWorld s (files w) (stdin w) (stdout w) (fd3 w) (stderr w) (dump_buf w).
Definition set_files (f : gmap text text) (w : world) : world :=
  mkWorld (machine w) f (stdin w) (stdout w) (fd3 w) (stderr w) (dump_buf w).
Definition set_stdin (i : text) (w : world) : world :=
  mkWorld (machine w) (files w) i (stdout w) (fd3 w) (stderr w) (dump_buf w).
Definition put_stdout (o : text) (w : world) : world :=
  mkWorld (machine w) (files w) (stdin w) (stdout w ++ o) (fd3 w) (stderr w) (dump_buf w).
Definition put_fd3 (o : text) (w : world) : world :=
  mkWorld (machine w) (files w) (stdin w) (stdout w) (fd3 w ++ o) (stderr w) (dump_buf w).
Definition report (d : diagnostic) (w : world) : world :=
  mkWorld (machine w) (files w) (stdin w) (stdout w) (fd3 w) (stderr w ++ [d]) (dump_buf w).
Definition set_dump_buf (b : list Z) (w : world) : world :=
  mkWorld (machine w) (files w) (stdin w) (stdout w) (fd3 w) (stderr w) b.

Definition SIM_MAX_LINE : nat := 4096.

(** [cmdsep] and the [sep] of [load_data_from_file]. *)
Definition cmdsep (c : Z) : bool := (c =? 32) || (c =? 9) || (c =? 10) || (c =? 13).
Definition loadsep (c : Z) : bool := (c =? 32) || (c =? 9) || (c =? 10).

Definition verify_base (s : text) (base : Z) : bool :=
  let s :=
    match s with
    | z :: x :: s' =>
        if (base =? 16) && (z =? 48) && ((x =? 120) || (x =? 88)) then s' else s
    | _ => s
    end in
  forallb (λ c, if base =? 8 then between 48 55 c
                else if base =? 16 then isxdigit c else true) s.

(** ** Load *)

Definition LOAD_BUF : nat := 4096.
Definition MEMBUF : nat := 2048.

(** The loop over the bytes of a line; [n] of them are in [membuf].  [None]
    is a bad byte.  [b] is an [int]. *)
Fixpoint line_bytes (n : nat) (toks : list text) : outcome (option (list Z)) :=
  match toks with
  | [] => Ok (Some [])
  | tok :: toks =>
      let b := i32 (strtol 16 tok) in
      if (b <? 0) || (255 <? b) || negb (verify_base tok 16) then Ok None
      else if decide (n < MEMBUF)%nat then
        rest ← line_bytes (S n) toks;
        Ok (option_map (cons b) rest)
      else Undef
  end.

(** The lines of a hexadecimal file.  The result is the value returned, the
    input that is left, the messages and memory.  [fuel] is the length of
    the input ([load_hex_eq]). *)
Fixpoint load_hex_fuel (fuel : nat) (lineno addr : Z) (input : text) (m : memsys)
    : outcome (bool * text * list diagnostic * memsys) :=
  match fgets (LOAD_BUF - 1) input, fuel with
  | None, _ | _, O => Ok (true, input, [], m)
  | Some (buf, input), S fuel =>
      let lineno := lineno + 1 in
      match strtok loadsep (cstr buf) with
      | None => load_hex_fuel fuel lineno addr input m
      | Some (tok, ctx) =>
          if negb (verify_base tok 8) then Ok (false, input, [Bad_offset lineno], m)
          else
            let offset := u64 (strtol 8 tok) in
            bs ← line_bytes 0 (tokens loadsep ctx);
            match bs with
            | None => Ok (false, input, [Bad_byte lineno], m)
            | Some [] => load_hex_fuel fuel lineno addr input m
            | Some bs =>
                '(_, m) ← memory_load bs (u64 (addr + offset)) m;
                load_hex_fuel fuel lineno addr input m
            end
      end
  end.
Definition load_hex (addr : Z) (input : text) (m : memsys)
    : outcome (bool * text * list diagnostic * memsys) :=
  load_hex_fuel (length input) 0 addr input m.

(** The [do ... while] loop of the binary load, 4096 bytes at a time. *)
Fixpoint load_binary_fuel (fuel : nat) (addr total : Z) (input : list Z) (m : memsys)
    : outcome memsys :=
  match fuel, input with
  | S fuel, _ :: _ =>
      let chunk := take LOAD_BUF input in
      '(_, m) ← memory_load chunk (u64 (addr + total)) m;
      load_binary_fuel fuel addr (u64 (total + Z.of_nat (length chunk)))
        (drop LOAD_BUF input) m
  | _, _ => Ok m
  end.
Definition load_binary (addr total : Z) (input : list Z) (m : memsys) : outcome memsys :=
  load_binary_fuel (length input) addr total input m.

(** [offset] is the uninitialised variable.  A failed load from standard
    input closes it. *)
Definition load_data_from_file (filename : option text) (is_hex : bool) (addr offset : Z)
    (w : world) : outcome (bool * world) :=
  let fp := match filename with None => Some (stdin w) | Some f => files w !! f end in
  match fp with
  | None => Ok (false, report (Cannot_open (default [] filename)) w)
  | Some input =>
      let w := report (Loading filename addr is_hex) w in
      if is_hex then
        '(ok, rest, ds, m) ← load_hex addr input (msys (machine w));
        let w := set_machine (set_msys m (machine w)) (foldl (flip report) w ds) in
        let w := match filename with
                 | None => set_stdin (if (ok : bool) then rest else []) w
                 | Some _ => w
                 end in
        Ok (ok, w)
      else
        match filename with
        | None => Ok (false, report Binary_stdin w)
        | Some _ =>
            m ← load_binary addr offset input (msys (machine w));
            Ok (true, set_machine (set_msys m (machine w)) w)
        end
  end.

(** ** Dump *)

Definition bpl : Z := 16.

(** One line: the address in octal and up to 16 bytes in hexadecimal.  When
    [memory_dump] refuses, [buf] keeps what it held. *)
Definition dump_line (addr offset length : Z) (buf : list Z) (m : memsys)
    : outcome (text * list Z) :=
  let actual_bytes := if length - offset <? bpl then length - offset else bpl in
  bs ← memory_dump (u64 (addr + offset)) actual_bytes m;
  buf ← patch buf (default [] bs);
  Ok (fmt_012llo (u64 (addr + offset))
      ++ flat_map (λ b, 32 :: fmt_02x b) (take (Z.to_nat actual_bytes) buf)
      ++ [newline], buf).

(** [n] lines from [offset] on. *)
Fixpoint dump_lines (n : nat) (addr offset length : Z) (buf : list Z) (m : memsys)
    : outcome (text * list Z) :=
  match n with
  | O => Ok ([], buf)
  | S n =>
      '(line, buf) ← dump_line addr offset length buf m;
      '(rest, buf) ← dump_lines n addr (offset + bpl) length buf m;
      Ok (line ++ rest, buf)
  end.

Section world_access.
(** [fopen (filename, "w")] succeeds. *)
Variable writable : text → bool.

Definition dump_data_to_file (filename : option text) (is_hex : bool) (addr length : Z)
    (w : world) : outcome (bool * world) :=
  let opened :=
    match filename with
    | None => Some w
    | Some f => if writable f then Some (set_files (<[f := []]> (files w)) w) else None
    end in
  match opened with
  | None => Ok (false, report (Cannot_open (default [] filename)) w)
  | Some w =>
      let w := report (Dumping filename addr length is_hex) w in
      if is_hex then
        '(t, buf) ← dump_lines (Z.to_nat ((length + (bpl - 1)) / bpl)) addr 0 length
                      (dump_buf w) (msys (machine w));
        let w := set_dump_buf buf w in
        Ok (true, match filename with
                  | None => put_stdout t w
                  | Some f => set_files (<[f := t]> (files w)) w
                  end)
      else
        Ok (false, report (match filename with None => Binary_stdout | Some _ => Binary_dump end) w)
  end.

(** ** Commands *)

(** The next token and what is left; a call that finds none leaves nothing. *)
Definition next_token (ctx : text) : option text * text :=
  match strtok cmdsep ctx with
  | Some (tok, ctx) => (Some tok, ctx)
  | None => (None, [])
  end.

Definition check_for_hex (ctx : text) : bool * option text * text :=
  let '(token, ctx) := next_token ctx in
  match token with
  | Some t =>
      if same_word t (codes "/x") then
        let '(token, ctx) := next_token ctx in (true, token, ctx)
      else (false, token, ctx)
  | None => (false, token, ctx)
  end.

Definition abi_regs : list string :=
  ["zero"; "ra"; "sp"; "gp"; "tp"; "t0"; "t1"; "t2"; "s0"; "s1"; "a0"; "a1"; "a2"; "a3"; "a4";
   "a5"; "a6"; "a7"; "s2"; "s3"; "s4"; "s5"; "s6"; "s7"; "s8"; "s9"; "s10"; "s11"; "t3"; "t4";
   "t5"; "t6"]%string.

(** [test_dump_reg] and [debug_dump_reg]: the registers that are not 0. *)
Definition dump_reg (r : regfile) : text :=
  concat (imap (λ i name,
    let val := register_read_one (Z.of_nat i) r in
    if nonzero val
    then codes name ++ codes ": 0x" ++ fmt_016llX val ++ [newline] else []) abi_regs).

Definition cmd_load (offset : Z) (ctx : text) (w : world) : outcome world :=
  let '(is_hex, token, ctx) := check_for_hex ctx in
  match token with
  | None => Ok (report (Usage "load") w)
  | Some t =>
      if negb (verify_base t 16) then Ok (report (Usage "load") w)
      else
        let address := u64 (strtol 0 t) in
        if memory_size <? address then Ok (report (Address_out_of_range address) w)
        else
          let '(token, _) := next_token ctx in
          '(ok, w) ← load_data_from_file token is_hex address offset w;
          Ok (if (ok : bool) then w else report (Load_failed token) w)
  end.

Definition cmd_dump (ctx : text) (w : world) : outcome world :=
  let '(is_hex, token, ctx) := check_for_hex ctx in
  match token with
  | None => Ok (report (Usage "dump") w)
  | Some t =>
      let address := u64 (strtol 0 t) in
      let '(token, ctx) := next_token ctx in
      match token with
      | None => Ok (report (Usage "dump") w)
      | Some t =>
          let length := u64 (strtol 0 t) in
          if (memory_size <? u64 (address + length)) || (memory_size <? length)
          then Ok (report (Dump_out_of_range address length) w)
          else
            let '(token, _) := next_token ctx in
            '(ok, w) ← dump_data_to_file token is_hex address length w;
            Ok (if (ok : bool) then w else report (Dump_failed token) w)
      end
  end.

(** Without a register number the usage is printed and [strtol] is called
    with [NULL]. *)
Definition cmd_readreg (ctx : text) (w : world) : outcome world :=
  let '(is_hex, token, _) := check_for_hex ctx in
  match token with
  | None => Undef
  | Some t =>
      let reg_num := u64 (strtol 0 t) in
      if RISCV_NUM_REGISTERS <=? reg_num then Ok (report (Bad_register "readreg" reg_num) w)
      else
        let v := register_read_one reg_num (regs (machine w)) in
        Ok (put_stdout
              (codes "R" ++ fmt_llu reg_num
               ++ (if is_hex then codes " = 0x" ++ fmt_016llx v else codes " = " ++ fmt_llu v)
               ++ [newline]) w)
  end.

Definition cmd_writereg (ctx : text) (w : world) : outcome world :=
  let '(token, ctx) := next_token ctx in
  match token with
  | None => Ok (report (Usage "writereg") w)
  | Some t =>
      let reg_num := strtoul 0 t in
      if RISCV_NUM_REGISTERS <=? reg_num then Ok (report (Bad_register "writereg" reg_num) w)
      else
        let '(token, _) := next_token ctx in
        match token with
        | None => Ok (report No_value w)
        | Some t =>
            let value := u64 (strtol 0 t) in
            let s := machine w in
            r ← register_store reg_num value (regs s);
            Ok (set_machine (set_regs r s) w)
        end
  end.

Definition MAX_STEPS : Z := 100000000.

Definition cmd_run (l : locals) (ctx : text) (w : world) : outcome world :=
  let '(token, _) := next_token ctx in
  match token with
  | None => Ok (report (Usage "run") w)
  | Some t =>
      let n_steps := u64 (strtol 0 t) in
      if (n_steps <? 1) || (MAX_STEPS <? n_steps) then Ok (report (Bad_steps n_steps) w)
      else
        '(s, _) ← simulator_execute_instructions (Z.to_nat n_steps) (machine w) l;
        Ok (set_machine s w)
  end.

(** A value outside memory is reported and used all the same. *)
Definition cmd_setpc (ctx : text) (w : world) : outcome world :=
  let '(token, _) := next_token ctx in
  match token with
  | None => Ok (report (Usage "setpc") w)
  | Some t =>
      let prog_start := strtoul 0 t in
      let w := if memory_size <? prog_start then report (Outside_memory "setpc" prog_start) w
               else w in
      if nonzero (prog_start mod 4) then Ok (report (Unaligned_value "setpc" prog_start) w)
      else Ok (set_machine (set_pc prog_start (machine w)) w)
  end.

Definition cmd_setptbr (ctx : text) (w : world) : outcome world :=
  let '(token, _) := next_token ctx in
  match token with
  | None => Ok (report (Usage "setptbr") w)
  | Some t =>
      let value := strtoul 0 t in
      let w := if memory_size <? value then report (Outside_memory "setptbr" value) w else w in
      if nonzero (value mod MEMORY_PAGE_SIZE)
      then Ok (report (Unaligned_value "setptbr" value) w)
      else Ok (set_machine (set_ptbr value (machine w)) w)
  end.

Definition print_line (pre : string) (t : text) : text := codes pre ++ t ++ [newline].

(** [execute_line]: the result is false for [exit].  [l] and [offset] are
    the indeterminate locals of [run] and [load]. *)
Definition execute_line (l : locals) (offset : Z) (line : text) (w : world)
    : outcome (bool * world) :=
  let goes_on (o : outcome world) : outcome (bool * world) := w ← o; Ok (true, w) in
  let '(cmd, ctx) := next_token (take (SIM_MAX_LINE - 1) line) in
  match cmd with
  | None => Ok (true, w)
  | Some cmd =>
      let named (name : string) := same_word (codes name) cmd in
      let s := machine w in
      let m := msys s in
      if named "load"%string then goes_on (cmd_load offset ctx w)
      else if named "test_dump_reg"%string then Ok (true, put_fd3 (dump_reg (regs s)) w)
      else if named "debug_dump_reg"%string then Ok (true, put_stdout (dump_reg (regs s)) w)
      else if named "dump"%string then goes_on (cmd_dump ctx w)
      else if named "readreg"%string then goes_on (cmd_readreg ctx w)
      else if named "writereg"%string then goes_on (cmd_writereg ctx w)
      else if named "run"%string then goes_on (cmd_run l ctx w)
      else if named "setpc"%string then goes_on (cmd_setpc ctx w)
      else if named "setptbr"%string then goes_on (cmd_setptbr ctx w)
      else if named "initialize"%string then
        Ok (true, set_machine (initialize_state s)
                    (put_stdout (print_line "Setting state registers, counters, and PC to 0!" []) w))
      else if named "getpc"%string then
        Ok (true, put_stdout (print_line "PC: 0x" (fmt_llx (program_counter s))) w)
      else if named "getcycles"%string then
        Ok (true, put_stdout (print_line "Cycles: " (fmt_llu (cycle_counter m))) w)
      else if named "memorystats"%string then
        Ok (true, put_stdout
                    (print_line "Read operations: " (fmt_llu (read_counter m))
                     ++ print_line "Read bytes: " (fmt_llu (read_bytes m))
                     ++ print_line "Write operations: " (fmt_llu (write_counter m))
                     ++ print_line "Write bytes: " (fmt_llu (write_bytes m))) w)
      else if named "exit"%string then Ok (false, w)
      else Ok (true, report (Unrecognized cmd) w)
  end.

(** ** The loop of [main] *)

(** The indeterminate values for the commands to come. *)
Variable junk : nat → locals * Z.

(** [readline]: the prompt and a line of standard input of at most 8190
    characters. *)
Definition READLINE_BUF : nat := 2 * 4096.
Definition prompt (s : sim) : text :=
  codes "-RISCV (PC=0x" ++ fmt_llx (program_counter s) ++ codes ")> ".

(** The interactive loop ends with [exit (0)] at the end of the input, and
    the program returns after the command [exit]; [fuel] bounds the number
    of lines.  [None] says that the fuel ran out. *)
Fixpoint interactive (fuel : nat) (w : world) : outcome (option world) :=
  match fuel with
  | O => Ok None
  | S fuel =>
      let w := put_stdout (prompt (machine w)) w in
      match fgets (READLINE_BUF - 1) (stdin w) with
      | None => Ok (Some (put_stdout [newline] w))
      | Some (cur_line, rest) =>
          let '(l, offset) := junk fuel in
          '(more, w) ← execute_line l offset (cstr cur_line) (set_stdin rest w);
          if (more : bool) then interactive fuel w else Ok (Some w)
      end
  end.

(** The loop over a command file, [linebuf] of 1024 characters. *)
Fixpoint batch (fuel : nat) (cmd_fp : text) (w : world) : outcome (option world) :=
  match fuel with
  | O => Ok None
  | S fuel =>
      match fgets (1024 - 1) cmd_fp with
      | None => Ok (Some w)
      | Some (cur_line, rest) =>
          let '(l, offset) := junk fuel in
          '(more, w) ← execute_line l offset (cstr cur_line) w;
          if (more : bool) then batch fuel rest w else Ok (Some w)
      end
  end.

(** The options that [getopt] finds in the arguments, in their order. *)
Inductive argument : Type :=
  | Arg_f (optarg : text)
  | Arg_r (optarg : text)
  | Arg_w (optarg : text)
  | Arg_u
  | Arg_other.

Record settings : Type := mkSettings {
  cmd_file : option text;
  read_latency : Z;
  write_latency : Z;
  run_unit_tests : bool;
}.

(** A later option overrides an earlier one; an option that is not known, or
    a command file that does not open, ends the program with status 1. *)
Fixpoint getopts (args : list argument) (fs : gmap text text) (o : settings)
    : outcome settings :=
  match args with
  | [] => Ok o
  | Arg_f f :: args =>
      match fs !! f with
      | Some t => getopts args fs
                    (mkSettings (Some t) (read_latency o) (write_latency o) (run_unit_tests o))
      | None => Exit 1
      end
  | Arg_r t :: args =>
      getopts args fs
        (mkSettings (cmd_file o) (u64 (strtol 10 t)) (write_latency o) (run_unit_tests o))
  | Arg_w t :: args =>
      getopts args fs
        (mkSettings (cmd_file o) (read_latency o) (u64 (strtol 10 t)) (run_unit_tests o))
  | Arg_u :: args =>
      getopts args fs (mkSettings (cmd_file o) (read_latency o) (write_latency o) true)
  | Arg_other :: _ => Exit 1
  end.

(** [main], for files [fs] and standard input [input].  [unit_tests] is
    empty.  The fuel is one more than the characters to read: enough for
    every line ([interactive_total], [batch_total]). *)
Definition main (args : list argument) (fs : gmap text text) (input : text)
    : outcome (option world) :=
  o ← getopts args fs (mkSettings None 0 0 false);
  s ← start (read_latency o) (write_latency o);
  let w := mkWorld s fs input [] [] [] (replicate 4096 0) in
  if run_unit_tests o then Exit 0
  else
    match cmd_file o with
    | None => interactive (S (length input)) w
    | Some t => batch (S (length t)) t w
    end.
End world_access.
