(* ===== verification/CommandsSpec.v ===== *)
(** * What the command interpreter promises

    The hexadecimal loader does what the lines of a text say, up to the first
    wrong one; what [dump /x] writes,
    [load /x] reads back; every command keeps the invariant of the machine
    ([SessionSpec]: and so does a whole session). *)
From Stdlib Require Import String.
From S2P Require Import Prelude Memory Registers Instruction Execute Pipeline.
From S2P Require Import Simulator SimulatorSpec CString CStringSpec Commands.

(** ** The loader *)

Lemma set_mem_wf x m : mem_wf m → mem_ok x → mem_wf (set_mem x m).
Proof. intros [] ?. by constructor. Qed.

Lemma i32_small x : 0 ≤ x < 256 → i32 x = x.
Proof. intros. apply swrap_small; [lia|]. unfold srange. lia. Qed.

(** A line of at most [MEMBUF] bytes is read without leaving [membuf]. *)
Lemma line_bytes_total n toks : (n + length toks ≤ MEMBUF)%nat →
  returns (λ o, ∀ bs, o = Some bs → bytes_ok bs ∧ length bs = length toks) (line_bytes n toks).
Proof.
  revert n. induction toks as [|tok toks IH]; intros n Hn; cbn [line_bytes].
  { eexists. split; [done|]. intros bs [= <-]. done. }
  case_match eqn:E; [by eexists|]. apply orb_false_iff in E as [E _]. apply orb_false_iff in E.
  cbn [length] in Hn. rewrite decide_True by lia.
  destruct (IH (S n) ltac:(lia)) as (o & -> & Ho). cbn [obind]. eexists. split; [done|].
  intros bs Hbs. destruct o as [r|]; [|done]. injection Hbs as <-.
  destruct (Ho r eq_refl) as [? ?]. split; [constructor; [|done]|simpl; lia].
  split; [lia|]. change (2 ^ 8) with 256. lia.
Qed.

(** [memory_load] returns when the region does not wrap around. *)
Lemma memory_load_total bs base m : mem_wf m → bytes_ok bs →
  urange 64 (base + Z.of_nat (length bs)) →
  returns (λ '(_, m'), ∃ x, m' = set_mem x m ∧ mem_ok x) (memory_load bs base m).
Proof.
  intros Hwf Hbs Hu. unfold memory_load. rewrite wrap_small by done.
  destruct (riscv_mem_size m <? base + Z.of_nat (length bs)).
  - eexists. split; [done|]. exists (riscv_mem m). split; [by destruct m|apply Hwf].
  - eexists. split; [done|]. eexists. split; [done|]. apply mem_set_ok; [apply Hwf|done].
Qed.

(** An offset that passes the test is not negative. *)
Lemma octal_digits tok : verify_base tok 8 = true → Forall (is_digit 8) tok.
Proof.
  assert (∀ s, forallb (between 48 55) s = true → Forall (is_digit 8) s) as Hall.
  { intros s Hs. apply Forall_forall. intros c Hc.
    rewrite forallb_forall in Hs. specialize (Hs c Hc).
    unfold between in Hs. exists (c - 48). unfold digit_value, between.
    assert ((48 <=? c) && (c <=? 57) = true) as -> by lia. split; [done|lia]. }
  intros Hv. apply Hall. destruct tok as [|z [|x tok]]; exact Hv.
Qed.

Lemma octal_offset tok : verify_base tok 8 = true → 0 ≤ strtol 8 tok < 2 ^ 63.
Proof.
  intros Hv. rewrite strtol_digits by (done || by apply octal_digits).
  pose proof (accumulate_nonneg 8 0 tok ltac:(lia) ltac:(lia)). lia.
Qed.

(** *** What a hexadecimal text means *)

(** A line is blank, or an octal offset with bytes, or wrong; [e] gives the
    message for the number of the line. *)
Inductive parsed : Type :=
  | Blank
  | Data (offset : Z) (bs : list Z)
  | Wrong (e : Z → diagnostic).

(** A word that stands for a byte: hexadecimal digits, in range as an [int]. *)
Definition byte_word (w : text) : option Z :=
  let b := i32 (strtol 16 w) in
  if (0 <=? b) && (b <=? 255) && verify_base w 16 then Some b else None.

Definition parse_line (line : text) : parsed :=
  match tokens loadsep (cstr line) with
  | [] => Blank
  | w :: ws =>
      if verify_base w 8 then
        match mapM byte_word ws with
        | Some bs => Data (strtol 8 w) bs
        | None => Wrong Bad_byte
        end
      else Wrong Bad_offset
  end.

Definition is_wrong (line : text) : bool :=
  match parse_line line with Wrong _ => true | _ => false end.

(** The lines of a text, as the calls of [fgets] deliver them: a line is cut
    after 4094 characters. *)
Fixpoint file_lines_fuel (fuel : nat) (input : text) : list text :=
  match fgets (LOAD_BUF - 1) input, fuel with
  | Some (line, rest), S fuel => line :: file_lines_fuel fuel rest
  | _, _ => []
  end.
Definition file_lines (input : text) : list text := file_lines_fuel (length input) input.

(** The bytes of a line go to memory if they all fit. *)
Definition line_loaded (addr : Z) (m : memsys) (line : text) : memsys :=
  match parse_line line with
  | Data offset bs =>
      if addr + offset + Z.of_nat (length bs) <=? riscv_mem_size m
      then set_mem (mem_set (riscv_mem m) (addr + offset) bs) m else m
  | _ => m
  end.

(** The outcome of loading [lines], the first of which has the number
    [lineno + 1]: all of them, or those before the first wrong one, which is
    reported; the text behind it is not read. *)
Inductive loads (addr lineno : Z) (m : memsys) (lines : list text)
    : bool * text * list diagnostic * memsys → Prop :=
  | loads_all : Forall (λ l, is_wrong l = false) lines →
      loads addr lineno m lines (true, [], [], foldl (line_loaded addr) m lines)
  | loads_until k line e : lines !! k = Some line → parse_line line = Wrong e →
      Forall (λ l, is_wrong l = false) (take k lines) →
      loads addr lineno m lines
        (false, concat (drop (S k) lines), [e (lineno + Z.of_nat k + 1)],
         foldl (line_loaded addr) m (take k lines)).

(** *** The loader implements it *)

Lemma file_lines_concat fuel input : (length input ≤ fuel)%nat →
  concat (file_lines_fuel fuel input) = input.
Proof.
  revert input. induction fuel as [|fuel IH]; intros input Hf; cbn [file_lines_fuel].
  { by destruct input; [|simpl in Hf; lia]. }
  destruct (fgets (LOAD_BUF - 1) input) as [[line rest]|] eqn:E.
  - apply fgets_line in E as (_ & Hi & Hr). specialize (Hr ltac:(unfold LOAD_BUF; lia)).
    cbn [concat]. by rewrite IH by lia.
  - by destruct input.
Qed.

(** A line that is not wrong, in front of others. *)
Lemma loads_cons addr lineno m line lines r : is_wrong line = false →
  loads addr (lineno + 1) (line_loaded addr m line) lines r → loads addr lineno m (line :: lines) r.
Proof.
  intros Hl. inversion 1 as [Hall|k l e Hk Hp Hall]; subst.
  - apply (loads_all addr lineno m (line :: lines)). by constructor.
  - replace (lineno + 1 + Z.of_nat k + 1) with (lineno + Z.of_nat (S k) + 1) by lia.
    apply (loads_until addr lineno m (line :: lines) (S k) l e); [done..|].
    cbn [take]. by constructor.
Qed.

Lemma line_loaded_wf addr m line : mem_wf m → mem_wf (line_loaded addr m line).
Proof.
  intros Hwf. unfold line_loaded, parse_line. repeat case_match; try done.
  apply set_mem_wf, mem_set_ok; [done|apply Hwf|].
  match goal with H : Data _ _ = _ |- _ => injection H as _ <- end.
  match goal with H : mapM _ _ = Some _ |- _ => apply mapM_Some_1 in H as Hb end.
  eapply Forall2_Forall_r; [exact Hb|]. apply Forall_true. intros w b. unfold byte_word. case_match; [|done].
  intros [= <-]. split; [lia|]. change (2 ^ 8) with 256. lia.
Qed.

Lemma mapM_cons_word w ws : mapM byte_word (w :: ws)
  = match byte_word w with
    | Some b => match mapM byte_word ws with Some bs => Some (b :: bs) | None => None end
    | None => None
    end.
Proof. done. Qed.

(** The bytes of a line stay inside [membuf]. *)
Lemma line_bytes_mapM n toks : (n + length toks ≤ MEMBUF)%nat →
  line_bytes n toks = Ok (mapM byte_word toks).
Proof.
  revert n. induction toks as [|tok toks IH]; intros n Hn; cbn [line_bytes]; [done|].
  cbn [length] in Hn. rewrite mapM_cons_word. cbv zeta. unfold byte_word at 1. cbv zeta.
  generalize (i32 (strtol 16 tok)). intros b.
  assert ((0 <=? b) && (b <=? 255) && verify_base tok 16
          = negb ((b <? 0) || (255 <? b) || negb (verify_base tok 16))) as ->.
  { destruct (verify_base tok 16); rewrite ?orb_true_r, ?andb_true_r, ?andb_false_r; [|done].
    rewrite orb_false_r. lia. }
  destruct (_ || _ || _); cbn [negb]; [done|].
  rewrite decide_True, IH by lia. cbn [obind]. by destruct (mapM byte_word toks).
Qed.

Lemma memory_load_line bs base m : urange 64 (base + Z.of_nat (length bs)) →
  memory_load bs base m
  = Ok (base + Z.of_nat (length bs) <=? riscv_mem_size m,
        if base + Z.of_nat (length bs) <=? riscv_mem_size m
        then set_mem (mem_set (riscv_mem m) base bs) m else m).
Proof.
  intros Hu. unfold memory_load. rewrite wrap_small by done.
  destruct (Z.ltb_spec (riscv_mem_size m) (base + Z.of_nat (length bs))).
  - by rewrite (proj2 (Z.leb_gt _ _)) by done.
  - by rewrite (proj2 (Z.leb_le _ _)) by done.
Qed.

Lemma load_hex_fuel_loads fuel lineno addr input m :
  mem_wf m → 0 ≤ addr ≤ memory_size → (length input ≤ fuel)%nat →
  returns (loads addr lineno m (file_lines_fuel fuel input))
    (load_hex_fuel fuel lineno addr input m).
Proof.
  intros Hwf Ha. revert lineno input m Hwf.
  induction fuel as [|fuel IH]; intros lineno input m Hwf Hf.
  { destruct input; [|simpl in Hf; lia]. eexists. split; [done|]. by constructor. }
  cbn [load_hex_fuel file_lines_fuel].
  destruct (fgets (LOAD_BUF - 1) input) as [[line rest]|] eqn:E.
  2:{ destruct input; [|done]. eexists. split; [done|]. by constructor. }
  apply fgets_line in E as (Hb & Hi & Hr). specialize (Hr ltac:(unfold LOAD_BUF; lia)).
  pose proof (file_lines_concat fuel rest ltac:(lia)) as Hrest.
  assert (is_wrong line = false → returns (loads addr lineno m (line :: file_lines_fuel fuel rest))
            (load_hex_fuel fuel (lineno + 1) addr rest (line_loaded addr m line))) as Hnext.
  { intros Hl. destruct (IH (lineno + 1) rest (line_loaded addr m line)) as (r & Er & Hloads);
      [by apply line_loaded_wf|lia|]. eexists. split; [exact Er|]. by apply loads_cons. }
  assert (∀ e, parse_line line = Wrong e →
            loads addr lineno m (line :: file_lines_fuel fuel rest)
              (false, rest, [e (lineno + 1)], m)) as Hwrong.
  { intros e He. rewrite <-Hrest at 2. replace (lineno + 1) with (lineno + Z.of_nat 0 + 1) by lia.
    by apply (loads_until addr lineno m (line :: file_lines_fuel fuel rest) 0 line e). }
  pose proof (tokens_eq loadsep (cstr line)) as Ht.
  unfold is_wrong, line_loaded, parse_line in Hnext, Hwrong. rewrite Ht in Hnext, Hwrong.
  destruct (strtok loadsep (cstr line)) as [[tok ctx]|] eqn:Et; [|by apply Hnext].
  destruct (verify_base tok 8) eqn:Hv; cbn [negb]; [|by eexists; split; [|apply Hwrong]].
  apply strtok_shorter in Et as (? & ? & _). pose proof (cstr_length line).
  pose proof (tokens_count loadsep ctx).
  rewrite line_bytes_mapM by (unfold MEMBUF, LOAD_BUF in *; lia). cbn [obind].
  destruct (mapM byte_word (tokens loadsep ctx)) as [bs|] eqn:Hbs;
    [|by eexists; split; [|apply Hwrong]].
  pose proof (octal_offset tok Hv) as Hoff.
  apply length_mapM in Hbs. specialize (Hnext eq_refl).
  assert (u64 (addr + u64 (strtol 8 tok)) = addr + strtol 8 tok) as ->.
  { rewrite (wrap_small 64 (strtol 8 tok)) by (unfold urange; lia).
    apply wrap_small. unfold urange, memory_size in *. lia. }
  destruct bs as [|b bs].
  - revert Hnext. cbn [mem_set]. case_match; [|done]. by replace (set_mem (riscv_mem m) m) with m
      by by destruct m.
  - rewrite memory_load_line; [by apply Hnext|].
    unfold urange, memory_size, MEMBUF, LOAD_BUF in *. lia.
Qed.

(** C14: the hexadecimal loader.  For a start address up to the size of
    memory it returns on every text, with no access outside its buffer or memory.  When no line is wrong it reads the whole
    text and puts the bytes of every line at its address; otherwise it does
    so for the lines before the first wrong one, reports that line with its
    number and its kind of error, and reads no further. *)
Theorem load_hex_spec addr input m :
  mem_wf m → 0 ≤ addr ≤ memory_size →
  concat (file_lines input) = input ∧
  returns (loads addr 0 m (file_lines input)) (load_hex addr input m).
Proof.
  intros. split; [by apply file_lines_concat|]. by apply load_hex_fuel_loads.
Qed.

(** Only the bytes of memory change. *)
Lemma line_loaded_mem addr m line : mem_wf m → ∃ x, line_loaded addr m line = set_mem x m ∧ mem_ok x.
Proof.
  intros Hwf. pose proof (wf_mem _ (line_loaded_wf addr m line Hwf)) as Hx.
  exists (riscv_mem (line_loaded addr m line)). split; [|done].
  unfold line_loaded. repeat case_match; by destruct m.
Qed.

Lemma load_lines_mem addr m lines : mem_wf m →
  ∃ x, foldl (line_loaded addr) m lines = set_mem x m ∧ mem_ok x.
Proof.
  revert m. induction lines as [|line lines IH]; intros m Hwf.
  { exists (riscv_mem m). split; [by destruct m|apply Hwf]. }
  destruct (line_loaded_mem addr m line Hwf) as (x & E & Hx).
  destruct (IH (line_loaded addr m line)) as (y & Ey & Hy); [by apply line_loaded_wf|].
  exists y. split; [|done]. simpl. rewrite Ey, E. done.
Qed.

Lemma loads_mem addr lineno m lines ok rest ds m' : mem_wf m →
  loads addr lineno m lines (ok, rest, ds, m') → ∃ x, m' = set_mem x m ∧ mem_ok x.
Proof. intros Hwf. inversion 1; by apply load_lines_mem. Qed.

(** ** What dump writes, load reads *)

(** A line of a dump. *)
Definition line_text (a : Z) (bs : list Z) : text :=
  padded 8 12 a ++ flat_map (cons 32) (map (padded 16 2) bs) ++ [newline].

Lemma line_text_dump a bs :
  fmt_012llo a ++ flat_map (λ b, 32 :: fmt_02x b) bs ++ [newline] = line_text a bs.
Proof.
  unfold line_text. do 2 f_equal. induction bs as [|b bs IH]; simpl; [done|]. by rewrite IH.
Qed.

Lemma print_number_length base upper n : (length (print_number base upper n) ≤ 64)%nat.
Proof.
  unfold print_number. rewrite length_rev. generalize 64%nat as k. intros k. revert n.
  induction k as [|k IH]; intros n; simpl; [done|]. case_match; simpl; [lia|].
  specialize (IH (n / base)). lia.
Qed.

Lemma padded_length base width n : (width ≤ 64)%nat → (length (padded base width n) ≤ 64)%nat.
Proof.
  intros. unfold padded, pad0. rewrite length_app, length_replicate.
  pose proof (print_number_length base false n). lia.
Qed.

(** The characters of a number are not separators, and not 0. *)
Lemma padded_chars base width n : 2 ≤ base ≤ 16 → 0 ≤ n < 2 ^ 64 →
  Forall (λ c, 48 ≤ c ≤ 102) (padded base width n).
Proof.
  intros Hb Hn. destruct (padded_value base width n Hb Hn) as (_ & Hf & _).
  eapply Forall_impl; [|exact Hf]. intros c Hc. apply is_digit_cases in Hc; lia.
Qed.

Lemma padded_word base width n : 2 ≤ base ≤ 16 → 0 ≤ n < 2 ^ 64 →
  word loadsep (padded base width n).
Proof.
  intros Hb Hn. split; [by apply padded_value|]. apply forallb_forall. intros c Hc.
  pose proof (proj1 (Forall_forall _ _) (padded_chars base width n Hb Hn) c Hc) as Hr.
  simpl in Hr. unfold loadsep. lia.
Qed.

(** The bytes of a line are read back. *)
Lemma line_bytes_padded n bs : bytes_ok bs → (n + length bs ≤ MEMBUF)%nat →
  line_bytes n (map (padded 16 2) bs) = Ok (Some bs).
Proof.
  intros Hbs. revert n. induction Hbs as [|b bs [? Hb] _ IH]; intros n Hn; [done|].
  change (2 ^ 8) with 256 in Hb. cbn [map line_bytes].
  rewrite strtol_padded, i32_small by lia.
  destruct (padded_value 16 2 b ltac:(lia) ltac:(lia)) as (_ & Hf & _).
  assert (verify_base (padded 16 2 b) 16 = true) as ->.
  { assert (∀ s, Forall (is_digit 16) s → verify_base s 16 = true) as Hall; [|by apply Hall].
    assert (∀ s, Forall (is_digit 16) s → forallb isxdigit s = true) as Hx.
    { intros s Hs. apply forallb_forall. intros c Hc.
      apply isxdigit_digit. exact (proj1 (Forall_forall _ _) Hs c Hc). }
    intros s Hs. unfold verify_base. apply Hx.
    destruct Hs as [|z s Hz Hs]; [done|]. destruct Hs as [|x s Hx' Hs]; [by constructor|].
    pose proof (is_digit_cases 16 x ltac:(lia) Hx').
    assert ((x =? 120) = false) as -> by lia. assert ((x =? 88) = false) as -> by lia.
    rewrite andb_false_r. by do 2 (constructor; [done|]). }
  assert ((b <? 0) = false) as -> by lia. assert ((255 <? b) = false) as -> by lia. simpl.
  simpl in Hn. rewrite decide_True by lia. rewrite IH by lia. done.
Qed.

Lemma verify_octal s : Forall (is_digit 8) s → verify_base s 8 = true.
Proof.
  intros Hs. assert (forallb (between 48 55) s = true) as Hall.
  { apply forallb_forall. intros c Hc.
    pose proof (is_digit_octal c (proj1 (Forall_forall _ _) Hs c Hc)). unfold between. lia. }
  destruct s as [|z [|x s]]; exact Hall.
Qed.

Lemma flat_map_length k (ws : list text) : Forall (λ w : text, (length w ≤ k)%nat) ws →
  (length (flat_map (cons 32%Z) ws) ≤ length ws * S k)%nat.
Proof.
  induction 1 as [|w ws Hw _ IH]; simpl; [done|]. rewrite length_app. lia.
Qed.

Lemma flat_map_chars (P : Z → Prop) (ws : list text) : P 32 → Forall (Forall P) ws →
  Forall P (flat_map (cons 32) ws).
Proof.
  intros Hs. induction 1 as [|w ws Hw _ IH]; simpl; [constructor|].
  constructor; [done|]. by apply Forall_app.
Qed.

(** The line without its newline: short, and of printable characters. *)
Definition line_body (a : Z) (bs : list Z) : text :=
  padded 8 12 a ++ flat_map (cons 32) (map (padded 16 2) bs).

Lemma line_body_ok a bs : 0 ≤ a < 2 ^ 64 → bytes_ok bs → (length bs ≤ 16)%nat →
  Forall (λ c, 32 ≤ c ≤ 102) (line_body a bs) ∧ (length (line_body a bs) < 2000)%nat.
Proof.
  intros Ha Hbs Hl. split.
  - apply Forall_app. split.
    + eapply Forall_impl; [|by apply padded_chars]. simpl. lia.
    + apply flat_map_chars; [lia|]. apply Forall_map. eapply Forall_impl; [|exact Hbs].
      intros b [? Hb]. eapply Forall_impl; [|apply padded_chars; [lia|]]; simpl; [lia|].
      change (2 ^ 8) with 256 in Hb. lia.
  - unfold line_body. rewrite length_app. pose proof (padded_length 8 12 a ltac:(lia)).
    assert (length (flat_map (cons 32%Z) (map (padded 16 2) bs)) ≤ length bs * 65)%nat; [|lia].
    rewrite <-(length_map (padded 16 2) bs). apply flat_map_length, Forall_map.
    apply Forall_true. intros b. apply padded_length. lia.
Qed.

(** One line of a dump is loaded as its bytes at its address. *)
Lemma load_line fuel lineno a bs rest m : 0 ≤ a < 2 ^ 63 → bytes_ok bs → bs ≠ [] →
  (length bs ≤ 16)%nat → riscv_mem_size m ≤ MEMORY_MAX_SIZE →
  a + Z.of_nat (length bs) ≤ riscv_mem_size m →
  load_hex_fuel (S fuel) lineno 0 (line_text a bs ++ rest) m
  = load_hex_fuel fuel (lineno + 1) 0 rest (set_mem (mem_set (riscv_mem m) a bs) m).
Proof.
  intros Ha Hbs Hne Hl Hmax Hin. cbn [load_hex_fuel].
  destruct (line_body_ok a bs ltac:(lia) Hbs Hl) as [Hc Hlen].
  assert (line_text a bs = line_body a bs ++ [newline]) as Et
    by (unfold line_text, line_body; by rewrite app_assoc).
  rewrite Et, <-app_assoc. cbn [app]. rewrite fgets_whole.
  2:{ unfold LOAD_BUF. lia. }
  2:{ intros Hn. apply list_elem_of_In in Hn.
      pose proof (proj1 (Forall_forall _ _) Hc _ Hn) as Hr. simpl in Hr. unfold newline in Hr. lia. }
  rewrite cstr_id.
  2:{ apply Forall_app. split; [eapply Forall_impl; [|exact Hc]; simpl; lia|].
      by constructor. }
  rewrite <-Et. unfold line_text.
  assert (Forall (word loadsep) (map (padded 16 2) bs)) as Hw.
  { apply Forall_map. eapply Forall_impl; [|exact Hbs]. intros b [? Hb]. apply padded_word; [lia|].
    change (2 ^ 8) with 256 in Hb. lia. }
  pose proof (tokens_words loadsep 32 newline _ eq_refl eq_refl Hw) as Ht.
  pose proof (line_bytes_padded 0 bs Hbs ltac:(unfold MEMBUF; lia)) as Hlb.
  destruct bs as [|b bs]; [done|]. cbn [map flat_map] in Ht |- *.
  rewrite <-!app_assoc in Ht |- *. cbn [app] in Ht |- *.
  rewrite strtok_word by (done || (apply padded_word; lia)).
  rewrite tokens_skip in Ht by done. rewrite Ht. cbn [map] in Hlb. rewrite Hlb.
  destruct (padded_value 8 12 a ltac:(lia) ltac:(lia)) as (_ & Hf & _).
  rewrite verify_octal by done. rewrite strtol_padded by lia. cbn [negb obind].
  rewrite (wrap_small 64 a), Z.add_0_l, wrap_small by (unfold urange; lia).
  rewrite memory_load_in; [done| |done]. unfold urange, MEMORY_MAX_SIZE in *. lia.
Qed.

Lemma mem_set_app mem base bs1 bs2 :
  mem_set mem base (bs1 ++ bs2)
  = mem_set (mem_set mem base bs1) (base + Z.of_nat (length bs1)) bs2.
Proof.
  revert mem base. induction bs1 as [|b bs1 IH]; intros mem base.
  - simpl. by rewrite Z.add_0_r.
  - cbn [app mem_set length]. rewrite IH. f_equal. lia.
Qed.

(** One line inside memory. *)
Lemma dump_line_spec addr offset len buf m :
  0 ≤ addr → 0 ≤ offset < len → addr + len ≤ riscv_mem_size m →
  riscv_mem_size m ≤ MEMORY_MAX_SIZE → length buf = 4096%nat →
  let k := Z.min (len - offset) 16 in
  ∃ buf', dump_line addr offset len buf m
          = Ok (line_text (addr + offset)
                  (mem_get (riscv_mem m) (addr + offset) (Z.to_nat k)), buf')
          ∧ length buf' = 4096%nat.
Proof.
  intros Ha Ho Hin Hmax Hbuf k. unfold dump_line, bpl.
  assert ((if len - offset <? 16 then len - offset else 16) = k) as -> by (case_match; lia).
  unfold MEMORY_MAX_SIZE in *.
  rewrite (wrap_small 64 (addr + offset)) by (unfold urange; lia).
  rewrite memory_dump_in by (unfold urange; lia). cbn [obind default].
  set (bs := mem_get _ _ _). assert (length bs = Z.to_nat k) as Hbs by apply length_get_bytes.
  unfold patch, id. rewrite decide_True by lia. cbn [obind].
  rewrite take_app_length' by done. rewrite line_text_dump.
  eexists. split; [done|]. rewrite length_app, length_drop. lia.
Qed.

(** The side conditions of [load_line] for a line of a dump. *)
Lemma load_dumped fuel lineno a k rest m m2 : mem_wf m → 0 ≤ a → 0 < k ≤ 16 →
  a + k ≤ riscv_mem_size m → riscv_mem_size m2 = riscv_mem_size m →
  let bs := mem_get (riscv_mem m) a (Z.to_nat k) in
  load_hex_fuel (S fuel) lineno 0 (line_text a bs ++ rest) m2
  = load_hex_fuel fuel (lineno + 1) 0 rest (set_mem (mem_set (riscv_mem m2) a bs) m2).
Proof.
  intros Hwf Ha Hk Hin Hs bs. pose proof (wf_size _ Hwf) as [_ Hmax].
  assert (length bs = Z.to_nat k) as Hl by apply length_get_bytes.
  apply load_line; [unfold MEMORY_MAX_SIZE in *; lia|apply mem_get_ok, Hwf| |lia..].
  intros E. rewrite E in Hl. simpl in Hl. lia.
Qed.

Lemma line_text_length a bs rest : (1 ≤ length (line_text a bs ++ rest))%nat.
Proof. unfold line_text. rewrite !length_app. simpl. lia. Qed.

(** The lines from [offset] on, loaded into a memory [m2]. *)
Lemma dump_lines_load n addr offset len buf m :
  mem_wf m → 0 ≤ addr → 0 ≤ offset ≤ len → addr + len ≤ riscv_mem_size m →
  length buf = 4096%nat →
  16 * Z.of_nat n - 16 < len - offset ≤ 16 * Z.of_nat n →
  ∃ t buf', dump_lines n addr offset len buf m = Ok (t, buf') ∧ length buf' = 4096%nat ∧
    (n ≤ length t)%nat ∧
    ∀ fuel lineno m2, (n ≤ fuel)%nat → riscv_mem_size m2 = riscv_mem_size m →
      load_hex_fuel fuel lineno 0 t m2
      = Ok (true, [], [],
            set_mem (mem_set (riscv_mem m2) (addr + offset)
                       (mem_get (riscv_mem m) (addr + offset) (Z.to_nat (len - offset)))) m2).
Proof.
  intros Hwf Ha. pose proof (wf_size _ Hwf) as [_ Hmax].
  revert offset buf. induction n as [|n IH]; intros offset buf Ho Hin Hbuf Hn.
  { exists [], buf. split_and!; [done..|]. intros fuel lineno m2 _ _.
    replace (len - offset) with 0 by lia. destruct m2, fuel; done. }
  cbn [dump_lines]. destruct (dump_line_spec addr offset len buf m) as (buf1 & -> & Hb1); [done|lia|done..|].
  cbn [obind]. destruct (decide (len - offset ≤ 16)) as [Hlast|Hmore].
  - assert (n = 0%nat) as -> by lia. cbn [dump_lines obind].
    eexists _, buf1. split_and!; [done..|apply line_text_length|]. intros fuel lineno m2 Hf Hs.
    destruct fuel as [|fuel]; [lia|]. replace (Z.min (len - offset) 16) with (len - offset) by lia.
    rewrite load_dumped by (done || lia). by destruct fuel.
  - destruct (IH (offset + bpl) buf1) as (t & buf2 & -> & Hb2 & Ht & Hload); [unfold bpl; lia..|].
    cbn [obind]. eexists _, buf2. split_and!; [done..| |].
    { rewrite length_app. match goal with |- context [line_text ?a ?bs] =>
        pose proof (line_text_length a bs []) as H; rewrite app_nil_r in H end. lia. }
    intros fuel lineno m2 Hf Hs.
    destruct fuel as [|fuel]; [lia|]. replace (Z.min (len - offset) 16) with 16 by lia.
    rewrite load_dumped, Hload by (done || lia). unfold bpl.
    replace (Z.to_nat (len - offset)) with (16 + Z.to_nat (len - (offset + 16)))%nat by lia.
    unfold mem_get. rewrite get_bytes_app, mem_set_app, length_get_bytes.
    by rewrite !Z.add_assoc.
Qed.

(** C13: what [dump /x] writes to a file, [load /x] at address 0 reads back:
    a dump of any part of memory is written, and loading the file into any
    memory of the same size puts exactly those bytes back at their addresses
    and leaves every other byte alone. *)
Theorem dump_load_roundtrip writable f addr len w w2 offset :
  mem_wf (msys (machine w)) → length (dump_buf w) = 4096%nat → writable f = true →
  0 ≤ addr → 0 ≤ len → addr + len ≤ riscv_mem_size (msys (machine w)) →
  ∃ w1, dump_data_to_file writable (Some f) true addr len w = Ok (true, w1) ∧
    machine w1 = machine w ∧
    (files w2 !! f = files w1 !! f →
     riscv_mem_size (msys (machine w2)) = riscv_mem_size (msys (machine w)) →
     ∃ w3, load_data_from_file (Some f) true 0 offset w2 = Ok (true, w3) ∧
       ∀ a, byte_at (riscv_mem (msys (machine w3))) a
            = if decide (addr ≤ a < addr + len) then byte_at (riscv_mem (msys (machine w))) a
              else byte_at (riscv_mem (msys (machine w2))) a).
Proof.
  intros Hwf Hbuf Hw Ha Hl Hin. unfold dump_data_to_file. rewrite Hw.
  cbn [report dump_buf machine set_files]. unfold bpl.
  destruct (dump_lines_load (Z.to_nat ((len + (16 - 1)) / 16)) addr 0 len (dump_buf w)
              (msys (machine w))) as (t & buf & Et & _ & Hn & Hload); [done|done|lia|done|done| |].
  { pose proof (Z.div_mod (len + (16 - 1)) 16 ltac:(lia)).
    pose proof (Z.mod_pos_bound (len + (16 - 1)) 16 ltac:(lia)).
    rewrite Z2Nat.id by (apply Z.div_pos; lia). lia. }
  rewrite Et. cbn [obind]. eexists. split; [done|]. split; [done|].
  cbn [files set_files set_dump_buf report]. rewrite lookup_insert_eq. intros Hf Hs.
  unfold load_data_from_file. rewrite Hf. cbn [machine report]. unfold load_hex.
  rewrite Hload by done. cbn [obind foldl]. eexists. split; [done|]. intros a.
  cbn [machine set_machine msys set_msys riscv_mem set_mem].
  rewrite byte_at_set, Z.add_0_r, Z.sub_0_r. unfold set_bytes, mem_get.
  rewrite length_get_bytes, Z2Nat.id by done. case_decide; [|done].
  apply nth_lookup_total. rewrite get_bytes_lookup by lia. do 2 f_equal. lia.
Qed.

(** ** Registers from the command line *)

(** A command with decimal arguments, as typed. *)
Definition command (name : string) (args : list Z) : text :=
  codes name ++ flat_map (cons 32) (map fmt_llu args) ++ [newline].

Lemma fmt_llu_word n : 0 ≤ n < 2 ^ 64 → word cmdsep (fmt_llu n).
Proof.
  intros Hn. destruct (padded_value 10 0 n ltac:(lia) Hn) as (Hne & _).
  pose proof (padded_chars 10 0 n ltac:(lia) Hn) as Hc.
  change (padded 10 0 n) with (fmt_llu n) in *. split; [done|].
  apply forallb_forall. intros c Hi. pose proof (proj1 (Forall_forall _ _) Hc c Hi) as Hr.
  simpl in Hr. unfold cmdsep. lia.
Qed.

Lemma next_token_word tok c rest : word cmdsep tok → cmdsep c = true →
  next_token (tok ++ c :: rest) = (Some tok, rest).
Proof. intros. unfold next_token. by rewrite strtok_word. Qed.

(** The name of a command and what is left for its arguments. *)
Lemma command_name name n args : word cmdsep (codes name) → (length (codes name) ≤ 20)%nat →
  (length args ≤ 20)%nat →
  next_token (take (SIM_MAX_LINE - 1) (command name (n :: args)))
  = (Some (codes name), fmt_llu n ++ flat_map (cons 32) (map fmt_llu args) ++ [newline]).
Proof.
  intros Hw Hl Ha. unfold command. rewrite take_ge.
  - cbn [map flat_map]. rewrite <-!app_assoc. cbn [app]. by apply next_token_word.
  - rewrite !length_app.
    assert (length (flat_map (cons 32%Z) (map fmt_llu (n :: args))) ≤ S (length args) * 65)%nat.
    { change (S (length args)) with (length (n :: args)).
      rewrite <-(length_map fmt_llu (n :: args)). apply flat_map_length, Forall_map.
      apply Forall_true. intros b. apply print_number_length. }
    unfold SIM_MAX_LINE. simpl length in *. lia.
Qed.

(** Decimal arguments are not [/x]. *)
Lemma fmt_llu_not_hex n : 0 ≤ n < 2 ^ 64 → same_word (fmt_llu n) (codes "/x") = false.
Proof.
  intros Hn. destruct (padded_value 10 0 n ltac:(lia) Hn) as (Hne & _).
  pose proof (padded_chars 10 0 n ltac:(lia) Hn) as Hc.
  change (padded 10 0 n) with (fmt_llu n) in *. apply bool_decide_eq_false.
  change (map tolower (codes "/x")) with [47; 120].
  destruct Hc as [|c s Hc _]; [done|]. intros [= E _]. unfold tolower, between in E.
  case_match; lia.
Qed.

Lemma strtol_decimal n : 0 ≤ n < 2 ^ 63 → strtol 0 (fmt_llu n) = n.
Proof. intros. unfold strtol. rewrite read_decimal by lia. lia. Qed.

Lemma strtoul_decimal n : 0 ≤ n < 2 ^ 64 → strtoul 0 (fmt_llu n) = n.
Proof.
  intros. unfold strtoul. rewrite read_decimal by lia.
  by rewrite (proj2 (Z.leb_gt _ _)) by lia.
Qed.

(** Decides the tests for the name of the command. *)
Ltac select_command :=
  repeat match goal with |- context [same_word (codes ?a) (codes ?b)] =>
    let r := eval vm_compute in (same_word (codes a) (codes b)) in
    change (same_word (codes a) (codes b)) with r end;
  cbv beta iota zeta.

Lemma execute_writereg writable l offset r v w :
  regs_wf (regs (machine w)) → 0 ≤ r < 32 → 0 ≤ v < 2 ^ 63 →
  execute_line writable l offset (command "writereg" [r; v]) w
  = Ok (true, set_machine (set_regs (register_write r v (regs (machine w))) (machine w)) w).
Proof.
  intros Hwf Hr Hv. unfold execute_line. rewrite command_name by (done || simpl; lia).
  cbv zeta. select_command. cbn [map flat_map]. rewrite <-!app_assoc. cbn [app].
  unfold cmd_writereg. rewrite next_token_word by (done || apply fmt_llu_word; lia).
  rewrite strtoul_decimal by lia. unfold RISCV_NUM_REGISTERS.
  rewrite (proj2 (Z.leb_gt 32 r)) by lia.
  rewrite next_token_word by (done || apply fmt_llu_word; lia).
  rewrite strtol_decimal by done. rewrite wrap_small by (unfold urange; lia).
  by rewrite register_store_in by done.
Qed.

Lemma execute_readreg writable l offset r w : 0 ≤ r < 32 →
  execute_line writable l offset (command "readreg" [r]) w
  = Ok (true, put_stdout (codes "R" ++ fmt_llu r ++ codes " = "
                          ++ fmt_llu (register_read_one r (regs (machine w))) ++ [newline]) w).
Proof.
  intros Hr. unfold execute_line. rewrite command_name by (done || simpl; lia).
  cbv zeta. select_command. cbn [map flat_map app].
  unfold cmd_readreg, check_for_hex. rewrite next_token_word by (done || apply fmt_llu_word; lia).
  rewrite fmt_llu_not_hex by lia. rewrite strtol_decimal by lia. unfold RISCV_NUM_REGISTERS.
  rewrite wrap_small by (unfold urange; lia). rewrite (proj2 (Z.leb_gt 32 r)) by lia.
  cbn [obind]. by rewrite <-!app_assoc.
Qed.

(** C22: a register that is set at the prompt is shown at the prompt.  For a
    register 1 to 31 and a value below 2^63, [writereg r v] in decimal sets register [r] and no other and touches
    nothing else of the machine, and [readreg r] then prints [v]. *)
Theorem writereg_readreg writable l l' offset offset' r v w :
  regs_wf (regs (machine w)) → 0 < r < 32 → 0 ≤ v < 2 ^ 63 →
  ∃ w1, execute_line writable l offset (command "writereg" [r; v]) w = Ok (true, w1) ∧
    machine w1 = set_regs (regs (machine w1)) (machine w) ∧
    (∀ x, 0 ≤ x < 32 → x ≠ r →
       register_read_one x (regs (machine w1)) = register_read_one x (regs (machine w))) ∧
    execute_line writable l' offset' (command "readreg" [r]) w1
    = Ok (true, put_stdout (codes "R" ++ fmt_llu r ++ codes " = " ++ fmt_llu v ++ [newline]) w1).
Proof.
  intros Hwf Hr Hv. eexists. split; [apply execute_writereg; done || lia|]. split; [done|].
  split.
  - intros x Hx Hne. cbn [machine set_machine regs set_regs].
    rewrite register_read_one_write by (done || lia). rewrite !Z.mod_small by lia.
    by rewrite (proj2 (Z.eqb_neq x r)) by done.
  - rewrite execute_readreg by lia. cbn [machine set_machine regs set_regs].
    rewrite register_read_one_write by (done || lia). rewrite !Z.mod_small by lia.
    rewrite Z.eqb_refl. by rewrite (proj2 (nonzero_true r)) by lia.
Qed.
