(* ===== verification/SessionSpec.v ===== *)
(** * Sessions

    Every command keeps the state of the program well formed, reads no more
    than it consumes, and the loops of [main] end: the invariant of the
    simulator is the invariant of the whole program, for all arguments, files
    and input. *)
From S2P Require Import Prelude Memory Registers Instruction Execute Pipeline.
From S2P Require Import Simulator SimulatorSpec CString CStringSpec Commands CommandsSpec.

Record world_wf (w : world) : Prop := {
  ww_machine : sim_wf (machine w);
  ww_files : map_Forall (λ _ t, bytes_ok t) (files w);
  ww_stdin : bytes_ok (stdin w);
  ww_buf : length (dump_buf w) = 4096%nat ∧ bytes_ok (dump_buf w);
}.

(** What a command may do to the world. *)
Definition world_step (w : world) (w' : world) : Prop :=
  world_wf w' ∧ (length (stdin w') ≤ length (stdin w))%nat.

Lemma world_step_refl w : world_wf w → world_step w w.
Proof. done. Qed.

Lemma report_step d w w' : world_step w w' → world_step w (report d w').
Proof. intros [[] ?]. by split; [constructor|]. Qed.

Lemma put_stdout_step t w w' : world_step w w' → world_step w (put_stdout t w').
Proof. intros [[] ?]. by split; [constructor|]. Qed.

Lemma put_fd3_step t w w' : world_step w w' → world_step w (put_fd3 t w').
Proof. intros [[] ?]. by split; [constructor|]. Qed.

Lemma set_machine_step s w w' : sim_wf s → world_step w w' → world_step w (set_machine s w').
Proof. intros ? [[] ?]. by split; [constructor|]. Qed.

Lemma set_files_step f t w w' : bytes_ok t → world_step w w' →
  world_step w (set_files (<[f := t]> (files w')) w').
Proof.
  intros ? [[] ?]. split; [|done]. constructor; try done. by apply map_Forall_insert_2.
Qed.

Lemma set_dump_buf_step b w w' : length b = 4096%nat → bytes_ok b → world_step w w' →
  world_step w (set_dump_buf b w').
Proof. intros ? ? [[] ?]. by split; [constructor|]. Qed.

Lemma set_stdin_step i w w' : bytes_ok i → (length i ≤ length (stdin w))%nat →
  world_step w w' → world_step w (set_stdin i w').
Proof. intros ? ? [[] ?]. by split; [constructor|]. Qed.

Lemma reports_step ds w w' : world_step w w' → world_step w (foldl (flip report) w' ds).
Proof.
  revert w'. induction ds as [|d ds IH]; intros w' H; simpl; [done|]. by apply IH, report_step.
Qed.

Create HintDb session.
#[export] Hint Resolve world_step_refl report_step put_stdout_step put_fd3_step
  set_machine_step set_files_step set_dump_buf_step set_stdin_step reports_step : session.

Lemma set_msys_wf m s : mem_wf m → sim_wf s → sim_wf (set_msys m s).
Proof. intros ? []. by constructor. Qed.

Lemma set_ptbr_wf v s : sim_wf s → sim_wf (set_ptbr v s).
Proof. intros []. by constructor. Qed.

Lemma initialize_state_wf s : sim_wf s → sim_wf (initialize_state s).
Proof.
  intros Hs. destruct Hs as [Hm]. destruct Hm, zero_regs_wf as (? & ? & ? & ?).
  constructor; simpl; try done. constructor; simpl; try done.
  repeat (constructor; [by constructor|]). constructor.
Qed.

(** ** Load *)

Lemma memory_load_wf bs base m : mem_wf m → bytes_ok bs →
  sat (λ '(_, m'), mem_wf m') (memory_load bs base m).
Proof.
  intros Hwf Hbs. unfold memory_load. repeat sat_step; try done.
  apply set_mem_wf; [done|]. apply mem_set_ok; [apply Hwf|done].
Qed.

Lemma load_binary_wf fuel addr total input m : mem_wf m → bytes_ok input →
  sat mem_wf (load_binary_fuel fuel addr total input m).
Proof.
  revert total input m. induction fuel as [|fuel IH]; intros total input m Hwf Hi; simpl.
  { destruct input; done. }
  destruct input as [|b input]; [done|].
  eapply sat_bind; [apply memory_load_wf; [done|by apply (Forall_take _ LOAD_BUF (b :: input))]|].
  intros [d m'] Hm'. apply IH; [done|]. by apply (Forall_drop _ LOAD_BUF (b :: input)).
Qed.

Lemma load_data_step filename is_hex addr offset w :
  world_wf w → 0 ≤ addr ≤ memory_size →
  sat (λ '(_, w'), world_step w w') (load_data_from_file filename is_hex addr offset w).
Proof.
  intros Hw Ha. unfold load_data_from_file.
  destruct (match filename with Some f => _ | None => _ end) as [input|] eqn:Ef;
    [|simpl; auto with session].
  assert (bytes_ok input ∧ (filename = None → input = stdin w)) as [Hi Hf].
  { destruct filename as [f|]; [|injection Ef as <-; split; [apply Hw|done]].
    split; [exact (ww_files _ Hw f input Ef)|done]. }
  destruct is_hex.
  - destruct (load_hex_fuel_loads (length input) 0 addr input (msys (machine w)))
      as ([[[ok rest] ds] m'] & Er & Hloads); [apply Hw|done|done|].
    destruct (loads_mem _ _ _ _ _ _ _ _ (sw_mem _ (ww_machine _ Hw)) Hloads) as (x & -> & Hx).
    cbn [machine report]. unfold load_hex. rewrite Er. cbn [obind].
    assert (sim_wf (set_msys (set_mem x (msys (machine w))) (machine w))).
    { apply set_msys_wf; [apply set_mem_wf; [apply Hw|done]|apply Hw]. }
    destruct filename as [f|]; simpl; [auto with session|].
    assert ((if ok then rest else []) = []) as ->.
    { by inversion Hloads. }
    apply set_stdin_step; [constructor|simpl; lia|]. auto with session.
  - destruct filename as [f|]; [|simpl; auto with session].
    eapply sat_bind; [apply load_binary_wf; [apply Hw|done]|]. intros m' Hm'. simpl.
    apply set_machine_step; [|auto with session]. apply set_msys_wf; [done|apply Hw].
Qed.

(** ** Dump *)

Lemma dump_line_bytes addr offset len buf m : mem_wf m → length buf = 4096%nat → bytes_ok buf →
  sat (λ '(t, buf'), bytes_ok t ∧ length buf' = 4096%nat ∧ bytes_ok buf')
    (dump_line addr offset len buf m).
Proof.
  intros Hwf Hl Hbuf. unfold dump_line. eapply sat_bind; [by apply memory_dump_bytes|].
  intros bs [Hbs _]. eapply sat_bind; [apply patch_inv; [exact Hbuf|exact Hbs]|].
  intros buf' [Hl' Hbuf']. simpl. rewrite line_text_dump.
  split_and!; [|lia|done]. unfold line_text. rewrite !Forall_app. split_and!.
  - eapply Forall_impl; [|apply padded_chars; [lia|apply wrap_range; lia]].
    intros c Hc. simpl in Hc. split; [lia|]. change (2 ^ 8) with 256. lia.
  - apply flat_map_chars; [split; [lia|done]|]. apply Forall_map.
    eapply Forall_impl; [|apply Forall_take; exact Hbuf']. intros b [? Hb].
    change (2 ^ 8) with 256 in Hb.
    eapply Forall_impl; [|apply padded_chars; lia]. intros c Hc. simpl in Hc.
    split; [lia|]. change (2 ^ 8) with 256. lia.
  - constructor; [|constructor]. split; [unfold newline; lia|done].
Qed.

Lemma dump_lines_bytes n addr offset len buf m :
  mem_wf m → length buf = 4096%nat → bytes_ok buf →
  sat (λ '(t, buf'), bytes_ok t ∧ length buf' = 4096%nat ∧ bytes_ok buf')
    (dump_lines n addr offset len buf m).
Proof.
  intros Hwf. revert offset buf. induction n as [|n IH]; intros offset buf Hl Hb; simpl.
  { split_and!; [constructor|done..]. }
  eapply sat_bind; [by apply dump_line_bytes|]. intros [t buf1] (Ht & Hl1 & Hb1).
  eapply sat_bind; [by apply IH|]. intros [r buf2] (Hr & ? & ?). simpl.
  split_and!; [by apply Forall_app|done..].
Qed.

Lemma dump_data_step writable filename is_hex addr len w : world_wf w →
  sat (λ '(_, w'), world_step w w') (dump_data_to_file writable filename is_hex addr len w).
Proof.
  intros Hw. unfold dump_data_to_file.
  destruct (match filename with Some f => _ | None => _ end) as [w1|] eqn:E;
    [|simpl; auto with session].
  assert (world_step w w1 ∧ msys (machine w1) = msys (machine w)) as [H1 Hm].
  { destruct filename as [f|]; [|injection E as <-; auto with session].
    destruct (writable f); [|done]. injection E as <-. split; [|done].
    apply set_files_step; [constructor|auto with session]. }
  destruct is_hex; [|destruct filename; simpl; auto with session].
  destruct (ww_buf _ (proj1 H1)) as [Hbl Hbo].
  eapply sat_bind; [apply dump_lines_bytes; [|exact Hbl|exact Hbo]|].
  { apply H1. }
  intros [t buf] (Ht & Hl & Hb). simpl. destruct filename as [f|]; [|by auto with session].
  apply (set_files_step f t w (set_dump_buf buf (report (Dumping (Some f) addr len true) w1)));
    by auto with session.
Qed.

(** ** Commands *)

Section session.
Variable writable : text → bool.

Lemma cmd_load_step offset ctx w : world_wf w →
  sat (world_step w) (cmd_load offset ctx w).
Proof.
  intros Hw. unfold cmd_load. destruct (check_for_hex ctx) as [[is_hex [t|]] ctx'];
    [|simpl; auto with session].
  sat_step; [simpl; auto with session|]. cbv zeta. sat_step; [simpl; auto with session|].
  destruct (next_token ctx') as [token ?].
  eapply sat_bind; [apply load_data_step; [done|]|].
  - pose proof (wrap_range 64 (strtol 0 t) ltac:(lia)) as [? _]. lia.
  - intros [ok w'] H. simpl. destruct ok; auto with session.
Qed.

Lemma cmd_dump_step ctx w : world_wf w → sat (world_step w) (cmd_dump writable ctx w).
Proof.
  intros Hw. unfold cmd_dump. destruct (check_for_hex ctx) as [[is_hex [t|]] ctx'];
    [|simpl; auto with session].
  destruct (next_token ctx') as [[t'|] ctx'']; [|simpl; auto with session]. cbv zeta.
  sat_step; [simpl; auto with session|]. destruct (next_token ctx'') as [token ?].
  eapply sat_bind; [by apply dump_data_step|].
  intros [ok w'] H. simpl. destruct ok; auto with session.
Qed.

Lemma cmd_readreg_step ctx w : world_wf w → sat (world_step w) (cmd_readreg ctx w).
Proof.
  intros Hw. unfold cmd_readreg. destruct (check_for_hex ctx) as [[is_hex [t|]] ctx']; [|done].
  cbv zeta. sat_step; simpl; auto with session.
Qed.

Lemma cmd_writereg_step ctx w : world_wf w → sat (world_step w) (cmd_writereg ctx w).
Proof.
  intros Hw. unfold cmd_writereg. destruct (next_token ctx) as [[t|] ctx'];
    [|simpl; auto with session].
  cbv zeta. sat_step; [simpl; auto with session|].
  destruct (next_token ctx') as [[t'|] ?]; [|simpl; auto with session].
  unfold register_store. case_decide; [|done]. cbn [obind sat].
  apply set_machine_step; [|auto with session]. apply set_regs_wf; [|apply Hw].
  apply put_register_wf; [width|apply Hw].
Qed.

Lemma cmd_run_step l ctx w : world_wf w → locals_wf l → sat (world_step w) (cmd_run l ctx w).
Proof.
  intros Hw Hl. unfold cmd_run. destruct (next_token ctx) as [[t|] ctx'];
    [|simpl; auto with session].
  cbv zeta. sat_step; [simpl; auto with session|].
  eapply sat_bind; [apply run_wf; [apply Hw|done]|]. intros [s l'] [Hs _].
  simpl. auto with session.
Qed.

Lemma cmd_setpc_step ctx w : world_wf w → sat (world_step w) (cmd_setpc ctx w).
Proof.
  intros Hw. unfold cmd_setpc. destruct (next_token ctx) as [[t|] ctx'];
    [|simpl; auto with session]. cbv zeta.
  pose proof (strtoul_range 0 t ltac:(lia)).
  destruct (memory_size <? _); (sat_step; [simpl; by auto with session|]).
  all: simpl; apply set_machine_step; [apply set_pc_wf; [done|apply Hw]|auto with session].
Qed.

Lemma cmd_setptbr_step ctx w : world_wf w → sat (world_step w) (cmd_setptbr ctx w).
Proof.
  intros Hw. unfold cmd_setptbr. destruct (next_token ctx) as [[t|] ctx'];
    [|simpl; auto with session]. cbv zeta.
  destruct (memory_size <? _); (sat_step; [simpl; by auto with session|]).
  all: simpl; apply set_machine_step; [apply set_ptbr_wf, Hw|auto with session].
Qed.

#[local] Hint Resolve cmd_load_step cmd_dump_step cmd_readreg_step cmd_writereg_step
  cmd_run_step cmd_setpc_step cmd_setptbr_step : session.

Lemma goes_on_step w o : sat (world_step w) o →
  sat (λ '(_, w'), world_step w w') (w ← o; Ok (true, w)).
Proof. intros H. eapply sat_bind; [exact H|]. done. Qed.

Lemma execute_line_step l offset line w : world_wf w → locals_wf l →
  sat (λ '(_, w'), world_step w w') (execute_line writable l offset line w).
Proof.
  intros Hw Hl. unfold execute_line. destruct (next_token _) as [[cmd|] ctx];
    [|simpl; auto with session].
  repeat (sat_step; [first [apply goes_on_step; by auto with session
                           |simpl; by auto with session
                           |simpl; apply set_machine_step; [apply initialize_state_wf, Hw|];
                            by auto with session]|]).
  simpl. auto with session.
Qed.

(** ** The loops of [main] *)

Variable junk : nat → locals * Z.
Hypothesis junk_ok : ∀ n, locals_wf (junk n).1.

Lemma interactive_wf fuel w : world_wf w → (length (stdin w) < fuel)%nat →
  sat (λ o, ∃ w', o = Some w' ∧ world_wf w') (interactive writable junk fuel w).
Proof.
  revert w. induction fuel as [|fuel IH]; intros w Hw Hf; [lia|]. cbn [interactive].
  assert (world_step w (put_stdout (prompt (machine w)) w)) as H1 by auto with session.
  destruct (fgets _ _) as [[cur_line rest]|] eqn:E.
  2:{ eexists. split; [done|]. exact (proj1 (put_stdout_step _ _ _ H1)). }
  apply fgets_line in E as (_ & Ei & Hr). cbn [stdin put_stdout] in Ei, Hr.
  specialize (Hr ltac:(unfold READLINE_BUF; lia)).
  assert (bytes_ok rest) as Hrest.
  { pose proof (ww_stdin _ Hw) as Hb. rewrite <-Ei in Hb. by apply Forall_app in Hb as [_ ?]. }
  pose proof (junk_ok fuel) as Hj. destruct (junk fuel) as [l offset].
  eapply sat_bind.
  { apply execute_line_step; [|exact Hj].
    apply (set_stdin_step rest w (put_stdout (prompt (machine w)) w)); [done|lia|done]. }
  intros [more w'] [Hw' Hl']. cbn [stdin set_stdin] in Hl'.
  destruct more; [apply IH; [done|lia]|]. by eexists.
Qed.

Lemma batch_wf fuel t w : world_wf w → (length t < fuel)%nat →
  sat (λ o, ∃ w', o = Some w' ∧ world_wf w') (batch writable junk fuel t w).
Proof.
  revert t w. induction fuel as [|fuel IH]; intros t w Hw Hf; [lia|]. cbn [batch].
  destruct (fgets _ _) as [[cur_line rest]|] eqn:E; [|by eexists].
  apply fgets_line in E as (_ & _ & Hr). specialize (Hr ltac:(lia)).
  pose proof (junk_ok fuel) as Hj. destruct (junk fuel) as [l offset].
  eapply sat_bind; [by apply execute_line_step|]. intros [more w'] [Hw' _].
  destruct more; [apply IH; [done|lia]|]. by eexists.
Qed.

Lemma getopts_range args fs o :
  urange 64 (read_latency o) → urange 64 (write_latency o) →
  sat (λ o', urange 64 (read_latency o') ∧ urange 64 (write_latency o')) (getopts args fs o).
Proof.
  revert o. induction args as [|a args IH]; intros o Hr Hw; simpl; [done|].
  destruct a; simpl; try done; try (apply IH; simpl; try done; width).
  case_match; [|done]. by apply IH.
Qed.

(** C15: the invariant of the simulator is the invariant of the program.
    For all arguments, files, input and values of uninitialised variables, a
    session that ends leaves every variable of the machine within its range
    and every table in its shape; the loops of [main] never run out of the
    fuel they are given. *)
Theorem session_keeps_invariant args fs input :
  map_Forall (λ _ t, bytes_ok t) fs → bytes_ok input →
  sat (λ o, ∃ w, o = Some w ∧ world_wf w) (main writable junk args fs input).
Proof.
  intros Hfs Hin. unfold main.
  eapply sat_bind; [by apply getopts_range|]. intros o [Hr Hw].
  destruct (start_wf _ _ Hr Hw) as (s & -> & Hs). cbn [obind].
  assert (world_wf (mkWorld s fs input [] [] [] (replicate 4096 0))) as Hw0.
  { constructor; [done..|]. split; [apply length_replicate|apply replicate_bytes_ok]. }
  sat_step; [done|]. destruct (cmd_file o) as [t|].
  - apply batch_wf; [done|lia].
  - apply interactive_wf; [done|simpl; lia].
Qed.
End session.
