(* ===== verification/Regression.v ===== *)
(** * The recorded test runs

    [tests/run_test.sh] feeds a script of commands to the simulator: load the
    page tables [tests/pt1-3-2-4-7], set the page table base, load a program,
    set the program counter, run, and print the registers that are not zero
    to descriptor 3, which is kept as [<program>.reg] in [tests/asm_tests].
    The model, given the same script and the same files as text, prints the
    same characters for every program. *)
From Stdlib Require Import String.
From S2P Require Import Prelude Memory Registers BranchPredictor Cache TLB.
From S2P Require Import Instruction Execute Pipeline Simulator CString Commands.
#[local] Open Scope string_scope.

Definition lines (l : list string) : text := flat_map (λ s, codes s ++ [newline])%list l.

(** [tests/pt1-3-2-4-7]: 512 lines of 16 bytes with octal addresses from
    070000 on, the entries at the start of two tables, and zeros. *)
Definition page_tables : text :=
  flat_map (λ k,
    pad0 8 (print_number 8 false (0x7000 + 16 * Z.of_nat k)) ++
    codes (match k with
           | 0%nat => " 04 00 00 80 05 00 00 80 06 00 00 80 00 00 00 00"
           | 256%nat => " 07 00 00 80 00 00 00 00 00 00 00 00 00 00 00 00"
           | _ => " 00 00 00 00 00 00 00 00 00 00 00 00 00 00 00 00"
           end) ++ [newline])%list (seq 0 512).

(** [tests/run_test.sh], with [$1] and [$2] filled in. *)
Definition script : text :=
  lines ["load /x 0x0 ./pt1-3-2-4-7"; "setptbr 0x8000"; "load 0x5000 program.bin";
         "setpc 0x1000"; "run 200"; "test_dump_reg"].

(** Uninitialised locals: the recorded runs started with zeros. *)
Definition zero_locals : locals := mkLocals 0 zero_d zero_x zero_m zero_w.

(** The text on descriptor 3. *)
Definition run_test (program : list Z) : outcome (option text) :=
  w ← main (λ _, true) (λ _, (zero_locals, 0)) []
        {[ codes "./pt1-3-2-4-7" := page_tables; codes "program.bin" := program ]} script;
  Ok (option_map fd3 w).

(** Name, program and recorded registers. *)
Definition recorded : list (string * list Z * list string) :=
  [ ("auipc_test",
     [151; 2; 0; 0; 239; 0; 64; 0; 19; 131; 192; 255; 179; 194; 98; 0],
     ["ra: 0x0000000000001008"; "t1: 0x0000000000001004"]);
    ("branch_test",
     [147; 2; 0; 0; 19; 3; 16; 0; 147; 99; 0; 0; 239; 0; 128; 0; 147; 227; 3; 1; 99;
      200; 98; 0; 147; 226; 18; 0; 19; 67; 19; 0; 147; 227; 35; 0; 99; 200; 98; 0; 147;
      226; 34; 0; 19; 99; 35; 0; 147; 227; 35; 0; 99; 152; 98; 0; 147; 226; 66; 0; 19;
      99; 67; 0; 147; 227; 67; 0; 99; 136; 2; 0; 147; 226; 130; 0; 19; 99; 131; 0; 147;
      227; 131; 0; 227; 142; 83; 250],
     ["ra: 0x0000000000001010"; "t1: 0x0000000000000001"]);
    ("branches_forwarding_stalls",
     [147; 98; 128; 0; 35; 32; 81; 0; 3; 99; 1; 0; 19; 147; 18; 0; 19; 14; 0; 0; 99;
      140; 98; 0; 35; 32; 97; 0; 131; 99; 1; 0; 19; 3; 243; 255; 19; 14; 254; 255; 239;
      240; 223; 254; 19; 19; 19; 0; 55; 63; 242; 0; 19; 31; 143; 0; 183; 15; 64; 0; 147;
      223; 79; 0; 51; 111; 255; 1; 227; 72; 238; 253; 27; 15; 240; 255; 179; 78; 238; 1],
     ["ra: 0x000000000000102C"; "t0: 0x0000000000000008"; "t1: 0x0000000000000008";
      "t2: 0x0000000000000009"; "t3: 0xFFFFFFFFFFFFFFF8"]);
    ("cache_test",
     [183; 130; 3; 0; 155; 130; 114; 171; 147; 146; 226; 0; 147; 130; 242; 238; 55; 243;
      11; 0; 27; 3; 19; 239; 19; 19; 195; 0; 19; 3; 67; 35; 183; 83; 52; 18; 155; 131;
      131; 103; 19; 14; 0; 0; 147; 14; 78; 0; 19; 143; 78; 0; 35; 32; 94; 0; 35; 160;
      110; 0; 35; 32; 127; 0; 3; 35; 14; 0; 131; 163; 14; 0; 131; 34; 15; 0],
     ["t0: 0xFFFFFFFF12345678"; "t1: 0xFFFFFFFFDEADBEEF"; "t2: 0xFFFFFFFFBEEF1234";
      "t4: 0x0000000000000004"; "t5: 0x0000000000000008"]);
    ("cache_test2",
     [183; 130; 3; 0; 155; 130; 114; 171; 147; 146; 226; 0; 147; 130; 242; 238; 55; 243;
      11; 0; 27; 3; 19; 239; 19; 19; 195; 0; 19; 3; 67; 35; 183; 83; 52; 18; 155; 131;
      131; 103; 19; 14; 0; 0; 147; 14; 78; 0; 19; 143; 78; 0; 35; 32; 94; 0; 35; 160;
      110; 0; 35; 32; 127; 0; 35; 160; 94; 0; 35; 32; 95; 0; 3; 35; 14; 0; 131; 163; 14;
      0; 131; 34; 15; 0],
     ["t0: 0xFFFFFFFFDEADBEEF"; "t1: 0xFFFFFFFFDEADBEEF"; "t2: 0xFFFFFFFFDEADBEEF";
      "t4: 0x0000000000000004"; "t5: 0x0000000000000008"]);
    ("cache_test3",
     [183; 130; 3; 0; 155; 130; 114; 171; 147; 146; 226; 0; 147; 130; 242; 238; 55; 243;
      11; 0; 27; 3; 19; 239; 19; 19; 195; 0; 19; 3; 67; 35; 183; 83; 52; 18; 155; 131;
      131; 103; 19; 14; 0; 0; 147; 14; 78; 0; 19; 143; 78; 0; 35; 32; 94; 0; 35; 160;
      110; 0; 35; 32; 127; 0; 3; 35; 14; 0; 131; 163; 14; 0; 131; 34; 15; 0; 131; 35;
      14; 0; 131; 162; 14; 0; 3; 35; 15; 0],
     ["t0: 0xFFFFFFFFBEEF1234"; "t1: 0xFFFFFFFF12345678"; "t2: 0xFFFFFFFFDEADBEEF";
      "t4: 0x0000000000000004"; "t5: 0x0000000000000008"]);
    ("cache_test4",
     [183; 130; 3; 0; 155; 130; 114; 171; 147; 146; 226; 0; 147; 130; 242; 238; 55; 243;
      11; 0; 27; 3; 19; 239; 19; 19; 195; 0; 19; 3; 67; 35; 183; 83; 52; 18; 155; 131;
      131; 103; 19; 14; 0; 0; 147; 14; 78; 0; 19; 143; 78; 0; 35; 32; 94; 0; 35; 160;
      110; 0; 35; 32; 127; 0; 3; 35; 14; 0; 131; 163; 14; 0; 131; 34; 15; 0; 147; 130;
      2; 1; 19; 3; 3; 1; 147; 131; 3; 1; 35; 32; 94; 0; 35; 160; 110; 0; 35; 32; 127; 0;
      131; 35; 14; 0; 131; 162; 14; 0; 3; 35; 15; 0],
     ["t0: 0xFFFFFFFFDEADBEFF"; "t1: 0xFFFFFFFFBEEF1244"; "t2: 0x0000000012345688";
      "t4: 0x0000000000000004"; "t5: 0x0000000000000008"]);
    ("case4",
     [147; 2; 80; 0; 35; 32; 81; 0; 147; 2; 32; 0; 3; 35; 1; 0; 179; 2; 83; 0],
     ["t0: 0x0000000000000007"; "t1: 0x0000000000000005"]);
    ("case5",
     [147; 2; 0; 0; 239; 0; 128; 0; 147; 130; 66; 0; 147; 130; 18; 0],
     ["ra: 0x0000000000001008"; "t0: 0x0000000000000001"]);
    ("case6",
     [147; 2; 112; 0; 147; 130; 242; 255; 227; 158; 2; 254],
     []);
    ("case7",
     [147; 2; 0; 0; 147; 130; 18; 0; 35; 32; 81; 0; 3; 35; 1; 0; 147; 3; 112; 0; 227;
      152; 114; 254; 147; 130; 18; 0],
     ["t0: 0x0000000000000008"; "t1: 0x0000000000000007"; "t2: 0x0000000000000007"]);
    ("forwarding_add_test",
     [147; 2; 16; 0; 51; 131; 82; 0; 179; 3; 99; 0; 51; 142; 99; 0; 179; 14; 126; 0; 51;
      143; 126; 0; 179; 15; 223; 1; 51; 132; 239; 65],
     ["t0: 0x0000000000000001"; "t1: 0x0000000000000002"; "t2: 0x0000000000000004";
      "s0: 0x000000000000000A"; "t3: 0x0000000000000006"; "t4: 0x000000000000000A";
      "t5: 0x000000000000000E"; "t6: 0x0000000000000018"]);
    ("load_test",
     [147; 98; 16; 0; 35; 32; 81; 0; 131; 34; 1; 0],
     ["t0: 0x0000000000000001"]);
    ("loads_branches_stalling_forwarding",
     [147; 98; 16; 0; 19; 99; 80; 0; 35; 32; 81; 0; 147; 130; 18; 0; 147; 131; 18; 0; 3;
      46; 1; 0; 179; 142; 195; 1; 227; 150; 98; 254],
     ["t0: 0x0000000000000005"; "t1: 0x0000000000000005"; "t2: 0x0000000000000006";
      "t3: 0x0000000000000004"; "t4: 0x000000000000000A"]);
    ("page_test",
     [19; 3; 0; 0; 55; 46; 0; 0; 27; 14; 14; 80; 147; 14; 142; 62; 147; 14; 142; 62;
      147; 14; 142; 62; 147; 14; 142; 62; 35; 32; 110; 0; 19; 3; 19; 0; 19; 14; 142; 0;
      227; 26; 222; 255; 19; 3; 0; 0; 183; 35; 0; 0; 155; 131; 3; 80; 147; 3; 0; 0; 131;
      35; 14; 0; 99; 26; 115; 0; 19; 3; 19; 0; 19; 14; 142; 0; 227; 24; 222; 255; 239;
      0; 64; 1; 183; 130; 3; 0; 155; 130; 114; 171; 147; 146; 226; 0; 147; 130; 242; 238],
     ["t1: 0x000000000000001A"; "t3: 0x00000000000025D0"; "t4: 0x00000000000028E8"]);
    ("stall_test",
     [19; 3; 0; 0; 183; 130; 3; 0; 155; 130; 114; 171; 147; 146; 226; 0; 147; 130; 226;
      238; 35; 32; 81; 0; 19; 3; 32; 0; 3; 99; 1; 0; 19; 3; 19; 0; 179; 67; 83; 0],
     ["t0: 0x00000000DEADBEEE"; "t1: 0x00000000DEADBEEF"; "t2: 0x0000000000000001"]) ].

(** The model reproduces every recorded run, from the script of commands to
    the text of the register dump. *)
Example recorded_runs :
  Forall (λ '(_, program, registers), run_test program = Ok (Some (lines registers))) recorded.
Proof. repeat (constructor; [vm_compute; reflexivity|]). constructor. Qed.
