(* ===== verification/Witnesses.v ===== *)
(** * The properties at concrete inputs

    For every property that has hypotheses, a state of the simulator in which
    they hold, and the property applied there. *)
From Stdlib Require Import String.
From S2P Require Import Prelude Memory Port Registers BranchPredictor Cache.
From S2P Require Import CacheSpec CacheWrite CacheMemory TLB TLBSpec Instruction.
From S2P Require Import ISA Execute ISARefinement Divergence Pipeline DecodeSpec ExecuteSpec.
From S2P Require Import MemoryStageSpec Simulator Squash FetchSpec SimulatorSpec LoadPath.
From S2P Require Import CString CStringSpec Commands CommandsSpec SessionSpec.

(** ** Memory *)

(** One page of memory in the middle of a cycle, in the M stage. *)
Definition demo_mem (latency : Z) : memsys :=
  mkMem (mem_set ∅ 0x100 [1; 2; 3; 4; 5; 6; 7; 8]) 4096 latency 0 7 0 0 0 0
    (replicate 4 no_pending) STAGE_M_BIT 0.

Lemma demo_mem_wf latency : urange 64 latency → mem_wf (demo_mem latency).
Proof.
  intros. constructor; simpl; try done.
  - apply (mem_set_ok ∅ 0x100 [1; 2; 3; 4; 5; 6; 7; 8]); [apply map_Forall_empty|].
    repeat (constructor; [done|]). constructor.
  - repeat (constructor; [by constructor|]). constructor.
Qed.

Lemma memory_write_read_roundtrip_witness :
  ∃ m1, memory_write 0x108 0xABCDE 2 (demo_mem 0) = Ok (true, m1) ∧
    (∃ bs m3, memory_read 0x108 2 (set_stage STAGE_F_BIT (end_of_cycle m1)) = Ok (true, bs, m3) ∧
              bytes_to_Z bs = 0xBCDE) ∧
    ∃ m3, memory_read 0x100 4 (set_stage STAGE_F_BIT (end_of_cycle m1))
          = Ok (true, [1; 2; 3; 4], m3).
Proof.
  destruct (memory_write_read_roundtrip 0x108 0xABCDE 2 (demo_mem 0) STAGE_F_BIT)
    as (m1 & Hw & Hr & Hd).
  - by apply demo_mem_wf.
  - by split.
  - unfold access_size. lia.
  - by repeat split.
  - done.
  - done.
  - by left.
  - exists m1. split; [exact Hw|]. split; [exact Hr|].
    apply (Hd 0x100 4); [left; unfold access_size; lia|by repeat split|lia].
Defined.

Lemma one_access_per_stage_witness :
  ∃ m1, memory_read 0x100 4 (demo_mem 0) = Ok (true, [1; 2; 3; 4], m1) ∧
    memory_read 0x104 4 m1 = Ok (true, [0; 0; 0; 0], m1) ∧
    memory_write 0x104 9 4 m1 = Ok (true, m1).
Proof.
  eexists. split; [reflexivity|].
  destruct (one_access_per_stage (demo_mem 0) (issue (count_read 4 (demo_mem 0)))) as (Hr & _ & Hw & _).
  - by apply demo_mem_wf.
  - by split.
  - left. exists 0x100, 4, true, [1; 2; 3; 4]. split; reflexivity.
  - split; [apply (Hr 0x104 4); reflexivity|apply Hw].
Defined.

Lemma read_latency_protocol_witness :
  ∃ m1, memory_read 0x100 4 (demo_mem 3) = Ok (false, [0; 0; 0; 0], m1) ∧
    (∃ m2, memory_status 0x100 (Nat.iter 3 end_of_cycle m1) = Ok (true, [1; 2; 3; 4], m2)) ∧
    memory_status 0x100 (Nat.iter 2 end_of_cycle m1) = Ok (false, [], Nat.iter 2 end_of_cycle m1).
Proof.
  destruct (read_latency_protocol 0x100 4 (demo_mem 3)) as (m1 & Hr & Hs).
  - by apply demo_mem_wf.
  - by split.
  - left. unfold access_size. lia.
  - by repeat split.
  - done.
  - exists no_pending. split; [apply list_elem_of_here|done].
  - intros p Hp. apply (elem_of_replicate 4 no_pending) in Hp as [-> _]. done.
  - done.
  - exists m1. split; [exact Hr|]. split.
    + destruct (Hs 3%nat) as (m2 & E); [done|]. exists m2. exact E.
    + destruct (Hs 2%nat) as (m2 & E); [done|]. exact E.
Defined.

(** ** Registers and branch predictor *)

Lemma register_read_after_write_witness :
  register_read 5 0 (register_write 5 42 initial_registers) = (42, 0).
Proof.
  rewrite (register_read_after_write 5 42 5 0 initial_registers);
    [reflexivity|apply initial_registers_wf|lia..].
Defined.

Lemma update_bht_saturates_witness :
  bht (entry 3 (update_bht true 3 initial_branch_table)) = 1.
Proof.
  destruct (update_bht_saturates true 3 3 initial_branch_table) as (_ & Hb & _).
  - apply initial_branch_table_wf.
  - lia.
  - lia.
  - exact Hb.
Defined.

(** A loop of 32 bytes: the branch at [0x1020] back to [0x1000] is learnt. *)
Lemma update_entry_prediction_witness :
  predict_address 0x1020 (update_entry 0x1020 0x1000 false initial_branch_table) = 0x1000.
Proof.
  rewrite (update_entry_prediction 0x1020 0x1000 false initial_branch_table 0x1020);
    [reflexivity|apply initial_branch_table_wf|done|done|done].
Defined.

(** ** Caches *)

(** A data cache of two sets: empty, or with both rows of set 0 in use. *)
Definition small_cache : cache_table := construct_cache (2 ^ 1) CACHE_DATA.
Definition full_cache (d : bool) : cache_table :=
  put_row 2 (mkRow 7 [11; 12; 13; 14; 15; 16; 17; 18] d true)
    (put_row 0 (mkRow 5 [21; 22; 23; 24; 25; 26; 27; 28] d true) small_cache).

Lemma full_cache_wf d : cache_wf (full_cache d).
Proof.
  assert (cache_wf small_cache) as Hs by (apply construct_cache_wf; lia).
  assert (∀ c t l, is_data c = true → block_size c = 3 → urange 64 t → length l = 8%nat →
            bytes_ok l → row_wf c (mkRow t l d true)) as Hr.
  { intros c t l Hd Hb Ht Hl Hok. constructor; simpl; try done; [by rewrite Hb|congruence]. }
  apply put_row_wf; [apply put_row_wf; [done|]|]; apply Hr; try done;
    repeat (constructor; [done|]); constructor.
Qed.

Lemma read_access_transparent_witness :
  ∃ c' m', read_access small_cache 0x100 4 false true (demo_mem 0) = Ok (0, [1; 2; 3; 4], c', m')
           ∧ is_Some (hit_row c' 0x100).
Proof.
  destruct (read_access_transparent small_cache 0x100 4 (demo_mem 0))
    as ([[[st bs] c'] m'] & E & -> & -> & _ & Hh & _).
  - apply construct_cache_inv. lia.
  - by apply demo_mem_wf.
  - done.
  - unfold access_size. lia.
  - done.
  - done.
  - right. split; [by repeat split|]. split; [done|]. split; [done|]. vm_compute. reflexivity.
  - exists c', m'. split; [exact E|exact Hh].
Defined.

Lemma write_access_view_witness :
  ∃ c', write_access small_cache 0x100 0x99 8 false true (demo_mem 0) = Ok (0, c', demo_mem 0) ∧
    cview c' (port_view (demo_mem 0)) 0x100 = 0x99.
Proof.
  destruct (write_access_view small_cache 0x100 8 0x99 (demo_mem 0)) as (c' & E & Hv & _).
  - apply construct_cache_inv. lia.
  - done.
  - done.
  - unfold access_size. lia.
  - done.
  - right. split_and!; [done|done|vm_compute; reflexivity|vm_compute; reflexivity].
  - exists c'. split; [exact E|]. rewrite (Hv 0x100). reflexivity.
Defined.

Lemma second_way_store_lost_witness :
  ∃ c', write_access (full_cache false) 0x70 99 8 false true (demo_mem 0)
        = Ok (0, c', demo_mem 0) ∧
    cview c' (port_view (demo_mem 0)) 0x70 = 11.
Proof.
  eexists. split; [vm_compute; reflexivity|].
  edestruct (second_way_store_lost (full_cache false) 0x70 8 99 (demo_mem 0)) as [_ Hv].
  - apply full_cache_wf.
  - done.
  - unfold access_size. lia.
  - vm_compute. reflexivity.
  - reflexivity.
  - vm_compute. reflexivity.
  - reflexivity.
  - vm_compute. reflexivity.
  - rewrite (Hv (port_view (demo_mem 0)) 0x70); reflexivity.
Defined.

(** Two blocks of set 0 in a clean cache, as two reads leave it. *)
Definition clean_cache : cache_table :=
  put_row 2 (mkRow 5 (replicate 8 0) false true)
    (put_row 0 (mkRow 16 [1; 2; 3; 4; 5; 6; 7; 8] false true) small_cache).

Lemma filled_inv c a c' : cache_inv c (port_view (demo_mem 0)) → urange 32 a →
  a mod 4 = 0 → fills c a (demo_mem 0) →
  (∃ bs m', read_access c a 4 false true (demo_mem 0) = Ok (0, bs, c', m') ∧
            riscv_mem m' = riscv_mem (demo_mem 0)) →
  cache_inv c' (port_view (demo_mem 0)).
Proof.
  intros Hc Ha H4 Hf (bs & m' & E & Em).
  destruct (read_access_returns c a 4 (demo_mem 0)) as ([[[? ?] ?] ?] & E' & _ & _ & _ & _ & Hi & _);
    try done; [by apply demo_mem_wf|by right; right; left|by right|].
  rewrite E in E'. injection E' as <- <- <- <-.
  assert (port_view m' = port_view (demo_mem 0)) as <- by (simpl; by rewrite Em). done.
Qed.

Lemma clean_cache_inv : cache_inv clean_cache (port_view (demo_mem 0)).
Proof.
  apply (filled_inv (put_row 0 (mkRow 16 [1; 2; 3; 4; 5; 6; 7; 8] false true) small_cache) 0x50);
    [|done|done|by repeat split|by vm_compute; eexists _, _].
  apply (filled_inv small_cache 0x100); [|done|done|by repeat split|by vm_compute; eexists _, _].
  apply construct_cache_inv. lia.
Qed.

Lemma clean_store_forgotten_witness :
  ∃ c' bs c'' m', write_access clean_cache 0x102 0xFF 1 false true (demo_mem 0)
                  = Ok (0, c', demo_mem 0) ∧
    read_access c' 0x200 4 false true (demo_mem 0) = Ok (0, bs, c'', m') ∧
    cview c'' (port_view m') 0x102 = 3.
Proof.
  destruct (clean_store_forgotten clean_cache 0x102 1 0xFF
              (mkRow 16 [1; 2; 3; 4; 5; 6; 7; 8] false true) 0x200 4 (demo_mem 0))
    as (c' & bs & c'' & m' & Hw & Hr & _ & Hv).
  - apply clean_cache_inv.
  - by apply demo_mem_wf.
  - constructor; try reflexivity. exists (mkRow 5 (replicate 8 0) false true). by split.
  - reflexivity.
  - by left.
  - done.
  - done.
  - by right; right; left.
  - reflexivity.
  - reflexivity.
  - reflexivity.
  - by repeat split.
  - done.
  - exists c', bs, c'', m'. split; [exact Hw|]. split; [exact Hr|]. rewrite (Hv 0x102). reflexivity.
Defined.

Lemma write_back_address_witness :
  old_address_of small_cache (mkRow 4 [] true true) 0 = 0x40 ∧
  old_address_of small_cache (mkRow 4 [] true true) 2 ≠ 0x40.
Proof.
  destruct (write_back_address small_cache 0x43 (mkRow 4 [] true true)) as [H0 H1].
  - apply construct_cache_wf. lia.
  - done.
  - reflexivity.
  - split; [exact H0|]. intros E. by apply H1 in E.
Defined.

Lemma dirty_eviction_reads_zeros_witness :
  ∃ c' m', read_access (full_cache true) 0x100 4 false true (demo_mem 0)
           = Ok (0, [0; 0; 0; 0], c', m').
Proof.
  destruct (dirty_eviction_reads_zeros (full_cache true) (full_cache_wf true) (demo_mem 0)
              (demo_mem_wf 0 ltac:(done)) 0x100 4 ltac:(unfold access_size; lia) eq_refl
              ltac:(done) eq_refl ltac:(done) 0 (mkRow 5 [21; 22; 23; 24; 25; 26; 27; 28] true true)
              eq_refl eq_refl eq_refl eq_refl) as (c' & m' & E & _).
  - by split.
  - done.
  - by repeat split.
  - reflexivity.
  - exists c', m'. exact E.
Defined.

(** Memory holds 5, 6, 7, 8 at [0x104]. *)
Lemma unaligned_miss_is_stale_witness :
  ∃ c', read_access small_cache 0x104 4 false true (demo_mem 0)
        = Ok (0, [0; 0; 0; 0], c', demo_mem 0) ∧
    mem_get (riscv_mem (demo_mem 0)) 0x104 4 = [5; 6; 7; 8].
Proof.
  destruct (unaligned_miss_is_stale small_cache (construct_cache_wf CACHE_DATA 1 ltac:(lia))
              (demo_mem 0) 0x104 4 ltac:(unfold access_size; lia) eq_refl ltac:(done) eq_refl
              ltac:(done) 0 (mkRow 0 [0; 0; 0; 0; 0; 0; 0; 0] false false) eq_refl eq_refl eq_refl)
    as (c' & E & _).
  - done.
  - exists c'. split; [exact E|reflexivity].
Defined.

(** ** TLBs *)

(** One page of memory, every word of which is a valid table entry for page 0:
    as first- and second-level table it maps every superpage to superpage 0. *)
Definition mapped_mem : memsys :=
  mkMem (mem_set ∅ 0 (concat (replicate 1024 [0; 0; 0; 0x80]))) 4096 0 0 7 0 0 0 0
    (replicate 4 no_pending) STAGE_F_BIT 0.

Lemma mapped_mem_wf : port_wf mapped_mem.
Proof.
  apply Build_mem_wf; [|done..|].
  - apply mem_set_ok; [apply map_Forall_empty|]. apply Forall_concat, Forall_replicate.
    repeat (constructor; [done|]). constructor.
  - repeat (constructor; [by constructor|]). constructor.
Qed.

Lemma mapped_readable : port_readable mapped_mem.
Proof. by repeat split. Qed.

Lemma mapped_entry k : urange 10 k → table_entry (port_view mapped_mem) (4 * k) = 0x80000000.
Proof.
  intros Hk. apply Z.eqb_eq. revert k Hk.
  apply (exhaustive 10 (λ k, table_entry (port_view mapped_mem) (4 * k) =? 0x80000000)).
  vm_compute. reflexivity.
Qed.

Lemma mapped_tables va : urange 32 va →
  entry_inside mapped_mem (level1_address 0 va) ∧
  table_entry (port_view mapped_mem) (level1_address 0 va) = 0x80000000 ∧
  entry_inside mapped_mem (level2_address 0x80000000 va) ∧
  table_entry (port_view mapped_mem) (level2_address 0x80000000 va) = 0x80000000.
Proof.
  intros [? ?].
  assert (urange 10 (va / 2 ^ 22)) as H1.
  { split; [apply Z.div_pos; lia|apply Z.div_lt_upper_bound; lia]. }
  assert (level1_address 0 va = 4 * (va / 2 ^ 22)) as E1.
  { unfold level1_address. rewrite Z.add_0_r, wrap_small; [done|]. unfold urange in *. lia. }
  pose proof (Z.mod_pos_bound (va / 2 ^ 12) (2 ^ 8) ltac:(lia)) as H2.
  assert (level2_address 0x80000000 va = 4 * ((va / 2 ^ 12) mod 2 ^ 8)) as E2 by done.
  unfold entry_inside. rewrite E1, E2. change (port_limit mapped_mem) with 4096.
  assert (∀ x, (4 * x) mod 4 = 0) as H4 by (intros; rewrite Z.mul_comm; apply Z_mod_mult).
  unfold urange in H1. repeat split; [apply H4|lia|by apply mapped_entry|apply H4|lia|].
  apply mapped_entry. unfold urange. lia.
Qed.

Lemma mapped_translate va : urange 32 va →
  translate (port_view mapped_mem) 0 va = Some (in_superpage 0 va).
Proof.
  intros Hva. destruct (mapped_tables va Hva) as (_ & E1 & _ & E2).
  unfold translate. rewrite E1. change (entry_valid 0x80000000) with true. cbv iota.
  by rewrite E2.
Qed.

Lemma mapped_uniform : uniform_tables 0 (port_view mapped_mem).
Proof.
  intros va va' p Hva Hva' _. rewrite !mapped_translate by done. intros [= E].
  unfold in_superpage in E. assert (p = 0) as -> by lia. done.
Qed.

Lemma mapped_fields :
  memory_accesses_issued mapped_mem = 0 ∧ memory_read_latency mapped_mem = 0 ∧
  riscv_mem_size mapped_mem = 4096.
Proof. unfold mapped_mem. cbn. done. Qed.

#[local] Opaque mapped_mem.


Lemma get_address_sound_witness :
  sat (λ '(s, out, _, _), s ≠ FAULT ∧ ∀ pa, out = Some pa → pa = 0x123)
    (get_address 0 (set_cached 0x80000000 initial_tlb) 0x24123 2 mapped_mem).
Proof.
  assert (urange 32 0x24123) as Hva by done.
  assert (urange 32 0x80000000) as He by done.
  destruct (mapped_tables 0x24123 Hva) as (Hi1 & E1 & Hi2 & _). rewrite <-E1 in Hi2.
  assert (walk_inv 0 (port_view mapped_mem) 0x24123 2 (set_cached 0x80000000 initial_tlb)) as Hw
    by (intros _; symmetry; exact E1).
  pose proof (get_address_sound 0 (set_cached 0x80000000 initial_tlb) 0x24123 2 mapped_mem
                (set_cached_wf _ _ initial_tlb_wf He)
                (initial_tlb_coherent 0 (port_view mapped_mem)) mapped_uniform Hva mapped_mem_wf
                mapped_readable (list_elem_of_further _ _ _ (list_elem_of_here _ _)) Hw Hi1 Hi2)
    as Hsat.
  eapply sat_mono; [|exact (ends_sat _ _ _ Hsat)].
  intros [[[s out] t] m] (_ & _ & _ & _ & _ & Hout & Hf).
  rewrite (mapped_translate 0x24123 Hva) in Hout, Hf. split.
  - intros E. discriminate (Hf E).
  - intros pa Epa. specialize (Hout pa Epa). injection Hout as <-. reflexivity.
Defined.

(** ** Decode *)

Definition addi (rd rs1 imm : Z) : Z := i_type 0x13 0 imm - 3 * 2 ^ 7 - 1 * 2 ^ 15
                                        + rd * 2 ^ 7 + rs1 * 2 ^ 15.

(** A pipeline with [d] in decode, [x] in execute, a result [v] for register
    [r] in the memory stage, and 9 for register 6 in write-back. *)
Definition demo (d : stage_reg_d) (x : stage_reg_x) (r v : Z) : sim :=
  mkSim (demo_mem 0) initial_registers 0x1010 0 d x
    (mkM 0 0 3 0 r v 0 0 0 0x1000) (mkW 6 9 1 0 0 0 zero_m)
    initial_branch_table true major_dispatch_table
    (construct_cache 512 CACHE_INSTRUCTION) (construct_cache 2048 CACHE_DATA)
    initial_tlb initial_tlb [].

Definition demo_d (i : Z) : stage_reg_d := mkD 0x1008 0x100C i 1 0 0.
Definition demo_x : stage_reg_x := mkX 0x1004 0x1008 (addi 7 0 1) 1 0 (2 ^ 64 - 1) 0 (-1) 7.


(** [addi x0, x0, 5] in the memory stage, [addi x8, x0, 1] in decode. *)
Lemma x0_forwarded_witness :
  rs1_value (stage_decode (stage_writeback (demo (demo_d (addi 8 0 1)) demo_x 0 5)) zero_x).1 = 5.
Proof.
  destruct (x0_forwarded (stage_writeback (demo (demo_d (addi 8 0 1)) demo_x 0 5)) zero_x)
    as [H _]; try reflexivity; try done.
  - apply stage_writeback_regs; [apply initial_registers_wf|done].
Defined.

(** ** Execute *)

(** [x] at [0x1004] with instruction [i], operands [a] and [b], predicted
    successor [p]. *)
Definition exec_x (i a b p : Z) : stage_reg_x := mkX 0x1004 p i 1 a b 1 2 3.
Definition exec (i a b p : Z) : sim :=
  demo (demo_d (addi 8 1 1)) (exec_x i a b p) 5 42.

Lemma exec_runs i a b p : i ≠ 0 → runs (exec i a b p).
Proof. intros. by constructor. Qed.

Lemma exec_x_wf i a b p : urange 32 i → urange 64 a → urange 64 b → urange 64 p →
  x_wf (exec_x i a b p).
Proof. intros. constructor; simpl; try done; unfold srange; lia. Qed.


(** [jal x1, +64] at [0x1004], and behind it [addi x8, x1, 1], which reads x1. *)
Lemma decode_stall_cancels_jump_witness :
  let s := stage_writeback (demo (demo_d (addi 8 1 1)) (mkX 0x1004 0x1008 0x040000EF 1 0 0 (-1) (-1) 1)
                              5 42) in
  ∃ m' s1, stage_execute s zero_m = Ok (m', s1) ∧ program_counter s1 = 0x1044 ∧
           program_counter (stage_decode s1 zero_x).2 = 0x1008.
Proof.
  intros s. apply (decode_stall_cancels_jump s zero_m zero_x).
  - by constructor.
  - done.
  - apply stage_writeback_regs; [apply initial_registers_wf|done].
  - reflexivity.
  - reflexivity.
  - reflexivity.
  - done.
  - apply list_elem_of_here.
  - done.
Defined.

(** ** Words outside the instruction set, and divergences *)


(** [beq x1, x2, +34] goes 4062 bytes back. *)
Lemma branch_target_exact_witness :
  ∃ m' out, dispatch major_dispatch_table (exec_x 0x02208163 7 7 0) 0x1008 zero_m
            = Ok (u64 (0x1004 - 4062), m', out) ∧
    branch_offset_ok (imm_B 0x02208163) = false.
Proof.
  do 2 eexists. split; [vm_compute; reflexivity|].
  apply not_true_iff_false. intros E.
  apply (branch_target_exact (exec_x 0x02208163 7 7 0) zero_m (u64 (0x1004 - 4062)) zero_m [])
    in E; [discriminate E|reflexivity|reflexivity|vm_compute; reflexivity].
Defined.

(** [srai x3, x1, 1] and [srai x3, x1, 33]. *)
Lemma srai_not_executed_witness :
  dispatch major_dispatch_table (exec_x (i_type 0x13 5 0x401) 8 0 0) 0x1008 zero_m = Undef ∧
  dispatch major_dispatch_table (exec_x (i_type 0x13 5 0x421) 8 0 0) 0x1008 zero_m
  = Ok (0x1008, zero_m, [Illegal_instruction 0x1004 (i_type 0x13 5 0x421)]).
Proof.
  split.
  - destruct (srai_not_executed (exec_x (i_type 0x13 5 0x401) 8 0 0) zero_m 1) as [H _];
      [done|]. apply H; reflexivity.
  - destruct (srai_not_executed (exec_x (i_type 0x13 5 0x421) 8 0 0) zero_m 33) as [H _];
      [done|]. apply H; reflexivity.
Defined.


(** [auipc x3, 2] at [0x1004]. *)
Lemma auipc_off_by_four_witness :
  realises zero_m 0x1008 (Write_reg 3 0x3008)
    (dispatch major_dispatch_table (exec_x 0x2197 0 0 0) 0x1008 zero_m).
Proof.
  apply (auipc_off_by_four (exec_x 0x2197 0 0 0) zero_m 0x3004); reflexivity.
Defined.

(** ** Memory stage *)

Lemma full_cache_rows i r : 0 ≤ i → row (full_cache true) i = Some r → valid r = true →
  (i = 0 ∧ tag r = 5 ∨ i = 2 ∧ tag r = 7) ∧ dirty r = true.
Proof.
  intros Hi. unfold row. destruct (Z.to_nat i) as [|[|[|[|n]]]] eqn:E; simpl; intros [= <-] Hv;
    try discriminate Hv; (split; [|done]).
  - left. split; [lia|done].
  - right. split; [lia|done].
Qed.

Lemma full_cache_inv v : cache_inv (full_cache true) v.
Proof.
  pose proof (full_cache_wf true) as Hwf. constructor; [done| |].
  - intros a i r Hm Hr Hh Hd. apply holds_spec in Hh as [Hv _].
    apply (may_hold_range _ Hwf) in Hm as [? _].
    destruct (full_cache_rows i r) as [_ Hd']; [done..|]. congruence.
  - intros a r0 r1 _ H0 H1 Hh0 Hh1. apply holds_spec in Hh0 as [Hv0 Ht0], Hh1 as [Hv1 Ht1].
    pose proof (index_of_range _ Hwf a) as [? ?]. change (num_blocks (full_cache true)) with 2 in *.
    apply full_cache_rows in H0 as [? _], H1 as [? _]; [lia|lia|done|lia|done].
Qed.

(** The data TLB maps superpage 0 to itself. *)
Definition identity_tlb : tlb := set_tlb_at 0 (mkTlbEntry true 0 0) initial_tlb.

Lemma identity_tlb_wf : tlb_wf identity_tlb.
Proof. apply set_tlb_at_wf; [apply initial_tlb_wf|by constructor]. Qed.

(** A memory stage with an access of kind [k] to [a]. *)
Definition access (k a n v sx : Z) (c : cache_table) : sim :=
  mkSim (demo_mem 0) initial_registers 0x1010 0 zero_d zero_x
    (mkM a n k sx 5 v 0 0 0 0x1000) zero_w initial_branch_table true major_dispatch_table
    (construct_cache 512 CACHE_INSTRUCTION) c initial_tlb identity_tlb [].

Lemma access_accesses k a n v sx c : access_size n → 0 ≤ a < 2 ^ 14 →
  accesses (access k a n v sx c) k a.
Proof.
  intros Hn Ha. assert (u32 a = a) as Eu by (apply wrap_small; unfold urange; lia).
  assert (tlb_index (u32 a) = 0 ∧ tlb_group (u32 a) = 0) as [Ei Eg].
  { rewrite Eu. unfold tlb_index, tlb_group. rewrite !Z.div_small by lia. done. }
  constructor; simpl; try done.
  - by left.
  - apply identity_tlb_wf.
  - rewrite Ei. reflexivity.
  - rewrite Ei, Eg. reflexivity.
  - rewrite Ei, Eu. change (physical_page (tlb_at 0 identity_tlb)) with 0.
    unfold in_superpage. rewrite Z.mod_small by lia. lia.
Qed.

(** [lh x5, 0x70]: the block is in the second way. *)
Lemma load_hit_delivers_witness :
  ∃ w, stage_memory (access 2 0x70 2 0 1 (full_cache true)) zero_w
       = Ok (w, access 2 0x70 2 0 1 (full_cache true)) ∧ w_value w = 0x0C0B.
Proof.
  destruct (load_hit_delivers (access 2 0x70 2 0 1 (full_cache true)) zero_w 0x70)
    as (w & E & _ & _ & _ & _ & Hv).
  - apply access_accesses; [unfold access_size; lia|lia].
  - apply full_cache_wf.
  - vm_compute. eexists. reflexivity.
  - by apply demo_mem_wf.
  - reflexivity.
  - discriminate.
  - done.
  - exists w. split; [exact E|]. exact (Hv eq_refl).
Defined.

(** [sh x2, 0x50] with value [0xBEEF1234], then [lhu x5, 0x50]. *)
Lemma store_then_load_witness :
  ∃ w s', stage_memory (access 1 0x50 2 0xBEEF1234 0 (full_cache true)) zero_w = Ok (w, s') ∧
  ∃ w2 s3, stage_memory (access 2 0x50 2 0 0 (data_cache s')) zero_w = Ok (w2, s3) ∧
    w_value w2 = 0x1234.
Proof.
  edestruct (store_then_load (access 1 0x50 2 0xBEEF1234 0 (full_cache true)) zero_w 0x50
    (mkRow 5 [21; 22; 23; 24; 25; 26; 27; 28] true true)
    (access 2 0x50 2 0 0
       (put_row 0 (mkRow 5 [0x34; 0x12; 23; 24; 25; 26; 27; 28] true true) (full_cache true)))
    zero_w) as (w & s' & E & _ & _ & Em & Hl).
  - apply access_accesses; [unfold access_size; lia|lia].
  - apply full_cache_inv.
  - done.
  - by apply demo_mem_wf.
  - reflexivity.
  - reflexivity.
  - reflexivity.
  - discriminate.
  - assert (data_cache s'
            = put_row 0 (mkRow 5 [0x34; 0x12; 23; 24; 25; 26; 27; 28] true true) (full_cache true))
      as Ec by (vm_compute in E; injection E as _ <-; reflexivity).
    exists w, s'. split; [exact E|]. rewrite Ec.
    destruct Hl as (w2 & s3 & E2 & _ & _ & Hv).
    + apply access_accesses; [unfold access_size; lia|lia].
    + symmetry. exact Ec.
    + symmetry. exact Em.
    + reflexivity.
    + discriminate.
    + done.
    + reflexivity.
    + exists w2, s3. split; [exact E2|]. exact Hv.
Defined.

(** A load from an unmapped address stalls for the TLB walk. *)
Lemma stalled_access_replayed_witness :
  ∃ w s', stage_memory (access 2 0x24000 4 0 1 (full_cache true)) zero_w = Ok (w, s') ∧
  ∃ m1 s2, stage_execute (set_stage_regs zero_d zero_x zero_m w s') zero_m = Ok (m1, s2) ∧
    effect_of m1 = Read_mem 5 0x24000 4 true ∧ program_counter s2 = 0x1000.
Proof.
  destruct (stage_memory (access 2 0x24000 4 0 1 (full_cache true)) zero_w) as [[w s']| |] eqn:Ew;
    [|vm_compute in Ew; discriminate..].
  exists w, s'. split; [reflexivity|].
  destruct (stalled_access_replayed _ _ w s' (set_stage_regs zero_d zero_x zero_m w s') zero_m Ew)
    as (_ & m1 & s2 & E & He & _ & _ & Hp).
  - vm_compute in Ew. injection Ew as <- _. discriminate.
  - reflexivity.
  - exists m1, s2. split; [exact E|]. split; [exact He|exact Hp].
Defined.

(** A store that waits one cycle for its block, and a write of 42 to register
    7 behind it. *)
Lemma store_stall_repeats_next_witness :
  ∃ w s', stage_memory (set_msys (demo_mem 1) (access 1 0x50 4 7 0 small_cache)) zero_w
          = Ok (w, s') ∧ global_memory_stall w = 1 ∧
  let s1 := set_stage_regs zero_d zero_x (mkM 0 0 3 0 7 42 0 0 0 0x1004) w s' in
  (∃ m1 s2, stage_execute s1 zero_m = Ok (m1, s2) ∧ program_counter s2 = 0x1000) ∧
  ∃ w1 s1', stage_memory s1 zero_w = Ok (w1, s1') ∧
    w_op w1 = 1 ∧ w_reg w1 = 7 ∧ w_value w1 = 42.
Proof.
  destruct (stage_memory (set_msys (demo_mem 1) (access 1 0x50 4 7 0 small_cache)) zero_w)
    as [[w s']| |] eqn:Ew; [|vm_compute in Ew; discriminate..].
  exists w, s'. split; [reflexivity|].
  assert (global_memory_stall w = 1) as Est
    by (vm_compute in Ew; injection Ew as <- _; reflexivity).
  split; [exact Est|]. intros s1.
  destruct (store_stall_repeats_next _ _ w s' s1 zero_w zero_m Ew)
    as (Hx & w1 & s1' & E & Hif).
  - rewrite Est. discriminate.
  - reflexivity.
  - reflexivity.
  - split; [exact Hx|]. exists w1, s1'. split; [exact E|].
    rewrite Est in Hif. exact Hif.
Defined.

(** ** Fetch *)

(** The fetch stage at [0x100] with an empty cache. *)
Definition fetch_sim : sim :=
  mkSim (demo_mem 0) initial_registers 0x100 0 zero_d zero_x zero_m zero_w initial_branch_table
    true major_dispatch_table (construct_cache 512 CACHE_INSTRUCTION)
    (construct_cache 2048 CACHE_DATA) identity_tlb initial_tlb [].

Lemma fetch_delivers_witness :
  ∃ d s', stage_fetch fetch_sim zero_d = Ok (d, s') ∧ d_not_stalled d = 1 ∧ d_pc d = 0x100 ∧
    program_counter s' = 0x104 ∧ d_instruction d = 0x04030201.
Proof.
  destruct (fetch_delivers fetch_sim zero_d 0x100) as (d & s' & E & Hn & _ & Hp & Hq & Hi & Hs & _).
  - constructor; [done|done|apply identity_tlb_wf|done..].
  - apply (construct_cache_inv CACHE_INSTRUCTION 9). lia.
  - by apply demo_mem_wf.
  - done.
  - done.
  - right. split; [by repeat split|]. split; [done|]. split; [done|]. by vm_compute.
  - exists d, s'. split; [exact E|]. split; [exact Hn|]. split; [exact Hp|].
    rewrite Hs, Hq, Hi. split; reflexivity.
Defined.

(** ** The simulator *)

Definition any_locals : locals := mkLocals 0 zero_d zero_x zero_m zero_w.

Lemma any_locals_wf : locals_wf any_locals.
Proof. destruct zero_regs_wf as (? & ? & ? & ?). by constructor. Qed.

Lemma run_keeps_invariant_witness :
  ∃ s, start 2 3 = Ok s ∧
    sat (λ '(s', _), sim_wf s' ∧ ∃ k, (k ≤ 5)%nat ∧ cycle_counter (msys s') = u64 (Z.of_nat k))
      (simulator_execute_instructions 5 s any_locals).
Proof.
  destruct (start_wf 2 3 ltac:(done) ltac:(done)) as (s & E & Hs). exists s. split; [exact E|].
  assert (cycle_counter (msys s) = 0) as E0 by (injection E as <-; reflexivity).
  eapply sat_mono; [|exact (run_keeps_invariant 5 s any_locals Hs any_locals_wf)].
  intros [s' l'] (Hs' & _ & k & Hk & Hc & _). split; [exact Hs'|]. exists k.
  split; [exact Hk|]. rewrite E0, Z.add_0_l in Hc. exact Hc.
Defined.

(** A signed word load from [0x24100], which maps to [0x100], with nothing in
    the TLBs and the caches. *)
Definition cold_sim : sim :=
  mkSim mapped_mem initial_registers 0 0 zero_d zero_x (mkM 0x24100 4 2 1 5 0 0 0 0 0) zero_w
    initial_branch_table true major_dispatch_table (construct_cache 512 CACHE_INSTRUCTION)
    (construct_cache 2048 CACHE_DATA) initial_tlb initial_tlb [].

Lemma cold_sim_wf : sim_wf cold_sim.
Proof.
  destruct zero_regs_wf as (? & ? & ? & ?).
  constructor; [apply mapped_mem_wf|apply initial_registers_wf|done|done|done|by constructor|done| | | | | ].
  - apply initial_branch_table_wf.
  - done.
  - intros _. apply caches_built.
  - apply initial_tlb_wf.
  - apply initial_tlb_wf.
Qed.

Lemma cold_sim_cold : cold_load cold_sim 0x100.
Proof.
  assert (urange 32 0x24100) as Hva by done.
  destruct (mapped_tables 0x24100 Hva) as (Hi1 & E1 & Hi2 & _).
  pose proof (mapped_translate 0x24100 Hva) as Ht.
  destruct mapped_fields as (H1 & H2 & H3).
  assert (u32 (m_address (cur_m cold_sim)) = 0x24100) as Ea by reflexivity.
  assert (in_superpage 0 0x24100 = 0x100) as Ep by reflexivity. rewrite Ep in Ht.
  apply Build_cold_load; rewrite ?Ea;
    change (msys cold_sim) with mapped_mem; change (ptbr cold_sim) with 0;
    change (dtlb cold_sim) with initial_tlb; rewrite ?E1;
    [exact eq_refl|exact H1|exact H2|exact eq_refl|exact eq_refl|exact eq_refl|by right; right; left
    |exact eq_refl|exact Ht|exact eq_refl|exact Hi1|exact Hi2| |exact eq_refl|by intros [=]|].
  - apply (construct_cache_inv CACHE_DATA 11). lia.
  - right. change (msys cold_sim) with mapped_mem. rewrite H3. split_and!; [done..|]. by vm_compute.
Qed.

(** Five cycles return. *)
Definition five_cycles (s : sim) (l : locals) : bool :=
  let go := λ '(s, l), cycle s l in
  match r ← go (s, l); r ← go r; r ← go r; r ← go r; go r with Ok _ => true | _ => false end.

Lemma cold_sim_runs : five_cycles cold_sim any_locals = true.
Proof. vm_compute. reflexivity. Qed.

Lemma load_completes_witness :
  memory_completes 5
    (λ s' _, w_op (cur_w s') = 1 ∧ w_reg (cur_w s') = 5 ∧
             w_value (cur_w s') = 0xFFFFFFFF80000000) cold_sim any_locals ∧
  five_cycles cold_sim any_locals = true.
Proof.
  split; [|exact cold_sim_runs].
  eapply memory_completes_mono;
    [|exact (load_completes cold_sim any_locals 0x100 cold_sim_wf any_locals_wf cold_sim_cold)].
  intros s' l' (H1 & H2 & H3). split; [exact H1|]. split; [exact H2|]. rewrite H3. reflexivity.
Defined.

(** [beq x1, x2, +40], taken and predicted to fall through, with an addition
    behind it in decode. *)
Definition mispredicting : sim :=
  set_stage_regs (demo_d (addi 8 1 1)) (exec_x 0x02208463 7 7 0x1008) zero_m zero_w cold_sim.

Lemma mispredicting_runs :
  match cycle mispredicting any_locals with
  | Ok (s1, l1) =>
      (global_memory_stall (cur_w s1) =? 0) && (x_not_stalled (cur_x s1) =? 1) &&
      match cycle s1 l1 with Ok _ => true | _ => false end
  | _ => false
  end = true.
Proof. vm_compute. reflexivity. Qed.

Lemma misprediction_squashes_witness :
  ∃ s1 l1 s2 l2, cycle mispredicting any_locals = Ok (s1, l1) ∧ cycle s1 l1 = Ok (s2, l2) ∧
    x_not_stalled (cur_x s1) = 1 ∧ m_tainted_executions (cur_m s1) = 1 ∧
    effect_of (cur_m s2) = No_effect.
Proof.
  pose proof mispredicting_runs as Hb.
  destruct (cycle mispredicting any_locals) as [[s1 l1]| |] eqn:C1; [|discriminate..].
  apply andb_true_iff in Hb as [[Hst Hx]%andb_true_iff Hb]. apply Z.eqb_eq in Hst, Hx.
  destruct (cycle s1 l1) as [[s2 l2]| |] eqn:C2; [|discriminate..].
  destruct (misprediction_squashes mispredicting any_locals s1 l1 s2 l2 0x102C
              (start_execute 0x1004 zero_m) [])
    as (_ & Ht & He & _); [|done|reflexivity|done|exact C1|exact Hst|exact C2|].
  - by constructor.
  - exists s1, l1, s2, l2. split; [reflexivity|]. split; [exact C2|].
    split; [exact Hx|]. split; [exact Ht|exact He].
Defined.

(** An addition in decode while fetch misses in the TLB. *)
Definition repeat_d : stage_reg_d := mkD 0x1000 0x1004 (addi 7 7 1) 1 0 0.
Definition repeat_sim : sim := set_stage_regs repeat_d zero_x zero_m zero_w cold_sim.
Definition repeat_locals : locals := mkLocals 0 repeat_d zero_x zero_m zero_w.

Lemma repeat_stalls :
  match cycle repeat_sim repeat_locals with
  | Ok (s, _) => will_be_stalled (cur_d s) =? 2
  | _ => false
  end = true.
Proof. vm_compute. reflexivity. Qed.

Lemma fetch_tlb_stall_repeats_witness :
  ∃ s1 l1, cycle repeat_sim repeat_locals = Ok (s1, l1) ∧
    d_instruction (cur_d s1) = addi 7 7 1 ∧ d_not_stalled (cur_d s1) = 1.
Proof.
  pose proof repeat_stalls as Hb.
  destruct (cycle repeat_sim repeat_locals) as [[s1 l1]| |] eqn:E; [|discriminate..].
  apply Z.eqb_eq in Hb. exists s1, l1. split; [reflexivity|].
  destruct (fetch_tlb_stall_repeats _ _ s1 l1 zero_x E eq_refl Hb) as (Hi & Hn & _).
  split; [exact Hi|exact Hn].
Defined.

(** A breakpoint at address 0. *)
Definition break_sim : sim :=
  set_msys (mkMem (mem_set ∅ 0 [0x73; 0; 0x10; 0]) 4096 0 0 7 0 0 0 0 (replicate 4 no_pending) 0 0)
    (set_pc 0 (boot 0 0)).

Lemma ebreak_halts_witness :
  ∃ l', simulator_execute_instructions 1000 break_sim any_locals = Ok (break_sim, l').
Proof.
  apply (ebreak_halts 1000 break_sim any_locals); [done|done|done|reflexivity].
Defined.

(** ** Commands *)

(** A second line with a bad byte. *)
Lemma load_hex_spec_witness :
  let input := codes "000400 01 ff" ++ [newline] ++ codes "000420 100" ++ [newline]
               ++ codes "9" in
  ∃ m', load_hex 0x10 input (demo_mem 0) = Ok (false, codes "9", [Bad_byte 2], m') ∧
        m' = line_loaded 0x10 (demo_mem 0) (codes "000400 01 ff" ++ [newline]).
Proof.
  intros input. destruct (load_hex_spec 0x10 input (demo_mem 0)) as (_ & r & E & Hl).
  - by apply demo_mem_wf.
  - unfold memory_size. lia.
  - rewrite E. change (file_lines input) with
      [codes "000400 01 ff" ++ [newline]; codes "000420 100" ++ [newline]; codes "9"] in Hl.
    inversion Hl as [Hall|k line e Hk Hp Hall].
    + inversion Hall as [|? ? _ Hall1]. inversion Hall1 as [|? ? Hbad _]. discriminate Hbad.
    + destruct k as [|[|k]].
      * injection Hk as <-. discriminate Hp.
      * injection Hk as <-. injection Hp as <-. eexists. split; reflexivity.
      * inversion Hall as [|? ? _ Hall1]. inversion Hall1 as [|? ? Hbad _]. discriminate Hbad.
Defined.

Definition demo_world : world :=
  mkWorld (set_msys (demo_mem 0) (boot 0 0)) ∅ [] [] [] [] (replicate 4096 0).

(** 20 bytes, in two lines, loaded into a memory of zeros. *)
Lemma dump_load_roundtrip_witness :
  ∃ w1, dump_data_to_file (λ _, true) (Some (codes "f")) true 0xFA 20 demo_world = Ok (true, w1) ∧
    let w2 := mkWorld (set_msys (set_mem ∅ (demo_mem 0)) (boot 0 0)) (files w1) [] [] [] [] [] in
    ∃ w3, load_data_from_file (Some (codes "f")) true 0 7 w2 = Ok (true, w3) ∧
      byte_at (riscv_mem (msys (machine w3))) 0x104 = 5 ∧
      byte_at (riscv_mem (msys (machine w3))) 0x200 = 0.
Proof.
  assert (mem_wf (msys (machine demo_world))) as Hwf by by apply demo_mem_wf.
  pose proof (λ w2, dump_load_roundtrip (λ _, true) (codes "f") 0xFA 20 demo_world w2 7
                      Hwf eq_refl eq_refl ltac:(done) ltac:(done) ltac:(done)) as H.
  destruct (H demo_world) as (w1 & E1 & _). exists w1. split; [exact E1|]. intros w2.
  destruct (H w2) as (w1' & E1' & _ & Hl). rewrite E1 in E1'. injection E1' as <-.
  destruct (Hl eq_refl eq_refl) as (w3 & E3 & Hb). exists w3. split; [exact E3|].
  rewrite !Hb. split; reflexivity.
Defined.

Lemma writereg_readreg_witness :
  ∃ w1, execute_line (λ _, true) any_locals 0 (codes "writereg 5 77" ++ [newline]) demo_world
        = Ok (true, w1) ∧
    execute_line (λ _, true) any_locals 0 (codes "readreg 5" ++ [newline]) w1
    = Ok (true, put_stdout (codes "R5 = 77" ++ [newline]) w1).
Proof.
  destruct (writereg_readreg (λ _, true) any_locals any_locals 0 0 5 77 demo_world)
    as (w1 & E1 & _ & _ & E2).
  - apply initial_registers_wf.
  - lia.
  - lia.
  - exists w1. split; [exact E1|exact E2].
Defined.

(** A read latency of 3, a command and the end of the input. *)
Lemma session_keeps_invariant_witness :
  sat (λ o, ∃ w, o = Some w ∧ world_wf w)
    (main (λ _, true) (λ _, (any_locals, 0)) [Arg_r (codes "3")] ∅
       (codes "run 5" ++ [newline] ++ codes "getcycles" ++ [newline])).
Proof.
  apply (session_keeps_invariant (λ _, true) (λ _, (any_locals, 0))).
  - intros _. exact any_locals_wf.
  - apply map_Forall_empty.
  - repeat (constructor; [done|]). constructor.
Defined.
